(* ===== verification/_CoqProject ===== *)
-Q . S2P
Prelude.v
GoStrings.v
GoPath.v
JobID.v
Bosh.v
Specs.v
Json.v
SpecJson.v
Sys.v
Config.v
Seccomp.v
SpecBuilder.v
Mounts.v
SafeIO.v
Sha256.v
Locks.v
Host.v
Cgroups.v
Adapter.v
OCI.v
Client.v
Containers.v
Lifecycle.v
Tabwriter.v
Presenters.v
Cobra.v
Commands.v
Bytefmt.v
YamlScalar.v
Yaml.v
YamlConfig.v
YamlParser.v
CommandLine.v
Program.v
Liveness.v
Concurrent.v
Inspect.v
Listing.v
Reports.v
Sandbox.v
