(* ===== verification/Prelude.v ===== *)
(** * bpm: a verification library for the BOSH process manager

    bpm (the Go program under src/bpm) runs the processes of BOSH jobs in
    containers: [bpm start JOB -p PROCESS] reads the job's [bpm.yml], prepares
    directories and log files on the host, builds an OCI container specification
    and has runc run it; [bpm stop] signals the container, waits, and removes it;
    [bpm run], [list], [pid], [shell], [trace] and [logs] are variations of these.
    Every invocation is one process; invocations coordinate through lock files.

    This library models the whole of the program's own Go code, with the file
    paths below relative to src/bpm, and proves what makes it correct.

    ** How the code is modelled

    - A pure Go function is a Rocq function.  [(T, error)] is [result T], an
      [error] alone is [option error], a nil pointer is [None]; a function that
      can panic returns an [outcome].  Nothing recovers, so a panic ends the process;
      where a function defers calls with effects, [deferring] runs them on return and on
      panic.  Strings are byte strings, [int] values are
      in Z with the conversions of the source written out ([uint32],
      [int64_of_uint64]).  Go leaves the iteration order of maps and the order of
      equal elements in [sort.Slice] open: these are the classes [MapRange] and
      [SortSlice], and theorems hold for every instance.
    - A function with effects is a [prog] (file Sys): a tree of calls to the
      operating system, runc or third-party packages, with what it does for every
      possible answer.  [exec_trace p tr f] says that [p] can perform the calls
      [tr] (with their answers) and end with [f]; theorems about all traces make
      no assumption on the environment.  [run h p w] executes [p] against a
      handler; the classes [FlockKernel], [ProcKernel], [RuncHost], [WorkingHost],
      [PreparableHost] and [TickBudget] state, as laws of a handler, what flock(2), a
      shared kernel, runc, a runc that does not fail, a file system that lets bpm make and
      open what the process needs (whether it was there or not) and the clock are
      documented to do, and each has an instance.  [wp], [wins] and [all_calls] reason about all calls a program
      may make.
    - The parts of the Go library and of vendored packages that the program's
      behaviour depends on are modelled: strings, strconv, path/filepath,
      encoding/json, crypto/sha256, text/tabwriter, bufio.Scanner, bytefmt, cobra's
      command lookup, flag parsing and order of hooks, and yaml.v3 from the events of
      a document to a configuration.  What libyaml finds in a text, time.Parse, the
      rendering of error values as text, and the help and completion output of
      cobra are parameters.  Writing to standard output can fail: an error is returned
      or ignored where the code does so.

    ** Files

    - Prelude: errors, results, machine integers, the classes above, tactics.
    - GoStrings, GoPath: the parts of strings, strconv, encoding/hex and
      path/filepath the program uses, with canonical absolute paths.
    - JobID: jobid/encoding.go.  Bosh: bosh/env.go, bosh/paths.go.
    - Specs: the records of the OCI specification, models/models.go, signals and
      container states of runc/client/client.go, records of os and os/exec.
    - Json: encoding/json, values, printer and parser.  SpecJson: how the
      specification is written as JSON and read back.
    - Sys: programs, deferred calls, traces, execution, open descriptors, [wp],
      [all_calls].
    - Config: config/bpm_config.go, config/job_config.go.
    - Seccomp, SpecBuilder: runc/specbuilder.  Mounts: runc/adapter/mount.go.
    - SafeIO: safeio.  Sha256: crypto/sha256.  Locks: flock, hostlock.
      Host: sharedvolume, usertools, sysfeat.  Cgroups: cgroups.
    - Adapter: runc/adapter/adapter.go ([CreateJobPrerequisites], [BuildSpec]).
      OCI: what the runtime specification requires of a specification.
    - Client: runc/client/client.go, every operation down to the command line.
    - Containers: the abstract state of the host's containers, the contract
      [RuncHost] of the runc binary, and a simulated host that fulfils it.
    - Lifecycle: runc/lifecycle/lifecycle.go; its interfaces are records of
      operations, and its operations are verified against the contracts
      [ContainerService], [QuietSetup] and [QuietRemoval].
    - Tabwriter: text/tabwriter.  Presenters: presenters, exitstatus.
    - Cobra: the flags, arguments and commands of cobra and pflag.  Commands:
      commands, the hooks of every command.  Bytefmt: the package bytefmt, and
      memory limits.  CommandLine: the command tree and cmd/bpm/main.go.
    - YamlScalar: resolve.go of yaml.v3, what a scalar stands for.  Yaml: decode.go of
      yaml.v3, with the types, struct tags and zero values of config/job_config.go.
      YamlConfig: which trees write which configuration, and panics.  YamlParser: the
      nodes from the events of libyaml, and [yaml.Unmarshal] as a whole.
    - Program: the assembled program fulfils the contracts, and the properties of
      the commands.  Liveness: commands that succeed on a working host.
      Concurrent: any number of invocations at once.  Inspect: the commands that
      change nothing.  Listing: what [bpm list] prints.  Reports: what [bpm pid], [shell],
      [trace] and [logs] do.
    - Sandbox: integration/sandbox/sandbox.go, the layout the integration tests
      give bpm.

    ** What the theorems show

    - Confinement (Adapter, OCI, Mounts): the specification of an
      unprivileged process keeps every protection, mounts are nosuid, nodev and
      writable only where allowed, volumes cannot shadow system or bpm directories;
      privileged specifications; limits and environment; specifications are well
      formed; the mount list has parents
      first whatever the map order; the element-wise path comparisons equal prefix
      tests.
    - Containers (Program, Lifecycle, Liveness): [bpm start] and [bpm stop] refine
      adding and removing one container of the abstract state and leave the others
      alone; on a working host they succeed; [bpm run] leaves nothing behind; the
      stop protocol and its termination; reported states; exit statuses.
    - Inspection (Inspect, Listing, Reports, Presenters): [bpm list], [pid], [shell],
      [trace] and [logs] only look; [bpm list] prints one table, a line for every declared
      process with what runc says of it, and when it panics instead; [pid], [shell] and
      [trace] act on exactly the process runc reports for the job and process named, and
      fail when there is none; [logs] shows exactly the files its options select; signals
      are handed on.
    - Locking (Locks, Program, Concurrent): kernel locks give mutual exclusion, the
      commands do everything under the lock of their process, so that commands on
      one process are serialised in every interleaving; which processes share a lock.
    - Documents and command lines (SpecJson, Client, CommandLine): what
      [CreateBundle] writes decodes to the specification (if its strings are UTF-8), what
      runc lists is read back, the ways to write a command line (grouped letters and the
      terminator [--] included) are parsed to the command they mean.
    - The meaning of bpm.yml (YamlConfig, YamlParser): a document that writes a
      configuration decodes to it; decoding returns unless a merge key is involved.
    - Host (Adapter, SafeIO, Host, Cgroups, Bytefmt): preparation touches only what
      the configuration names, log files are opened safely and never leaked by
      [createLogFiles], shared mounts are rolled
      back, every cgroup hierarchy is mounted in the grouping of bpm's own cgroup, the scope names given to systemd, user
      IDs, memory limits in bytes.
    - Names and configuration (JobID, Config): identifiers round-trip and are
      injective, validation accepts exactly the valid configurations, the
      command-line notation of volumes and variables.
    - Where the code does not do what it means to, the theorem says what it does:
      the panic of [Decode], the nil dereferences of [JobConfig.Validate],
      [StopProcess] and [RunContainer], the exit status 0 of a failed [bpm run],
      the swallowed error of [MakeShared], the root check, the log files
      [setupProcess] leaves open, the bundle document that is not truncated, the
      memory limits that turn negative, the scope prefix shared under nested slices,
      the panic of the YAML decoder.

    ** Bounds

    The polling loop of [StopProcess] and the loops that forward signals to a
    child run on fuel, since how often the ticker fires is up to the clock.
    [stop_process_protocol] says that running out means the ticker fired that
    often; [stop_process_terminates] that a bound on the ticks before the timer
    fires, plus one, is enough (16 for the default timeout of 15 s and a tick per
    second).  Loops over the bytes of a string or over the cells of a table run on
    its length, which bounds them ([format_fuel_enough] for tables).  The YAML parser
    runs on the number of events, each of which it consumes once; that it is enough for
    every document is part of [decode_panics_only_on_merge].  An alias is expanded as
    often as there are aliases, which is enough since none is expanded inside itself.
    Nothing else is bounded.

    ** What is not modelled

    Log lines (package lager); how libseccomp enforces a profile; signals that arrive
    while one waits in the channel of [logs] and [trace]; the texts of usage, help and completions; the scanner
    and parser of libyaml, from the text of a document to its events; the integers that
    floating-point numbers out of range convert to, in bytefmt and in the YAML decoder
    (Go leaves the conversion open, so they are parameters); the text of error
    messages beyond format and arguments; the test server under acceptance/fixtures,
    tools and the packaging of the BOSH release. *)

From stdpp Require Export base list strings gmap sorting.
From Stdlib Require Export ZArith Lia.

(** ** Scope of the Go-level notations *)

Declare Scope go_scope.
Delimit Scope go_scope with go.
Open Scope go_scope.

(** ** Errors

    Go's [error] values.  Only what the program can observe of an error is
    kept: its constructor (the dynamic type a type switch or [os.IsNotExist]
    looks at), the errno of a system call, the chain that [errors.Is] follows,
    and the format and arguments of the message.  An [*exec.ExitError] is an
    [ExitError] or, for a child killed by a signal, a [SignalExit]; a
    [*exitstatus.Error] is a [StatusError].  Package-level error variables
    are compared by identity in Go, so each is a [Sentinel] with its qualified
    name; an error made on the spot by [errors.New] is a [NewError]. *)
Inductive errno : Type :=
| ENOENT
| ELOOP
| EBUSY
| EOTHER (code : Z).

Inductive error : Type :=
| NewError (msg : string)
| Sentinel (name : string)
| SysError (op path : string) (code : errno)
| Errorf (format : string) (args : list string)
| ErrorfErr (format : string) (args : list string) (err : error)
| Wrapf (format : string) (args : list string) (err : error)
| ExitError (code : Z)
| SignalExit (sig : string)
| StatusError (status : Z) (err : error).

#[export] Instance errno_eq_dec : EqDecision errno.
Proof. solve_decision. Defined.

#[export] Instance error_eq_dec : EqDecision error.
Proof. solve_decision. Defined.

(** A Go result pair [(T, error)]: the value when [err == nil]. *)
Inductive result (A : Type) : Type :=
| Ok (a : A)
| Err (e : error).
Arguments Ok {A} a.
Arguments Err {A} e.

(** What a call of a Go function can do besides returning. *)
Inductive panic : Type :=
| SliceBounds
| IndexOutOfRange
| NilDereference
| NilMapWrite
| PanicMsg (msg : string).

#[export] Instance panic_eq_dec : EqDecision panic.
Proof. solve_decision. Defined.

Inductive outcome (A : Type) : Type :=
| Val (a : A)
| Panics (p : panic).
Arguments Val {A} a.
Arguments Panics {A} p.

#[export] Instance result_eq_dec `{EqDecision A} : EqDecision (result A).
Proof. solve_decision. Defined.

#[export] Instance outcome_eq_dec `{EqDecision A} : EqDecision (outcome A).
Proof. solve_decision. Defined.

Definition is_ok {A} (r : result A) : bool :=
  match r with Ok _ => true | Err _ => false end.

Definition result_bind {A B} (r : result A) (k : A → result B) : result B :=
  match r with Ok a => k a | Err e => Err e end.

Definition outcome_bind {A B} (o : outcome A) (k : A → outcome B) : outcome B :=
  match o with Val a => k a | Panics p => Panics p end.

Notation "x ←? r ; k" := (result_bind r (λ x, k))
  (at level 20, r at level 100, k at level 200, only parsing) : go_scope.
Notation "x ←! o ; k" := (outcome_bind o (λ x, k))
  (at level 20, o at level 100, k at level 200, only parsing) : go_scope.

(** Errors other than this program's package-level variables: what the system,
    other programs and the standard library return. *)
Definition foreign (e : error) : Prop :=
  match e with Sentinel _ => False | _ => True end.

(** [os.IsNotExist]: looks through the system-call error types only, never
    through [fmt.Errorf] wrappers. *)
Definition os_IsNotExist (e : error) : bool :=
  match e with SysError _ _ ENOENT => true | _ => false end.

(** [errors.Is(err, code)] for an errno target: follows [%w] wrappers. *)
Fixpoint errors_Is (e : error) (code : errno) : bool :=
  match e with
  | SysError _ _ c => bool_decide (c = code)
  | Wrapf _ _ e' => errors_Is e' code
  | _ => false
  end.

(** ** Machine integers *)

Definition two32 : Z := 2 ^ 32.
Definition two64 : Z := 2 ^ 64.

(** [uint32(x)]: conversion to an unsigned 32-bit integer wraps around. *)
Definition uint32 (x : Z) : Z := x mod two32.

(** [int64(x)] of a [uint64]: two's complement reinterpretation. *)
Definition int64_of_uint64 (x : Z) : Z :=
  if decide (x < 2 ^ 63)%Z then x else (x - two64)%Z.

(** ** Interfaces of the Go runtime *)

(** A [for k, v := range m] loop over a Go map visits every entry exactly once,
    in an order the language leaves unspecified. *)
Class MapRange : Type := {
  map_range : ∀ {V : Type}, gmap string V → list (string * V);
  map_range_perm : ∀ {V : Type} (m : gmap string V),
    map_range m ≡ₚ map_to_list m
}.

(** [sort.Slice(s, less)] for a [less] that compares a natural-number key:
    the result is a permutation of the slice in which the keys never decrease;
    the order of entries with equal keys is unspecified. *)
Class SortSlice : Type := {
  sort_slice : ∀ {A : Type}, (A → nat) → list A → list A;
  sort_slice_perm : ∀ {A : Type} (key : A → nat) (l : list A),
    sort_slice key l ≡ₚ l;
  sort_slice_sorted : ∀ {A : Type} (key : A → nat) (l : list A),
    StronglySorted (λ a b, key a ≤ key b) (sort_slice key l)
}.

(** ** Automation *)

Create HintDb bpm.

(** Case analysis on the discriminee of a [match] or [if] of the goal or of a
    hypothesis, keeping the equation. *)
Ltac case_step :=
  match goal with
  | |- context [match ?x with _ => _ end] => destruct x eqn:?
  | H : context [match ?x with _ => _ end] |- _ => destruct x eqn:?
  end.

(** Runs through every branch of a definition's decision tree and closes the
    branches that simplification refutes. *)
Ltac cases_all := repeat (case_step; simplify_eq/=).

Tactic Notation "inv" hyp(H) := inversion H; subst; clear H.

(** ** Generic lemmas *)

Lemma result_bind_Ok {A B} (r : result A) (k : A → result B) b :
  result_bind r k = Ok b ↔ ∃ a, r = Ok a ∧ k a = Ok b.
Proof. destruct r; naive_solver. Qed.

Lemma Forall_filter_id {A} (P : A → Prop) `{∀ x, Decision (P x)} (l : list A) :
  Forall P l → filter P l = l.
Proof.
  induction 1; [done|]. rewrite filter_cons_True by done. by f_equal.
Qed.

Lemma int64_of_uint64_small x : (x < 2 ^ 63)%Z → int64_of_uint64 x = x.
Proof. unfold int64_of_uint64. intros. by rewrite decide_True. Qed.

Lemma uint32_small x : (0 ≤ x < two32)%Z → uint32 x = x.
Proof. unfold uint32. intros. by apply Z.mod_small. Qed.

(** The canonical instances: iteration in [map_to_list] order, insertion sort. *)
Definition map_range_list : MapRange := {|
  map_range V m := map_to_list m;
  map_range_perm V m := reflexivity _
|}.

Section insertion_sort.
Context {A : Type} (key : A → nat).

#[local] Instance key_le_dec : RelDecision (λ a b : A, key a ≤ key b).
Proof. intros a b. simpl. apply _. Defined.
#[local] Instance key_le_total : Total (λ a b : A, key a ≤ key b).
Proof. intros a b. lia. Qed.
#[local] Instance key_le_trans : Transitive (λ a b : A, key a ≤ key b).
Proof. intros a b c; simpl. lia. Qed.

Definition key_sort (l : list A) : list A :=
  merge_sort (λ a b, key a ≤ key b) l.

Lemma key_sort_perm l : key_sort l ≡ₚ l.
Proof. apply merge_sort_Permutation. Qed.

Lemma key_sort_sorted l : StronglySorted (λ a b, key a ≤ key b) (key_sort l).
Proof. apply StronglySorted_merge_sort; apply _. Qed.
End insertion_sort.

Definition sort_slice_merge : SortSlice := {|
  sort_slice A key l := key_sort key l;
  sort_slice_perm A key l := key_sort_perm key l;
  sort_slice_sorted A key l := key_sort_sorted key l
|}.
