(* ===== verification/GoStrings.v ===== *)
(** * Go's strings, strconv and encoding/hex, as far as bpm uses them

    A Go string is a sequence of bytes: Rocq's [string], whose characters are
    the 256 values of [ascii].  This file defines the functions of the Go
    standard library the program calls on strings, on bytes and on decimal and
    hexadecimal numerals, and proves the facts about them that the components
    share. *)

From S2P Require Import Prelude.
From Stdlib Require Import Ascii.

(** ** Bytes *)

Definition byte_val (c : ascii) : nat := nat_of_ascii c.
Definition byte_of (n : nat) : ascii := ascii_of_nat n.

Definition in_range (lo hi c : ascii) : bool :=
  (byte_val lo <=? byte_val c) && (byte_val c <=? byte_val hi).

(** ** strings.* on single-byte separators *)

(** [strings.IndexByte(s, c)]: -1 is [None]. *)
Fixpoint IndexByte (s : string) (c : ascii) : option nat :=
  match s with
  | EmptyString => None
  | String d s' => if Ascii.eqb d c then Some 0 else S <$> IndexByte s' c
  end.

Fixpoint HasPrefix (s prefix : string) : bool :=
  match prefix, s with
  | EmptyString, _ => true
  | String p prefix', String c s' => Ascii.eqb p c && HasPrefix s' prefix'
  | String _ _, EmptyString => false
  end.

Fixpoint drop (n : nat) (s : string) : string :=
  match n, s with
  | S n', String _ s' => drop n' s'
  | _, _ => s
  end.

Fixpoint str_rev_append (s acc : string) : string :=
  match s with
  | EmptyString => acc
  | String c s' => str_rev_append s' (String c acc)
  end.
Definition str_rev (s : string) : string := str_rev_append s "".

(** [strings.HasSuffix]. *)
Definition HasSuffix (s suffix : string) : bool :=
  HasPrefix (str_rev s) (str_rev suffix).

(** [strings.TrimPrefix]. *)
Definition TrimPrefix (s prefix : string) : string :=
  if HasPrefix s prefix then drop (String.length prefix) s else s.

(** [strings.TrimLeft(s, cutset)] and [strings.TrimRight] for byte cutsets. *)
Fixpoint TrimLeft (s : string) (cut : ascii → bool) : string :=
  match s with
  | EmptyString => EmptyString
  | String c s' => if cut c then TrimLeft s' cut else s
  end.
Definition TrimRight (s : string) (cut : ascii → bool) : string :=
  str_rev (TrimLeft (str_rev s) cut).

(** [strings.Contains]. *)
Fixpoint Contains (s sub : string) : bool :=
  HasPrefix s sub ||
  match s with
  | EmptyString => false
  | String _ s' => Contains s' sub
  end.

(** [strings.Split(s, sep)] for a one-byte separator: never empty. *)
Fixpoint Split (sep : ascii) (s : string) : list string :=
  match s with
  | EmptyString => [""]
  | String c s' =>
      if Ascii.eqb c sep then "" :: Split sep s'
      else match Split sep s' with
           | [] => [String c ""]
           | p :: ps => String c p :: ps
           end
  end.

(** [strings.SplitN(s, sep, 2)]: the part before the first separator and, if
    there is one, everything after it. *)
Fixpoint Cut (sep : ascii) (s : string) : string * option string :=
  match s with
  | EmptyString => ("", None)
  | String c s' =>
      if Ascii.eqb c sep then ("", Some s')
      else let '(p, rest) := Cut sep s' in (String c p, rest)
  end.

(** [strings.Join(l, sep)]. *)
Fixpoint Join (sep : string) (l : list string) : string :=
  match l with
  | [] => ""
  | [s] => s
  | s :: l' => s +:+ sep +:+ Join sep l'
  end.

(** [slices.Contains(l, s)]. *)
Definition slices_Contains (l : list string) (s : string) : bool :=
  existsb (String.eqb s) l.

(** The strings ["\t"] and ["\n"] of the source. *)
Definition tab : string := String "009"%char "".
Definition newline : string := String "010"%char "".

(** ** Hexadecimal *)

Definition hex_digit (n : nat) : ascii :=
  match String.get n "0123456789abcdef" with
  | Some c => c
  | None => "0"%char
  end.

(** The digits [fmt] prints for a byte with verb [%.2x] (and, byte by byte,
    for a byte slice with verb [%x]). *)
Definition hex2 (c : ascii) : string :=
  String (hex_digit (byte_val c / 16)) (String (hex_digit (byte_val c mod 16)) "").

Fixpoint hex_string (s : string) : string :=
  match s with
  | EmptyString => ""
  | String c s' => hex2 c +:+ hex_string s'
  end.

Definition hex_val (c : ascii) : option nat :=
  if in_range "0" "9" c then Some (byte_val c - byte_val "0"%char)
  else if in_range "a" "f" c then Some (byte_val c - byte_val "a"%char + 10)
  else if in_range "A" "F" c then Some (byte_val c - byte_val "A"%char + 10)
  else None.

(** [hex.DecodeString]: two digits per byte; an odd length or a character that
    is no digit is an error ([None]). *)
Fixpoint hex_DecodeString (s : string) : option string :=
  match s with
  | EmptyString => Some ""
  | String _ EmptyString => None
  | String h (String l s') =>
      match hex_val h, hex_val l with
      | Some a, Some b => String (byte_of (16 * a + b)) <$> hex_DecodeString s'
      | _, _ => None
      end
  end.

(** ** UTF-8 *)

(** [for _, c := range s] decodes UTF-8: the bytes after the first of the rune
    that starts with byte [b], or none when the encoding is not valid (an
    invalid byte is one rune). *)
Definition cont_byte (lo hi : nat) (c : ascii) : bool :=
  (lo <=? byte_val c) && (byte_val c <=? hi).

Definition rest_two (lo hi : nat) (s : string) : string :=
  match s with String c1 r => if cont_byte lo hi c1 then r else s | _ => s end.
Definition rest_three (lo hi : nat) (s : string) : string :=
  match s with
  | String c1 (String c2 r) => if cont_byte lo hi c1 && cont_byte 128 191 c2 then r else s
  | _ => s
  end.
Definition rest_four (lo hi : nat) (s : string) : string :=
  match s with
  | String c1 (String c2 (String c3 r)) =>
      if cont_byte lo hi c1 && cont_byte 128 191 c2 && cont_byte 128 191 c3 then r else s
  | _ => s
  end.

Definition rune_rest (b : ascii) (s : string) : string :=
  let v := byte_val b in
  if (194 <=? v) && (v <=? 223) then rest_two 128 191 s
  else if v =? 224 then rest_three 160 191 s
  else if v =? 237 then rest_three 128 159 s
  else if (225 <=? v) && (v <=? 239) then rest_three 128 191 s
  else if v =? 240 then rest_four 144 191 s
  else if (241 <=? v) && (v <=? 243) then rest_four 128 191 s
  else if v =? 244 then rest_four 128 143 s
  else s.

(** [utf8.ValidString]. *)
Fixpoint utf8_loop (fuel : nat) (s : string) : bool :=
  match fuel, s with
  | _, EmptyString => true
  | O, _ => false
  | S fuel', String c r =>
      if byte_val c <? 128 then utf8_loop fuel' r
      else negb (String.length (rune_rest c r) =? String.length r) && utf8_loop fuel' (rune_rest c r)
  end.
Definition utf8_valid (s : string) : bool := utf8_loop (String.length s) s.

(** ** Decimal: [strconv.Itoa] and [strconv.Atoi] *)

Definition digit_char (n : Z) : ascii := byte_of (48 + Z.to_nat n).

Fixpoint itoa_loop (fuel : nat) (n : Z) (acc : string) : string :=
  match fuel with
  | O => acc
  | S fuel' =>
      let acc' := String (digit_char (n mod 10)) acc in
      if (n <? 10)%Z then acc' else itoa_loop fuel' (n / 10) acc'
  end.

(** 64-bit integers have at most 20 decimal digits. *)
Definition Itoa (n : Z) : string :=
  if (n <? 0)%Z then String "-" (itoa_loop 20 (- n) "") else itoa_loop 20 n "".

Fixpoint atoi_digits (acc : Z) (s : string) : option Z :=
  match s with
  | EmptyString => Some acc
  | String c s' =>
      if in_range "0" "9" c
      then atoi_digits (10 * acc + Z.of_nat (byte_val c - 48)) s'
      else None
  end.

(** [strconv.Atoi] on a 64-bit platform: an optional sign, at least one digit,
    and a value that fits an [int]. *)
Definition Atoi (s : string) : option Z :=
  let '(neg, ds) :=
    match s with
    | String "-" r => (true, r)
    | String "+" r => (false, r)
    | _ => (false, s)
    end in
  match ds with
  | EmptyString => None
  | _ => v ← atoi_digits 0 ds;
         let v := if neg : bool then (- v)%Z else v in
         if ((- 2 ^ 63 <=? v) && (v <? 2 ^ 63))%Z then Some v else None
  end.

(** ** Lemmas: append *)

Lemma app_nil_l (s : string) : "" +:+ s = s.
Proof. done. Qed.

Lemma app_cons c (s t : string) : String c s +:+ t = String c (s +:+ t).
Proof. done. Qed.

Lemma app_nil_r (s : string) : s +:+ "" = s.
Proof. induction s as [|c s IH]; [done|]. by rewrite app_cons, IH. Qed.

Lemma app_assoc (s t u : string) : (s +:+ t) +:+ u = s +:+ t +:+ u.
Proof. induction s as [|c s IH]; [done|]. by rewrite !app_cons, IH. Qed.

Lemma length_app_string (s t : string) :
  String.length (s +:+ t) = String.length s + String.length t.
Proof. induction s as [|c s IH]; [done|]. rewrite app_cons. simpl. by rewrite IH. Qed.

Lemma substring_app p r : String.substring 0 (String.length p) (p +:+ r) = p.
Proof. induction p as [|c p IH]; [by destruct r|]. rewrite app_cons. simpl. by rewrite IH. Qed.

(** *** Runes *)

(** A function that takes nothing off a string, or a prefix and nothing else whatever
    follows it. *)
Definition cuts (f : string → string) : Prop :=
  ∀ s, f s = s ∨ ∃ p, p ≠ "" ∧ s = p +:+ f s ∧ ∀ x, f (p +:+ x) = x.

Lemma rest_two_cuts lo hi : cuts (rest_two lo hi).
Proof.
  intros [|c1 s]; [by left|]. unfold rest_two. destruct (cont_byte lo hi c1) eqn:E1; [right|by left].
  exists (String c1 ""). split_and!; [done..|]. intros x. rewrite app_cons. by rewrite E1.
Qed.
Lemma rest_three_cuts lo hi : cuts (rest_three lo hi).
Proof.
  intros [|c1 [|c2 s]]; [by left..|]. unfold rest_three.
  destruct (cont_byte lo hi c1 && cont_byte 128 191 c2) eqn:E1; [right|by left].
  exists (String c1 (String c2 "")). split_and!; [done..|]. intros x. rewrite !app_cons. by rewrite E1.
Qed.
Lemma rest_four_cuts lo hi : cuts (rest_four lo hi).
Proof.
  intros [|c1 [|c2 [|c3 s]]]; [by left..|]. unfold rest_four.
  destruct (cont_byte lo hi c1 && cont_byte 128 191 c2 && cont_byte 128 191 c3) eqn:E1; [right|by left].
  exists (String c1 (String c2 (String c3 ""))). split_and!; [done..|]. intros x.
  rewrite !app_cons. by rewrite E1.
Qed.

(** The bytes of the rune that starts with [b], other than the first. *)
Lemma rune_rest_cuts b : cuts (rune_rest b).
Proof.
  unfold rune_rest. cbv zeta.
  repeat (match goal with |- context [if ?t then _ else _] => destruct t end);
    auto using rest_two_cuts, rest_three_cuts, rest_four_cuts. intros s. by left.
Qed.

Lemma rune_rest_length b s : String.length (rune_rest b s) ≤ String.length s.
Proof.
  destruct (rune_rest_cuts b s) as [->|(p & _ & E & _)]; [done|].
  apply (f_equal String.length) in E. rewrite length_app_string in E. lia.
Qed.

Lemma drop_app (s t : string) : drop (String.length s) (s +:+ t) = t.
Proof. induction s as [|c s IH]; [by destruct t|]. rewrite app_cons. exact IH. Qed.

Lemma app_inj_l (s t u : string) : s +:+ t = s +:+ u → t = u.
Proof. induction s as [|c s IH]; [done|]. rewrite !app_cons. naive_solver. Qed.

Create Rewrite HintDb gostr.
#[export] Hint Rewrite app_nil_l app_cons app_nil_r app_assoc drop_app : gostr.

(** ** Lemmas: prefixes *)

Lemma HasPrefix_spec s p : HasPrefix s p = true ↔ ∃ t, s = p +:+ t.
Proof.
  revert s. induction p as [|a p IH]; intros s; simpl.
  { split; [|by destruct s]. intros _. by exists s. }
  destruct s as [|b s]; simpl.
  { split; [done|]. intros [t Ht]. by rewrite app_cons in Ht. }
  rewrite andb_true_iff, IH. setoid_rewrite app_cons.
  destruct (Ascii.eqb_spec a b); naive_solver.
Qed.

Lemma HasPrefix_app p t : HasPrefix (p +:+ t) p = true.
Proof. apply HasPrefix_spec. by exists t. Qed.

(** ** Lemmas: Split and Join *)

(** [no_byte c s]: the byte [c] does not occur in [s]. *)
Fixpoint no_byte (c : ascii) (s : string) : bool :=
  match s with
  | EmptyString => true
  | String d s' => negb (Ascii.eqb d c) && no_byte c s'
  end.

Lemma no_byte_app c s t : no_byte c (s +:+ t) = no_byte c s && no_byte c t.
Proof.
  induction s as [|d s IH]; [done|]. rewrite app_cons. simpl.
  by rewrite IH, andb_assoc.
Qed.

Lemma Split_not_nil sep s : Split sep s ≠ [].
Proof. destruct s as [|c s]; simpl; [done|]. cases_all; done. Qed.

Lemma Split_no_sep sep s : no_byte sep s = true → Split sep s = [s].
Proof.
  induction s as [|c s IH]; simpl; [done|].
  rewrite andb_true_iff, negb_true_iff. intros [-> Hs]. by rewrite IH.
Qed.

Lemma Split_app sep s t :
  no_byte sep s = true → Split sep (s +:+ String sep t) = s :: Split sep t.
Proof.
  induction s as [|c s IH]; intros Hs.
  { rewrite app_nil_l. simpl. by rewrite Ascii.eqb_refl. }
  simpl in Hs. apply andb_true_iff in Hs as [Hc Hs].
  rewrite app_cons. simpl. apply negb_true_iff in Hc. by rewrite Hc, IH.
Qed.

Lemma Split_app_str sep s t :
  no_byte sep s = true → Split sep (s +:+ String sep "" +:+ t) = s :: Split sep t.
Proof. apply Split_app. Qed.

Lemma Split_app_sep sep s t :
  Split sep (s +:+ String sep t) = Split sep s ++ Split sep t.
Proof.
  induction s as [|c s IH].
  { rewrite app_nil_l. simpl. by rewrite Ascii.eqb_refl. }
  rewrite app_cons. cbn [Split]. rewrite IH.
  pose proof (Split_not_nil sep s). by destruct (Ascii.eqb c sep), (Split sep s).
Qed.

Lemma Split_Join sep l :
  l ≠ [] → Forall (λ s, no_byte sep s = true) l →
  Split sep (Join (String sep "") l) = l.
Proof.
  intros Hne HF. induction HF as [|s l Hs HF IH]; [done|].
  destruct l as [|t l]; [by apply Split_no_sep|].
  change (Split sep (s +:+ String sep "" +:+ Join (String sep "") (t :: l))
    = s :: t :: l).
  rewrite app_cons, app_nil_l, Split_app by done. by rewrite IH.
Qed.

Lemma Split_no_byte sep s : Forall (λ p, no_byte sep p = true) (Split sep s).
Proof.
  induction s as [|c s IH]; simpl; [by repeat constructor|].
  destruct (Ascii.eqb c sep) eqn:E; [by constructor|].
  destruct (Split sep s) as [|p ps]; inversion IH; subst; constructor; simpl;
    rewrite ?E; auto.
Qed.

Lemma Join_Split sep s : Join (String sep "") (Split sep s) = s.
Proof.
  induction s as [|c s IH]; simpl; [done|].
  pose proof (Split_not_nil sep s) as Hne.
  destruct (Ascii.eqb_spec c sep) as [->|Hc].
  - destruct (Split sep s) as [|p ps]; [done|].
    change ("" +:+ String sep "" +:+ Join (String sep "") (p :: ps) = String sep s).
    rewrite IH. done.
  - destruct (Split sep s) as [|p ps]; [done|].
    rewrite <- IH. by destruct ps.
Qed.

Lemma Split_inj sep s t : Split sep s = Split sep t → s = t.
Proof. intros H. by rewrite <- (Join_Split sep s), <- (Join_Split sep t), H. Qed.

(** ** Lemmas: SplitN *)

Lemma Cut_Some sep s k v :
  Cut sep s = (k, Some v) ↔ s = k +:+ String sep v ∧ no_byte sep k = true.
Proof.
  revert k. induction s as [|c s IH]; intros k; simpl.
  { split; [done|]. intros [H _]. destruct k; done. }
  destruct (Ascii.eqb_spec c sep) as [->|Hc].
  - split; [by intros [= <- <-]|]. intros [H Hk]. destruct k as [|d k].
    + rewrite app_nil_l in H. by simplify_eq.
    + rewrite app_cons in H. simplify_eq. simpl in Hk. by rewrite Ascii.eqb_refl in Hk.
  - destruct (Cut sep s) as [p rest]. split.
    + intros [= <- ->]. destruct (proj1 (IH p) eq_refl) as [-> Hp].
      rewrite app_cons. simpl. rewrite Hp. apply Ascii.eqb_neq in Hc. by rewrite Hc.
    + intros [H Hk]. destruct k as [|d k].
      { rewrite app_nil_l in H. by simplify_eq. }
      rewrite app_cons in H. simplify_eq. simpl in Hk.
      apply andb_true_iff in Hk as [_ Hk].
      assert ((p, rest) = (k, Some v)) as [= -> ->] by by apply IH. done.
Qed.

Lemma Cut_None sep s k : Cut sep s = (k, None) → k = s ∧ no_byte sep s = true.
Proof.
  revert k. induction s as [|c s IH]; intros k; simpl; [by intros [= <-]|].
  destruct (Ascii.eqb c sep) eqn:E; [done|].
  destruct (Cut sep s) as [p rest]. intros [= <- ->].
  destruct (IH p eq_refl) as [-> ->]. done.
Qed.

(** ** Lemmas: hexadecimal *)

(** Every property of a single byte is decided by checking the 256 bytes. *)
Definition all_bytes : list ascii := byte_of <$> seq 0 256.

Lemma forall_byte (P : ascii → bool) :
  forallb P all_bytes = true → ∀ c, P c = true.
Proof.
  intros H c. rewrite forallb_forall in H. apply H.
  unfold all_bytes, byte_of. apply list_elem_of_In, list_elem_of_fmap.
  exists (nat_of_ascii c). split; [by rewrite ascii_nat_embedding|].
  apply elem_of_seq. pose proof (nat_ascii_bounded c). lia.
Qed.

Lemma hex2_decode c rest :
  hex_DecodeString (hex2 c +:+ rest) = String c <$> hex_DecodeString rest.
Proof.
  unfold hex2. rewrite !app_cons, app_nil_l.
  pose (ok := λ c, bool_decide (
    hex_val (hex_digit (byte_val c / 16)) = Some (byte_val c / 16) ∧
    hex_val (hex_digit (byte_val c mod 16)) = Some (byte_val c mod 16))).
  assert (ok c = true) as H by by (apply forall_byte; vm_compute).
  apply bool_decide_eq_true in H as [H1 H2].
  change (match hex_val (hex_digit (byte_val c / 16)),
                hex_val (hex_digit (byte_val c mod 16)) with
          | Some a, Some b => String (byte_of (16 * a + b)) <$> hex_DecodeString rest
          | _, _ => None
          end = String c <$> hex_DecodeString rest).
  rewrite H1, H2, <- Nat.div_mod_eq. unfold byte_of, byte_val.
  by rewrite ascii_nat_embedding.
Qed.

Lemma hex_roundtrip s : hex_DecodeString (hex_string s) = Some s.
Proof.
  induction s as [|c s IH]; [done|].
  change (hex_DecodeString (hex2 c +:+ hex_string s) = Some (String c s)).
  by rewrite hex2_decode, IH.
Qed.

(** ** Decimal notation *)

Fixpoint all_digits (s : string) : bool :=
  match s with EmptyString => true | String c r => in_range "0" "9" c && all_digits r end.

Lemma all_digits_app s t : all_digits (s +:+ t) = all_digits s && all_digits t.
Proof. induction s as [|c s IH]; [done|]. rewrite app_cons. simpl. by rewrite IH, andb_assoc. Qed.

Lemma digit_char_val m : (0 ≤ m < 10)%Z →
  in_range "0" "9" (digit_char m) = true ∧ Z.of_nat (byte_val (digit_char m) - 48) = m
  ∧ (digit_char m = "0"%char ↔ m = 0%Z).
Proof.
  intros Hm. assert (m = 0 ∨ m = 1 ∨ m = 2 ∨ m = 3 ∨ m = 4 ∨ m = 5 ∨ m = 6 ∨ m = 7 ∨ m = 8 ∨ m = 9)%Z
    as Hcases by lia.
  by repeat destruct Hcases as [->|Hcases]; try subst m; repeat split.
Qed.

(** The digits of a number: what [itoa_loop] writes and [atoi_digits] reads. *)
Definition decimal (n : Z) (ds : string) : Prop :=
  all_digits ds = true
  ∧ (∃ c r, ds = String c r ∧ (c = "0"%char → r = ""))
  ∧ ∀ a s, atoi_digits a (ds +:+ s) = atoi_digits (a * 10 ^ Z.of_nat (String.length ds) + n) s.

Lemma decimal_digit m : (0 ≤ m < 10)%Z → decimal m (String (digit_char m) "").
Proof.
  intros Hm. destruct (digit_char_val m Hm) as (Hr & Hv & _). split_and!.
  - cbn [all_digits]. by rewrite Hr.
  - by eexists _, _.
  - intros a s. rewrite app_cons, app_nil_l. cbn [atoi_digits]. rewrite Hr, Hv.
    cbn [String.length]. change (Z.of_nat 1) with 1%Z.
    replace (10 * a + m)%Z with (a * 10 ^ 1 + m)%Z by lia. done.
Qed.

Lemma decimal_snoc n m ds :
  (0 < n)%Z → (0 ≤ m < 10)%Z → decimal n ds → (∃ c r, ds = String c r ∧ c ≠ "0"%char) →
  decimal (10 * n + m) (ds +:+ String (digit_char m) "").
Proof.
  intros Hn Hm (Hd & _ & Ha) (c & r & Hds & Hc). destruct (digit_char_val m Hm) as (Hr & Hv & _).
  split_and!.
  - rewrite all_digits_app, Hd. cbn [all_digits]. by rewrite Hr.
  - exists c, (r +:+ String (digit_char m) ""). by rewrite Hds, app_cons.
  - intros a s. rewrite app_assoc, Ha, app_cons, app_nil_l. cbn [atoi_digits]. rewrite Hr, Hv.
    rewrite length_app_string. cbn [String.length].
    rewrite Nat2Z.inj_add, Z.pow_add_r by lia. change (Z.of_nat 1) with 1%Z.
    set (k := (10 ^ Z.of_nat (String.length ds))%Z).
    replace (10 * (a * k + n) + m)%Z with (a * (k * 10 ^ 1) + (10 * n + m))%Z by lia. done.
Qed.

Lemma itoa_loop_decimal fuel n acc :
  (0 ≤ n < 10 ^ Z.of_nat fuel)%Z → 0 < fuel →
  ∃ ds, itoa_loop fuel n acc = ds +:+ acc ∧ decimal n ds
    ∧ ((0 < n)%Z → ∃ c r, ds = String c r ∧ c ≠ "0"%char).
Proof.
  revert n acc. induction fuel as [|fuel IH]; intros n acc Hn Hf; [lia|]. cbn [itoa_loop].
  assert (0 ≤ n mod 10 < 10)%Z as Hm by (apply Z.mod_pos_bound; lia).
  destruct (Z.ltb_spec n 10) as [Hlt|Hge].
  - exists (String (digit_char (n mod 10)) ""). rewrite Z.mod_small by lia.
    split; [by rewrite app_cons, app_nil_l|]. split; [by apply decimal_digit; lia|].
    intros Hpos. exists (digit_char n), "". split; [done|].
    intros Hz. apply (digit_char_val n) in Hz; lia.
  - assert (0 ≤ n / 10 < 10 ^ Z.of_nat fuel)%Z as Hdiv.
    { split; [apply Z.div_pos; lia|]. apply Z.div_lt_upper_bound; [lia|].
      rewrite Nat2Z.inj_succ, Z.pow_succ_r in Hn by lia. lia. }
    assert (0 < n / 10)%Z as Hpos by (apply Z.div_str_pos; lia).
    destruct fuel as [|fuel]; [simpl in Hdiv; lia|].
    destruct (IH (n / 10)%Z (String (digit_char (n mod 10)) acc) Hdiv ltac:(lia))
      as (ds & -> & Hd & Hc). exists (ds +:+ String (digit_char (n mod 10)) "").
    split; [by rewrite app_assoc, app_cons, app_nil_l|]. split.
    + rewrite (Z.div_mod n 10) at 1 by lia. apply decimal_snoc; auto.
    + intros _. destruct (Hc Hpos) as (c & r & -> & Hne). exists c, (r +:+ String (digit_char (n mod 10)) "").
      by rewrite app_cons.
Qed.

Lemma Itoa_decimal n : (0 ≤ n < 10 ^ 20)%Z → decimal n (Itoa n).
Proof.
  intros Hn. unfold Itoa. destruct (Z.ltb_spec n 0); [lia|].
  destruct (itoa_loop_decimal 20 n "" Hn ltac:(lia)) as (ds & -> & Hd & _). by rewrite app_nil_r.
Qed.

Lemma Itoa_negative n : (- 10 ^ 20 < n < 0)%Z → ∃ ds, Itoa n = String "-" ds ∧ decimal (- n) ds.
Proof.
  intros Hn. unfold Itoa. destruct (Z.ltb_spec n 0); [|lia].
  destruct (itoa_loop_decimal 20 (- n) "" ltac:(lia) ltac:(lia)) as (ds & -> & Hd & _).
  rewrite app_nil_r. eauto.
Qed.

Lemma atoi_decimal n ds : decimal n ds → atoi_digits 0 ds = Some n.
Proof. intros (_ & _ & Ha). specialize (Ha 0%Z ""). by rewrite app_nil_r in Ha. Qed.

Lemma Atoi_Itoa n : (- 2 ^ 63 ≤ n < 2 ^ 63)%Z → Atoi (Itoa n) = Some n.
Proof.
  intros Hn. destruct (Z.ltb_spec n 0) as [Hneg|Hpos].
  - destruct (Itoa_negative n) as (ds & -> & Hd); [lia|]. unfold Atoi.
    pose proof Hd as (_ & (c & r & -> & _) & _). rewrite (atoi_decimal _ _ Hd). simpl.
    rewrite Z.opp_involutive. assert ((- 2 ^ 63 <=? n) && (n <? 2 ^ 63) = true)%Z as ->; [|done].
    lia.
  - pose proof (Itoa_decimal n ltac:(lia)) as Hd. unfold Atoi.
    pose proof Hd as (Hall & (c & r & Heq & _) & _). rewrite Heq in Hall |- *. simpl in Hall.
    assert (match String c r with
      | String "-" r => (true, r) | String "+" r => (false, r) | _ => (false, String c r)
      end = (false, String c r)) as ->.
    { apply andb_true_iff in Hall as [Hc _]. by destruct c as [[] [] [] [] [] [] [] []]. }
    pose proof (atoi_decimal _ _ Hd) as Hv. rewrite Heq in Hv. rewrite Hv. simpl.
    assert ((- 2 ^ 63 <=? n) && (n <? 2 ^ 63) = true)%Z as ->; [|done]. lia.
Qed.
