(* ===== verification/GoPath.v ===== *)
(** * Go's path/filepath on Unix, as far as bpm uses it

    [Clean], [filepath.Join] and [Dir] work lexically.  They are defined here on
    the elements of a path (the parts between slashes), following the four rules
    of the documentation of [filepath.Clean].  The lemmas characterise the
    canonical absolute paths (the rooted fixed points of [Clean]): a slash
    followed by elements none of which is empty, [.] or [..]. *)

From S2P Require Import Prelude GoStrings.
From Stdlib Require Import Ascii.

Definition slash : ascii := "/".

Definition rooted (p : string) : bool :=
  match p with
  | String c _ => Ascii.eqb c slash
  | EmptyString => false
  end.

(** One element of the path, with the elements kept so far (last first). *)
Definition clean_step (isrooted : bool) (stack : list string) (e : string)
    : list string :=
  if decide (e = "" ∨ e = ".") then stack
  else if decide (e = "..") then
    match stack with
    | [] => if isrooted then [] else [".."]
    | top :: stack' => if decide (top = "..") then ".." :: stack else stack'
    end
  else e :: stack.

Definition clean_stack (isrooted : bool) (es : list string) : list string :=
  foldl (clean_step isrooted) [] es.

(** [filepath.Clean]. *)
Definition Clean (p : string) : string :=
  let isrooted := rooted p in
  let out := Join "/" (reverse (clean_stack isrooted (Split slash p))) in
  if isrooted then String slash out
  else if decide (out = "") then "." else out.

(** [filepath.Join]: leading empty elements are ignored, and the join of empty
    elements is empty. *)
Fixpoint path_Join (elems : list string) : string :=
  match elems with
  | [] => ""
  | e :: rest => if decide (e = "") then path_Join rest else Clean (Join "/" elems)
  end.

(** [filepath.Dir]: everything up to the last slash, cleaned. *)
Definition Dir (p : string) : string :=
  Clean (str_rev (TrimLeft (str_rev p) (λ c, negb (Ascii.eqb c slash)))).

(** ** Canonical absolute paths *)

(** A path element that [Clean] keeps in a rooted path. *)
Definition normal_elem (e : string) : Prop :=
  e ≠ "" ∧ e ≠ "." ∧ e ≠ ".." ∧ no_byte slash e = true.

#[export] Instance normal_elem_dec e : Decision (normal_elem e).
Proof. unfold normal_elem. apply _. Defined.

(** The absolute path with the given elements. *)
Definition abs_path (es : list string) : string := String slash (Join "/" es).

(** ** Lemmas *)

Lemma rooted_abs_path es : rooted (abs_path es) = true.
Proof. done. Qed.

Lemma Split_abs_path es :
  es ≠ [] → Forall normal_elem es → Split slash (abs_path es) = "" :: es.
Proof.
  intros Hne HF. unfold abs_path.
  change (Split slash (String slash (Join "/" es)))
    with ("" :: Split slash (Join "/" es)).
  f_equal. apply (Split_Join slash); [done|].
  eapply Forall_impl; [exact HF|]. unfold normal_elem. naive_solver.
Qed.

Lemma clean_step_normal r stack e :
  normal_elem e → clean_step r stack e = e :: stack.
Proof.
  unfold normal_elem, clean_step. intros (?&?&?&_).
  by rewrite !decide_False by naive_solver.
Qed.

Lemma clean_stack_normal r es :
  Forall normal_elem es → clean_stack r es = reverse es.
Proof.
  unfold clean_stack. intros HF.
  assert (∀ acc, foldl (clean_step r) acc es = reverse es ++ acc) as H.
  { induction HF as [|e es He HF IH]; intros acc; simpl; [done|].
    rewrite clean_step_normal, IH by done. by rewrite reverse_cons, <- (assoc_L (++)). }
  by rewrite H, (right_id_L [] (++)).
Qed.

Lemma clean_step_normal_inv stack e :
  no_byte slash e = true → Forall normal_elem stack →
  Forall normal_elem (clean_step true stack e).
Proof.
  intros He HF. unfold clean_step. case_decide; [done|].
  case_decide as Hdd.
  - destruct stack as [|top stack']; [done|]. inversion HF as [|?? Htop]; subst.
    case_decide; [|done]. unfold normal_elem in Htop. naive_solver.
  - constructor; [|done]. unfold normal_elem. naive_solver.
Qed.

(** The elements of a cleaned rooted path are normal. *)
Lemma clean_stack_rooted es :
  Forall (λ e, no_byte slash e = true) es →
  Forall normal_elem (clean_stack true es).
Proof.
  unfold clean_stack. intros HF.
  assert (∀ acc, Forall normal_elem acc →
    Forall normal_elem (foldl (clean_step true) acc es)) as H; [|by apply H].
  induction HF; intros acc Hacc; simpl; eauto using clean_step_normal_inv.
Qed.

Lemma Clean_abs_path es :
  Forall normal_elem es → Clean (abs_path es) = abs_path es.
Proof.
  intros HF. destruct (decide (es = [])) as [->|Hne]; [done|].
  unfold Clean. rewrite rooted_abs_path, Split_abs_path by done.
  change (clean_stack true ("" :: es)) with (clean_stack true es).
  rewrite clean_stack_normal, reverse_involutive by done. done.
Qed.

Lemma Clean_rooted p :
  rooted p = true → ∃ es, Forall normal_elem es ∧ Clean p = abs_path es.
Proof.
  intros Hp. exists (reverse (clean_stack true (Split slash p))).
  split; [apply Forall_reverse, clean_stack_rooted, Split_no_byte|].
  unfold Clean. by rewrite Hp.
Qed.

Lemma Clean_rooted_idemp p : rooted p = true → Clean (Clean p) = Clean p.
Proof.
  intros Hp. destruct (Clean_rooted p Hp) as (es & HF & ->).
  by apply Clean_abs_path.
Qed.

(** The rooted fixed points of [Clean] are the canonical absolute paths. *)
Lemma Clean_fixed_rooted p :
  rooted p = true → Clean p = p → ∃ es, Forall normal_elem es ∧ p = abs_path es.
Proof.
  intros Hp Hc. destruct (Clean_rooted p Hp) as (es & HF & H).
  exists es. split; [done|]. congruence.
Qed.

Lemma Join_cons_app sep e es :
  es ≠ [] → Join sep (e :: es) = e +:+ sep +:+ Join sep es.
Proof. by destruct es. Qed.

Lemma Join_app sep es1 es2 :
  es1 ≠ [] → es2 ≠ [] →
  Join sep (es1 ++ es2) = Join sep es1 +:+ sep +:+ Join sep es2.
Proof.
  intros H1 H2. induction es1 as [|e es1 IH]; [done|].
  destruct es1 as [|e' es1].
  - simpl app. by rewrite Join_cons_app.
  - change ((e :: e' :: es1) ++ es2) with (e :: ((e' :: es1) ++ es2)).
    rewrite !Join_cons_app by done. rewrite IH by done. by rewrite !app_assoc.
Qed.

Lemma Join_normal_nil es : Forall normal_elem es → Join "/" es = "" → es = [].
Proof.
  intros HF. destruct HF as [|e es [He _] HF]; [done|].
  intros H. exfalso. destruct e as [|c e]; [done|].
  destruct es; [done|]. rewrite Join_cons_app, app_cons in H by done. done.
Qed.

Lemma abs_path_inj es1 es2 :
  Forall normal_elem es1 → Forall normal_elem es2 →
  abs_path es1 = abs_path es2 → es1 = es2.
Proof.
  intros H1 H2 H.
  destruct (decide (es1 = [])) as [->|Hne1].
  { symmetry. apply Join_normal_nil; [done|]. unfold abs_path in H. by simplify_eq. }
  destruct (decide (es2 = [])) as [->|Hne2].
  { apply Join_normal_nil; [done|]. unfold abs_path in H. by simplify_eq. }
  apply (f_equal (Split slash)) in H. rewrite !Split_abs_path in H by done.
  by simplify_eq.
Qed.

(** ** Lemmas: joining *)

Lemma clean_abs_prefix rs t acc :
  Forall normal_elem rs → acc = reverse rs →
  clean_stack true (Split slash (abs_path rs +:+ String slash t)) =
  foldl (clean_step true) acc (Split slash t).
Proof.
  intros HF ->. unfold clean_stack. rewrite Split_app_sep, foldl_app. f_equal.
  destruct (decide (rs = [])) as [->|Hne]; [done|].
  rewrite Split_abs_path by done. by apply clean_stack_normal.
Qed.

Lemma foldl_clean_normal r acc es :
  Forall normal_elem es → foldl (clean_step r) acc es = reverse es ++ acc.
Proof.
  intros HF. revert acc. induction HF as [|e es He HF IH]; intros acc; simpl; [done|].
  rewrite clean_step_normal, IH by done. by rewrite reverse_cons, <- (assoc_L (++)).
Qed.

Lemma Split_rel_path ds :
  ds ≠ [] → Forall normal_elem ds → Split slash (Join "/" ds) = ds.
Proof.
  intros Hne HF. apply (Split_Join slash); [done|].
  eapply Forall_impl; [exact HF|]. unfold normal_elem. naive_solver.
Qed.

(** Joining a relative path of normal elements under a canonical absolute one
    concatenates their elements. *)
Lemma path_Join_abs_rel rs ds :
  Forall normal_elem rs → Forall normal_elem ds →
  path_Join [abs_path rs; Join "/" ds] = abs_path (rs ++ ds).
Proof.
  intros Hr Hd. cbn [path_Join]. rewrite decide_False by done.
  change (Join "/" [abs_path rs; Join "/" ds])
    with (abs_path rs +:+ String slash (Join "/" ds)).
  unfold Clean. change (rooted (abs_path rs +:+ String slash (Join "/" ds))) with true.
  cbv iota. rewrite (clean_abs_prefix rs _ (reverse rs)) by done.
  destruct (decide (ds = [])) as [->|Hne].
  { change (foldl (clean_step true) (reverse rs) (Split slash (Join "/" [])))
      with (reverse rs).
    by rewrite reverse_involutive, (right_id_L [] (++)). }
  rewrite Split_rel_path, foldl_clean_normal by done.
  by rewrite reverse_app, !reverse_involutive.
Qed.

Lemma rooted_Join_normal ds :
  ds ≠ [] → Forall normal_elem ds → rooted (Join "/" ds) = false.
Proof.
  intros Hne HF. destruct HF as [|e ds (He & _ & _ & Hs) HF]; [done|].
  destruct e as [|c e]; [done|]. simpl in Hs. apply andb_true_iff in Hs as [Hc _].
  apply negb_true_iff in Hc.
  destruct ds; [exact Hc|]. rewrite Join_cons_app, app_cons by done. exact Hc.
Qed.

Lemma Clean_rel_path ds :
  ds ≠ [] → Forall normal_elem ds → Clean (Join "/" ds) = Join "/" ds.
Proof.
  intros Hne HF. unfold Clean. rewrite rooted_Join_normal, Split_rel_path by done.
  rewrite clean_stack_normal, reverse_involutive by done.
  rewrite decide_False; [done|]. intros H. by apply Join_normal_nil in H.
Qed.

(** Joining normal elements is [strings.Join]. *)
Lemma path_Join_normal ds :
  Forall normal_elem ds → path_Join ds = Join "/" ds.
Proof.
  intros HF. destruct HF as [|e ds He HF]; [done|].
  cbn [path_Join]. rewrite decide_False by apply He.
  apply Clean_rel_path; [done|]. by constructor.
Qed.

Lemma Join_normal_app es1 es2 :
  es1 ≠ [] → es2 ≠ [] →
  Join "/" [Join "/" es1; Join "/" es2] = Join "/" (es1 ++ es2).
Proof. intros. by rewrite Join_app. Qed.

(** Elements joined onto a relative path of normal elements. *)
Lemma path_Join_rel_cons ds es :
  Forall normal_elem ds → Forall normal_elem es →
  path_Join (Join "/" ds :: es) = Join "/" (ds ++ es).
Proof.
  intros Hd He. destruct (decide (ds = [])) as [->|Hne].
  { cbn [path_Join]. rewrite decide_True by done. by apply path_Join_normal. }
  cbn [path_Join]. rewrite decide_False.
  2:{ intros H. by apply Join_normal_nil in H. }
  destruct (decide (es = [])) as [->|Hne'].
  { rewrite (right_id_L [] (++)). exact (Clean_rel_path ds Hne Hd). }
  rewrite Join_cons_app by done. rewrite <- Join_app by done.
  apply Clean_rel_path; [by destruct ds|]. by apply Forall_app.
Qed.

(** The elements of a path start with those of another exactly when the path starts
    with the other one and a separator. *)
Lemma Split_prefix sep s p :
  (∃ rest, rest ≠ [] ∧ Split sep s = Split sep p ++ rest)
  ↔ HasPrefix s (p +:+ String sep "") = true.
Proof.
  rewrite HasPrefix_spec. split.
  - intros (rest & Hne & Hs). exists (Join (String sep "") rest).
    rewrite <- (Join_Split sep s), Hs, Join_app by (done || apply Split_not_nil).
    by rewrite Join_Split, app_assoc.
  - intros [t ->]. exists (Split sep t). split; [apply Split_not_nil|].
    by rewrite app_assoc, app_cons, app_nil_l, Split_app_sep.
Qed.

Example clean_example_1 : Clean "/var/vcap//data/../store/./x/" = "/var/vcap/store/x".
Proof. reflexivity. Qed.

Example clean_example_2 : Clean "../a/../../b" = "../../b" ∧ Clean "" = "." ∧ Clean "/.." = "/".
Proof. by vm_compute. Qed.

Example dir_example : Dir "/var/vcap/store/job" = "/var/vcap/store" ∧ Dir "x" = ".".
Proof. by vm_compute. Qed.
