(* ===== verification/JobID.v ===== *)
(** * Package jobid: container identifiers (src/bpm/jobid/encoding.go)

    [Encode] maps an arbitrary byte string (a job name, or a job and process
    name joined with a dot) to an identifier runc accepts; [Decode] maps it
    back.  Shown here: decoding inverts encoding on every byte string, encoding
    is injective and only produces bytes that are safe in a file name, and what
    decoding does with identifiers that were truncated inside an escape. *)

From S2P Require Import Prelude GoStrings.
From Stdlib Require Import Ascii.

Definition alphanumeric : string :=
  "abcdefghijklmnopqrstuvwxyzABCDEFGHIJKLMNOPQRSTUVWXYZ0123456789".
Definition symbols : string := "_-".
Definition combined : string := alphanumeric +:+ symbols.

Definition isAlphaNumSym (b : ascii) : bool :=
  match IndexByte combined b with Some _ => true | None => false end.

Definition needsEscaping (b : ascii) : bool := negb (isAlphaNumSym b).

Fixpoint encode_loop (name : string) : string :=
  match name with
  | EmptyString => ""
  | String chr name' =>
      if needsEscaping chr
      then ("." +:+ hex2 chr) +:+ encode_loop name'
      else String chr (encode_loop name')
  end.

Definition Encode (name : string) : string := "bpm-" +:+ encode_loop name.

(** The loop of [Decode] at an index [i] of [id]: [name] is the builder and [r]
    the bytes [id[i:]].  An escape with nothing after the dot has [i+2 > len(id)]
    and is refused; an escape with one byte after the dot passes that test, and
    slicing [id[i+1:i+3]] is out of bounds.  An escape that is not two hex
    digits is skipped. *)
Fixpoint decode_loop (id name r : string) : outcome (result string) :=
  match r with
  | EmptyString => Val (Ok name)
  | String "." EmptyString =>
      Val (Err (Errorf "invalid job ID (incomplete escape sequence): %q" [id]))
  | String "." (String _ EmptyString) => Panics SliceBounds
  | String "." (String h (String l r')) =>
      match hex_DecodeString (String h (String l "")) with
      | Some res => decode_loop id (name +:+ res) r'
      | None => decode_loop id name r'
      end
  | String chr r' => decode_loop id (name +:+ String chr "") r'
  end.

Definition Decode (id : string) : outcome (result string) :=
  if HasPrefix id "bpm-" then
    let id := drop 4 id in decode_loop id "" id
  else Val (Err (Errorf "invalid job ID (missing prefix): %q" [id])).

(** The bytes an encoded identifier is made of. *)
Definition id_byte (c : ascii) : bool := isAlphaNumSym c || Ascii.eqb c ".".

Fixpoint all_id_bytes (s : string) : bool :=
  match s with
  | EmptyString => true
  | String c s' => id_byte c && all_id_bytes s'
  end.

(** ** Lemmas *)

Lemma isAlphaNumSym_not_dot c : isAlphaNumSym c = true → c ≠ "."%char.
Proof. by intros H ->. Qed.

Lemma decode_loop_plain id name c r :
  c ≠ "."%char →
  decode_loop id name (String c r) = decode_loop id (name +:+ String c "") r.
Proof. intros Hc. by destruct c as [[] [] [] [] [] [] [] []]. Qed.

Lemma decode_loop_escape id name h l r :
  decode_loop id name (String "." (String h (String l r))) =
    match hex_DecodeString (String h (String l "")) with
    | Some res => decode_loop id (name +:+ res) r
    | None => decode_loop id name r
    end.
Proof. done. Qed.

Lemma decode_loop_escaped id name c r :
  decode_loop id name (("." +:+ hex2 c) +:+ r) =
  decode_loop id (name +:+ String c "") r.
Proof.
  change (("." +:+ hex2 c) +:+ r) with
    (String "." (String (hex_digit (byte_val c / 16))
       (String (hex_digit (byte_val c mod 16)) r))).
  rewrite decode_loop_escape.
  pose proof (hex2_decode c "") as H. rewrite app_nil_r in H.
  unfold hex2 in H. by rewrite H.
Qed.

(** Decoding an encoded prefix appends the encoded name to the builder. *)
Lemma decode_loop_encode id name acc rest :
  decode_loop id acc (encode_loop name +:+ rest) =
  decode_loop id (acc +:+ name) rest.
Proof.
  revert acc. induction name as [|c name IH]; intros acc; cbn [encode_loop].
  { by rewrite app_nil_r, app_nil_l. }
  unfold needsEscaping. destruct (isAlphaNumSym c) eqn:Hc; cbn [negb].
  - rewrite app_cons, decode_loop_plain by by apply isAlphaNumSym_not_dot.
    by rewrite IH, app_assoc.
  - rewrite app_assoc, decode_loop_escaped, IH. by rewrite app_assoc.
Qed.

Lemma Decode_Encode_app name rest :
  Decode (Encode name +:+ rest) =
  decode_loop (encode_loop name +:+ rest) name rest.
Proof.
  unfold Decode, Encode. rewrite app_assoc, HasPrefix_app.
  change 4 with (String.length "bpm-"). rewrite drop_app.
  by rewrite decode_loop_encode, app_nil_l.
Qed.

Lemma all_id_bytes_app s t :
  all_id_bytes (s +:+ t) = all_id_bytes s && all_id_bytes t.
Proof.
  induction s as [|c s IH]; [done|]. rewrite app_cons. simpl.
  by rewrite IH, andb_assoc.
Qed.

Lemma hex2_id_bytes c : all_id_bytes (hex2 c) = true.
Proof. revert c. by apply forall_byte; vm_compute. Qed.

Lemma encode_loop_id_bytes name : all_id_bytes (encode_loop name) = true.
Proof.
  induction name as [|c name IH]; [done|]. cbn [encode_loop].
  unfold needsEscaping. destruct (isAlphaNumSym c) eqn:Hc; cbn [negb].
  - simpl. unfold id_byte. by rewrite Hc, IH.
  - by rewrite !all_id_bytes_app, hex2_id_bytes, IH.
Qed.

Lemma all_id_bytes_no_byte c s :
  id_byte c = false → all_id_bytes s = true → no_byte c s = true.
Proof.
  intros Hc. induction s as [|d s IH]; simpl; [done|].
  rewrite !andb_true_iff, negb_true_iff. intros [Hd Hs]. split; [|auto].
  apply Ascii.eqb_neq. by intros ->; rewrite Hc in Hd.
Qed.

Lemma Decode_Encode name : Decode (Encode name) = Val (Ok name).
Proof.
  rewrite <- (app_nil_r (Encode name)), Decode_Encode_app. done.
Qed.

Lemma Encode_inj' name1 name2 : Encode name1 = Encode name2 → name1 = name2.
Proof.
  intros H. pose proof (Decode_Encode name1) as H1.
  rewrite H, Decode_Encode in H1. by simplify_eq.
Qed.

Lemma Encode_id_bytes name : all_id_bytes (Encode name) = true.
Proof. unfold Encode. by rewrite all_id_bytes_app, encode_loop_id_bytes. Qed.

(** An encoded identifier is one component of a path. *)
Lemma Encode_no_slash name : no_byte "/" (Encode name) = true.
Proof. apply all_id_bytes_no_byte; [done|apply Encode_id_bytes]. Qed.

(** ** Properties *)

(** C17: decoding inverts encoding on every byte string: for every [name],
    [Decode(Encode(name))] returns [name] with a nil error (and does not
    panic). *)
Theorem decode_encode_roundtrip (name : string) :
  Decode (Encode name) = Val (Ok name).
Proof. apply Decode_Encode. Qed.

(** The encoding of a name is safe as a file name and as a runc container
    ID: it starts with [bpm-] and consists of alphanumeric characters, [_], [-]
    and the escape character [.] only, and two different names never share an
    encoding. *)
Lemma encode_safe_injective (name1 name2 : string) :
  HasPrefix (Encode name1) "bpm-" = true
  ∧ all_id_bytes (Encode name1) = true
  ∧ no_byte "/" (Encode name1) = true
  ∧ (Encode name1 = Encode name2 ↔ name1 = name2).
Proof.
  split_and!; [apply HasPrefix_app|apply Encode_id_bytes|apply Encode_no_slash|].
  split; [apply Encode_inj' | by intros ->].
Qed.

(** What [Decode] does with an encoded name truncated inside an escape: cut
    right after the dot it returns an error, but cut one digit later it panics
    (the guard [i+2 > len(id)] is one short of what [id[i+1:i+3]] needs). *)
Lemma decode_truncated_escape (name : string) (digit : ascii) :
  Decode (Encode name +:+ ".") =
    Val (Err (Errorf "invalid job ID (incomplete escape sequence): %q"
                [encode_loop name +:+ "."]))
  ∧ Decode (Encode name +:+ "." +:+ String digit "") = Panics SliceBounds.
Proof. by rewrite !Decode_Encode_app. Qed.

Example encode_example : Encode "foo:bar" = "bpm-foo.3abar".
Proof. reflexivity. Qed.
