(* ===== verification/Bosh.v ===== *)
(** * Package bosh: the BOSH directory layout (src/bpm/bosh/env.go, paths.go)

    A [Path] is a directory relative to a root; it has an external rendering
    (under the root of the [Env], which tests and [BPM_BOSH_ROOT] can move) and
    an internal one (inside the container, always under [/var/vcap]). *)

From S2P Require Import Prelude GoStrings GoPath.

Definition DefaultRoot : string := "/var/vcap".

Record Path := mkPath { p_root : string; p_dir : string }.

Definition Internal (p : Path) : string := path_Join [DefaultRoot; p_dir p].
Definition External (p : Path) : string := path_Join [p_root p; p_dir p].
Definition Path_Join (p : Path) (elements : list string) : Path :=
  mkPath (p_root p) (path_Join (p_dir p :: elements)).

(** [Path.String] panics: a path must be rendered with one of the two above. *)
Definition Path_String (p : Path) : outcome string :=
  Panics (PanicMsg "bosh.Path String() called! This should never be used: use Internal() or External() instead.").

Record Env := mkEnv { env_root : string }.

Definition NewEnv (root : string) : Env :=
  mkEnv (if decide (root = "") then DefaultRoot else root).

Definition Env_Root (e : Env) : Path := mkPath (env_root e) "".
Definition Env_DataDir (e : Env) (job : string) : Path :=
  mkPath (env_root e) (path_Join ["data"; job]).
Definition Env_StoreDir (e : Env) (job : string) : Path :=
  mkPath (env_root e) (path_Join ["store"; job]).
Definition Env_JobDir (e : Env) (job : string) : Path :=
  mkPath (env_root e) (path_Join ["jobs"; job]).
Definition Env_RunDir (e : Env) (job : string) : Path :=
  mkPath (env_root e) (path_Join ["sys"; "run"; job]).
Definition Env_LogDir (e : Env) (job : string) : Path :=
  mkPath (env_root e) (path_Join ["sys"; "log"; job]).
Definition Env_PackageDir (e : Env) : Path := mkPath (env_root e) "packages".
Definition Env_DataPackageDir (e : Env) : Path :=
  mkPath (env_root e) (path_Join ["data"; "packages"]).

(** ** Well-formed environments and paths *)

(** The root of a well-formed environment is a canonical absolute path with the
    given elements. *)
Definition env_wf (e : Env) (rs : list string) : Prop :=
  Forall normal_elem rs ∧ env_root e = abs_path rs.

(** A path whose directory consists of the given normal elements. *)
Definition path_wf (p : Path) (rs ds : list string) : Prop :=
  Forall normal_elem rs ∧ Forall normal_elem ds
  ∧ p_root p = abs_path rs ∧ p_dir p = Join "/" ds.

Definition default_elems : list string := ["var"; "vcap"].

(** ** Lemmas *)

Lemma default_elems_normal : Forall normal_elem default_elems.
Proof. by apply (bool_decide_unpack _); vm_compute. Qed.

Lemma DefaultRoot_abs : DefaultRoot = abs_path default_elems.
Proof. done. Qed.

Lemma External_wf p rs ds :
  path_wf p rs ds → External p = abs_path (rs ++ ds).
Proof.
  intros (Hr & Hd & Hroot & Hdir). unfold External. rewrite Hroot, Hdir.
  by apply path_Join_abs_rel.
Qed.

Lemma Internal_wf p rs ds :
  path_wf p rs ds → Internal p = abs_path (default_elems ++ ds).
Proof.
  intros (Hr & Hd & _ & Hdir). unfold Internal. rewrite Hdir, DefaultRoot_abs.
  apply path_Join_abs_rel; [apply default_elems_normal|done].
Qed.

Lemma Path_Join_wf p rs ds es :
  path_wf p rs ds → Forall normal_elem es → path_wf (Path_Join p es) rs (ds ++ es).
Proof.
  intros (Hr & Hd & Hroot & Hdir) He. split_and!; [done|by apply Forall_app|done|].
  simpl. rewrite Hdir. by apply path_Join_rel_cons.
Qed.

Lemma mkPath_wf e rs ds :
  env_wf e rs → Forall normal_elem ds →
  path_wf (mkPath (env_root e) (path_Join ds)) rs ds.
Proof. intros [Hr Hroot] Hd. split_and!; [done..|by apply path_Join_normal]. Qed.

Lemma Env_Root_wf e rs : env_wf e rs → path_wf (Env_Root e) rs [].
Proof. intros [Hr Hroot]. by split_and!. Qed.

(** Normality of literal elements is decided by computation. *)
Ltac normal_elems :=
  repeat match goal with
  | |- Forall normal_elem (_ ++ _) => apply Forall_app; split
  | |- Forall normal_elem [] => constructor
  | |- Forall normal_elem (_ :: _) => constructor
  | |- normal_elem ?x => first [ assumption | apply (bool_decide_unpack _); vm_compute; exact I ]
  | |- Forall normal_elem default_elems => exact default_elems_normal
  | |- Forall normal_elem _ => assumption
  end.

Section job_dirs.
Context (e : Env) (rs : list string) (job : string).
Context (Hwf : env_wf e rs) (Hjob : normal_elem job).

Lemma Env_DataDir_wf : path_wf (Env_DataDir e job) rs ["data"; job].
Proof. apply mkPath_wf; [done|normal_elems]. Qed.
Lemma Env_StoreDir_wf : path_wf (Env_StoreDir e job) rs ["store"; job].
Proof. apply mkPath_wf; [done|normal_elems]. Qed.
Lemma Env_JobDir_wf : path_wf (Env_JobDir e job) rs ["jobs"; job].
Proof. apply mkPath_wf; [done|normal_elems]. Qed.
Lemma Env_RunDir_wf : path_wf (Env_RunDir e job) rs ["sys"; "run"; job].
Proof. apply mkPath_wf; [done|normal_elems]. Qed.
Lemma Env_LogDir_wf : path_wf (Env_LogDir e job) rs ["sys"; "log"; job].
Proof. apply mkPath_wf; [done|normal_elems]. Qed.
Lemma Env_PackageDir_wf : path_wf (Env_PackageDir e) rs ["packages"].
Proof. apply (mkPath_wf e rs ["packages"]); [done|normal_elems]. Qed.
Lemma Env_DataPackageDir_wf : path_wf (Env_DataPackageDir e) rs ["data"; "packages"].
Proof. apply mkPath_wf; [done|normal_elems]. Qed.
End job_dirs.

#[export] Hint Resolve Env_DataDir_wf Env_StoreDir_wf Env_JobDir_wf Env_RunDir_wf Env_LogDir_wf
  Env_PackageDir_wf Env_DataPackageDir_wf Env_Root_wf Path_Join_wf : bpm.

Lemma NewEnv_default_wf : env_wf (NewEnv "") default_elems.
Proof. split; [apply default_elems_normal|done]. Qed.
