(* ===== verification/Specs.v ===== *)
(** * Data exchanged with runc and with the operating system

    The records of the OCI runtime specification that bpm fills in (package
    specs of runtime-spec; the fields bpm never sets keep Go's zero value and
    are left out), the process model of package models, the signals and
    container states of package client, and the file information, user records
    and commands of Go's os, os/user and os/exec packages. *)

From S2P Require Import Prelude.

(** ** Container specification *)

Record User := mkUser { u_uid : Z; u_gid : Z; u_name : string }.

Record LinuxCapabilities := mkCaps {
  Ambient : list string;
  Bounding : list string;
  Effective : list string;
  Inheritable : list string;
  Permitted : list string
}.

Record POSIXRlimit := mkRlimit { rl_type : string; rl_hard : Z; rl_soft : Z }.

Record SpecProcess := mkSpecProcess {
  sp_user : User;
  sp_args : list string;
  sp_env : list string;
  sp_cwd : string;
  sp_capabilities : LinuxCapabilities;
  sp_rlimits : list POSIXRlimit;
  sp_noNewPrivileges : bool
}.

Record Mount := mkMount {
  m_destination : string;
  m_type : string;
  m_source : string;
  m_options : list string
}.

Record LinuxSeccompArg := mkSeccompArg {
  sa_index : Z; sa_value : Z; sa_valueTwo : Z; sa_op : string
}.

Record LinuxSyscall := mkSyscall {
  sc_names : list string;
  sc_action : string;
  sc_errnoRet : option Z;
  sc_args : list LinuxSeccompArg
}.

Record LinuxSeccomp := mkSeccomp {
  se_defaultAction : string;
  se_architectures : list string;
  se_syscalls : list LinuxSyscall
}.

Record LinuxMemory := mkMemory { mem_limit : option Z; mem_swap : option Z }.

Record LinuxResources := mkResources {
  res_memory : option LinuxMemory;
  res_pids : option Z
}.

Record SpecLinux := mkSpecLinux {
  li_maskedPaths : list string;
  li_readonlyPaths : list string;
  li_resources : LinuxResources;
  li_rootfsPropagation : string;
  li_seccomp : option LinuxSeccomp;
  li_namespaces : list string;
  li_cgroupsPath : string
}.

Record Spec := mkSpec {
  s_version : string;
  s_process : SpecProcess;
  s_root : option string;
  s_mounts : list Mount;
  s_linux : SpecLinux
}.

#[export] Instance Mount_eq_dec : EqDecision Mount.
Proof. solve_decision. Defined.

(** ** Package models *)

Definition ProcessStateFailed : string := "failed".
Definition ProcessStateRunning : string := "running".
Definition ProcessStateStopped : string := "stopped".
Definition ProcessStateCreating : string := "creating".
Definition ProcessStateCreated : string := "created".

Record Process := mkProcess { pr_name : string; pr_pid : Z; pr_status : string }.

#[export] Instance Process_eq_dec : EqDecision Process.
Proof. solve_decision. Defined.

(** ** Package client: signals and container states *)

Inductive Signal := Term | Quit | Int.

#[export] Instance Signal_eq_dec : EqDecision Signal.
Proof. solve_decision. Defined.

Definition Signal_String (s : Signal) : string :=
  match s with Term => "TERM" | Quit => "QUIT" | Int => "INT" end.

(** An entry of [runc list --format json]. *)
Record ContainerState := mkContainerState {
  cs_id : string; cs_pid : Z; cs_status : string
}.

(** The document printed by [runc state] ([specs.State]). *)
Record State := mkState { st_id : string; st_status : string; st_pid : Z }.

(** ** os, os/user, os/exec *)

Record FileInfo := mkFileInfo { fi_mode : Z }.

(** [os.ModeDir] is bit 31 of a file mode. *)
Definition fi_IsDir (fi : FileInfo) : bool := Z.testbit (fi_mode fi) 31.

(** File modes; the names give the octal digits. *)
Definition mode_0600 : Z := 6 * 64.
Definition mode_0700 : Z := 7 * 64.
Definition mode_0750 : Z := 7 * 64 + 5 * 8.
Definition mode_0755 : Z := 7 * 64 + 5 * 8 + 5.

Record OSUser := mkOSUser { ou_uid : string; ou_gid : string; ou_username : string }.

(** Where a command's output goes: an open file, an open file and bpm's own
    standard output or error ([io.MultiWriter]), or bpm's own stream. *)
Inductive writer :=
| ToFile (fd : nat)
| ToFileAndStdout (fd : nat)
| ToFileAndStderr (fd : nat)
| ToStdout
| ToStderr
| Discard.

Record Cmd := mkCmd {
  cmd_path : string;
  cmd_args : list string;
  cmd_env : option (list string);
  cmd_stdin : bool;
  cmd_stdout : writer;
  cmd_stderr : writer
}.

(** [exec.Command(path, args...)]: inherited environment, no streams. *)
Definition exec_Command (path : string) (args : list string) : Cmd :=
  mkCmd path args None false Discard Discard.
