(* ===== verification/Json.v ===== *)
(** * Package encoding/json

    The parts of Go's encoding/json that bpm uses: the syntax of documents, how
    strings are quoted and unquoted, the indented output of an [Encoder], the
    decoding of runc's answers into the structs of package client, and the
    encoding of a container specification, field by field with the tags of
    runtime-spec. *)

From S2P Require Import Prelude GoStrings Specs.
From Stdlib Require Import Ascii.

(** Documents.  Numbers keep their literal; members keep their order. *)
#[warnings="-register-all"] Inductive json :=
| JNull
| JBool (b : bool)
| JNumber (lit : string)
| JString (s : string)
| JArray (l : list json)
| JObject (ms : list (string * json)).

(** ** Strings *)

Definition quote : ascii := byte_of 34.
Definition backslash : ascii := byte_of 92.
Definition replacement : string :=
  String (byte_of 239) (String (byte_of 191) (String (byte_of 189) "")).

(** The UTF-8 encoding of a code point. *)
Definition byte_of_Z (n : Z) : ascii := byte_of (Z.to_nat n).
Definition utf8_encode (r : Z) : string :=
  (let cont n := byte_of_Z (128 + n mod 64) in
   if r <? 128 then String (byte_of_Z r) ""
   else if r <? 2048 then String (byte_of_Z (192 + r / 64)) (String (cont r) "")
   else if (55296 <=? r) && (r <=? 57343) then replacement
   else if r <? 65536 then
     String (byte_of_Z (224 + r / 4096)) (String (cont (r / 64)) (String (cont r) ""))
   else String (byte_of_Z (240 + r / 262144)) (String (cont (r / 4096))
          (String (cont (r / 64)) (String (cont r) ""))))%Z.

(** Four hexadecimal digits. *)
Definition hex4 (s : string) : option (Z * string) :=
  match s with
  | String a (String b (String c (String d r))) =>
      a ← hex_val a; b ← hex_val b; c ← hex_val c; d ← hex_val d;
      Some ((((Z.of_nat a * 16 + Z.of_nat b) * 16 + Z.of_nat c) * 16 + Z.of_nat d)%Z, r)
  | _ => None
  end.

(** The code point of an escape whose first unit is [u]: a high surrogate takes a
    following escaped low one; any other surrogate stands for U+FFFD. *)
Definition surrogate (u : Z) (rest : string) : Z * string :=
  if ((55296 <=? u) && (u <=? 56319))%Z then
    match rest with
    | String b (String c r) =>
        if Ascii.eqb b backslash && Ascii.eqb c "u" then
          match hex4 r with
          | Some (v, r') =>
              if ((56320 <=? v) && (v <=? 57343))%Z
              then ((65536 + (u - 55296) * 1024 + (v - 56320))%Z, r')
              else (65533%Z, rest)
          | None => (65533%Z, rest)
          end
        else (65533%Z, rest)
    | _ => (65533%Z, rest)
    end
  else if ((56320 <=? u) && (u <=? 57343))%Z then (65533%Z, rest)
  else (u, rest).

(** The byte a one-letter escape stands for. *)
Definition simple_escape (c : ascii) : option ascii :=
  if Ascii.eqb c quote || Ascii.eqb c backslash || Ascii.eqb c "/" then Some c
  else if Ascii.eqb c "b" then Some (byte_of 8)
  else if Ascii.eqb c "f" then Some (byte_of 12)
  else if Ascii.eqb c "n" then Some (byte_of 10)
  else if Ascii.eqb c "r" then Some (byte_of 13)
  else if Ascii.eqb c "t" then Some (byte_of 9)
  else None.

(** A string after its opening quote, decoded, and what follows the closing one. *)
Fixpoint parse_string (fuel : nat) (s : string) : option (string * string) :=
  match fuel, s with
  | S fuel', String c r =>
      if Ascii.eqb c quote then Some ("", r)
      else if Ascii.eqb c backslash then
        match r with
        | String e r' =>
            if Ascii.eqb e "u" then
              '(u, r'') ← hex4 r';
              let '(cp, rest) := surrogate u r'' in
              '(t, rest') ← parse_string fuel' rest;
              Some (utf8_encode cp +:+ t, rest')
            else
              b ← simple_escape e;
              '(t, rest) ← parse_string fuel' r';
              Some (String b t, rest)
        | EmptyString => None
        end
      else if byte_val c <? 32 then None
      else if byte_val c <? 128 then
        '(t, rest) ← parse_string fuel' r; Some (String c t, rest)
      else
        let after := rune_rest c r in
        let width := String.length r - String.length after in
        '(t, rest) ← parse_string fuel' after;
        Some ((if width =? 0 then replacement else String c (String.substring 0 width r)) +:+ t, rest)
  | _, _ => None
  end.

(** [Encoder] output of a byte below 128, with HTML characters escaped. *)
Definition escape_ascii (c : ascii) : string :=
  let n := byte_val c in
  if Ascii.eqb c quote || Ascii.eqb c backslash then String backslash (String c "")
  else if n =? 8 then String backslash "b"
  else if n =? 12 then String backslash "f"
  else if n =? 10 then String backslash "n"
  else if n =? 13 then String backslash "r"
  else if n =? 9 then String backslash "t"
  else if (n <? 32) || Ascii.eqb c "<" || Ascii.eqb c ">" || Ascii.eqb c "&"
  then String backslash ("u00" +:+ hex2 c)
  else String c "".

(** The quoted form of a string, without the quotes: an invalid byte is written as
    an escape, and so are the line separators U+2028 and U+2029. *)
Fixpoint escape_string (fuel : nat) (s : string) : string :=
  match fuel, s with
  | S fuel', String c r =>
      if byte_val c <? 128 then escape_ascii c +:+ escape_string fuel' r
      else
        let after := rune_rest c r in
        let width := String.length r - String.length after in
        let rune := String c (String.substring 0 width r) in
        (if width =? 0 then String backslash "ufffd"
         else if String.eqb rune (utf8_encode 8232) then String backslash "u2028"
         else if String.eqb rune (utf8_encode 8233) then String backslash "u2029"
         else rune) +:+ escape_string fuel' after
  | _, _ => ""
  end.
Definition json_quote (s : string) : string :=
  String quote (escape_string (String.length s) s +:+ String quote "").

(** ** Numbers *)

Fixpoint span_digits (s : string) : string * string :=
  match s with
  | String c r =>
      if in_range "0" "9" c then let '(ds, rest) := span_digits r in (String c ds, rest)
      else ("", s)
  | EmptyString => ("", "")
  end.

(** [Some] when there is at least one digit. *)
Definition digits1 (s : string) : option (string * string) :=
  match span_digits s with
  | (EmptyString, _) => None
  | r => Some r
  end.

Definition parse_int_part (s : string) : option (string * string) :=
  match s with
  | String "0" r => Some ("0", r)
  | _ => digits1 s
  end.
Definition parse_fraction (s : string) : option (string * string) :=
  match s with
  | String "." r => '(ds, rest) ← digits1 r; Some (String "." ds, rest)
  | _ => Some ("", s)
  end.
Definition parse_exponent (s : string) : option (string * string) :=
  match s with
  | String e r =>
      if Ascii.eqb e "e" || Ascii.eqb e "E" then
        match r with
        | String g r' =>
            if Ascii.eqb g "+" || Ascii.eqb g "-" then
              '(ds, rest) ← digits1 r'; Some (String e (String g ds), rest)
            else '(ds, rest) ← digits1 r; Some (String e ds, rest)
        | EmptyString => None
        end
      else Some ("", s)
  | EmptyString => Some ("", s)
  end.

Definition parse_number (s : string) : option (string * string) :=
  let '(sign, s) := match s with String "-" r => ("-", r) | _ => ("", s) end in
  '(i, s) ← parse_int_part s;
  '(f, s) ← parse_fraction s;
  '(e, s) ← parse_exponent s;
  Some (sign +:+ i +:+ f +:+ e, s).

(** ** Values *)

Definition is_ws (c : ascii) : bool :=
  let n := byte_val c in (n =? 32) || (n =? 9) || (n =? 10) || (n =? 13).
Definition skip_ws (s : string) : string := TrimLeft s is_ws.

(** A value, with the whitespace before it; every call but those after a comma
    consumes a byte, so the length of the input bounds them. *)
Fixpoint parse_value (fuel : nat) (s : string) : option (json * string) :=
  match fuel with
  | O => None
  | S fuel' =>
      match skip_ws s with
      | String "{" r =>
          match skip_ws r with
          | String "}" r' => Some (JObject [], r')
          | _ => '(ms, rest) ← parse_members fuel' r; Some (JObject ms, rest)
          end
      | String "[" r =>
          match skip_ws r with
          | String "]" r' => Some (JArray [], r')
          | _ => '(l, rest) ← parse_elements fuel' r; Some (JArray l, rest)
          end
      | String "t" (String "r" (String "u" (String "e" r))) => Some (JBool true, r)
      | String "f" (String "a" (String "l" (String "s" (String "e" r)))) => Some (JBool false, r)
      | String "n" (String "u" (String "l" (String "l" r))) => Some (JNull, r)
      | String c r =>
          if Ascii.eqb c quote then
            '(t, rest) ← parse_string (String.length r) r; Some (JString t, rest)
          else '(lit, rest) ← parse_number (String c r); Some (JNumber lit, rest)
      | EmptyString => None
      end
  end
with parse_elements (fuel : nat) (s : string) : option (list json * string) :=
  match fuel with
  | O => None
  | S fuel' =>
      '(v, rest) ← parse_value fuel' s;
      match skip_ws rest with
      | String "," r => '(l, rest) ← parse_elements fuel' r; Some (v :: l, rest)
      | String "]" r => Some ([v], r)
      | _ => None
      end
  end
with parse_members (fuel : nat) (s : string) : option (list (string * json) * string) :=
  match fuel with
  | O => None
  | S fuel' =>
      match skip_ws s with
      | String q r =>
          if Ascii.eqb q quote then
            '(k, rest) ← parse_string (String.length r) r;
            match skip_ws rest with
            | String ":" r =>
                '(v, rest) ← parse_value fuel' r;
                match skip_ws rest with
                | String "," r => '(ms, rest) ← parse_members fuel' r; Some ((k, v) :: ms, rest)
                | String "}" r => Some ([(k, v)], r)
                | _ => None
                end
            | _ => None
            end
          else None
      | EmptyString => None
      end
  end.

(** How deep arrays and objects are nested; encoding/json refuses more than
    [maxNestingDepth]. *)
Fixpoint nesting (v : json) : nat :=
  match v with
  | JArray l => S (foldr (λ x n, Nat.max (nesting x) n) 0 l)
  | JObject ms => S (foldr (λ kv n, Nat.max (nesting kv.2) n) 0 ms)
  | _ => 0
  end.
Definition maxNestingDepth : N := 10000.

(** The document in [data], if it is valid. *)
Definition json_parse (data : string) : option json :=
  '(v, rest) ← parse_value (String.length data) data;
  match skip_ws rest with
  | EmptyString => if (N.of_nat (nesting v) <=? maxNestingDepth)%N then Some v else None
  | _ => None
  end.

(** ** Output

    [nl d] is what separates the elements at depth [d], [sp] follows a colon:
    nothing in compact output, a newline with [d] tabs and a space in the output
    of an [Encoder] after [SetIndent] with a tab. *)
Section print.
Context (nl : nat → string) (sp : string).

Fixpoint json_print (d : nat) (v : json) : string :=
  match v with
  | JNull => "null"
  | JBool true => "true"
  | JBool false => "false"
  | JNumber lit => lit
  | JString s => json_quote s
  | JArray [] => "[]"
  | JArray (x :: l) =>
      String "[" (nl (S d) +:+ json_print (S d) x +:+
        (fix go l := match l with
                     | [] => nl d +:+ "]"
                     | x :: l => String "," (nl (S d) +:+ json_print (S d) x +:+ go l)
                     end) l)
  | JObject [] => "{}"
  | JObject ((k, x) :: ms) =>
      String "{" (nl (S d) +:+ json_quote k +:+ String ":" (sp +:+ json_print (S d) x +:+
        (fix go ms := match ms with
                      | [] => nl d +:+ "}"
                      | (k, x) :: ms =>
                          String "," (nl (S d) +:+ json_quote k +:+
                            String ":" (sp +:+ json_print (S d) x +:+ go ms))
                      end) ms))
  end.
End print.

Fixpoint tabs (d : nat) : string :=
  match d with O => "" | S d => String (byte_of 9) (tabs d) end.
Definition indent_nl (d : nat) : string := String (byte_of 10) (tabs d).

(** [json.Marshal], and [Encode] after [SetIndent] with no prefix and a tab. *)
Definition json_compact (v : json) : string := json_print (λ _, "") "" 0 v.
Definition json_indent (v : json) : string :=
  json_print indent_nl " " 0 v +:+ String (byte_of 10) "".

(** ** Decoding into structs *)

(** Field names are compared without regard to case when there is no exact match;
    two letters outside ASCII fold to K and S. *)
Fixpoint foldName (s : string) : string :=
  match s with
  | String "226" (String "132" (String "170" r)) => String "K" (foldName r)
  | String "197" (String "191" r) => String "S" (foldName r)
  | String c r => String (if in_range "a" "z" c then byte_of (byte_val c - 32) else c) (foldName r)
  | EmptyString => ""
  end.

Definition find_field (names : list string) (key : string) : option string :=
  match List.find (String.eqb key) names with
  | Some n => Some n
  | None => List.find (λ n, String.eqb (foldName n) (foldName key)) names
  end.

(** A value stored in a field: the new contents and whether the types agree; null
    leaves the field alone. *)
Definition into_string (old : string) (v : json) : string * bool :=
  match v with JString s => (s, true) | JNull => (old, true) | _ => (old, false) end.
Definition into_int (old : Z) (v : json) : Z * bool :=
  match v with
  | JNumber lit => match Atoi lit with Some n => (n, true) | None => (old, false) end
  | JNull => (old, true)
  | _ => (old, false)
  end.
Definition string_map_ok (v : json) : bool :=
  match v with
  | JObject ms => forallb (λ kv, match kv.2 with JString _ | JNull => true | _ => false end) ms
  | JNull => true
  | _ => false
  end.

(** Members are stored one after the other; a mismatch is reported at the end. *)
Definition decode_struct {A} (set : string → json → A → A * bool) (zero : A) (v : json)
    : A * bool :=
  match v with
  | JObject ms =>
      foldl (λ '(a, ok) '(k, v), let '(a, ok') := set k v a in (a, ok && ok')) (zero, true) ms
  | JNull => (zero, true)
  | _ => (zero, false)
  end.

Definition set_State (key : string) (v : json) (st : State) : State * bool :=
  match find_field ["ociVersion"; "id"; "status"; "pid"; "bundle"; "annotations"] key with
  | None => (st, true)
  | Some f =>
      if String.eqb f "id" then
        let '(x, ok) := into_string (st_id st) v in (mkState x (st_status st) (st_pid st), ok)
      else if String.eqb f "status" then
        let '(x, ok) := into_string (st_status st) v in (mkState (st_id st) x (st_pid st), ok)
      else if String.eqb f "pid" then
        let '(x, ok) := into_int (st_pid st) v in (mkState (st_id st) (st_status st) x, ok)
      else if String.eqb f "annotations" then (st, string_map_ok v)
      else (st, (into_string "" v).2)
  end.

Definition set_ContainerState (key : string) (v : json) (cs : ContainerState)
    : ContainerState * bool :=
  match find_field ["id"; "pid"; "status"] key with
  | None => (cs, true)
  | Some f =>
      if String.eqb f "id" then
        let '(x, ok) := into_string (cs_id cs) v in (mkContainerState x (cs_pid cs) (cs_status cs), ok)
      else if String.eqb f "pid" then
        let '(x, ok) := into_int (cs_pid cs) v in (mkContainerState (cs_id cs) x (cs_status cs), ok)
      else
        let '(x, ok) := into_string (cs_status cs) v in (mkContainerState (cs_id cs) (cs_pid cs) x, ok)
  end.

Definition set_Msg (key : string) (v : json) (msg : string) : string * bool :=
  match find_field ["Msg"] key with
  | None => (msg, true)
  | Some _ => into_string msg v
  end.

Definition decode_list {A} (dec : json → A * bool) (v : json) : list A * bool :=
  match v with
  | JArray l => ((λ x, (dec x).1) <$> l, forallb (λ x, (dec x).2) l)
  | JNull => ([], true)
  | _ => ([], false)
  end.

(** [json.Unmarshal] with a decoder of documents. *)
Definition json_Unmarshal {A} (dec : json → A * bool) (data : string) : result A :=
  match json_parse data with
  | None => Err (NewError "json: invalid document")
  | Some v =>
      match dec v with
      | (a, true) => Ok a
      | (_, false) => Err (NewError "json: cannot unmarshal value")
      end
  end.

Definition Unmarshal_State : string → result State :=
  json_Unmarshal (decode_struct set_State (mkState "" "" 0)).
Definition Unmarshal_Msg : string → result string := json_Unmarshal (decode_struct set_Msg "").
Definition Unmarshal_ContainerStates : string → result (list ContainerState) :=
  json_Unmarshal (decode_list (decode_struct set_ContainerState (mkContainerState "" 0 ""))).

(** ** Reading back what was printed *)

Fixpoint all_bytes_in (P : ascii → bool) (s : string) : bool :=
  match s with EmptyString => true | String c r => P c && all_bytes_in P r end.
Definition white : string → bool := all_bytes_in is_ws.

(** A byte that can follow a number. *)
Definition delimiter (c : ascii) : bool :=
  is_ws c || Ascii.eqb c "," || Ascii.eqb c "]" || Ascii.eqb c "}".
Definition delimited (s : string) : Prop :=
  match s with EmptyString => True | String c _ => delimiter c = true end.

Lemma skip_ws_app w s : white w = true → skip_ws (w +:+ s) = skip_ws s.
Proof.
  induction w as [|c w IH]; intros Hw; [done|]. simpl in Hw. apply andb_true_iff in Hw as [Hc Hw].
  rewrite app_cons. unfold skip_ws in *. simpl. rewrite Hc. auto.
Qed.

Lemma skip_ws_cons c s : is_ws c = false → skip_ws (String c s) = String c s.
Proof. intros Hc. unfold skip_ws. simpl. by rewrite Hc. Qed.

Lemma delimited_app w s : white w = true → delimited s → delimited (w +:+ s).
Proof.
  destruct w as [|c w]; [done|]. rewrite app_cons. simpl. intros [Hc _]%andb_true_iff _.
  unfold delimiter. by rewrite Hc.
Qed.

Lemma parse_escaped c fuel r :
  (byte_val c <? 128) = true →
  parse_string (S fuel) (escape_ascii c +:+ r)
  = '(t, rest) ← parse_string fuel r; Some (String c t, rest).
Proof. by destruct c as [[] [] [] [] [] [] [] []]. Qed.

(** A rune of several bytes: [p] are the bytes after the first. *)
Lemma escape_rune n c p r :
  (byte_val c <? 128) = false → p ≠ "" → rune_rest c (p +:+ r) = r →
  ∃ e, escape_string (S n) (String c (p +:+ r)) = e +:+ escape_string n r
    ∧ S (String.length p) ≤ String.length e
    ∧ ((e = String backslash "u2028" ∧ String c p = utf8_encode 8232)
       ∨ (e = String backslash "u2029" ∧ String c p = utf8_encode 8233) ∨ e = String c p).
Proof.
  intros Hc Hp Hr. cbn [escape_string]. rewrite Hc, Hr, length_app_string.
  replace (String.length p + String.length r - String.length r) with (String.length p) by lia.
  rewrite substring_app. destruct (String.length p =? 0) eqn:Hl.
  { apply Nat.eqb_eq in Hl. by destruct p. }
  destruct (String.eqb_spec (String c p) (utf8_encode 8232)) as [E|_].
  { eexists. split; [reflexivity|]. split; [|by left].
    apply (f_equal String.length) in E. simpl in E |- *. lia. }
  destruct (String.eqb_spec (String c p) (utf8_encode 8233)) as [E|_].
  { eexists. split; [reflexivity|]. split; [|by right; left].
    apply (f_equal String.length) in E. simpl in E |- *. lia. }
  eexists. split; [reflexivity|]. split; [simpl; lia|by right; right].
Qed.

Lemma parse_rune fuel c p e x t rest :
  (byte_val c <? 128) = false → p ≠ "" → (∀ x, rune_rest c (p +:+ x) = x) →
  (e = String backslash "u2028" ∧ String c p = utf8_encode 8232)
  ∨ (e = String backslash "u2029" ∧ String c p = utf8_encode 8233) ∨ e = String c p →
  parse_string fuel x = Some (t, rest) →
  parse_string (S fuel) (e +:+ x) = Some (String c (p +:+ t), rest).
Proof.
  intros Hc Hp Hr He Hx. change (String c (p +:+ t)) with (String c p +:+ t).
  destruct He as [[-> ->]|[[-> ->]| ->]].
  - change (String backslash "u2028" +:+ x) with
      (String backslash (String "u" (String "2" (String "0" (String "2" (String "8" x)))))).
    change (parse_string (S fuel) _) with
      ('(t, rest') ← parse_string fuel x; Some (utf8_encode 8232 +:+ t, rest')). by rewrite Hx.
  - change (String backslash "u2029" +:+ x) with
      (String backslash (String "u" (String "2" (String "0" (String "2" (String "9" x)))))).
    change (parse_string (S fuel) _) with
      ('(t, rest') ← parse_string fuel x; Some (utf8_encode 8233 +:+ t, rest')). by rewrite Hx.
  - rewrite app_cons. cbn [parse_string]. rewrite Hc, Hr, length_app_string, Hx.
    apply Nat.ltb_ge in Hc.
    assert (Ascii.eqb c quote = false ∧ Ascii.eqb c backslash = false ∧ (byte_val c <? 32) = false)
      as (-> & -> & ->).
    { split_and!; [apply Ascii.eqb_neq; intros ->; vm_compute in Hc; lia..|apply Nat.ltb_ge; lia]. }
    cbn [mbind option_bind].
    replace (String.length p + String.length x - String.length x) with (String.length p) by lia.
    rewrite substring_app. destruct (String.length p =? 0) eqn:Hl; [|done].
    apply Nat.eqb_eq in Hl. by destruct p.
Qed.

(** What is written is read back, and is no shorter. *)
Lemma parse_escape_string n s :
  utf8_loop n s = true →
  String.length s ≤ String.length (escape_string n s)
  ∧ ∀ fuel rest, String.length s < fuel →
      parse_string fuel (escape_string n s +:+ String quote rest) = Some (s, rest).
Proof.
  revert s. induction n as [|n IH]; intros [|c s] Hv; try done;
    try (split; [simpl; lia|]; intros [|fuel] rest Hf; [lia|done]).
  cbn [utf8_loop] in Hv. destruct (byte_val c <? 128) eqn:Hc.
  - apply IH in Hv as [Hl Hp]. cbn [escape_string]. rewrite Hc, length_app_string. split.
    + assert (1 ≤ String.length (escape_ascii c))
        by (clear; destruct c as [[] [] [] [] [] [] [] []]; simpl; lia). simpl. lia.
    + intros [|fuel] rest Hf; [lia|]. rewrite app_assoc, parse_escaped by done.
      rewrite Hp by (simpl in Hf; lia). done.
  - apply andb_true_iff in Hv as [Hw Hv].
    destruct (rune_rest_cuts c s) as [E|(p & Hp0 & E & Hcut)]; [by rewrite E, Nat.eqb_refl in Hw|].
    remember (rune_rest c s) as r eqn:Hr. subst s. clear Hr Hw. apply IH in Hv as [Hl Hp].
    destruct (escape_rune n c p r Hc Hp0 (Hcut r)) as (e & -> & He & Hcases).
    rewrite !length_app_string. split; [simpl; rewrite length_app_string; lia|].
    intros [|fuel] rest Hf; [lia|]. rewrite app_assoc.
    apply (parse_rune fuel c p e); [done..|]. apply Hp. simpl in Hf. rewrite length_app_string in Hf.
    destruct p; [done|]. simpl in Hf. lia.
Qed.

Lemma parse_quoted s rest :
  utf8_valid s = true →
  ∃ r, json_quote s +:+ rest = String quote r ∧ parse_string (String.length r) r = Some (s, rest).
Proof.
  intros [Hl Hp]%parse_escape_string. eexists. split; [unfold json_quote; by rewrite app_cons|].
  rewrite app_assoc. apply Hp. rewrite !length_app_string. simpl. lia.
Qed.

(** Numbers: the literal of an integer. *)
Definition number_ok (lit : string) : Prop :=
  (∀ rest, delimited rest → parse_number (lit +:+ rest) = Some (lit, rest))
  ∧ match lit with
    | EmptyString => False
    | String c _ => in_range "0" "9" c = true ∨ c = "-"%char
    end.

(** ** Documents that can be read back: valid UTF-8 strings, numbers in the syntax. *)
Fixpoint readable (v : json) : Prop :=
  match v with
  | JNull | JBool _ => True
  | JNumber lit => number_ok lit
  | JString s => utf8_valid s = true
  | JArray l => foldr (λ x P, readable x ∧ P) True l
  | JObject ms => foldr (λ kv P, (utf8_valid kv.1 = true ∧ readable kv.2) ∧ P) True ms
  end.

Fixpoint cost (v : json) : nat :=
  match v with
  | JArray l => S (foldr (λ x n, S (cost x + n)) 0 l)
  | JObject ms => S (foldr (λ kv n, S (cost kv.2 + n)) 0 ms)
  | _ => 1
  end.

Fixpoint json_ind_nested (P : json → Prop)
    (Hnull : P JNull) (Hbool : ∀ b, P (JBool b)) (Hnum : ∀ lit, P (JNumber lit))
    (Hstr : ∀ s, P (JString s)) (Harr : ∀ l, Forall P l → P (JArray l))
    (Hobj : ∀ ms, Forall (λ kv, P kv.2) ms → P (JObject ms)) (v : json) : P v :=
  let IH := json_ind_nested P Hnull Hbool Hnum Hstr Harr Hobj in
  match v with
  | JNull => Hnull
  | JBool b => Hbool b
  | JNumber lit => Hnum lit
  | JString s => Hstr s
  | JArray l => Harr l ((fix go l := match l return Forall P l with
                                     | [] => Forall_nil_2 _
                                     | x :: l => Forall_cons_2 _ _ _ (IH x) (go l)
                                     end) l)
  | JObject ms => Hobj ms ((fix go ms := match ms return Forall (λ kv, P kv.2) ms with
                                         | [] => Forall_nil_2 _
                                         | kv :: ms => Forall_cons_2 _ _ _ (IH kv.2) (go ms)
                                         end) ms)
  end.

Section reading.
Context (nl : nat → string) (sp : string).
Context (Hnl : ∀ d, white (nl d) = true) (Hsp : white sp = true).
Abbreviation print := (json_print nl sp).

Definition elements_tail (d : nat) : list json → string :=
  fix go l :=
    match l with
    | [] => nl d +:+ "]"
    | x :: l => String "," (nl (S d) +:+ print (S d) x +:+ go l)
    end.
Definition members_tail (d : nat) : list (string * json) → string :=
  fix go ms :=
    match ms with
    | [] => nl d +:+ "}"
    | (k, x) :: ms =>
        String "," (nl (S d) +:+ json_quote k +:+ String ":" (sp +:+ print (S d) x +:+ go ms))
    end.

Lemma print_array d x l :
  print d (JArray (x :: l)) = String "[" (nl (S d) +:+ print (S d) x +:+ elements_tail d l).
Proof. done. Qed.
Lemma print_object d k x ms :
  print d (JObject ((k, x) :: ms)) =
  String "{" (nl (S d) +:+ json_quote k +:+ String ":" (sp +:+ print (S d) x +:+ members_tail d ms)).
Proof. done. Qed.

(** What a printed value starts with. *)
Lemma print_head d v :
  readable v → ∃ c r, print d v = String c r ∧ is_ws c = false ∧ c ≠ "]"%char.
Proof.
  destruct v as [|[]|lit|s|[|x l]|[|[k x] ms]]; simpl; intros Hr; try by eexists _, _.
  destruct Hr as [_ Hr]. destruct lit as [|c r]; [done|]. exists c, r. split; [done|].
  destruct Hr as [Hc| ->]; [|by split]. by destruct c as [[] [] [] [] [] [] [] []]; try done; split.
Qed.

Lemma not_rbracket {A} s c r (a : string → A) (b : A) :
  skip_ws s = String c r → c ≠ "]"%char →
  match skip_ws s with String "]" r' => a r' | _ => b end = b.
Proof. intros ->. by destruct c as [[] [] [] [] [] [] [] []]. Qed.

Lemma tail_delimited d l rest : delimited (elements_tail d l +:+ rest).
Proof.
  destruct l; simpl; [|done]. rewrite app_assoc. by apply delimited_app.
Qed.
Lemma mtail_delimited d ms rest : delimited (members_tail d ms +:+ rest).
Proof.
  destruct ms as [|[k x] ms]; simpl; [|done]. rewrite app_assoc. by apply delimited_app.
Qed.

(** A value is read back wherever it stands. *)
Definition reads_back (v : json) : Prop :=
  readable v → ∀ d fuel w rest, white w = true → delimited rest → cost v ≤ fuel →
  parse_value fuel (w +:+ print d v +:+ rest) = Some (v, rest).

Lemma read_elements x l d fuel w rest :
  reads_back x → Forall reads_back l → readable x → readable (JArray l) →
  white w = true → cost x + foldr (λ x n, S (cost x + n)) 0 l < fuel →
  parse_elements fuel (w +:+ print (S d) x +:+ elements_tail d l +:+ rest) = Some (x :: l, rest).
Proof.
  intros Hx Hl. revert x Hx fuel w. induction Hl as [|y l Hy Hl IH];
    intros x Hx fuel w Hrx Hrl Hw Hf; (destruct fuel as [|fuel]; [lia|]); cbn [parse_elements].
  - rewrite Hx; [|done|done|apply (tail_delimited d [])|simpl in Hf; lia].
    cbn [mbind option_bind elements_tail]. rewrite app_assoc, skip_ws_app by done.
    by rewrite app_cons, skip_ws_cons.
  - rewrite Hx; [|done|done|apply tail_delimited|simpl in Hf; lia].
    cbn [mbind option_bind elements_tail]. rewrite app_cons, skip_ws_cons by done.
    destruct Hrl as [Hry Hrl]. rewrite !app_assoc.
    rewrite IH; [done|done|done|done|apply Hnl|simpl in Hf; lia].
Qed.

Lemma read_members k x ms d fuel w rest :
  reads_back x → Forall (λ kv, reads_back kv.2) ms →
  utf8_valid k = true → readable x → readable (JObject ms) →
  white w = true → cost x + foldr (λ kv n, S (cost kv.2 + n)) 0 ms < fuel →
  parse_members fuel
    (w +:+ json_quote k +:+ String ":" (sp +:+ print (S d) x +:+ members_tail d ms +:+ rest))
  = Some ((k, x) :: ms, rest).
Proof.
  intros Hx Hms. revert k x Hx fuel w. induction Hms as [|[k' y] ms Hy Hms IH];
    intros k x Hx fuel w Hk Hrx Hrm Hw Hf; (destruct fuel as [|fuel]; [lia|]);
    cbn [parse_members]; rewrite skip_ws_app by done;
    (match goal with |- context [json_quote k +:+ ?r] =>
       destruct (parse_quoted k r Hk) as (q & -> & Hq) end);
    rewrite skip_ws_cons by done; rewrite Ascii.eqb_refl, Hq; cbn [mbind option_bind];
    rewrite skip_ws_cons by done.
  - rewrite Hx; [|done|done|apply (mtail_delimited d [])|simpl in Hf; lia].
    cbn [mbind option_bind members_tail]. rewrite app_assoc, skip_ws_app by done.
    by rewrite app_cons, skip_ws_cons.
  - rewrite Hx; [|done|done|apply mtail_delimited|simpl in Hf; lia].
    cbn [mbind option_bind members_tail]. rewrite app_cons, skip_ws_cons by done.
    destruct Hrm as [[Hk' Hry] Hrm]. rewrite !app_assoc, !app_cons, !app_assoc.
    rewrite IH; [done|done|done|done|done|apply Hnl|simpl in Hf; lia].
Qed.

Lemma read_value v : reads_back v.
Proof.
  induction v as [|b|lit|s|l IH|ms IH] using json_ind_nested;
    intros Hr d fuel w rest Hw Hd Hf; (destruct fuel as [|fuel]; [simpl in Hf; lia|]);
    cbn [parse_value]; rewrite skip_ws_app by done.
  - cbn [json_print]. by rewrite app_cons, skip_ws_cons.
  - by destruct b; cbn [json_print]; rewrite app_cons, skip_ws_cons.
  - destruct Hr as [Hn Hc]. specialize (Hn rest Hd). cbn [json_print]. destruct lit as [|c lit]; [done|].
    rewrite app_cons in Hn |- *. 
    destruct Hc as [Hc| ->]; [|by rewrite skip_ws_cons, Hn].
    destruct c as [[] [] [] [] [] [] [] []]; try done; by rewrite skip_ws_cons, Hn.
  - destruct (parse_quoted s rest Hr) as (q & Hq & Hp). cbn [json_print].
    rewrite Hq, skip_ws_cons by done. cbn. by rewrite Hp.
  - destruct l as [|x l]; [cbn [json_print]; by rewrite app_cons, skip_ws_cons|].
    apply Forall_cons in IH as [Hx Hl]. destruct Hr as [Hrx Hrl].
    rewrite print_array, app_cons, skip_ws_cons by done. rewrite !app_assoc, skip_ws_app by apply Hnl.
    destruct (print_head (S d) x Hrx) as (c & r & Hh & Hc & Hb).
    assert (skip_ws (print (S d) x +:+ elements_tail d l +:+ rest)
      = String c (r +:+ elements_tail d l +:+ rest)) as Hskip
      by (by rewrite Hh, app_cons, skip_ws_cons).
    rewrite (not_rbracket _ _ _ _ _ Hskip Hb).
    rewrite read_elements; [done|done|done|done|done|apply Hnl|simpl in Hf; lia].
  - destruct ms as [|[k x] ms]; [cbn [json_print]; by rewrite app_cons, skip_ws_cons|].
    apply Forall_cons in IH as [Hx Hms]. destruct Hr as [[Hk Hrx] Hrm].
    rewrite print_object, app_cons, skip_ws_cons by done.
    rewrite !app_assoc, !app_cons, !app_assoc, skip_ws_app by apply Hnl.
    assert (∀ A (a : string → A) b, match skip_ws (json_quote k +:+ String ":" (sp +:+ print (S d) x
      +:+ members_tail d ms +:+ rest)) with String "}" r' => a r' | _ => b end = b) as ->.
    { intros. unfold json_quote. by rewrite app_cons, skip_ws_cons. }
    rewrite read_members; [done|done|done|done|done|done|apply Hnl|simpl in Hf; lia].
Qed.
End reading.

Lemma cost_length nl sp d v : readable v → cost v ≤ String.length (json_print nl sp d v).
Proof.
  revert d. induction v as [|b|lit|s|l IH|ms IH] using json_ind_nested; intros d Hr.
  - simpl; lia.
  - destruct b; simpl; lia.
  - destruct Hr as [_ Hl]. destruct lit; [done|]. simpl; lia.
  - simpl. lia.
  - destruct l as [|x l]; [simpl; lia|]. apply Forall_cons in IH as [Hx Hl]. destruct Hr as [Hrx Hrl].
    rewrite print_array. cbn [String.length cost foldr]. rewrite !length_app_string.
    specialize (Hx (S d) Hrx).
    assert (foldr (λ x n, S (cost x + n)) 0 l < String.length (elements_tail nl sp d l)); [|lia].
    clear Hx. induction Hl as [|y l Hy Hl IHl];
      [cbn [elements_tail]; rewrite length_app_string; simpl; lia|]. destruct Hrl as [Hry Hrl].
    change (elements_tail nl sp d (y :: l))
      with (String "," (nl (S d) +:+ json_print nl sp (S d) y +:+ elements_tail nl sp d l)).
    cbn [foldr String.length]. rewrite !length_app_string.
    specialize (Hy (S d) Hry). specialize (IHl Hrl). lia.
  - destruct ms as [|[k x] ms]; [simpl; lia|]. apply Forall_cons in IH as [Hx Hl].
    destruct Hr as [[_ Hrx] Hrl].
    rewrite print_object. cbn [String.length cost foldr]. rewrite !length_app_string.
    cbn [String.length]. rewrite !length_app_string. specialize (Hx (S d) Hrx).
    assert (foldr (λ kv n, S (cost kv.2 + n)) 0 ms < String.length (members_tail nl sp d ms));
      [|simpl in *; lia].
    clear Hx. induction Hl as [|[k' y] ms Hy Hl IHl];
      [cbn [members_tail]; rewrite length_app_string; simpl; lia|]. destruct Hrl as [[_ Hry] Hrl].
    change (members_tail nl sp d ((k', y) :: ms))
      with (String "," (nl (S d) +:+ json_quote k' +:+
              String ":" (sp +:+ json_print nl sp (S d) y +:+ members_tail nl sp d ms))).
    cbn [foldr String.length]. rewrite !length_app_string. cbn [String.length snd].
    rewrite !length_app_string. specialize (Hy (S d) Hry). specialize (IHl Hrl).
    cbn [snd] in Hy. lia.
Qed.

Lemma json_parse_print nl sp v tail :
  (∀ d, white (nl d) = true) → white sp = true → white tail = true →
  readable v → (N.of_nat (nesting v) ≤ maxNestingDepth)%N →
  json_parse (json_print nl sp 0 v +:+ tail) = Some v.
Proof.
  intros Hnl Hsp Ht Hr Hn. unfold json_parse.
  assert (delimited tail) as Hd by (rewrite <- (app_nil_r tail); by apply delimited_app).
  rewrite <- (app_nil_l (json_print nl sp 0 v +:+ tail)) at 2.
  rewrite read_value; [|done..|].
  2:{ rewrite length_app_string. pose proof (cost_length nl sp 0 v Hr). lia. }
  simpl. rewrite <- (app_nil_r tail), skip_ws_app by done. cbn.
  by rewrite (proj2 (N.leb_le _ _) Hn).
Qed.

(** What an [Encoder] or [Marshal] writes is valid and stands for the document. *)
Lemma json_parse_indent v :
  readable v → (N.of_nat (nesting v) ≤ maxNestingDepth)%N → json_parse (json_indent v) = Some v.
Proof.
  apply json_parse_print; [|done|done]. intros d. unfold indent_nl. simpl.
  by induction d as [|d IH].
Qed.

Lemma json_parse_compact v :
  readable v → (N.of_nat (nesting v) ≤ maxNestingDepth)%N → json_parse (json_compact v) = Some v.
Proof.
  intros Hr Hn. unfold json_compact. rewrite <- (app_nil_r (json_print _ _ _ _)).
  by apply json_parse_print.
Qed.

(** ** Integers *)

Definition json_int (n : Z) : json := JNumber (Itoa n).

Lemma span_digits_app ds rest :
  all_digits ds = true → (match rest with String c _ => in_range "0" "9" c = false | _ => True end) →
  span_digits (ds +:+ rest) = (ds, rest).
Proof.
  intros Hd Hr. induction ds as [|c ds IH].
  - rewrite app_nil_l. destruct rest as [|c r]; [done|]. simpl. by rewrite Hr.
  - rewrite app_cons. simpl in Hd |- *. apply andb_true_iff in Hd as [-> Hd]. by rewrite (IH Hd).
Qed.

Lemma delimited_not_digit rest :
  delimited rest → match rest with String c _ => in_range "0" "9" c = false | _ => True end.
Proof. destruct rest as [|c r]; [done|]. simpl. by destruct c as [[] [] [] [] [] [] [] []]. Qed.

Lemma delimited_end rest :
  delimited rest → parse_fraction rest = Some ("", rest) ∧ parse_exponent rest = Some ("", rest).
Proof. destruct rest as [|c r]; [done|]. simpl. by destruct c as [[] [] [] [] [] [] [] []]. Qed.

Lemma parse_int_part_decimal n ds rest :
  decimal n ds → delimited rest → parse_int_part (ds +:+ rest) = Some (ds, rest).
Proof.
  intros (Hd & (c & r & -> & Hz) & _) Hr. destruct (decide (c = "0"%char)) as [->|Hne].
  - rewrite (Hz eq_refl). done.
  - pose proof (span_digits_app (String c r) rest Hd (delimited_not_digit _ Hr)) as Hs.
    assert (parse_int_part (String c r +:+ rest) = digits1 (String c r +:+ rest)) as ->.
    { rewrite app_cons. by destruct c as [[] [] [] [] [] [] [] []]. }
    unfold digits1. by rewrite Hs.
Qed.

Lemma number_ok_Itoa n : (- 10 ^ 20 < n < 10 ^ 20)%Z → number_ok (Itoa n).
Proof.
  intros Hn. unfold number_ok, parse_number. destruct (Z.ltb_spec n 0) as [Hneg|Hpos].
  - destruct (Itoa_negative n ltac:(lia)) as (ds & -> & Hd). split; [|by right].
    intros rest Hr. rewrite app_cons. rewrite (parse_int_part_decimal _ _ _ Hd Hr). simpl.
    destruct (delimited_end rest Hr) as [Hfr Hex]. rewrite Hfr. simpl. rewrite Hex. simpl. rewrite ?app_nil_r, ?app_nil_l.
    by rewrite app_cons, app_nil_l.
  - pose proof (Itoa_decimal n ltac:(lia)) as Hd. pose proof Hd as (Hall & (c & r & Heq & _) & _).
    rewrite Heq in Hall. apply andb_true_iff in Hall as [Hc Hall]. rewrite Heq in Hd |- *.
    split; [|by left].
    intros rest Hr. rewrite app_cons.
    assert (match String c (r +:+ rest) with
      | String "-" r0 => ("-", r0) | _ => ("", String c (r +:+ rest))
      end = ("", String c (r +:+ rest))) as -> by (by destruct c as [[] [] [] [] [] [] [] []]).
    rewrite <- app_cons, (parse_int_part_decimal _ _ _ Hd Hr). simpl.
    destruct (delimited_end rest Hr) as [Hfr Hex]. rewrite Hfr. simpl. rewrite Hex. simpl. by rewrite ?app_nil_r, ?app_nil_l.
Qed.
