(* ===== verification/SpecJson.v ===== *)
(** * The bundle's config.json

    [json.Encoder.Encode] of a container specification, with the field names, the
    order and the [omitempty] options of the structs of runtime-spec, and the
    decoding of such a document back into a specification.  Pointers that bpm
    always sets (process, capabilities, linux, resources) are always written. *)

From S2P Require Import Prelude GoStrings Specs Json.
From Stdlib Require Import Ascii.

(** ** Fields *)

Abbreviation members := (list (string * json)).

Definition req (k : string) (v : json) : members := [(k, v)].
(** Fields with [omitempty]. *)
Definition opt_string (k s : string) : members :=
  if String.eqb s "" then [] else [(k, JString s)].
Definition opt_list (k : string) (l : list json) : members :=
  match l with [] => [] | _ => [(k, JArray l)] end.
Definition opt_strings (k : string) (l : list string) : members := opt_list k (JString <$> l).
Definition opt_int (k : string) (n : option Z) : members :=
  match n with Some n => [(k, json_int n)] | None => [] end.

(** ** The structs *)

Definition user_json (u : User) : json :=
  JObject (req "uid" (json_int (u_uid u)) ++ req "gid" (json_int (u_gid u))
           ++ opt_string "username" (u_name u)).

Definition capabilities_json (c : LinuxCapabilities) : json :=
  JObject (opt_strings "bounding" (Bounding c) ++ opt_strings "effective" (Effective c)
           ++ opt_strings "inheritable" (Inheritable c) ++ opt_strings "permitted" (Permitted c)
           ++ opt_strings "ambient" (Ambient c)).

Definition rlimit_json (r : POSIXRlimit) : json :=
  JObject (req "type" (JString (rl_type r)) ++ req "hard" (json_int (rl_hard r))
           ++ req "soft" (json_int (rl_soft r))).

Definition process_json (p : SpecProcess) : json :=
  JObject (req "user" (user_json (sp_user p)) ++ opt_strings "args" (sp_args p)
           ++ opt_strings "env" (sp_env p) ++ req "cwd" (JString (sp_cwd p))
           ++ req "capabilities" (capabilities_json (sp_capabilities p))
           ++ opt_list "rlimits" (rlimit_json <$> sp_rlimits p)
           ++ (if sp_noNewPrivileges p then req "noNewPrivileges" (JBool true) else [])).

Definition mount_json (m : Mount) : json :=
  JObject (req "destination" (JString (m_destination m)) ++ opt_string "type" (m_type m)
           ++ opt_string "source" (m_source m) ++ opt_strings "options" (m_options m)).

Definition seccomp_arg_json (a : LinuxSeccompArg) : json :=
  JObject (req "index" (json_int (sa_index a)) ++ req "value" (json_int (sa_value a))
           ++ (if (sa_valueTwo a =? 0)%Z then [] else req "valueTwo" (json_int (sa_valueTwo a)))
           ++ req "op" (JString (sa_op a))).

Definition syscall_json (s : LinuxSyscall) : json :=
  JObject (req "names" (JArray (JString <$> sc_names s)) ++ req "action" (JString (sc_action s))
           ++ opt_int "errnoRet" (sc_errnoRet s)
           ++ opt_list "args" (seccomp_arg_json <$> sc_args s)).

Definition seccomp_json (s : LinuxSeccomp) : json :=
  JObject (req "defaultAction" (JString (se_defaultAction s))
           ++ opt_strings "architectures" (se_architectures s)
           ++ opt_list "syscalls" (syscall_json <$> se_syscalls s)).

Definition resources_json (r : LinuxResources) : json :=
  JObject (match res_memory r with
           | Some m => req "memory" (JObject (opt_int "limit" (mem_limit m) ++ opt_int "swap" (mem_swap m)))
           | None => []
           end
           ++ match res_pids r with
              | Some n => req "pids" (JObject (req "limit" (json_int n)))
              | None => []
              end).

Definition linux_json (l : SpecLinux) : json :=
  JObject (req "resources" (resources_json (li_resources l))
           ++ opt_string "cgroupsPath" (li_cgroupsPath l)
           ++ opt_list "namespaces" ((λ t, JObject (req "type" (JString t))) <$> li_namespaces l)
           ++ match li_seccomp l with Some s => req "seccomp" (seccomp_json s) | None => [] end
           ++ opt_string "rootfsPropagation" (li_rootfsPropagation l)
           ++ opt_strings "maskedPaths" (li_maskedPaths l)
           ++ opt_strings "readonlyPaths" (li_readonlyPaths l)).

Definition spec_json (s : Spec) : json :=
  JObject (req "ociVersion" (JString (s_version s)) ++ req "process" (process_json (s_process s))
           ++ match s_root s with
              | Some path => req "root" (JObject (req "path" (JString path)))
              | None => []
              end
           ++ opt_list "mounts" (mount_json <$> s_mounts s)
           ++ req "linux" (linux_json (s_linux s))).

(** What is written to config.json. *)
Definition Encode_Spec (s : Spec) : string := json_indent (spec_json s).

(** ** Reading it *)

Fixpoint assoc (k : string) (ms : members) : option json :=
  match ms with
  | [] => None
  | (k', v) :: ms => if String.eqb k' k then Some v else assoc k ms
  end.
Definition field (k : string) (v : json) : option json :=
  match v with JObject ms => assoc k ms | _ => None end.

Definition as_string (v : json) : string := match v with JString s => s | _ => "" end.
Definition as_list {A} (f : json → A) (v : json) : list A :=
  match v with JArray l => f <$> l | _ => [] end.
Definition as_int (v : json) : Z :=
  match v with
  | JNumber (String "-" ds) => - default 0 (atoi_digits 0 ds)
  | JNumber ds => default 0 (atoi_digits 0 ds)
  | _ => 0
  end%Z.

(** A missing field has the zero value. *)
Definition get {A} (zero : A) (f : json → A) (k : string) (v : json) : A :=
  default zero (f <$> field k v).
Abbreviation get_string := (get "" as_string).
Abbreviation get_strings := (get [] (as_list as_string)).
Abbreviation get_int := (get 0%Z as_int).
Abbreviation get_opt f k v := (f <$> field k v).

Definition user_of_json (v : json) : User :=
  mkUser (get_int "uid" v) (get_int "gid" v) (get_string "username" v).
Definition capabilities_of_json (v : json) : LinuxCapabilities :=
  mkCaps (get_strings "ambient" v) (get_strings "bounding" v) (get_strings "effective" v)
    (get_strings "inheritable" v) (get_strings "permitted" v).
Definition rlimit_of_json (v : json) : POSIXRlimit :=
  mkRlimit (get_string "type" v) (get_int "hard" v) (get_int "soft" v).
Definition process_of_json (v : json) : SpecProcess :=
  mkSpecProcess (user_of_json (default JNull (field "user" v))) (get_strings "args" v)
    (get_strings "env" v) (get_string "cwd" v)
    (capabilities_of_json (default JNull (field "capabilities" v)))
    (get [] (as_list rlimit_of_json) "rlimits" v)
    (match field "noNewPrivileges" v with Some (JBool b) => b | _ => false end).
Definition mount_of_json (v : json) : Mount :=
  mkMount (get_string "destination" v) (get_string "type" v) (get_string "source" v)
    (get_strings "options" v).
Definition seccomp_arg_of_json (v : json) : LinuxSeccompArg :=
  mkSeccompArg (get_int "index" v) (get_int "value" v) (get_int "valueTwo" v) (get_string "op" v).
Definition syscall_of_json (v : json) : LinuxSyscall :=
  mkSyscall (get_strings "names" v) (get_string "action" v) (get_opt as_int "errnoRet" v)
    (get [] (as_list seccomp_arg_of_json) "args" v).
Definition seccomp_of_json (v : json) : LinuxSeccomp :=
  mkSeccomp (get_string "defaultAction" v) (get_strings "architectures" v)
    (get [] (as_list syscall_of_json) "syscalls" v).
Definition memory_of_json (v : json) : LinuxMemory :=
  mkMemory (get_opt as_int "limit" v) (get_opt as_int "swap" v).
Definition resources_of_json (v : json) : LinuxResources :=
  mkResources (get_opt memory_of_json "memory" v) (get_opt (get_int "limit") "pids" v).
Definition linux_of_json (v : json) : SpecLinux :=
  mkSpecLinux (get_strings "maskedPaths" v) (get_strings "readonlyPaths" v)
    (resources_of_json (default JNull (field "resources" v))) (get_string "rootfsPropagation" v)
    (get_opt seccomp_of_json "seccomp" v) (get [] (as_list (get_string "type")) "namespaces" v)
    (get_string "cgroupsPath" v).
Definition spec_of_json (v : json) : Spec :=
  mkSpec (get_string "ociVersion" v) (process_of_json (default JNull (field "process" v)))
    (get_opt (get_string "path") "root" v) (get [] (as_list mount_of_json) "mounts" v)
    (linux_of_json (default JNull (field "linux" v))).

(** ** Round trip *)

Section lookup.
Implicit Types (k s : string) (ms : members).

Lemma assoc_app k ms1 ms2 :
  assoc k (ms1 ++ ms2) = match assoc k ms1 with Some v => Some v | None => assoc k ms2 end.
Proof.
  induction ms1 as [|[k' v] ms1 IH]; [done|]. simpl. by destruct (String.eqb k' k).
Qed.
Lemma assoc_req k k' v : assoc k (req k' v) = if String.eqb k' k then Some v else None.
Proof. done. Qed.
Lemma assoc_opt_string k k' s :
  assoc k (opt_string k' s)
  = if String.eqb k' k then (if String.eqb s "" then None else Some (JString s)) else None.
Proof. unfold opt_string. destruct (String.eqb s ""); simpl; by destruct (String.eqb k' k). Qed.
Lemma assoc_opt_list k k' l :
  assoc k (opt_list k' l)
  = if String.eqb k' k then (match l with [] => None | _ => Some (JArray l) end) else None.
Proof. destruct l; simpl; by destruct (String.eqb k' k). Qed.
Lemma assoc_opt_int k k' n :
  assoc k (opt_int k' n) = if String.eqb k' k then json_int <$> n else None.
Proof. destruct n; simpl; by destruct (String.eqb k' k). Qed.
End lookup.

(** Integers whose decimal notation has at most 20 digits: all 64-bit ones. *)
Definition int_ok (n : Z) : Prop := (- 10 ^ 20 < n < 10 ^ 20)%Z.

Lemma as_int_json_int n : int_ok n → as_int (json_int n) = n.
Proof.
  intros Hn. unfold json_int. destruct (Z.ltb_spec n 0) as [Hneg|Hpos].
  - destruct (Itoa_negative n) as (ds & -> & Hd); [unfold int_ok in Hn; lia|].
    simpl. rewrite (atoi_decimal _ _ Hd). simpl. lia.
  - pose proof (Itoa_decimal n) as Hd. destruct Hd as [Hall Hrest]; [unfold int_ok in Hn; lia|].
    pose proof (atoi_decimal n (Itoa n) (conj Hall Hrest)) as Hv.
    destruct Hrest as ((c & r & Heq & _) & _). rewrite Heq in Hv, Hall |- *.
    apply andb_true_iff in Hall as [Hc _].
    assert (as_int (JNumber (String c r)) = default 0%Z (atoi_digits 0 (String c r))) as ->
      by (by destruct c as [[] [] [] [] [] [] [] []]).
    by rewrite Hv.
Qed.

Lemma read_opt_string s :
  default "" (as_string <$> (if String.eqb s "" then None else Some (JString s))) = s.
Proof. destruct (String.eqb_spec s ""); by subst. Qed.
Lemma as_list_map {A} (f : json → A) (g : A → json) (l : list A) :
  Forall (λ x, f (g x) = x) l → f <$> (g <$> l) = l.
Proof. induction 1 as [|x l Hx Hl IH]; [done|]. rewrite !fmap_cons. by rewrite Hx, IH. Qed.
Lemma read_opt_list {A} (f : json → A) (g : A → json) (l : list A) :
  Forall (λ x, f (g x) = x) l →
  default [] (as_list f <$> (match g <$> l with [] => None | _ => Some (JArray (g <$> l)) end)) = l.
Proof.
  intros Hl. destruct l as [|x l]; [done|]. rewrite fmap_cons. simpl.
  apply (as_list_map f g) in Hl. by rewrite fmap_cons in Hl.
Qed.
Lemma read_opt_strings (l : list string) :
  default [] (as_list as_string <$>
    (match JString <$> l with [] => None | _ => Some (JArray (JString <$> l)) end)) = l.
Proof. apply read_opt_list. by apply Forall_true. Qed.
Lemma read_opt_int n : (∀ z, n = Some z → int_ok z) → as_int <$> (json_int <$> n) = n.
Proof.
  destruct n as [z|]; [|done]. intros Hz. change (Some (as_int (json_int z)) = Some z).
  by rewrite as_int_json_int by auto.
Qed.
Lemma match_option_id {A} (o : option A) : match o with Some v => Some v | None => None end = o.
Proof. by destruct o. Qed.

(** Looks up every field of a concrete list of members. *)
Ltac read_fields :=
  unfold get, field, opt_strings;
  repeat rewrite ?assoc_app, ?assoc_req, ?assoc_opt_string, ?assoc_opt_list, ?assoc_opt_int;
  cbn [String.eqb Ascii.eqb Bool.eqb assoc];
  rewrite ?match_option_id, ?read_opt_string, ?read_opt_strings;
  cbn [fmap option_fmap option_map from_option id].

(** ** Specifications that survive: valid UTF-8 strings and 64-bit integers *)

Definition plain (s : string) : Prop := utf8_valid s = true.
Definition opt_int_ok (n : option Z) : Prop := ∀ z, n = Some z → int_ok z.

Definition user_ok (u : User) : Prop := int_ok (u_uid u) ∧ int_ok (u_gid u) ∧ plain (u_name u).
Definition capabilities_ok (c : LinuxCapabilities) : Prop :=
  Forall plain (Bounding c) ∧ Forall plain (Effective c) ∧ Forall plain (Inheritable c)
  ∧ Forall plain (Permitted c) ∧ Forall plain (Ambient c).
Definition rlimit_ok (r : POSIXRlimit) : Prop :=
  plain (rl_type r) ∧ int_ok (rl_hard r) ∧ int_ok (rl_soft r).
Definition process_ok (p : SpecProcess) : Prop :=
  user_ok (sp_user p) ∧ Forall plain (sp_args p) ∧ Forall plain (sp_env p) ∧ plain (sp_cwd p)
  ∧ capabilities_ok (sp_capabilities p) ∧ Forall rlimit_ok (sp_rlimits p).
Definition mount_ok (m : Mount) : Prop :=
  plain (m_destination m) ∧ plain (m_type m) ∧ plain (m_source m) ∧ Forall plain (m_options m).
Definition seccomp_arg_ok (a : LinuxSeccompArg) : Prop :=
  int_ok (sa_index a) ∧ int_ok (sa_value a) ∧ int_ok (sa_valueTwo a) ∧ plain (sa_op a).
Definition syscall_ok (s : LinuxSyscall) : Prop :=
  Forall plain (sc_names s) ∧ plain (sc_action s) ∧ opt_int_ok (sc_errnoRet s)
  ∧ Forall seccomp_arg_ok (sc_args s).
Definition seccomp_ok (s : LinuxSeccomp) : Prop :=
  plain (se_defaultAction s) ∧ Forall plain (se_architectures s)
  ∧ Forall syscall_ok (se_syscalls s).
Definition resources_ok (r : LinuxResources) : Prop :=
  (∀ m, res_memory r = Some m → opt_int_ok (mem_limit m) ∧ opt_int_ok (mem_swap m))
  ∧ opt_int_ok (res_pids r).
Definition linux_ok (l : SpecLinux) : Prop :=
  resources_ok (li_resources l) ∧ plain (li_cgroupsPath l) ∧ Forall plain (li_namespaces l)
  ∧ (∀ s, li_seccomp l = Some s → seccomp_ok s) ∧ plain (li_rootfsPropagation l)
  ∧ Forall plain (li_maskedPaths l) ∧ Forall plain (li_readonlyPaths l).
Definition spec_ok (s : Spec) : Prop :=
  plain (s_version s) ∧ process_ok (s_process s) ∧ (∀ p, s_root s = Some p → plain p)
  ∧ Forall mount_ok (s_mounts s) ∧ linux_ok (s_linux s).

Lemma read_user u : user_ok u → user_of_json (user_json u) = u.
Proof.
  intros (H1 & H2 & _). unfold user_of_json, user_json. read_fields.
  rewrite !as_int_json_int by done. by destruct u.
Qed.
Lemma read_capabilities c : capabilities_of_json (capabilities_json c) = c.
Proof. unfold capabilities_of_json, capabilities_json. read_fields. by destruct c. Qed.
Lemma read_rlimit r : rlimit_ok r → rlimit_of_json (rlimit_json r) = r.
Proof.
  intros (_ & H1 & H2). unfold rlimit_of_json, rlimit_json. read_fields.
  rewrite !as_int_json_int by done. by destruct r.
Qed.
Lemma read_process p : process_ok p → process_of_json (process_json p) = p.
Proof.
  intros (Hu & _ & _ & _ & _ & Hr). unfold process_of_json, process_json.
  destruct (sp_noNewPrivileges p) eqn:Hn; read_fields;
    rewrite read_user, read_capabilities, read_opt_list by
      (done || (eapply Forall_impl; [exact Hr|]; apply read_rlimit));
    destruct p; simpl in *; by subst.
Qed.
Lemma read_mount m : mount_of_json (mount_json m) = m.
Proof. unfold mount_of_json, mount_json. read_fields. by destruct m. Qed.
Lemma read_seccomp_arg a : seccomp_arg_ok a → seccomp_arg_of_json (seccomp_arg_json a) = a.
Proof.
  intros (H1 & H2 & H3 & _). unfold seccomp_arg_of_json, seccomp_arg_json.
  destruct (Z.eqb_spec (sa_valueTwo a) 0); read_fields; rewrite !as_int_json_int by done;
    destruct a; simpl in *; by subst.
Qed.
Lemma read_syscall s : syscall_ok s → syscall_of_json (syscall_json s) = s.
Proof.
  intros (_ & _ & He & Ha). unfold syscall_of_json, syscall_json. read_fields.
  rewrite read_opt_int by done. rewrite read_opt_list by
    (eapply Forall_impl; [exact Ha|]; apply read_seccomp_arg).
  cbn [as_list]. rewrite as_list_map by by apply Forall_true. by destruct s.
Qed.
Lemma read_seccomp s : seccomp_ok s → seccomp_of_json (seccomp_json s) = s.
Proof.
  intros (_ & _ & Hs). unfold seccomp_of_json, seccomp_json. read_fields.
  rewrite read_opt_list by (eapply Forall_impl; [exact Hs|]; apply read_syscall). by destruct s.
Qed.
Lemma read_resources r : resources_ok r → resources_of_json (resources_json r) = r.
Proof.
  intros [Hm Hp]. unfold resources_of_json, resources_json. destruct r as [m p]; simpl in *.
  assert (∀ m, opt_int_ok (mem_limit m) ∧ opt_int_ok (mem_swap m) →
    memory_of_json (JObject (opt_int "limit" (mem_limit m) ++ opt_int "swap" (mem_swap m))) = m) as HM.
  { intros [l w] [Hl Hw]. unfold memory_of_json. read_fields. simpl in *. by rewrite !read_opt_int. }
  destruct m as [m|], p as [p|]; read_fields; read_fields;
    rewrite ?HM, ?as_int_json_int by (by apply Hm || by apply Hp); done.
Qed.
Lemma read_linux l : linux_ok l → linux_of_json (linux_json l) = l.
Proof.
  intros (Hr & _ & _ & Hs & _). unfold linux_of_json, linux_json.
  destruct (li_seccomp l) as [s|] eqn:El; read_fields;
    rewrite read_resources, read_opt_list, ?read_seccomp by (auto || by apply Forall_true);
    destruct l; simpl in *; by subst.
Qed.
Lemma read_spec s : spec_ok s → spec_of_json (spec_json s) = s.
Proof.
  intros (_ & Hp & _ & Hm & Hl). unfold spec_of_json, spec_json.
  destruct (s_root s) as [p|] eqn:Er; read_fields;
    rewrite read_process, read_linux, read_opt_list by
      (done || (apply Forall_true; apply read_mount));
    destruct s; simpl in *; by subst.
Qed.

(** ** The document is readable and shallow *)

Definition fine (n : nat) (v : json) : Prop := readable v ∧ nesting v ≤ n.
Definition fine_members (n : nat) (ms : members) : Prop :=
  Forall (λ kv, plain kv.1 ∧ fine n kv.2) ms.

Lemma fine_mono n m v : n ≤ m → fine n v → fine m v.
Proof. intros Hn [Hr Hv]. split; [done|lia]. Qed.

Lemma fine_object n ms : fine_members n ms → fine (S n) (JObject ms).
Proof.
  intros Hms. split; simpl; induction Hms as [|[k v] ms [Hk [Hr Hn]] Hms IH]; simpl in *; [done| |lia|].
  - by split.
  - lia.
Qed.
Lemma fine_array n l : Forall (fine n) l → fine (S n) (JArray l).
Proof.
  intros Hl. split; simpl; induction Hl as [|v l [Hr Hn] Hl IH]; simpl in *; [done| |lia|].
  - by split.
  - lia.
Qed.
Lemma fine_string n s : plain s → fine n (JString s).
Proof. intros Hs. split; [done|simpl; lia]. Qed.
Lemma fine_int n z : int_ok z → fine n (json_int z).
Proof. intros Hz. split; [by apply number_ok_Itoa|simpl; lia]. Qed.

Lemma fine_app n ms1 ms2 : fine_members n ms1 → fine_members n ms2 → fine_members n (ms1 ++ ms2).
Proof. intros. by apply Forall_app. Qed.
Lemma fine_nil n : fine_members n [].
Proof. constructor. Qed.
Lemma fine_req n k v : plain k → fine n v → fine_members n (req k v).
Proof. intros. apply Forall_cons. by split; [|apply Forall_nil]. Qed.
Lemma fine_opt_string n k s : plain k → plain s → fine_members n (opt_string k s).
Proof.
  intros. unfold opt_string. destruct (String.eqb s ""); [constructor|].
  apply fine_req; [done|by apply fine_string].
Qed.
Lemma fine_opt_list {A} n k (f : A → json) l :
  plain k → Forall (λ x, fine n (f x)) l → fine_members (S n) (opt_list k (f <$> l)).
Proof.
  intros Hk Hl. assert (fine (S n) (JArray (f <$> l))) as Ha by (apply fine_array; by apply Forall_fmap).
  destruct l as [|x l]; [constructor|]. by apply fine_req.
Qed.
Lemma fine_opt_strings n k l : plain k → Forall plain l → fine_members (S n) (opt_strings k l).
Proof.
  intros Hk Hl. apply fine_opt_list; [done|]. eapply Forall_impl; [exact Hl|]. apply fine_string.
Qed.
Lemma fine_opt_int n k z : plain k → opt_int_ok z → fine_members n (opt_int k z).
Proof. intros Hk Hz. destruct z as [z|]; [|constructor]. apply fine_req; [done|]. by apply fine_int, Hz. Qed.

Create HintDb fine_json.
#[local] Hint Resolve fine_object fine_string fine_int fine_app fine_nil fine_req fine_opt_string
  fine_opt_strings fine_opt_int : fine_json.
#[local] Hint Extern 1 (plain _) => reflexivity : fine_json.

Lemma fine_user u n : user_ok u → fine (S n) (user_json u).
Proof. intros (? & ? & ?). apply fine_object. auto 10 with fine_json. Qed.
Lemma fine_capabilities c n : capabilities_ok c → fine (S (S n)) (capabilities_json c).
Proof. intros (? & ? & ? & ? & ?). apply fine_object. auto 10 with fine_json. Qed.
Lemma fine_rlimit r n : rlimit_ok r → fine (S n) (rlimit_json r).
Proof. intros (? & ? & ?). apply fine_object. auto 10 with fine_json. Qed.
Lemma fine_mount m n : mount_ok m → fine (S (S n)) (mount_json m).
Proof. intros (? & ? & ? & ?). apply fine_object. auto 10 with fine_json. Qed.
Lemma fine_seccomp_arg a n : seccomp_arg_ok a → fine (S n) (seccomp_arg_json a).
Proof.
  intros (? & ? & ? & ?). apply fine_object. destruct (_ =? _)%Z; auto 10 with fine_json.
Qed.

Ltac fine_each H lem := apply fine_opt_list; [done|]; eapply Forall_impl; [exact H|]; intros; by apply lem.

Lemma fine_process p n : process_ok p → fine (S (S (S n))) (process_json p).
Proof.
  intros (? & ? & ? & ? & ? & Hr). apply fine_object.
  repeat apply fine_app.
  - apply fine_req; [done|]. by apply fine_user.
  - auto with fine_json.
  - auto with fine_json.
  - auto with fine_json.
  - apply fine_req; [done|]. by apply fine_capabilities.
  - fine_each Hr fine_rlimit.
  - destruct (sp_noNewPrivileges p); [|constructor]. apply fine_req; [done|]. by split; [|simpl; lia].
Qed.
Lemma fine_syscall s n : syscall_ok s → fine (S (S (S n))) (syscall_json s).
Proof.
  intros (Hn & ? & ? & Ha). apply fine_object. repeat apply fine_app.
  - apply fine_req; [done|]. apply fine_array, Forall_fmap. eapply Forall_impl; [exact Hn|].
    intros. by apply fine_string.
  - auto with fine_json.
  - auto with fine_json.
  - fine_each Ha fine_seccomp_arg.
Qed.
Lemma fine_seccomp s n : seccomp_ok s → fine (5 + n) (seccomp_json s).
Proof.
  intros (? & ? & Hs). apply fine_object. repeat apply fine_app.
  - auto with fine_json.
  - auto with fine_json.
  - fine_each Hs fine_syscall.
Qed.
Lemma fine_resources r n : resources_ok r → fine (S (S n)) (resources_json r).
Proof.
  intros [Hm Hp]. apply fine_object, fine_app.
  - destruct (res_memory r) as [m|]; [|constructor]. destruct (Hm m eq_refl).
    apply fine_req; [done|]. apply fine_object. auto with fine_json.
  - destruct (res_pids r) as [p|]; [|constructor]. specialize (Hp p eq_refl).
    apply fine_req; [done|]. apply fine_object. auto with fine_json.
Qed.
Lemma fine_linux l n : linux_ok l → fine (6 + n) (linux_json l).
Proof.
  intros (Hr & ? & Hn & Hs & ? & ? & ?). apply fine_object. repeat apply fine_app.
  - apply fine_req; [done|]. by apply fine_resources.
  - auto with fine_json.
  - apply (fine_opt_list _ "namespaces" (λ t, JObject (req "type" (JString t)))); [done|].
    eapply Forall_impl; [exact Hn|]. intros t Ht. apply fine_object. auto with fine_json.
  - destruct (li_seccomp l) as [s|]; [|constructor]. apply fine_req; [done|].
    apply (fine_seccomp s n). auto.
  - auto with fine_json.
  - auto with fine_json.
  - auto with fine_json.
Qed.
Lemma fine_spec s : spec_ok s → fine 7 (spec_json s).
Proof.
  intros (? & Hp & Hr & Hm & Hl). apply fine_object. repeat apply fine_app.
  - auto with fine_json.
  - apply fine_req; [done|]. by apply (fine_process _ 3).
  - destruct (s_root s) as [p|]; [|constructor]. apply fine_req; [done|]. apply fine_object.
    specialize (Hr p eq_refl). auto with fine_json.
  - fine_each Hm fine_mount.
  - apply fine_req; [done|]. by apply (fine_linux _ 0).
Qed.
