(* ===== verification/Sys.v ===== *)
(** * Effectful Go code

    The program's effects are calls to the operating system, to runc and to
    third-party packages that talk to either.  [sys] lists those calls with the
    type of their answers; nothing is assumed here about what is answered.  A
    function of the program that has effects is a [prog]: a tree of such calls
    whose leaves are what the function returns, or a panic.  A tree has two
    readings:

    - [exec_trace p tr f]: with some answers of the environment, [p] performs the
      calls [tr] and ends with [f].  Theorems about all traces hold whatever the
      environment answers.
    - [run h p w]: the execution of [p] against a handler [h] that answers calls
      by updating a world [w].  It evaluates, and laws on the handler describe
      an environment that behaves as documented. *)

From S2P Require Import Prelude Specs.

Inductive flock_op := LOCK_EX | LOCK_UN.
Inductive tick_event := Tick | Timeout.
Inductive stream := Stdout | Stderr.

(** What a [select] over the signal channel and a child's [Wait] receives. *)
Inductive child_event := GotSignal (sig : Z) | ChildDone (err : option error).

(** What remains of [exec.Cmd] after [Run]: the error and, when the process was
    started, the exit status of its [ProcessState]. *)
Record CmdResult := mkCmdResult { cr_err : option error; cr_state : option Z }.

Inductive sys : Type → Type :=
(* package os *)
| MkdirAll (path : string) (perm : Z) : sys (option error)
| Stat (path : string) : sys (result FileInfo)
| Lstat (path : string) : sys (result FileInfo)
| Chmod (path : string) (mode : Z) : sys (option error)
| Chown (path : string) (uid gid : Z) : sys (option error)
| RemoveAll (path : string) : sys (option error)
| ReadDir (path : string) : sys (result (list string))
| ReadFile (path : string) : sys (result string)
| Getenv (name : string) : sys string
| Environ : sys (list string)
| MkdirTemp (dir pattern : string) : sys (result string)
| Symlink (oldname newname : string) : sys (option error)
| OpenFile (path : string) (flags perm : Z) : sys (result nat)
| FileChown (fd : nat) (uid gid : Z) : sys (option error)
| FileClose (fd : nat) : sys (option error)
| FileWrite (fd : nat) (data : string) : sys (option error)
| Print (s : stream) (text : string) : sys (option error)
(* io.Copy between two open files *)
| CopyFile (dst src : nat) : sys (option error)
(* os.Open and reads to the end: the bytes read, and the error if a read failed *)
| ReadStream (path : string) : sys (result (string * option error))
(* golang.org/x/sys/unix *)
| Flock (fd : nat) (op : flock_op) : sys (option error)
| MountCall (source target fstype : string) (flags : Z) (data : string) : sys (option error)
| Unmount (target : string) (flags : Z) : sys (option error)
(* os/user *)
| user_Lookup (name : string) : sys (result OSUser)
| user_Current : sys (result OSUser)
(* os/exec *)
| RunCmd (c : Cmd) : sys CmdResult
| CombinedOutput (c : Cmd) : sys (string * option error)
| Output (c : Cmd) : sys (string * option error)
(* a child process in the background: Start, the select loop, Process.Signal *)
| StartCmd (c : Cmd) : sys (option error)
| SelectChild : sys child_event
| SignalChild (sig : Z) : sys (option error)
(* path/filepath, moby/sys/mountinfo, opencontainers/cgroups *)
| Glob (pattern : string) : sys (result (list string))
| Mounted (path : string) : sys (result bool)
| GetMounts (path : string) : sys (result (list string))
| IsCgroup2UnifiedMode : sys bool
| IsCgroup2HybridMode : sys bool
| PathExists (path : string) : sys bool
| GetAllSubsystems : sys (result (list string))
| FindCgroupMountpoint (path subsystem : string) : sys (result string)
(* clock *)
| NewTimer (d : Z) : sys unit
| NewTicker (d : Z) : sys unit
| TickerStop : sys unit
| SelectTick : sys tick_event
| Sleep (d : Z) : sys unit.

(** ** Programs *)

Inductive prog (A : Type) : Type :=
| Ret (a : A)
| Crash (p : panic)
| OutOfFuel
| Call {B : Type} (c : sys B) (k : B → prog A).
Arguments Ret {A} a.
Arguments Crash {A} p.
Arguments OutOfFuel {A}.
Arguments Call {A B} c k.

Fixpoint prog_bind {A B} (p : prog A) (k : A → prog B) : prog B :=
  match p with
  | Ret a => k a
  | Crash x => Crash x
  | OutOfFuel => OutOfFuel
  | Call c k' => Call c (λ r, prog_bind (k' r) k)
  end.

#[export] Instance prog_mret : MRet prog := λ A a, Ret a.
#[export] Instance prog_mbind : MBind prog := λ A B k p, prog_bind p k.

Definition call {B} (c : sys B) : prog B := Call c Ret.

(** [v, err := f(); if err != nil { return g(err) }; ...] *)
Definition try_or {A B} (p : prog (result A)) (g : error → error)
    (k : A → prog (result B)) : prog (result B) :=
  prog_bind p (λ r, match r with Ok a => k a | Err e => Ret (Err (g e)) end).
(** [if err := f(); err != nil { return g(err) }; ...] *)
Definition check_or {B} (p : prog (option error)) (g : error → error)
    (k : prog (result B)) : prog (result B) :=
  prog_bind p (λ e, match e with None => k | Some e => Ret (Err (g e)) end).
Definition check_err (p : prog (option error)) (g : error → error)
    (k : prog (option error)) : prog (option error) :=
  prog_bind p (λ e, match e with None => k | Some e => Ret (Some (g e)) end).
Definition try_err {A} (p : prog (result A)) (g : error → error)
    (k : A → prog (option error)) : prog (option error) :=
  prog_bind p (λ r, match r with Ok a => k a | Err e => Ret (Some (g e)) end).

(** [defer d()] before [p]: [d] runs when [p] returns and when it panics. *)
Fixpoint deferring {A B} (p : prog A) (d : prog B) : prog A :=
  match p with
  | Ret a => prog_bind d (λ _, Ret a)
  | Crash x => prog_bind d (λ _, Crash x)
  | OutOfFuel => OutOfFuel
  | Call c k => Call c (λ r, deferring (k r) d)
  end.

(** A pure computation that may panic. *)
Definition lift_outcome {A} (o : outcome A) : prog A :=
  match o with Val a => Ret a | Panics p => Crash p end.

(** ** Traces *)

Inductive event : Type :=
| Ev {B : Type} (c : sys B) (r : B).

Inductive final (A : Type) : Type :=
| FVal (a : A)
| FPanic (p : panic)
| FFuel.
Arguments FVal {A} a.
Arguments FPanic {A} p.
Arguments FFuel {A}.

Fixpoint exec_trace {A} (p : prog A) (tr : list event) (f : final A) : Prop :=
  match p with
  | Ret a => tr = [] ∧ f = FVal a
  | Crash x => tr = [] ∧ f = FPanic x
  | OutOfFuel => tr = [] ∧ f = FFuel
  | Call c k => ∃ r tr', tr = Ev c r :: tr' ∧ exec_trace (k r) tr' f
  end.

(** ** Execution against a handler *)

Definition handler (W : Type) : Type := ∀ B, sys B → W → B * W.

Fixpoint run {W A} (h : handler W) (p : prog A) (w : W) : final A * W :=
  match p with
  | Ret a => (FVal a, w)
  | Crash x => (FPanic x, w)
  | OutOfFuel => (FFuel, w)
  | Call c k => let '(r, w') := h _ c w in run h (k r) w'
  end.

(** Answers of an idle system, for calls a simulated environment does not care
    about. *)
Definition default_answer {B} (c : sys B) : B :=
  match c with
  | OpenFile _ _ _ => Ok 3
  | MkdirAll _ _ | Chmod _ _ | Chown _ _ _ | RemoveAll _ | FileChown _ _ _
  | FileClose _ | FileWrite _ _ | Flock _ _ | MountCall _ _ _ _ _ | Unmount _ _
  | StartCmd _ | SignalChild _ | Symlink _ _ | CopyFile _ _ => None
  | Stat _ | Lstat _ => Ok (mkFileInfo 0)
  | ReadDir _ | Glob _ | GetMounts _ | GetAllSubsystems => Ok []
  | ReadFile _ | FindCgroupMountpoint _ _ => Ok ""
  | Getenv _ => ""
  | Environ => []
  | MkdirTemp dir pattern => Ok (dir +:+ "/" +:+ pattern +:+ "1")
  | Print _ _ => None
  | NewTimer _ | NewTicker _ | TickerStop | Sleep _ => tt
  | ReadStream _ => Ok ("", None)
  | user_Lookup n => Ok (mkOSUser "1000" "1000" n)
  | user_Current => Ok (mkOSUser "0" "0" "root")
  | RunCmd _ => mkCmdResult None (Some 0%Z)
  | CombinedOutput _ | Output _ => ("", None)
  | Mounted _ => Ok false
  | IsCgroup2UnifiedMode | IsCgroup2HybridMode | PathExists _ => false
  | SelectTick => Timeout
  | SelectChild => ChildDone None
  end.

Definition idle_handler : handler unit := λ B c w, (default_answer c, w).

(** [all_calls P p]: every call [p] may make satisfies [P], whatever is
    answered. *)
Fixpoint all_calls {A} (P : ∀ B, sys B → Prop) (p : prog A) : Prop :=
  match p with
  | Ret _ | Crash _ | OutOfFuel => True
  | Call c k => P _ c ∧ ∀ r, all_calls P (k r)
  end.

(** ** Lemmas *)

Lemma all_calls_bind {A B} P (p : prog A) (k : A → prog B) :
  all_calls P p → (∀ a, all_calls P (k a)) → all_calls P (prog_bind p k).
Proof.
  intros Hp Hk. induction p as [a|x| |C c k' IH]; simpl in *; [auto|done..|].
  destruct Hp as [Hc Hr]. split; [done|]. auto.
Qed.

Lemma all_calls_defer {A B} P (p : prog A) (d : prog B) :
  all_calls P p → all_calls P d → all_calls P (deferring p d).
Proof.
  intros Hp Hd. induction p as [a|x| |C c k' IH]; simpl in *; [by apply all_calls_bind..|done|].
  destruct Hp as [Hc Hr]. split; [done|]. auto.
Qed.

Lemma all_calls_call {B} P (c : sys B) : P B c → all_calls P (call c).
Proof. by split. Qed.

Lemma all_calls_mono {A} (P P' : ∀ B, sys B → Prop) (p : prog A) :
  (∀ B c, P B c → P' B c) → all_calls P p → all_calls P' p.
Proof.
  intros HP. induction p as [a|x| |C c k' IH]; simpl; [done..|]. intros [Hc Hr]. auto.
Qed.

(** [all_calls_step] follows the structure of a program; what remains are the
    calls it makes and the programs it runs. *)
Ltac all_calls_step :=
  match goal with
  | |- all_calls _ (Ret _) => exact I
  | |- all_calls _ (Crash _) => exact I
  | |- all_calls _ (call _) => apply all_calls_call
  | |- all_calls _ (Call _ _) => split; [|intros ?]
  | |- all_calls _ (prog_bind _ _) => apply all_calls_bind; [|intros ?]
  | |- all_calls _ (mbind _ _) => apply all_calls_bind; [|intros ?]
  | |- all_calls _ (deferring _ _) => apply all_calls_defer
  | |- all_calls _ (try_or _ _ _) => apply all_calls_bind; [|intros [?|?]]
  | |- all_calls _ (try_err _ _ _) => apply all_calls_bind; [|intros [?|?]]
  | |- all_calls _ (check_or _ _ _) => apply all_calls_bind; [|intros [?|]]
  | |- all_calls _ (check_err _ _ _) => apply all_calls_bind; [|intros [?|]]
  | |- all_calls _ (match ?x with _ => _ end) => destruct x
  end.
Ltac all_calls_tac := repeat (cbv beta iota; all_calls_step); try exact I.

(** A relation on worlds that every call of a program respects relates the
    worlds before and after it. *)
Lemma all_calls_run {W A} (h : handler W) P (R : W → W → Prop) `{!PreOrder R} (p : prog A) w :
  (∀ B (c : sys B) w, P B c → R w (h B c w).2) →
  all_calls P p → R w (run h p w).2.
Proof.
  intros HR. revert w. induction p as [a|x| |C c k' IH]; intros w Hp; simpl; [done..|].
  destruct Hp as [Hc Hr]. pose proof (HR C c w Hc) as Hw.
  destruct (h C c w) as [r w']. simpl in Hw. etrans; [exact Hw|auto].
Qed.

Lemma exec_trace_bind {A B} (p : prog A) (k : A → prog B) tr f :
  exec_trace (prog_bind p k) tr f ↔
  (∃ a t1 t2, tr = t1 ++ t2 ∧ exec_trace p t1 (FVal a) ∧ exec_trace (k a) t2 f)
  ∨ (∃ x, exec_trace p tr (FPanic x) ∧ f = FPanic x)
  ∨ (exec_trace p tr FFuel ∧ f = FFuel).
Proof.
  revert tr. induction p as [a|x| |C c k' IH]; intros tr; simpl.
  - split.
    + intros H. left. by exists a, [], tr.
    + intros [(a' & t1 & t2 & -> & (-> & Ha) & Hk)|[(x & (_ & Ha) & _)|((_ & Ha) & _)]];
        by simplify_eq.
  - split; [naive_solver|].
    intros [(a' & t1 & t2 & -> & (-> & Ha) & Hk)|[(y & (Ht & Ha) & Hy)|((Ht & Ha) & Hy)]];
      by simplify_eq.
  - split; [naive_solver|].
    intros [(a' & t1 & t2 & -> & (-> & Ha) & Hk)|[(y & (Ht & Ha) & Hy)|((Ht & Ha) & Hy)]];
      by simplify_eq.
  - split.
    + intros (r & tr' & -> & H). apply IH in H as [(a & t1 & t2 & -> & H1 & H2)|[(x & H & ->)|[H ->]]].
      * left. exists a, (Ev c r :: t1), t2. split; [done|]. split; [|done]. by exists r, t1.
      * right; left. exists x. split; [|done]. by exists r, tr'.
      * right; right. split; [|done]. by exists r, tr'.
    + intros [(a & t1 & t2 & -> & (r & t1' & -> & H1) & H2)|[(x & (r & tr' & -> & H) & ->)|[(r & tr' & -> & H) ->]]];
        simpl; exists r; eexists; split; try reflexivity; apply IH; naive_solver.
Qed.

Lemma run_bind {W A B} (h : handler W) (p : prog A) (k : A → prog B) w :
  run h (prog_bind p k) w =
  match run h p w with
  | (FVal a, w') => run h (k a) w'
  | (FPanic x, w') => (FPanic x, w')
  | (FFuel, w') => (FFuel, w')
  end.
Proof.
  revert w. induction p as [a|x| |C c k' IH]; intros w; simpl; [done..|].
  destruct (h C c w) as [r w']. apply IH.
Qed.

Lemma run_bind_inv {W A B} (h : handler W) (p : prog A) (k : A → prog B) w r w' :
  run h (prog_bind p k) w = (r, w') →
  ∃ f w1, run h p w = (f, w1) ∧
    match f with
    | FVal a => run h (k a) w1 = (r, w')
    | FPanic x => r = FPanic x ∧ w' = w1
    | FFuel => r = FFuel ∧ w' = w1
    end.
Proof.
  rewrite run_bind. destruct (run h p w) as [f w1]. intros Hr. exists f, w1.
  split; [done|]. destruct f; naive_solver.
Qed.

(** What follows the deferred calls. *)
Definition resume {A} (f : final A) : prog A :=
  match f with FVal a => Ret a | FPanic x => Crash x | FFuel => OutOfFuel end.

Lemma run_defer {W A B} (h : handler W) (p : prog A) (d : prog B) w :
  run h (deferring p d) w =
  match run h p w with
  | (FFuel, w') => (FFuel, w')
  | (f, w') => run h (prog_bind d (λ _, resume f)) w'
  end.
Proof.
  revert w. induction p as [a|x| |C c k' IH]; intros w; simpl; [done..|].
  destruct (h C c w) as [r w']. apply IH.
Qed.

Lemma exec_trace_defer {A B} (p : prog A) (d : prog B) tr f :
  exec_trace (deferring p d) tr f →
  (∃ f0 t1 t2, tr = t1 ++ t2 ∧ exec_trace p t1 f0 ∧ f0 ≠ FFuel
     ∧ exec_trace (prog_bind d (λ _, resume f0)) t2 f)
  ∨ exec_trace p tr FFuel ∧ f = FFuel.
Proof.
  revert tr. induction p as [a|x| |C c k' IH]; intros tr Htr; simpl in Htr.
  - left. by exists (FVal a), [], tr.
  - left. by exists (FPanic x), [], tr.
  - destruct Htr as [-> ->]. by right.
  - destruct Htr as (r & t & -> & Htr). apply IH in Htr as [(f0 & t1 & t2 & -> & H1 & H2 & H3)|[H1 ->]].
    + left. exists f0, (Ev c r :: t1), t2. split_and!; [done| |done..]. by exists r, t1.
    + right. split; [|done]. by exists r, t.
Qed.

(** Every execution against a handler is one of the traces. *)
Lemma run_exec_trace {W A} (h : handler W) (p : prog A) w :
  ∃ tr, exec_trace p tr (run h p w).1.
Proof.
  revert w. induction p as [a|x| |C c k' IH]; intros w; simpl;
    [by exists []..|].
  destruct (h C c w) as [r w'] eqn:Hc. destruct (IH r w') as [tr Htr].
  exists (Ev c r :: tr). by exists r, tr.
Qed.

(** The calls of an execution against a handler. *)
Fixpoint trace_of {W A} (h : handler W) (p : prog A) (w : W) : list event :=
  match p with
  | Call c k => let '(r, w') := h _ c w in Ev c r :: trace_of h (k r) w'
  | _ => []
  end.

Lemma trace_of_exec {W A} (h : handler W) (p : prog A) w :
  exec_trace p (trace_of h p w) (run h p w).1.
Proof.
  revert w. induction p as [a|x| |C c k' IH]; intros w; simpl; [done..|].
  destruct (h C c w) as [r w'] eqn:Hc. by exists r, (trace_of h (k' r) w').
Qed.

Lemma run_ends {W A} (h : handler W) (p : prog A) w f :
  (run h p w).1 = f → ∃ tr, exec_trace p tr f.
Proof. intros <-. apply run_exec_trace. Qed.

(** ** Open files along a trace *)

Definition ev_opened (e : event) : option nat :=
  match e with
  | Ev c r =>
      match c in sys B return B → option nat with
      | OpenFile _ _ _ => λ r, match r with Ok fd => Some fd | Err _ => None end
      | _ => λ _, None
      end r
  end.

Definition ev_closed (e : event) : option nat :=
  match e with
  | Ev c _ => match c with FileClose fd => Some fd | _ => None end
  end.

Fixpoint remove_one (fd : nat) (fds : list nat) : list nat :=
  match fds with
  | [] => []
  | x :: xs => if decide (x = fd) then xs else x :: remove_one fd xs
  end.

(** The descriptors opened and not yet closed, starting from [fds]. *)
Definition fds_step (fds : list nat) (e : event) : list nat :=
  match ev_opened e, ev_closed e with
  | Some fd, _ => fd :: fds
  | None, Some fd => remove_one fd fds
  | None, None => fds
  end.
Definition open_fds (fds : list nat) (tr : list event) : list nat := foldl fds_step fds tr.

Lemma open_fds_app fds t1 t2 : open_fds fds (t1 ++ t2) = open_fds (open_fds fds t1) t2.
Proof. unfold open_fds. by rewrite foldl_app. Qed.

Lemma remove_one_head fd fds : remove_one fd (fd :: fds) = fds.
Proof. simpl. by rewrite decide_True. Qed.

(** The open descriptors are a multiset: their order does not matter. *)
#[export] Instance remove_one_perm fd : Proper ((≡ₚ) ==> (≡ₚ)) (remove_one fd).
Proof.
  intros l1 l2 Hl. induction Hl as [|x l1 l2 Hl IH|x y l|l1 l2 l3 _ IH1 _ IH2]; simpl.
  - done.
  - case_decide; [done|]. by constructor.
  - repeat case_decide; subst; try done. by constructor.
  - by etrans.
Qed.

#[export] Instance fds_step_perm : Proper ((≡ₚ) ==> (=) ==> (≡ₚ)) fds_step.
Proof.
  intros l1 l2 Hl e ? <-. unfold fds_step.
  destruct (ev_opened e); [by constructor|]. destruct (ev_closed e); [|done].
  by rewrite Hl.
Qed.

#[export] Instance open_fds_perm : Proper ((≡ₚ) ==> (=) ==> (≡ₚ)) open_fds.
Proof.
  intros l1 l2 Hl tr ? <-. revert l1 l2 Hl. unfold open_fds.
  induction tr as [|e tr IH]; intros l1 l2 Hl; simpl; [done|]. apply IH. by rewrite Hl.
Qed.

(** ** Symbolic execution of traces *)

Lemma exec_trace_Ret {A} (a : A) tr f :
  exec_trace (Ret a) tr f ↔ tr = [] ∧ f = FVal a.
Proof. done. Qed.
Lemma exec_trace_Crash {A} x tr (f : final A) :
  exec_trace (Crash x) tr f ↔ tr = [] ∧ f = FPanic x.
Proof. done. Qed.
Lemma exec_trace_Call {A B} (c : sys B) (k : B → prog A) tr f :
  exec_trace (Call c k) tr f ↔ ∃ r tr', tr = Ev c r :: tr' ∧ exec_trace (k r) tr' f.
Proof. done. Qed.

#[global] Arguments exec_trace : simpl never.
#[global] Arguments open_fds : simpl never.

(** [trace_step] opens the next call of a trace, case-splits on an answer the
    program matches on, or stops at a leaf. *)
Ltac trace_step :=
  match goal with
  | H : exec_trace (Ret _) _ _ |- _ => apply exec_trace_Ret in H as [? ?]
  | H : exec_trace (Crash _) _ _ |- _ => apply exec_trace_Crash in H as [? ?]
  | H : exec_trace (Call _ _) _ _ |- _ =>
      let r := fresh "r" in let tr := fresh "tr" in
      apply exec_trace_Call in H as (r & tr & ? & H)
  | H : exec_trace (match ?x with _ => _ end) _ _ |- _ => destruct x eqn:?
  | H : exec_trace (prog_bind (match ?x with _ => _ end) _) _ _ |- _ => destruct x eqn:?
  end.
Ltac trace_all := simpl in *; repeat (trace_step; simplify_eq/=).

(** ** Safety of a program, for every environment

    [wp P Q p]: every call of [p], with whatever answer, satisfies [P]; every
    value [p] returns satisfies [Q]; and [p] neither panics nor runs out of
    fuel. *)
Fixpoint wp {A} (P : event → Prop) (Q : A → Prop) (p : prog A) : Prop :=
  match p with
  | Ret a => Q a
  | Crash _ | OutOfFuel => False
  | Call c k => ∀ r, P (Ev c r) ∧ wp P Q (k r)
  end.

Lemma wp_sound {A} P (Q : A → Prop) (p : prog A) tr f :
  wp P Q p → exec_trace p tr f → Forall P tr ∧ ∃ a, f = FVal a ∧ Q a.
Proof.
  revert tr. induction p as [a|x| |B c k IH]; intros tr Hwp Htr; simpl in Hwp; [|done..|].
  - apply exec_trace_Ret in Htr as [-> ->]. eauto.
  - apply exec_trace_Call in Htr as (r & tr' & -> & Htr). destruct (Hwp r) as [HP Hk].
    destruct (IH r tr' Hk Htr) as [HF HQ]. split; [by constructor|done].
Qed.

Lemma wp_bind {A B} P (Q : A → Prop) (R : B → Prop) (p : prog A) (k : A → prog B) :
  wp P Q p → (∀ a, Q a → wp P R (k a)) → wp P R (prog_bind p k).
Proof.
  intros Hp Hk. induction p as [a|x| |C c k' IH]; simpl in *; [auto|done..|].
  intros r. destruct (Hp r) as [HP Hr]. split; [done|]. by apply IH.
Qed.

Lemma wp_defer {A B} P (Q : A → Prop) (p : prog A) (d : prog B) :
  wp P Q p → wp P (λ _, True) d → wp P Q (deferring p d).
Proof.
  intros Hp Hd. induction p as [a|x| |C c k' IH]; simpl in *; [|done..|].
  - eapply wp_bind; [exact Hd|]. done.
  - intros r. destruct (Hp r) as [HP Hr]. split; [done|]. by apply IH.
Qed.

Lemma wp_mono {A} (P P' : event → Prop) (Q Q' : A → Prop) p :
  (∀ e, P e → P' e) → (∀ a, Q a → Q' a) → wp P Q p → wp P' Q' p.
Proof.
  intros HP HQ. induction p as [a|x| |C c k' IH]; simpl; [auto|done..|].
  intros Hwp r. destruct (Hwp r). auto.
Qed.

Lemma wp_call {B} P (Q : B → Prop) (c : sys B) :
  (∀ r, P (Ev c r) ∧ Q r) → wp P Q (call c).
Proof. done. Qed.

(** Results that satisfy [Q] when they are not errors. *)
Definition okP {A} (Q : A → Prop) (r : result A) : Prop :=
  match r with Ok a => Q a | Err _ => True end.

Lemma wp_try_or {A B} P (Q : A → Prop) (R : B → Prop) p g (k : A → prog (result B)) :
  wp P (okP Q) p → (∀ a, Q a → wp P (okP R) (k a)) → wp P (okP R) (try_or p g k).
Proof.
  intros Hp Hk. eapply wp_bind; [exact Hp|]. intros [a|e] Ha; simpl; [auto|done].
Qed.

Lemma wp_check_or {B} P (R : B → Prop) p g (k : prog (result B)) :
  wp P (λ _, True) p → wp P (okP R) k → wp P (okP R) (check_or p g k).
Proof. intros Hp Hk. eapply wp_bind; [exact Hp|]. by intros [e|] _. Qed.

Lemma wp_check_err P p g (k : prog (option error)) :
  wp P (λ _, True) p → wp P (λ _, True) k → wp P (λ _, True) (check_err p g k).
Proof. intros Hp Hk. eapply wp_bind; [exact Hp|]. by intros [e|] _. Qed.

(** Inversion of a successful run of the error-handling combinators. *)
Lemma trace_try_or_Ok {A B} (p : prog (result A)) g (k : A → prog (result B)) tr b :
  exec_trace (try_or p g k) tr (FVal (Ok b)) →
  ∃ a t1 t2, tr = t1 ++ t2 ∧ exec_trace p t1 (FVal (Ok a)) ∧ exec_trace (k a) t2 (FVal (Ok b)).
Proof.
  intros H. apply exec_trace_bind in H as [([a|e] & t1 & t2 & -> & H1 & H2)|[(x & _ & ?)|[_ ?]]];
    [|trace_step; naive_solver|done..].
  naive_solver.
Qed.

Lemma trace_bind_FVal {A B} (p : prog A) (k : A → prog B) tr b :
  exec_trace (prog_bind p k) tr (FVal b) →
  ∃ a t1 t2, tr = t1 ++ t2 ∧ exec_trace p t1 (FVal a) ∧ exec_trace (k a) t2 (FVal b).
Proof. intros H. apply exec_trace_bind in H as [H|[(x & _ & ?)|[_ ?]]]; [done|done..]. Qed.

Lemma all_calls_trace {A} P (p : prog A) tr f :
  all_calls P p → exec_trace p tr f → Forall (λ e, match e with Ev c _ => P _ c end) tr.
Proof.
  revert tr. induction p as [a|x| |B c k IH]; intros tr Hp Htr.
  - by destruct Htr as [-> _].
  - by destruct Htr as [-> _].
  - by destruct Htr as [-> _].
  - apply exec_trace_Call in Htr as (r & tr' & -> & Htr). destruct Hp as [Hc Hk].
    constructor; [done|]. by eapply IH.
Qed.

(** Monad laws, up to traces. *)
Lemma exec_trace_bind_Ret {A} (p : prog A) tr f :
  exec_trace (prog_bind p Ret) tr f ↔ exec_trace p tr f.
Proof.
  rewrite exec_trace_bind. split.
  - intros [(a & t1 & t2 & -> & Hp & Hk)|[(x & Hp & ->)|[Hp ->]]]; [|done..].
    destruct Hk as [-> ->]. by rewrite (right_id_L [] (++)).
  - intros Htr. destruct f as [a|x|]; [|right; left; eauto|by right; right].
    left. exists a, tr, []. by rewrite (right_id_L [] (++)).
Qed.

Lemma prog_bind_assoc_trace {A B C} (p : prog A) (k : A → prog B) (l : B → prog C) tr f :
  exec_trace (prog_bind (prog_bind p k) l) tr f
  ↔ exec_trace (prog_bind p (λ a, prog_bind (k a) l)) tr f.
Proof.
  revert tr. induction p as [a|x| |D c k' IH]; intros tr; simpl; [done..|].
  rewrite !exec_trace_Call. by setoid_rewrite IH.
Qed.
