(* ===== verification/Config.v ===== *)
(** * Package config: job configuration (src/bpm/config)

    [BPMConfig] names the files and directories of a job's process;
    [JobConfig] and [ProcessConfig] are the contents of a job's [bpm.yml], with
    their validation and the changes [bpm run] makes to them. *)

From S2P Require Import Prelude GoStrings GoPath JobID Bosh Specs Sys.
From Stdlib Require Import Ascii.

(** ** bpm_config.go *)

Definition RuncPath (env : Env) : string :=
  External (Path_Join (Env_Root env) ["packages"; "bpm"; "bin"; "runc"]).
Definition BundlesRoot (env : Env) : string :=
  External (Path_Join (Env_Root env) ["data"; "bpm"; "bundles"]).
Definition RuncRoot (env : Env) : string :=
  External (Path_Join (Env_Root env) ["sys"; "run"; "bpm-runc"]).
Definition LocksPath (env : Env) : string :=
  External (Path_Join (Env_Root env) ["data"; "bpm"; "locks"]).

Record BPMConfig := NewBPMConfig {
  boshEnv : Env;
  jobName : string;
  procName : string
}.

Definition BPMConfig_DataDir (c : BPMConfig) : Path := Env_DataDir (boshEnv c) (jobName c).
Definition BPMConfig_StoreDir (c : BPMConfig) : Path := Env_StoreDir (boshEnv c) (jobName c).
Definition SocketDir (c : BPMConfig) : Path := Env_RunDir (boshEnv c) (jobName c).
Definition TempDir (c : BPMConfig) : Path := Path_Join (BPMConfig_DataDir c) ["tmp"].
Definition BPMConfig_LogDir (c : BPMConfig) : Path := Env_LogDir (boshEnv c) (jobName c).
Definition Config_Stdout (c : BPMConfig) : Path :=
  Path_Join (BPMConfig_LogDir c) [procName c +:+ ".stdout.log"].
Definition Config_Stderr (c : BPMConfig) : Path :=
  Path_Join (BPMConfig_LogDir c) [procName c +:+ ".stderr.log"].
Definition PidDir (c : BPMConfig) : Path :=
  Path_Join (Env_RunDir (boshEnv c) "bpm") [jobName c].
Definition PidFile (c : BPMConfig) : Path := Path_Join (PidDir c) [procName c +:+ ".pid"].
Definition LockFile (c : BPMConfig) : Path := Path_Join (PidDir c) [procName c +:+ ".lock"].
Definition BPMConfig_PackageDir (c : BPMConfig) : Path := Env_PackageDir (boshEnv c).
Definition BPMConfig_DataPackageDir (c : BPMConfig) : Path := Env_DataPackageDir (boshEnv c).
Definition BPMConfig_JobDir (c : BPMConfig) : Path := Env_JobDir (boshEnv c) (jobName c).
Definition JobConfigPath (c : BPMConfig) : string :=
  External (Path_Join (BPMConfig_JobDir c) [path_Join ["config"; "bpm.yml"]]).
Definition TiniPath (c : BPMConfig) : Path :=
  Path_Join (BPMConfig_PackageDir c) ["bpm"; "bin"; "tini"].
Definition DefaultVolumes (c : BPMConfig) : list string :=
  [External (BPMConfig_DataDir c); External (BPMConfig_StoreDir c)].
Definition BPMLog (c : BPMConfig) : string :=
  External (Path_Join (BPMConfig_LogDir c) ["bpm.log"]).
Definition BundlePath (c : BPMConfig) : string :=
  path_Join [BundlesRoot (boshEnv c); jobName c; procName c].
Definition RootFSPath (c : BPMConfig) : string := path_Join [BundlePath c; "rootfs"].

Definition ContainerID (c : BPMConfig) : string :=
  Encode (if decide (jobName c = procName c) then jobName c
          else jobName c +:+ "." +:+ procName c).

(** ** job_config.go: data *)

Record Limits := mkLimits {
  l_memory : option string;
  l_openFiles : option Z;
  l_processes : option Z;
  l_coreFileSize : option Z
}.

Record Hooks := mkHooks { PreStart : string }.

Record Volume := mkVolume {
  v_path : string;
  v_writable : bool;
  v_allowExecutions : bool;
  v_mountOnly : bool;
  v_shared : bool
}.

Record Unsafe := mkUnsafe {
  Privileged : bool;
  UnrestrictedVolumes : list Volume;
  HostPidNamespace : bool
}.

(** [Env] is [None] for a nil map. *)
Record ProcessConfig := mkProcessConfig {
  pc_name : string;
  pc_executable : string;
  pc_args : list string;
  pc_env : option (gmap string string);
  pc_additionalVolumes : list Volume;
  pc_capabilities : list string;
  pc_ephemeralDisk : bool;
  pc_hooks : option Hooks;
  pc_limits : option Limits;
  pc_persistentDisk : bool;
  pc_workDir : string;
  pc_unsafe : option Unsafe;
  pc_shutdownSignal : string
}.

(** [Processes] is a slice of pointers: an entry that is null in the YAML
    document is a nil pointer ([None]). *)
Record JobConfig := mkJobConfig { Processes : list (option ProcessConfig) }.

(** ** job_config.go: operations *)

Definition contains (elements : list string) (s : string) : bool :=
  existsb (λ elem, bool_decide (s = elem)) elements.

(** The inner loop of [pathIsIn] for one prefix. *)
Fixpoint parts_match (validParts volParts : list string) : bool :=
  match validParts, volParts with
  | [], _ => true
  | p :: ps, v :: vs => bool_decide (v = p) && parts_match ps vs
  | _ :: _, [] => false
  end.

Definition pathIsIn (path : string) (prefixes : list string) : bool :=
  let volParts := Split slash path in
  existsb (λ prefix,
    let validParts := Split slash prefix in
    negb (length volParts <=? length validParts)
    && parts_match validParts volParts) prefixes.

Definition validate_volume (env : Env) (defaultVolumes : list string) (vol : Volume)
    : option error :=
  let volCleaned := Clean (v_path vol) in
  if decide (volCleaned ≠ v_path vol) then
    Some (Errorf "volume path must be canonical, expected %s but got %s"
            [volCleaned; v_path vol])
  else if contains defaultVolumes volCleaned then
    Some (Errorf "invalid volume path: %s cannot conflict with default job data or store directories"
            [v_path vol])
  else if negb (pathIsIn volCleaned [External (Env_Root env)]) then
    Some (Errorf "invalid volume path: %s must be within %s"
            [v_path vol; External (Env_Root env)])
  else None.

Fixpoint validate_volumes (env : Env) (defaultVolumes : list string) (vols : list Volume)
    : option error :=
  match vols with
  | [] => None
  | vol :: vols' =>
      match validate_volume env defaultVolumes vol with
      | Some e => Some e
      | None => validate_volumes env defaultVolumes vols'
      end
  end.

Definition ProcessConfig_Validate (c : ProcessConfig) (env : Env)
    (defaultVolumes : list string) : option error :=
  if decide (pc_name c = "") then Some (NewError "invalid config: name")
  else if decide (pc_executable c = "") then Some (NewError "invalid config: executable")
  else match validate_volumes env defaultVolumes (pc_additionalVolumes c) with
  | Some e => Some e
  | None =>
      if decide (pc_shutdownSignal c ≠ "" ∧ pc_shutdownSignal c ≠ "TERM"
                 ∧ pc_shutdownSignal c ≠ "INT")
      then Some (Errorf "shutdown signal should either be 'TERM' or 'INT' (or left unspecified), but got '%s'"
                   [pc_shutdownSignal c])
      else None
  end.

(** [JobConfig.Validate]: a nil entry is dereferenced by [v.Validate]. *)
Fixpoint validate_processes (ps : list (option ProcessConfig)) (env : Env)
    (defaultVolumes : list string) : outcome (option error) :=
  match ps with
  | [] => Val None
  | None :: _ => Panics NilDereference
  | Some v :: ps' =>
      match ProcessConfig_Validate v env defaultVolumes with
      | Some e => Val (Some e)
      | None => validate_processes ps' env defaultVolumes
      end
  end.
Definition JobConfig_Validate (c : JobConfig) (env : Env) (defaultVolumes : list string)
    : outcome (option error) :=
  validate_processes (Processes c) env defaultVolumes.

Definition ParseShutdownSignal (c : ProcessConfig) : Signal :=
  if decide (pc_shutdownSignal c = "INT") then Int else Term.

Definition set_volumes (vs : list Volume) (c : ProcessConfig) : ProcessConfig :=
  mkProcessConfig (pc_name c) (pc_executable c) (pc_args c) (pc_env c) vs
    (pc_capabilities c) (pc_ephemeralDisk c) (pc_hooks c) (pc_limits c)
    (pc_persistentDisk c) (pc_workDir c) (pc_unsafe c) (pc_shutdownSignal c).
Definition set_env (e : option (gmap string string)) (c : ProcessConfig) : ProcessConfig :=
  mkProcessConfig (pc_name c) (pc_executable c) (pc_args c) e
    (pc_additionalVolumes c) (pc_capabilities c) (pc_ephemeralDisk c) (pc_hooks c)
    (pc_limits c) (pc_persistentDisk c) (pc_workDir c) (pc_unsafe c)
    (pc_shutdownSignal c).

(** One option of a volume definition. *)
Definition apply_volume_option (option : string) (v : Volume) : result Volume :=
  if decide (option = "writable") then
    Ok (mkVolume (v_path v) true (v_allowExecutions v) (v_mountOnly v) (v_shared v))
  else if decide (option = "mount_only") then
    Ok (mkVolume (v_path v) (v_writable v) (v_allowExecutions v) true (v_shared v))
  else if decide (option = "allow_executions") then
    Ok (mkVolume (v_path v) (v_writable v) true (v_mountOnly v) (v_shared v))
  else if decide (option = "shared") then
    Ok (mkVolume (v_path v) (v_writable v) (v_allowExecutions v) (v_mountOnly v) true)
  else Err (Errorf "invalid volume option: %s" [option]).

Fixpoint apply_volume_options (options : list string) (v : Volume) : result Volume :=
  match options with
  | [] => Ok v
  | o :: os => v' ←? apply_volume_option o v; apply_volume_options os v'
  end.

Definition parse_volume (volume : string) : result Volume :=
  match Split ":" volume with
  | [path] => Ok (mkVolume path false false false false)
  | [path; opts] =>
      apply_volume_options (Split "," opts) (mkVolume path false false false false)
  | _ => Err (Errorf "invalid volume definition (format: <path>[:<options>]): %s" [volume])
  end.

(** The loop of [AddVolumes] appends to the configuration as it goes, so an
    error leaves the volumes before it appended. *)
Fixpoint add_volumes_loop (volumes : list string) (c : ProcessConfig)
    : ProcessConfig * option error :=
  match volumes with
  | [] => (c, None)
  | volume :: rest =>
      match parse_volume volume with
      | Err e => (c, Some e)
      | Ok v => add_volumes_loop rest (set_volumes (pc_additionalVolumes c ++ [v]) c)
      end
  end.

Definition AddVolumes (c : ProcessConfig) (volumes : list string) (env : Env)
    (defaultVolumes : list string) : ProcessConfig * option error :=
  match add_volumes_loop volumes c with
  | (c', Some e) => (c', Some e)
  | (c', None) => (c', ProcessConfig_Validate c' env defaultVolumes)
  end.

Fixpoint add_env_loop (vars : list string) (m : gmap string string)
    : gmap string string * option error :=
  match vars with
  | [] => (m, None)
  | e :: rest =>
      match Cut "=" e with
      | (_, None) =>
          (m, Some (Errorf "invalid envionment variable definition (format should be KEY=value): %q" [e]))
      | (key, Some value) => add_env_loop rest (<[key := value]> m)
      end
  end.

Definition AddEnvVars (c : ProcessConfig) (vars : list string) (env : Env)
    (defaultVolumes : list string) : ProcessConfig * option error :=
  match add_env_loop vars (default ∅ (pc_env c)) with
  | (m, Some e) => (set_env (Some m) c, Some e)
  | (m, None) =>
      let c' := set_env (Some m) c in (c', ProcessConfig_Validate c' env defaultVolumes)
  end.

(** ** Reading a job's configuration

    [yaml_Unmarshal] is gopkg.in/yaml.v3's decoder into a [JobConfig], which may panic;
    the file YamlParser models it. *)
Section parse.
Context (yaml_Unmarshal : string → outcome (result JobConfig)).

Definition ParseJobConfig (configPath : string) : prog (result JobConfig) :=
  try_or (call (ReadFile configPath)) id (λ data,
  lift_outcome (yaml_Unmarshal data)).

Definition BPMConfig_ParseJobConfig (c : BPMConfig) : prog (result JobConfig) :=
  try_or (ParseJobConfig (JobConfigPath c)) id (λ cfg,
  check_or (lift_outcome (JobConfig_Validate cfg (boshEnv c) (DefaultVolumes c))) id (
  Ret (Ok cfg))).
End parse.

(** ** Specification *)

(** A volume path that stays inside the BOSH root with elements [rs]: a
    canonical absolute path strictly below the root. *)
Definition confined (rs : list string) (path : string) : Prop :=
  ∃ es, es ≠ [] ∧ Forall normal_elem es ∧ path = abs_path (rs ++ es).

Definition shutdown_signals : list string := [""; "TERM"; "INT"].

(** What [Validate] accepts, stated on the configuration. *)
Definition valid_process (rs : list string) (defaultVolumes : list string)
    (c : ProcessConfig) : Prop :=
  pc_name c ≠ "" ∧ pc_executable c ≠ ""
  ∧ Forall (λ vol, confined rs (v_path vol) ∧ v_path vol ∉ defaultVolumes)
      (pc_additionalVolumes c)
  ∧ pc_shutdownSignal c ∈ shutdown_signals.

(** The command-line notation of a volume: the path, then a colon and the
    options that are set. *)
Definition volume_options (v : Volume) : list string :=
  (if v_writable v then ["writable"] else [])
  ++ (if v_mountOnly v then ["mount_only"] else [])
  ++ (if v_allowExecutions v then ["allow_executions"] else [])
  ++ (if v_shared v then ["shared"] else []).
Definition format_volume (v : Volume) : string :=
  match volume_options v with
  | [] => v_path v
  | os => v_path v +:+ ":" +:+ Join "," os
  end.

(** The command-line notation of an environment variable. *)
Definition format_var (kv : string * string) : string := kv.1 +:+ "=" +:+ kv.2.

(** ** Lemmas: validation *)

Lemma contains_spec elements s : contains elements s = true ↔ s ∈ elements.
Proof.
  unfold contains. rewrite existsb_exists. setoid_rewrite bool_decide_eq_true.
  setoid_rewrite <- list_elem_of_In. naive_solver.
Qed.

Lemma parts_match_spec ps vs : parts_match ps vs = true ↔ ∃ rest, vs = ps ++ rest.
Proof.
  revert vs. induction ps as [|p ps IH]; intros vs; simpl.
  { split; [by exists vs|done]. }
  destruct vs as [|v vs]; [naive_solver|].
  rewrite andb_true_iff, bool_decide_eq_true, IH. naive_solver.
Qed.

Lemma pathIsIn_spec path prefix :
  pathIsIn path [prefix] = true ↔
  ∃ rest, rest ≠ [] ∧ Split slash path = Split slash prefix ++ rest.
Proof.
  unfold pathIsIn. simpl. rewrite orb_false_r, andb_true_iff, parts_match_spec.
  rewrite negb_true_iff, Nat.leb_gt. split.
  - intros [Hlen [rest Hrest]]. exists rest. split; [|done].
    intros ->. rewrite Hrest, length_app in Hlen. simpl in Hlen. lia.
  - intros (rest & Hne & Hrest). split; [|by exists rest].
    rewrite Hrest, length_app. destruct rest; [done|]. simpl. lia.
Qed.

Lemma Split_rooted p rest : Split slash p = "" :: rest → rest ≠ [] → rooted p = true.
Proof.
  intros H Hne. destruct p as [|c p]; simpl in H; [by simplify_eq|].
  simpl. destruct (Ascii.eqb c slash); [done|].
  by destruct (Split slash p); simplify_eq.
Qed.

Lemma confined_pathIsIn rs p :
  Forall normal_elem rs → rs ≠ [] →
  Clean p = p ∧ pathIsIn p [abs_path rs] = true ↔ confined rs p.
Proof.
  intros Hrs Hne. rewrite pathIsIn_spec, Split_abs_path by done. split.
  - intros (Hc & rest & Hrest & Hsplit).
    assert (rooted p = true) as Hp by (eapply Split_rooted; [done|by destruct rs]).
    destruct (Clean_fixed_rooted p Hp Hc) as (es & Hes & ->).
    destruct (decide (es = [])) as [->|Hes'].
    { exfalso. apply (f_equal length) in Hsplit. revert Hsplit. simpl.
      rewrite length_app. destruct rs, rest; simpl; lia || done. }
    rewrite Split_abs_path in Hsplit by done. injection Hsplit as ->.
    apply Forall_app in Hes as [_ Hes]. by exists rest.
  - intros (es & Hes & Hn & ->). assert (Forall normal_elem (rs ++ es)) by by apply Forall_app.
    split; [by apply Clean_abs_path|]. exists es. split; [done|].
    rewrite Split_abs_path; [done|by destruct rs|done].
Qed.

Lemma External_Root env rs : env_wf env rs → External (Env_Root env) = abs_path rs.
Proof.
  intros Hwf. rewrite (External_wf _ rs []) by by apply Env_Root_wf.
  by rewrite (right_id_L [] (++)).
Qed.

Lemma validate_volume_None env rs dv vol :
  env_wf env rs → rs ≠ [] →
  validate_volume env dv vol = None ↔ confined rs (v_path vol) ∧ v_path vol ∉ dv.
Proof.
  intros Hwf Hne. unfold validate_volume.
  rewrite (External_Root env rs) by done.
  rewrite <- (confined_pathIsIn rs) by (apply Hwf || done).
  rewrite <- contains_spec. destruct (decide (Clean (v_path vol) ≠ v_path vol)) as [Hc|Hc].
  { split; [done|]. naive_solver. }
  apply dec_stable in Hc. rewrite Hc.
  destruct (contains dv (v_path vol)); [naive_solver|].
  destruct (pathIsIn (v_path vol) [abs_path rs]); naive_solver.
Qed.

Lemma validate_volumes_None env dv vols :
  validate_volumes env dv vols = None ↔ Forall (λ v, validate_volume env dv v = None) vols.
Proof.
  induction vols as [|v vols IH]; simpl; [by split|].
  rewrite Forall_cons. destruct (validate_volume env dv v); naive_solver.
Qed.

Lemma Validate_None env rs dv c :
  env_wf env rs → rs ≠ [] →
  ProcessConfig_Validate c env dv = None ↔ valid_process rs dv c.
Proof.
  intros Hwf Hne. unfold ProcessConfig_Validate, valid_process.
  case_decide; [naive_solver|]. case_decide; [naive_solver|].
  assert (validate_volumes env dv (pc_additionalVolumes c) = None ↔
    Forall (λ vol, confined rs (v_path vol) ∧ v_path vol ∉ dv) (pc_additionalVolumes c))
    as Hvol.
  { rewrite validate_volumes_None. apply Forall_proper; [|done].
    intros v. by apply validate_volume_None. }
  destruct (validate_volumes _ _ _) as [e|]; [naive_solver|].
  assert (pc_shutdownSignal c ∈ shutdown_signals ↔
    ¬ (pc_shutdownSignal c ≠ "" ∧ pc_shutdownSignal c ≠ "TERM"
       ∧ pc_shutdownSignal c ≠ "INT")) as ->.
  { unfold shutdown_signals. rewrite !elem_of_cons, elem_of_nil.
    destruct (decide (pc_shutdownSignal c = "")), (decide (pc_shutdownSignal c = "TERM")),
      (decide (pc_shutdownSignal c = "INT")); naive_solver. }
  case_decide; [naive_solver|]. tauto.
Qed.

(** ** Lemmas: command-line volumes and variables *)

Lemma apply_volume_options_format v :
  apply_volume_options (volume_options v) (mkVolume (v_path v) false false false false) = Ok v.
Proof. by destruct v as [p [] [] [] []]. Qed.

Lemma volume_options_no_sep v sep :
  sep = ","%char ∨ sep = ":"%char →
  Forall (λ o, no_byte sep o = true) (volume_options v).
Proof. destruct v as [p [] [] [] []]; intros [-> | ->]; repeat constructor. Qed.

Lemma no_byte_Join sep s l :
  no_byte sep s = true → Forall (λ o, no_byte sep o = true) l →
  no_byte sep (Join s l) = true.
Proof.
  intros Hs HF. induction HF as [|o l Ho HF IH]; [done|].
  destruct l as [|o' l]; [done|].
  rewrite Join_cons_app by done. by rewrite !no_byte_app, Ho, Hs, IH.
Qed.

Lemma parse_format_volume v :
  no_byte ":" (v_path v) = true → parse_volume (format_volume v) = Ok v.
Proof.
  intros Hp. unfold parse_volume, format_volume.
  pose proof (apply_volume_options_format v) as Happly.
  pose proof (volume_options_no_sep v "," (or_introl eq_refl)) as Hcomma.
  pose proof (volume_options_no_sep v ":" (or_intror eq_refl)) as Hcolon.
  destruct (volume_options v) as [|o os] eqn:Hos.
  { rewrite Split_no_sep by done. exact Happly. }
  rewrite Split_app_str by done. rewrite Split_no_sep.
  - rewrite (Split_Join ","); done.
  - by apply no_byte_Join.
Qed.

Lemma add_volumes_loop_format vs c :
  Forall (λ v, no_byte ":" (v_path v) = true) vs →
  add_volumes_loop (format_volume <$> vs) c =
    (set_volumes (pc_additionalVolumes c ++ vs) c, None).
Proof.
  intros HF. revert c. induction HF as [|v vs Hv HF IH]; intros c; simpl.
  { rewrite (right_id_L [] (++)). by destruct c. }
  rewrite parse_format_volume by done. rewrite IH. simpl.
  by rewrite <- (assoc_L (++)).
Qed.

Lemma add_volumes_loop_app l1 l2 c :
  add_volumes_loop (l1 ++ l2) c =
  match add_volumes_loop l1 c with (c', None) => add_volumes_loop l2 c' | r => r end.
Proof.
  revert c. induction l1 as [|v l1 IH]; intros c; simpl; [done|].
  by destruct (parse_volume v).
Qed.

Lemma add_volumes_loop_prefix volumes c c' e :
  add_volumes_loop volumes c = (c', e) →
  ∃ vs, c' = set_volumes (pc_additionalVolumes c ++ vs) c.
Proof.
  revert c. induction volumes as [|s volumes IH]; intros c; simpl.
  { intros [= <- _]. exists []. rewrite (right_id_L [] (++)). by destruct c. }
  destruct (parse_volume s) as [v|e'].
  - intros H. destruct (IH _ H) as [vs ->]. exists (v :: vs). simpl.
    by rewrite <- (assoc_L (++)).
  - intros [= <- _]. exists []. rewrite (right_id_L [] (++)). by destruct c.
Qed.

Lemma format_var_Cut k v :
  no_byte "=" k = true → Cut "=" (format_var (k, v)) = (k, Some v).
Proof. intros Hk. by apply Cut_Some. Qed.

Lemma add_env_loop_format kvs m :
  Forall (λ kv, no_byte "=" kv.1 = true) kvs →
  add_env_loop (format_var <$> kvs) m = (list_to_map (reverse kvs) ∪ m, None).
Proof.
  intros HF. revert m. induction HF as [|[k v] kvs Hk HF IH]; intros m.
  { simpl. by rewrite (left_id_L ∅ (∪)). }
  cbn [fmap list_fmap add_env_loop]. rewrite format_var_Cut by done.
  rewrite IH, reverse_cons, list_to_map_app. f_equal.
  rewrite <- (assoc_L (∪)). f_equal. simpl.
  by rewrite insert_empty, insert_union_singleton_l.
Qed.

(** ** Lemmas: container identifiers *)

Definition dot_free (s : string) : Prop := no_byte "." s = true.

Lemma ContainerID_name c1 c2 :
  ContainerID c1 = ContainerID c2 →
  (if decide (jobName c1 = procName c1) then jobName c1 else jobName c1 +:+ "." +:+ procName c1)
  = (if decide (jobName c2 = procName c2) then jobName c2 else jobName c2 +:+ "." +:+ procName c2).
Proof. unfold ContainerID. apply Encode_inj'. Qed.

Lemma dot_free_app j1 p1 s : dot_free s → j1 +:+ "." +:+ p1 ≠ s.
Proof.
  unfold dot_free. intros Hs <-. rewrite !no_byte_app in Hs. simpl in Hs.
  by rewrite andb_false_r in Hs.
Qed.

Lemma dot_app_inj j1 p1 j2 p2 :
  dot_free j1 → dot_free j2 →
  j1 +:+ "." +:+ p1 = j2 +:+ "." +:+ p2 → j1 = j2 ∧ p1 = p2.
Proof.
  intros H1 H2 H.
  assert (Cut "." (j1 +:+ "." +:+ p1) = (j1, Some p1)) as E1 by by apply Cut_Some.
  assert (Cut "." (j2 +:+ "." +:+ p2) = (j2, Some p2)) as E2 by by apply Cut_Some.
  rewrite H, E2 in E1. by simplify_eq.
Qed.

(** ** Lemmas: the files of a process *)

(** A configuration of a well-formed environment whose job and process names are
    ordinary path elements. *)
Definition config_wf (c : BPMConfig) (rs : list string) : Prop :=
  env_wf (boshEnv c) rs ∧ normal_elem (jobName c) ∧ no_byte slash (procName c) = true.

Lemma normal_suffix p suffix :
  no_byte slash (p +:+ suffix) = true → 3 ≤ String.length suffix →
  normal_elem (p +:+ suffix).
Proof.
  intros Hs Hlen.
  assert (3 ≤ String.length (p +:+ suffix)) as H by (rewrite length_app_string; lia).
  split_and!; [..|done]; intros E; rewrite E in H; simpl in H; lia.
Qed.

Section files.
Context (c : BPMConfig) (rs : list string) (Hwf : config_wf c rs).

Lemma proc_file_normal suffix :
  no_byte slash suffix = true → 3 ≤ String.length suffix →
  normal_elem (procName c +:+ suffix).
Proof.
  destruct Hwf as (_ & _ & Hp). intros. apply normal_suffix; [|done].
  by rewrite no_byte_app, Hp.
Qed.

Lemma PidFile_path :
  External (PidFile c) =
  abs_path (rs ++ ["sys"; "run"; "bpm"; jobName c; procName c +:+ ".pid"]).
Proof.
  destruct Hwf as (He & Hj & _). apply External_wf.
  apply (Path_Join_wf _ rs ["sys"; "run"; "bpm"; jobName c]).
  - apply (Path_Join_wf _ rs ["sys"; "run"; "bpm"]); [|normal_elems].
    apply Env_RunDir_wf; [done|normal_elems].
  - repeat constructor; apply proc_file_normal; simpl; done || lia.
Qed.

Lemma log_path name :
  normal_elem name →
  External (Path_Join (BPMConfig_LogDir c) [name]) =
  abs_path (rs ++ ["sys"; "log"; jobName c; name]).
Proof.
  destruct Hwf as (He & Hj & _). intros Hn. apply External_wf.
  apply (Path_Join_wf _ rs ["sys"; "log"; jobName c]);
    [by apply Env_LogDir_wf|normal_elems].
Qed.

Lemma TempDir_wf : path_wf (TempDir c) rs ["data"; jobName c; "tmp"].
Proof.
  destruct Hwf as (He & Hj & _).
  apply (Path_Join_wf _ rs ["data"; jobName c]); [by apply Env_DataDir_wf|normal_elems].
Qed.
End files.

Lemma suffix_inj p q suffix : p +:+ suffix = q +:+ suffix → p = q.
Proof.
  revert q. induction p as [|a p IH]; intros q H.
  - destruct q as [|b q]; [done|]. apply (f_equal String.length) in H.
    rewrite !length_app_string in H. simpl in H. lia.
  - destruct q as [|b q].
    { apply (f_equal String.length) in H. rewrite !length_app_string in H. simpl in H. lia. }
    rewrite !app_cons in H. simplify_eq. f_equal. by apply IH.
Qed.

(** ** Properties *)

(** C18: a process configuration passes [Validate] exactly when it has a name and
    an executable, its shutdown signal is unset, TERM or INT, and every
    additional volume is a canonical absolute path strictly below the BOSH root
    (so it has no [..] element and cannot leave the root) that is neither the
    job's data nor its store directory. *)
Theorem validate_accepts_exactly env rs defaultVolumes c
    (Henv : env_wf env rs) (Hroot : rs ≠ []) :
  ProcessConfig_Validate c env defaultVolumes = None
  ↔ valid_process rs defaultVolumes c.
Proof. by apply Validate_None. Qed.

Definition example_process : ProcessConfig :=
  mkProcessConfig "server" "/var/vcap/packages/server/bin/server" ["--port"; "80"] None
    [mkVolume "/var/vcap/data/shared" true false false false] [] false None None false
    "" None "INT".

Lemma validate_accepts_exactly_witness :
  valid_process default_elems (DefaultVolumes (NewBPMConfig (NewEnv "") "server" "server"))
    example_process.
Proof.
  apply (validate_accepts_exactly (NewEnv "") default_elems).
  - apply NewEnv_default_wf.
  - discriminate.
  - vm_compute. reflexivity.
Defined.

(** The entries before the one that decides, all present and valid. *)
Definition valid_until (rs defaultVolumes : list string) (ps : list (option ProcessConfig))
    (x : option ProcessConfig) : Prop :=
  ∃ ok rest, ps = (Some <$> ok) ++ x :: rest ∧ Forall (valid_process rs defaultVolumes) ok.

Lemma valid_until_nil rs dv x : ¬ valid_until rs dv [] x.
Proof. intros (ok & rest & H & _). by destruct ok. Qed.

Lemma valid_until_cons rs dv v ps x :
  valid_until rs dv (v :: ps) x ↔
  v = x ∨ ∃ v', v = Some v' ∧ valid_process rs dv v' ∧ valid_until rs dv ps x.
Proof.
  split.
  - intros (ok & rest & H & HF). destruct ok as [|v' ok]; simplify_eq/=; [by left|right].
    apply Forall_cons in HF as [? ?]. exists v'. split_and!; [done..|]. by exists ok, rest.
  - intros [->|(v' & -> & Hv & ok & rest & -> & HF)]; [by exists [], ps|].
    exists (v' :: ok), rest. split; [done|]. by constructor.
Qed.

(** C19: validating a job: the result is nil exactly when every entry is present and
    valid; it is an error exactly when that is the error of the first entry that is not
    valid and no null entry comes before it; and it panics exactly when a null entry, a
    nil pointer, comes first. *)
Theorem job_validate_outcomes env rs defaultVolumes c
    (Henv : env_wf env rs) (Hroot : rs ≠ []) :
  (JobConfig_Validate c env defaultVolumes = Val None ↔
   Forall (λ p, ∃ v, p = Some v ∧ valid_process rs defaultVolumes v) (Processes c))
  ∧ (∀ e, JobConfig_Validate c env defaultVolumes = Val (Some e) ↔
     ∃ v, valid_until rs defaultVolumes (Processes c) (Some v)
       ∧ ProcessConfig_Validate v env defaultVolumes = Some e)
  ∧ (∀ x, JobConfig_Validate c env defaultVolumes = Panics x ↔
     x = NilDereference ∧ valid_until rs defaultVolumes (Processes c) None).
Proof.
  unfold JobConfig_Validate.
  assert (∀ v, ProcessConfig_Validate v env defaultVolumes = None ↔
    valid_process rs defaultVolumes v) as Hv by (intros v; by apply Validate_None).
  induction (Processes c) as [|[v|] ps (IH1 & IH2 & IH3)]; simpl.
  - split_and!; [by split|..]; intros x; (split; [done|]);
      [intros (v & Hu & _)|intros [_ Hu]]; by apply valid_until_nil in Hu.
  - rewrite Forall_cons. setoid_rewrite valid_until_cons. pose proof (Hv v) as Hvv.
    destruct (ProcessConfig_Validate v env defaultVolumes) as [e|] eqn:Hval.
    + split_and!; naive_solver.
    + rewrite IH1. setoid_rewrite IH2. setoid_rewrite IH3. split_and!; naive_solver.
  - rewrite Forall_cons. setoid_rewrite valid_until_cons. split_and!; naive_solver.
Qed.

Lemma job_validate_outcomes_witness :
  JobConfig_Validate (mkJobConfig [Some example_process; None]) (NewEnv "") []
    = Panics NilDereference.
Proof.
  apply (job_validate_outcomes (NewEnv "") default_elems).
  - apply NewEnv_default_wf.
  - discriminate.
  - split; [reflexivity|]. unfold valid_until. exists [example_process], []. split; [reflexivity|].
    constructor; [|constructor]. apply (Validate_None (NewEnv "")).
    + apply NewEnv_default_wf.
    + discriminate.
    + vm_compute. reflexivity.
Defined.

(** C36: volumes given on the command line: every volume with a colon-free path
    is recovered from its notation [path:options], so [AddVolumes] appends exactly the
    described volumes, in order, and answers as validation of the result does; a
    definition that does not parse ends it with that error, after the volumes before it
    were added; and whenever [AddVolumes] succeeds, on any input, the resulting
    configuration is valid and only extends the list of volumes. *)
Theorem add_volumes_parses_and_validates env rs defaultVolumes c vs
    (Henv : env_wf env rs) (Hroot : rs ≠ [])
    (Hcolon : Forall (λ v, no_byte ":" (v_path v) = true) vs) :
  let extended := set_volumes (pc_additionalVolumes c ++ vs) c in
  AddVolumes c (format_volume <$> vs) env defaultVolumes =
    (extended, ProcessConfig_Validate extended env defaultVolumes)
  ∧ (∀ bad rest e, parse_volume bad = Err e →
       AddVolumes c ((format_volume <$> vs) ++ bad :: rest) env defaultVolumes = (extended, Some e))
  ∧ (∀ volumes c', AddVolumes c volumes env defaultVolumes = (c', None) →
       valid_process rs defaultVolumes c'
       ∧ ∃ added, c' = set_volumes (pc_additionalVolumes c ++ added) c).
Proof.
  unfold AddVolumes. split_and!.
  - by rewrite add_volumes_loop_format.
  - intros bad rest e Hbad. rewrite add_volumes_loop_app, add_volumes_loop_format by done.
    simpl. by rewrite Hbad.
  - intros volumes c' Hadd. destruct (add_volumes_loop volumes c) as [c0 [e|]] eqn:Hloop;
      simplify_eq.
    split; [by apply (Validate_None env)|]. by apply add_volumes_loop_prefix in Hloop.
Qed.

Lemma add_volumes_witness :
  AddVolumes example_process ["/var/vcap/data/cache:writable,shared"; "/var/vcap/data/logs"]
    (NewEnv "") []
  = (set_volumes (pc_additionalVolumes example_process
       ++ [mkVolume "/var/vcap/data/cache" true false false true;
           mkVolume "/var/vcap/data/logs" false false false false]) example_process, None).
Proof.
  destruct (add_volumes_parses_and_validates (NewEnv "") default_elems [] example_process
    [mkVolume "/var/vcap/data/cache" true false false true;
     mkVolume "/var/vcap/data/logs" false false false false]) as [Hadd _].
  - apply NewEnv_default_wf.
  - discriminate.
  - repeat constructor.
  - etransitivity; [exact Hadd|]. vm_compute. reflexivity.
Defined.

(** Environment variables given on the command line: for keys without [=],
    [AddEnvVars] adds every [KEY=value] pair to the process environment, a later
    pair overriding an earlier one and overriding the configuration file, and
    the value may itself contain [=]; the other settings are unchanged. *)
Lemma add_env_vars_last_wins env defaultVolumes c kvs
    (Hkeys : Forall (λ kv, no_byte "=" kv.1 = true) kvs) :
  AddEnvVars c (format_var <$> kvs) env defaultVolumes =
    let c' := set_env (Some (list_to_map (reverse kvs) ∪ default ∅ (pc_env c))) c in
    (c', ProcessConfig_Validate c' env defaultVolumes).
Proof. unfold AddEnvVars. by rewrite add_env_loop_format. Qed.

Lemma add_env_vars_witness :
  let '(c', e) := AddEnvVars example_process ["A=1"; "B=x=y"; "A=2"] (NewEnv "") [] in
  e = None ∧ (default ∅ (pc_env c')) !! "A" = Some "2"
  ∧ (default ∅ (pc_env c')) !! "B" = Some "x=y".
Proof.
  change ["A=1"; "B=x=y"; "A=2"] with (format_var <$> [("A", "1"); ("B", "x=y"); ("A", "2")]).
  rewrite add_env_vars_last_wins.
  - vm_compute. split_and!; reflexivity.
  - repeat constructor.
Defined.

(** Container identifiers: for job and process names without a dot, two
    processes have the same container ID exactly when they are the same job and
    process; with dots they can collide: the process [a.b] of job [a.b] has the
    container ID of the process [b] of job [a]. *)
Lemma container_id_injective env c1 c2
    (Hj1 : dot_free (jobName c1)) (Hp1 : dot_free (procName c1))
    (Hj2 : dot_free (jobName c2)) (Hp2 : dot_free (procName c2)) :
  (ContainerID c1 = ContainerID c2 ↔ jobName c1 = jobName c2 ∧ procName c1 = procName c2)
  ∧ (∀ a b, a ≠ b → ContainerID (NewBPMConfig env (a +:+ "." +:+ b) (a +:+ "." +:+ b))
                    = ContainerID (NewBPMConfig env a b)).
Proof.
  split; [split|].
  - intros H%ContainerID_name. case_decide; case_decide.
    + naive_solver congruence.
    + by apply eq_sym, dot_free_app in H.
    + by apply dot_free_app in H.
    + by apply dot_app_inj in H.
  - unfold ContainerID. by intros [-> ->].
  - intros a b Hab. unfold ContainerID. simpl.
    by rewrite decide_True, decide_False.
Qed.

Lemma container_id_witness :
  ContainerID (NewBPMConfig (NewEnv "") "a.b" "a.b") = ContainerID (NewBPMConfig (NewEnv "") "a" "b")
  ∧ ContainerID (NewBPMConfig (NewEnv "") "server" "worker")
    ≠ ContainerID (NewBPMConfig (NewEnv "") "server" "server").
Proof.
  assert (dot_free "server" ∧ dot_free "worker") as [Hs Hw] by (split; reflexivity).
  destruct (container_id_injective (NewEnv "") (NewBPMConfig (NewEnv "") "server" "worker")
    (NewBPMConfig (NewEnv "") "server" "server") Hs Hw Hs Hs) as [H1 H2].
  split.
  - apply (H2 "a" "b"). discriminate.
  - intros H. apply H1 in H as [_ H]. discriminate H.
Defined.

(** The files of a process: in a well-formed environment the PID file is
    [ROOT/sys/run/bpm/JOB/PROCESS.pid] (where monit expects it), the log files
    are [ROOT/sys/log/JOB/PROCESS.std{out,err}.log] and two processes of the
    same environment never share a PID file or a log file. *)
Lemma process_files_distinct c1 c2 rs
    (H1 : config_wf c1 rs) (H2 : config_wf c2 rs) :
  External (PidFile c1) =
    abs_path (rs ++ ["sys"; "run"; "bpm"; jobName c1; procName c1 +:+ ".pid"])
  ∧ External (Config_Stdout c1) =
    abs_path (rs ++ ["sys"; "log"; jobName c1; procName c1 +:+ ".stdout.log"])
  ∧ External (Config_Stderr c1) =
    abs_path (rs ++ ["sys"; "log"; jobName c1; procName c1 +:+ ".stderr.log"])
  ∧ (External (PidFile c1) = External (PidFile c2) →
     jobName c1 = jobName c2 ∧ procName c1 = procName c2)
  ∧ (External (Config_Stdout c1) = External (Config_Stdout c2) →
     jobName c1 = jobName c2 ∧ procName c1 = procName c2).
Proof.
  assert (∀ c, config_wf c rs → normal_elem (procName c +:+ ".stdout.log")
    ∧ normal_elem (procName c +:+ ".stderr.log") ∧ normal_elem (procName c +:+ ".pid")) as Hn.
  { intros c Hc. split_and!; apply (proc_file_normal c rs Hc); simpl; done || lia. }
  destruct (Hn c1 H1) as (Ho1 & He1 & Hp1), (Hn c2 H2) as (Ho2 & He2 & Hp2).
  destruct (H1) as ([Hr _] & Hj1 & _), (H2) as (_ & Hj2 & _).
  unfold Config_Stdout, Config_Stderr.
  rewrite !(PidFile_path c1 rs), !(log_path c1 rs), !(log_path c2 rs) by done.
  rewrite (PidFile_path c2 rs) by done.
  split_and!; [done..| |]; intros H; apply abs_path_inj in H; try normal_elems;
    apply (inj (rs ++.)) in H; simplify_eq; eauto using suffix_inj.
Qed.

Lemma process_files_witness :
  External (PidFile (NewBPMConfig (NewEnv "") "server" "worker"))
    = "/var/vcap/sys/run/bpm/server/worker.pid".
Proof.
  assert (config_wf (NewBPMConfig (NewEnv "") "server" "worker") default_elems) as Hwf.
  { split_and!; [apply NewEnv_default_wf|simpl; normal_elems|reflexivity]. }
  destruct (process_files_distinct _ _ _ Hwf Hwf) as [H _].
  rewrite H. reflexivity.
Defined.
