(* ===== verification/Seccomp.v ===== *)
(** * Package specbuilder: the seccomp profile (src/bpm/runc/specbuilder/seccomp.go)

    The default profile is an allow list: a system call that no rule matches is
    answered with an error.  How runc and libseccomp turn a profile into a filter is
    their matter; the profile is data here. *)

From S2P Require Import Prelude Specs.

Definition ActErrno : string := "SCMP_ACT_ERRNO".
Definition ActAllow : string := "SCMP_ACT_ALLOW".
Definition OpEqualTo : string := "SCMP_CMP_EQ".
Definition OpMaskedEqual : string := "SCMP_CMP_MASKED_EQ".
Definition ArchX86 : string := "SCMP_ARCH_X86".
Definition ArchX86_64 : string := "SCMP_ARCH_X86_64".
Definition ArchX32 : string := "SCMP_ARCH_X32".

Definition ENOSYS : Z := 38.

Definition CLONE_NEWNS : Z := 0x20000.
Definition CLONE_NEWUTS : Z := 0x4000000.
Definition CLONE_NEWIPC : Z := 0x8000000.
Definition CLONE_NEWUSER : Z := 0x10000000.
Definition CLONE_NEWPID : Z := 0x20000000.
Definition CLONE_NEWNET : Z := 0x40000000.

Definition personality_per_linux : Z := 0x0000.
Definition personality_per_linux32 : Z := 0x0008.
Definition personality_query : Z := 0xFFFFFFFF.

Definition clone_namespace_flags : Z :=
  Z.lor (Z.lor (Z.lor (Z.lor (Z.lor CLONE_NEWNS CLONE_NEWUTS) CLONE_NEWIPC)
    CLONE_NEWUSER) CLONE_NEWPID) CLONE_NEWNET.

Definition AllowSyscall (syscall : string) (args : list LinuxSeccompArg) : LinuxSyscall :=
  mkSyscall [syscall] ActAllow None args.

(** The rules, in the order of the source. *)
Definition default_syscalls_1 : list LinuxSyscall :=
    [ AllowSyscall "_llseek" [];
      AllowSyscall "_newselect" [];
      AllowSyscall "accept" [];
      AllowSyscall "accept4" [];
      AllowSyscall "access" [];
      AllowSyscall "alarm" [];
      AllowSyscall "arch_prctl" [];
      AllowSyscall "bind" [];
      AllowSyscall "brk" [];
      AllowSyscall "capget" [];
      AllowSyscall "capset" [];
      AllowSyscall "chdir" [];
      AllowSyscall "chmod" [];
      AllowSyscall "chown" [];
      AllowSyscall "chown32" [];
      AllowSyscall "chroot" [];
      AllowSyscall "clock_getres" [];
      AllowSyscall "clock_gettime" [];
      AllowSyscall "clock_nanosleep" [];
      AllowSyscall "clone"
        [mkSeccompArg 0 clone_namespace_flags 0 OpMaskedEqual];
      mkSyscall ["clone3"] ActErrno (Some ENOSYS) [];
      AllowSyscall "close" [];
      AllowSyscall "connect" [];
      AllowSyscall "copy_file_range" [];
      AllowSyscall "creat" [];
      AllowSyscall "dup" [];
      AllowSyscall "dup2" [];
      AllowSyscall "dup3" [];
      AllowSyscall "epoll_create" [];
      AllowSyscall "epoll_create1" [];
      AllowSyscall "epoll_ctl" [];
      AllowSyscall "epoll_ctl_old" [];
      AllowSyscall "epoll_pwait" [];
      AllowSyscall "epoll_wait" [];
      AllowSyscall "epoll_wait_old" [];
      AllowSyscall "eventfd" [];
      AllowSyscall "eventfd2" [];
      AllowSyscall "execve" [];
      AllowSyscall "execveat" [];
      AllowSyscall "exit" [];
      AllowSyscall "exit_group" [];
      AllowSyscall "faccessat" [];
      AllowSyscall "fadvise64" [];
      AllowSyscall "fadvise64_64" [];
      AllowSyscall "fallocate" [];
      AllowSyscall "fanotify_mark" [];
      AllowSyscall "fchdir" [];
      AllowSyscall "fchmod" [];
      AllowSyscall "fchmodat" [];
      AllowSyscall "fchown" [];
      AllowSyscall "fchown32" [];
      AllowSyscall "fchownat" [];
      AllowSyscall "fcntl" [];
      AllowSyscall "fcntl64" [];
      AllowSyscall "fdatasync" [];
      AllowSyscall "fgetxattr" [];
      AllowSyscall "flistxattr" [];
      AllowSyscall "flock" [];
      AllowSyscall "fork" [];
      AllowSyscall "fremovexattr" [];
      AllowSyscall "fsetxattr" [];
      AllowSyscall "fstat" [];
      AllowSyscall "fstat64" [];
      AllowSyscall "fstatat64" [];
      AllowSyscall "fstatfs" [];
      AllowSyscall "fstatfs64" [];
      AllowSyscall "fsync" [];
      AllowSyscall "ftruncate" [];
      AllowSyscall "ftruncate64" [];
      AllowSyscall "futex" [];
      AllowSyscall "futimesat" [];
      AllowSyscall "get_robust_list" [];
      AllowSyscall "get_thread_area" [];
      AllowSyscall "getcpu" [];
      AllowSyscall "getcwd" [];
      AllowSyscall "getdents" [];
      AllowSyscall "getdents64" [];
      AllowSyscall "getegid" [];
      AllowSyscall "getegid32" [];
      AllowSyscall "geteuid" [];
      AllowSyscall "geteuid32" [];
      AllowSyscall "getgid" [];
      AllowSyscall "getgid32" [];
      AllowSyscall "getgroups" [];
      AllowSyscall "getgroups32" [];
      AllowSyscall "getitimer" [];
      AllowSyscall "getpeername" [];
      AllowSyscall "getpgid" [];
      AllowSyscall "getpgrp" [];
      AllowSyscall "getpid" [];
      AllowSyscall "getppid" [];
      AllowSyscall "getpriority" [];
      AllowSyscall "getrandom" [];
      AllowSyscall "getresgid" [] ].

Definition default_syscalls_2 : list LinuxSyscall :=
    [ AllowSyscall "getresgid32" [];
      AllowSyscall "getresuid" [];
      AllowSyscall "getresuid32" [];
      AllowSyscall "getrlimit" [];
      AllowSyscall "getrusage" [];
      AllowSyscall "getsid" [];
      AllowSyscall "getsockname" [];
      AllowSyscall "getsockopt" [];
      AllowSyscall "gettid" [];
      AllowSyscall "gettimeofday" [];
      AllowSyscall "getuid" [];
      AllowSyscall "getuid32" [];
      AllowSyscall "getxattr" [];
      AllowSyscall "inotify_add_watch" [];
      AllowSyscall "inotify_init" [];
      AllowSyscall "inotify_init1" [];
      AllowSyscall "inotify_rm_watch" [];
      AllowSyscall "io_cancel" [];
      AllowSyscall "io_destroy" [];
      AllowSyscall "io_getevents" [];
      AllowSyscall "io_setup" [];
      AllowSyscall "io_submit" [];
      AllowSyscall "ioctl" [];
      AllowSyscall "ioprio_get" [];
      AllowSyscall "ioprio_set" [];
      AllowSyscall "ipc" [];
      AllowSyscall "kill" [];
      AllowSyscall "lchown" [];
      AllowSyscall "lchown32" [];
      AllowSyscall "lgetxattr" [];
      AllowSyscall "link" [];
      AllowSyscall "linkat" [];
      AllowSyscall "listen" [];
      AllowSyscall "listxattr" [];
      AllowSyscall "llistxattr" [];
      AllowSyscall "lremovexattr" [];
      AllowSyscall "lseek" [];
      AllowSyscall "lsetxattr" [];
      AllowSyscall "lstat" [];
      AllowSyscall "lstat64" [];
      AllowSyscall "madvise" [];
      AllowSyscall "memfd_create" [];
      AllowSyscall "mincore" [];
      AllowSyscall "mkdir" [];
      AllowSyscall "mkdirat" [];
      AllowSyscall "mknod" [];
      AllowSyscall "mknodat" [];
      AllowSyscall "mlock" [];
      AllowSyscall "mlock2" [];
      AllowSyscall "mlockall" [];
      AllowSyscall "mmap" [];
      AllowSyscall "mmap2" [];
      AllowSyscall "modify_ldt" [];
      AllowSyscall "mprotect" [];
      AllowSyscall "mq_getsetattr" [];
      AllowSyscall "mq_notify" [];
      AllowSyscall "mq_open" [];
      AllowSyscall "mq_timedreceive" [];
      AllowSyscall "mq_timedsend" [];
      AllowSyscall "mq_unlink" [];
      AllowSyscall "mremap" [];
      AllowSyscall "msgctl" [];
      AllowSyscall "msgget" [];
      AllowSyscall "msgrcv" [];
      AllowSyscall "msgsnd" [];
      AllowSyscall "msync" [];
      AllowSyscall "munlock" [];
      AllowSyscall "munlockall" [];
      AllowSyscall "munmap" [];
      AllowSyscall "nanosleep" [];
      AllowSyscall "newfstatat" [];
      AllowSyscall "open" [];
      AllowSyscall "openat" [];
      AllowSyscall "openat2" [];
      AllowSyscall "pause" [];
      AllowSyscall "personality" [mkSeccompArg 0 personality_per_linux 0 OpEqualTo];
      AllowSyscall "personality" [mkSeccompArg 0 personality_query 0 OpEqualTo];
      AllowSyscall "personality" [mkSeccompArg 0 personality_per_linux32 0 OpEqualTo];
      AllowSyscall "pipe" [];
      AllowSyscall "pipe2" [];
      AllowSyscall "poll" [];
      AllowSyscall "ppoll" [];
      AllowSyscall "prctl" [];
      AllowSyscall "pread64" [];
      AllowSyscall "preadv" [];
      AllowSyscall "preadv2" [];
      AllowSyscall "prlimit64" [];
      AllowSyscall "pselect6" [];
      AllowSyscall "pwrite64" [];
      AllowSyscall "pwritev" [];
      AllowSyscall "pwritev2" [];
      AllowSyscall "read" [];
      AllowSyscall "readahead" [];
      AllowSyscall "readlink" [];
      AllowSyscall "readlinkat" [];
      AllowSyscall "readv" [];
      AllowSyscall "recv" [];
      AllowSyscall "recvfrom" [];
      AllowSyscall "recvmmsg" [];
      AllowSyscall "recvmsg" [];
      AllowSyscall "remap_file_pages" [];
      AllowSyscall "removexattr" [];
      AllowSyscall "rename" [];
      AllowSyscall "renameat" [];
      AllowSyscall "renameat2" [];
      AllowSyscall "restart_syscall" [];
      AllowSyscall "rmdir" [];
      AllowSyscall "rt_sigaction" [];
      AllowSyscall "rt_sigpending" [];
      AllowSyscall "rt_sigprocmask" [] ].

Definition default_syscalls_3 : list LinuxSyscall :=
    [ AllowSyscall "rt_sigqueueinfo" [];
      AllowSyscall "rt_sigreturn" [];
      AllowSyscall "rt_sigsuspend" [];
      AllowSyscall "rt_sigtimedwait" [];
      AllowSyscall "rt_tgsigqueueinfo" [];
      AllowSyscall "sched_get_priority_max" [];
      AllowSyscall "sched_get_priority_min" [];
      AllowSyscall "sched_getaffinity" [];
      AllowSyscall "sched_getattr" [];
      AllowSyscall "sched_getparam" [];
      AllowSyscall "sched_getscheduler" [];
      AllowSyscall "sched_rr_get_interval" [];
      AllowSyscall "sched_setaffinity" [];
      AllowSyscall "sched_setattr" [];
      AllowSyscall "sched_setparam" [];
      AllowSyscall "sched_setscheduler" [];
      AllowSyscall "sched_yield" [];
      AllowSyscall "seccomp" [];
      AllowSyscall "select" [];
      AllowSyscall "semctl" [];
      AllowSyscall "semget" [];
      AllowSyscall "semop" [];
      AllowSyscall "semtimedop" [];
      AllowSyscall "send" [];
      AllowSyscall "sendfile" [];
      AllowSyscall "sendfile64" [];
      AllowSyscall "sendmmsg" [];
      AllowSyscall "sendmsg" [];
      AllowSyscall "sendto" [];
      AllowSyscall "set_robust_list" [];
      AllowSyscall "set_thread_area" [];
      AllowSyscall "set_tid_address" [];
      AllowSyscall "setfsgid" [];
      AllowSyscall "setfsgid32" [];
      AllowSyscall "setfsuid" [];
      AllowSyscall "setfsuid32" [];
      AllowSyscall "setgid" [];
      AllowSyscall "setgid32" [];
      AllowSyscall "setgroups" [];
      AllowSyscall "setgroups32" [];
      AllowSyscall "setitimer" [];
      AllowSyscall "setpgid" [];
      AllowSyscall "setpriority" [];
      AllowSyscall "setregid" [];
      AllowSyscall "setregid32" [];
      AllowSyscall "setresgid" [];
      AllowSyscall "setresgid32" [];
      AllowSyscall "setresuid" [];
      AllowSyscall "setresuid32" [];
      AllowSyscall "setreuid" [];
      AllowSyscall "setreuid32" [];
      AllowSyscall "setrlimit" [];
      AllowSyscall "setsid" [];
      AllowSyscall "setsockopt" [];
      AllowSyscall "setuid" [];
      AllowSyscall "setuid32" [];
      AllowSyscall "setxattr" [];
      AllowSyscall "shmat" [];
      AllowSyscall "shmctl" [];
      AllowSyscall "shmdt" [];
      AllowSyscall "shmget" [];
      AllowSyscall "shutdown" [];
      AllowSyscall "sigaltstack" [];
      AllowSyscall "signalfd" [];
      AllowSyscall "signalfd4" [];
      AllowSyscall "sigreturn" [];
      AllowSyscall "socket" [];
      AllowSyscall "socketcall" [];
      AllowSyscall "socketpair" [];
      AllowSyscall "splice" [];
      AllowSyscall "stat" [];
      AllowSyscall "statx" [];
      AllowSyscall "stat64" [];
      AllowSyscall "statfs" [];
      AllowSyscall "statfs64" [];
      AllowSyscall "symlink" [];
      AllowSyscall "symlinkat" [];
      AllowSyscall "sync" [];
      AllowSyscall "sync_file_range" [];
      AllowSyscall "syncfs" [];
      AllowSyscall "sysinfo" [];
      AllowSyscall "syslog" [];
      AllowSyscall "tee" [];
      AllowSyscall "tgkill" [];
      AllowSyscall "time" [];
      AllowSyscall "timer_create" [];
      AllowSyscall "timer_delete" [];
      AllowSyscall "timer_getoverrun" [];
      AllowSyscall "timer_gettime" [];
      AllowSyscall "timer_settime" [];
      AllowSyscall "timerfd_create" [];
      AllowSyscall "timerfd_gettime" [];
      AllowSyscall "timerfd_settime" [];
      AllowSyscall "times" [];
      AllowSyscall "tkill" [];
      AllowSyscall "truncate" [];
      AllowSyscall "truncate64" [];
      AllowSyscall "ugetrlimit" [];
      AllowSyscall "umask" [];
      AllowSyscall "uname" [];
      AllowSyscall "unlink" [];
      AllowSyscall "unlinkat" [];
      AllowSyscall "utime" [];
      AllowSyscall "utimensat" [];
      AllowSyscall "utimes" [];
      AllowSyscall "vfork" [];
      AllowSyscall "vmsplice" [];
      AllowSyscall "wait4" [];
      AllowSyscall "waitid" [];
      AllowSyscall "waitpid" [];
      AllowSyscall "write" [];
      AllowSyscall "writev" [] ].

Definition default_syscalls : list LinuxSyscall :=
  default_syscalls_1 ++ default_syscalls_2 ++ default_syscalls_3.

Definition DefaultSeccomp : LinuxSeccomp :=
  mkSeccomp ActErrno [ArchX86_64; ArchX86; ArchX32] default_syscalls.

(** The rules of a name, in order. *)
Definition rules_for (name : string) (p : LinuxSeccomp) : list LinuxSyscall :=
  filter (λ r, name ∈ sc_names r) (se_syscalls p).

(** The profile answers with an error what no rule allows.  [clone] has one rule, on the
    mask of six namespace flags (CLONE_NEWCGROUP, 0x2000000, is not among them), [clone3]
    is answered with ENOSYS, and the calls that change namespaces, mounts and the kernel
    have no rule. *)
Lemma default_seccomp_rules :
  se_defaultAction DefaultSeccomp = ActErrno
  ∧ rules_for "clone" DefaultSeccomp
    = [AllowSyscall "clone" [mkSeccompArg 0 clone_namespace_flags 0 OpMaskedEqual]]
  ∧ rules_for "clone3" DefaultSeccomp = [mkSyscall ["clone3"] ActErrno (Some ENOSYS) []]
  ∧ Forall (λ name, rules_for name DefaultSeccomp = [])
      ["unshare"; "setns"; "mount"; "umount2"; "pivot_root"; "ptrace"; "bpf"; "kexec_load";
       "init_module"; "reboot"; "keyctl"].
Proof. split_and!; [by vm_compute..|]. repeat constructor; by vm_compute. Qed.
