(* ===== verification/SpecBuilder.v ===== *)
(** * Package specbuilder: the container specification
    (src/bpm/runc/specbuilder/specbuilder.go, capabilities.go)

    A [SpecOption] mutates the specification it is applied to; here it is a
    function on specifications, and [Apply] runs a list of them in order.  The
    mounts' option slices are owned by the specification (no two mounts share a
    backing array), so the in-place removal of an option is a list update. *)

From S2P Require Import Prelude Specs Seccomp.

(** [sysfeat.Features]. *)
Record Features := mkFeatures { SwapLimitSupported : bool; SeccompSupported : bool }.

Definition specs_Version : string := "1.3.0".

Definition no_caps : LinuxCapabilities := mkCaps [] [] [] [] [].

Definition DefaultSpec : Spec :=
  mkSpec specs_Version
    (mkSpecProcess (mkUser 0 0 "") [] [] "" no_caps [] true)
    None
    [mkMount "/proc" "proc" "proc" [];
     mkMount "/dev" "tmpfs" "tmpfs" ["nosuid"; "noexec"; "mode=755"];
     mkMount "/dev/pts" "devpts" "devpts"
       ["nosuid"; "noexec"; "newinstance"; "ptmxmode=0666"; "mode=0620"; "gid=5"];
     mkMount "/dev/shm" "tmpfs" "shm" ["nosuid"; "noexec"; "nodev"; "mode=1777"];
     mkMount "/dev/mqueue" "mqueue" "mqueue" ["nosuid"; "noexec"; "nodev"];
     mkMount "/sys" "sysfs" "sysfs" ["nosuid"; "noexec"; "nodev"; "ro"]]
    (mkSpecLinux
       ["/etc/sv"; "/proc/kcore"; "/proc/latency_stats"; "/proc/sched_debug";
        "/proc/timer_list"; "/proc/timer_stats"; "/sys/firmware"]
       ["/proc/asound"; "/proc/bus"; "/proc/fs"; "/proc/irq"; "/proc/sys";
        "/proc/sysrq-trigger"]
       (mkResources None None) "private" (Some DefaultSeccomp) [] "").

Definition DefaultPrivilegedCapabilities : list string :=
  ["CAP_AUDIT_CONTROL"; "CAP_AUDIT_READ"; "CAP_AUDIT_WRITE"; "CAP_BLOCK_SUSPEND";
   "CAP_CHOWN"; "CAP_DAC_OVERRIDE"; "CAP_DAC_READ_SEARCH"; "CAP_FOWNER";
   "CAP_FSETID"; "CAP_IPC_LOCK"; "CAP_IPC_OWNER"; "CAP_KILL";
   "CAP_LEASE"; "CAP_LINUX_IMMUTABLE"; "CAP_MAC_ADMIN"; "CAP_MAC_OVERRIDE";
   "CAP_MKNOD"; "CAP_NET_ADMIN"; "CAP_NET_BIND_SERVICE"; "CAP_NET_BROADCAST";
   "CAP_NET_RAW"; "CAP_SETFCAP"; "CAP_SETGID"; "CAP_SETPCAP";
   "CAP_SETUID"; "CAP_SYSLOG"; "CAP_SYS_ADMIN"; "CAP_SYS_BOOT";
   "CAP_SYS_CHROOT"; "CAP_SYS_MODULE"; "CAP_SYS_NICE"; "CAP_SYS_PACCT";
   "CAP_SYS_PTRACE"; "CAP_SYS_RAWIO"; "CAP_SYS_RESOURCE"; "CAP_SYS_TIME";
   "CAP_SYS_TTY_CONFIG"; "CAP_WAKE_ALARM"].

(** ** Options *)

Definition SpecOption : Type := Spec → Spec.

Definition Apply (spec : Spec) (opts : list SpecOption) : Spec :=
  foldl (λ s opt, opt s) spec opts.
Definition Build (opts : list SpecOption) : Spec := Apply DefaultSpec opts.

(** Field updates of the nested records. *)
Definition set_process (p : SpecProcess) (s : Spec) : Spec :=
  mkSpec (s_version s) p (s_root s) (s_mounts s) (s_linux s).
Definition set_linux (l : SpecLinux) (s : Spec) : Spec :=
  mkSpec (s_version s) (s_process s) (s_root s) (s_mounts s) l.
Definition set_mounts (ms : list Mount) (s : Spec) : Spec :=
  mkSpec (s_version s) (s_process s) (s_root s) ms (s_linux s).
Definition set_resources (r : LinuxResources) (s : Spec) : Spec :=
  let l := s_linux s in
  set_linux (mkSpecLinux (li_maskedPaths l) (li_readonlyPaths l) r
    (li_rootfsPropagation l) (li_seccomp l) (li_namespaces l) (li_cgroupsPath l)) s.
Definition set_rlimits (r : list POSIXRlimit) (s : Spec) : Spec :=
  let p := s_process s in
  set_process (mkSpecProcess (sp_user p) (sp_args p) (sp_env p) (sp_cwd p)
    (sp_capabilities p) r (sp_noNewPrivileges p)) s.

Definition WithRootFilesystem (path : string) : SpecOption := λ s,
  mkSpec (s_version s) (s_process s) (Some path) (s_mounts s) (s_linux s).

Definition WithNamespace (namespace : string) : SpecOption := λ s,
  let l := s_linux s in
  set_linux (mkSpecLinux (li_maskedPaths l) (li_readonlyPaths l) (li_resources l)
    (li_rootfsPropagation l) (li_seccomp l) (li_namespaces l ++ [namespace])
    (li_cgroupsPath l)) s.

Definition WithUser (user : User) : SpecOption := λ s,
  let p := s_process s in
  set_process (mkSpecProcess user (sp_args p) (sp_env p) (sp_cwd p)
    (sp_capabilities p) (sp_rlimits p) (sp_noNewPrivileges p)) s.

Definition WithProcess (executable : string) (args environment : list string)
    (cwd : string) : SpecOption := λ s,
  let p := s_process s in
  set_process (mkSpecProcess (sp_user p) (executable :: args) environment cwd
    (sp_capabilities p) (sp_rlimits p) (sp_noNewPrivileges p)) s.

Definition WithCapabilities (capabilities : list string) : SpecOption := λ s,
  let p := s_process s in
  let c := sp_capabilities p in
  set_process (mkSpecProcess (sp_user p) (sp_args p) (sp_env p) (sp_cwd p)
    (mkCaps (Ambient c ++ capabilities) (Bounding c ++ capabilities) (Effective c)
       (Inheritable c ++ capabilities) (Permitted c ++ capabilities))
    (sp_rlimits p) (sp_noNewPrivileges p)) s.

Definition WithMounts (mounts : list Mount) : SpecOption := λ s,
  set_mounts (s_mounts s ++ mounts) s.

Definition WithMemoryLimit (limit : Z) (features : Features) : SpecOption := λ s,
  set_resources (mkResources
    (Some (mkMemory (Some limit) (if SwapLimitSupported features then Some limit else None)))
    (res_pids (li_resources (s_linux s)))) s.

Definition WithPidLimit (limit : Z) : SpecOption := λ s,
  set_resources (mkResources (res_memory (li_resources (s_linux s))) (Some limit)) s.

Definition WithOpenFileLimit (limit : Z) : SpecOption := λ s,
  set_rlimits (sp_rlimits (s_process s) ++ [mkRlimit "RLIMIT_NOFILE" limit limit]) s.

Definition WithCoreFileSizeLimit (limit : Z) : SpecOption := λ s,
  set_rlimits (sp_rlimits (s_process s) ++ [mkRlimit "RLIMIT_CORE" limit limit]) s.

Definition RootUser : User := mkUser 0 0 "".

Definition WithoutSeccomp : SpecOption := λ s,
  let l := s_linux s in
  set_linux (mkSpecLinux (li_maskedPaths l) (li_readonlyPaths l) (li_resources l)
    (li_rootfsPropagation l) None (li_namespaces l) (li_cgroupsPath l)) s.

(** Drops the first [nosuid]. *)
Fixpoint removeNosuidMountOption (opts : list string) : list string :=
  match opts with
  | [] => []
  | o :: os => if decide (o = "nosuid") then os else o :: removeNosuidMountOption os
  end.

Definition WithPrivileged : SpecOption := λ s,
  let s := Apply s [WithCapabilities DefaultPrivilegedCapabilities] in
  let s := Apply s [WithUser RootUser] in
  let p := s_process s in
  let s := set_process (mkSpecProcess (sp_user p) (sp_args p) (sp_env p) (sp_cwd p)
    (sp_capabilities p) (sp_rlimits p) false) s in
  let l := s_linux s in
  let s := set_linux (mkSpecLinux [] [] (li_resources l) (li_rootfsPropagation l) None
    (li_namespaces l) (li_cgroupsPath l)) s in
  set_mounts ((λ m, mkMount (m_destination m) (m_type m) (m_source m)
    (removeNosuidMountOption (m_options m))) <$> s_mounts s) s.

Definition WithCgroupsPath (path : string) : SpecOption := λ s,
  let l := s_linux s in
  set_linux (mkSpecLinux (li_maskedPaths l) (li_readonlyPaths l) (li_resources l)
    (li_rootfsPropagation l) (li_seccomp l) (li_namespaces l) path) s.

(** ** Specification: what makes a specification confined *)

(** The protections an unprivileged container keeps. *)
Definition spec_confined (features : Features) (s : Spec) : Prop :=
  sp_noNewPrivileges (s_process s) = true
  ∧ li_maskedPaths (s_linux s) = li_maskedPaths (s_linux DefaultSpec)
  ∧ li_readonlyPaths (s_linux s) = li_readonlyPaths (s_linux DefaultSpec)
  ∧ li_rootfsPropagation (s_linux s) = "private"
  ∧ li_seccomp (s_linux s) =
      (if SeccompSupported features then Some DefaultSeccomp else None)
  ∧ Effective (sp_capabilities (s_process s)) = [].

(** The four capability sets bpm fills are the same list. *)
Definition caps_exactly (caps : list string) (s : Spec) : Prop :=
  sp_capabilities (s_process s) = mkCaps caps caps [] caps caps.

(** ** Lemmas *)

Lemma removeNosuid_other o opts :
  o ≠ "nosuid" → o ∈ removeNosuidMountOption opts ↔ o ∈ opts.
Proof.
  intros Ho. induction opts as [|x os IH]; simpl; [done|].
  case_decide; set_solver.
Qed.

Lemma removeNosuid_gone opts :
  NoDup opts → "nosuid" ∉ removeNosuidMountOption opts.
Proof.
  induction 1 as [|x os Hx Hos IH]; simpl; [set_solver|].
  case_decide; set_solver.
Qed.

Lemma removeNosuid_nodup opts : NoDup opts → NoDup (removeNosuidMountOption opts).
Proof.
  induction 1 as [|x os Hx Hos IH]; simpl; [constructor|].
  case_decide; [done|]. constructor; [|done]. by rewrite removeNosuid_other.
Qed.

Lemma default_mounts_nodup : Forall (λ m, NoDup (m_options m)) (s_mounts DefaultSpec).
Proof. by apply (bool_decide_unpack _); vm_compute. Qed.
