(* ===== verification/Mounts.v ===== *)
(** * Package adapter: bind mounts (src/bpm/runc/adapter/mount.go)

    Descriptions of bind mounts with restrictive defaults, and the
    de-duplication of mounts by destination: the first mount added for a
    destination wins, and the result lists parents before children.  Go leaves
    the iteration order of the map and the order of equally deep mounts open, so
    the functions are stated against the [MapRange] and [SortSlice]
    interfaces. *)

From S2P Require Import Prelude GoStrings GoPath Specs.

Record mountOptions := mkMountOptions {
  mo_rbind : bool; mo_exec : bool; mo_suid : bool; mo_dev : bool; mo_writable : bool
}.

Definition MountOption : Type := mountOptions → mountOptions.

Definition AllowExec : MountOption := λ o,
  mkMountOptions (mo_rbind o) true (mo_suid o) (mo_dev o) (mo_writable o).
Definition AllowWrites : MountOption := λ o,
  mkMountOptions (mo_rbind o) (mo_exec o) (mo_suid o) (mo_dev o) true.
Definition WithRecursiveBind : MountOption := λ o,
  mkMountOptions true (mo_exec o) (mo_suid o) (mo_dev o) (mo_writable o).

Definition mount_opts (mo : mountOptions) : list string :=
  [if mo_rbind mo then "rbind" else "bind"]
  ++ [if mo_exec mo then "exec" else "noexec"]
  ++ [if mo_suid mo then "suid" else "nosuid"]
  ++ [if mo_dev mo then "dev" else "nodev"]
  ++ [if mo_writable mo then "rw" else "ro"].

Definition Mount_from_to (from to : string) (opts : list MountOption) : Mount :=
  let mountOpts :=
    foldl (λ mo opt, opt mo) (mkMountOptions false false false false false) opts in
  mkMount to "bind" from (mount_opts mountOpts).

Definition IdentityMount (path : string) (opts : list MountOption) : Mount :=
  Mount_from_to path path opts.

(** ** De-duplication *)

(** [dedupMounts.set]; the logger field only reports duplicates. *)
Definition newMountDedup : gmap string Mount := ∅.

Fixpoint addMounts (ms : list Mount) (d : gmap string Mount) : gmap string Mount :=
  match ms with
  | [] => d
  | mount :: ms' =>
      let dst := m_destination mount in
      match d !! dst with
      | Some _ => addMounts ms' d
      | None => addMounts ms' (<[dst := mount]> d)
      end
  end.

Definition mount_depth (m : Mount) : nat := length (Split slash (m_destination m)).

Definition mounts `{MapRange, SortSlice} (d : gmap string Mount) : list Mount :=
  sort_slice mount_depth ((map_range d).*2).

(** ** Specification *)

(** Every mount is stored under its destination. *)
Definition dedup_wf (d : gmap string Mount) : Prop :=
  ∀ dst m, d !! dst = Some m → m_destination m = dst.

(** The first mount of a list with a given destination. *)
Definition first_mount (dst : string) (ms : list Mount) : option Mount :=
  List.find (λ m, bool_decide (m_destination m = dst)) ms.

(** [b] lies strictly below [a]: its path elements extend those of [a]. *)
Definition below (a b : Mount) : Prop :=
  ∃ rest, rest ≠ [] ∧
    Split slash (m_destination b) = Split slash (m_destination a) ++ rest.

(** ** Lemmas *)

Lemma addMounts_wf ms d : dedup_wf d → dedup_wf (addMounts ms d).
Proof.
  revert d. induction ms as [|m ms IH]; intros d Hd; simpl; [done|].
  destruct (d !! m_destination m) eqn:E; [by apply IH|]. apply IH.
  intros dst m'. rewrite lookup_insert. case_decide; naive_solver.
Qed.

Lemma addMounts_lookup ms d dst :
  addMounts ms d !! dst =
  match d !! dst with Some m => Some m | None => first_mount dst ms end.
Proof.
  revert d. induction ms as [|m ms IH]; intros d; simpl.
  { by destruct (d !! dst). }
  unfold first_mount. cbn [List.find]. case_bool_decide as Hm.
  - rewrite Hm. destruct (d !! dst) eqn:E; rewrite IH, ?E; [done|].
    by rewrite lookup_insert_eq.
  - destruct (d !! m_destination m) eqn:E; rewrite IH; [done|].
    by rewrite lookup_insert_ne.
Qed.

Lemma addMounts_app ms1 ms2 d : addMounts (ms1 ++ ms2) d = addMounts ms2 (addMounts ms1 d).
Proof.
  revert d. induction ms1 as [|m ms1 IH]; intros d; simpl; [done|].
  by destruct (d !! m_destination m).
Qed.

Lemma newMountDedup_wf : dedup_wf newMountDedup.
Proof. intros dst m. unfold newMountDedup. by rewrite lookup_empty. Qed.

Section with_runtime.
Context `{MapRange, SortSlice}.

Lemma mounts_perm d : mounts d ≡ₚ (map_to_list d).*2.
Proof. unfold mounts. by rewrite sort_slice_perm, map_range_perm. Qed.

Lemma elem_of_mounts d m :
  dedup_wf d → m ∈ mounts d ↔ d !! m_destination m = Some m.
Proof.
  intros Hd. rewrite mounts_perm, list_elem_of_fmap. split.
  - intros ([dst m'] & -> & Hin). apply elem_of_map_to_list in Hin. simpl.
    by rewrite (Hd _ _ Hin).
  - intros Hm. exists (m_destination m, m). by rewrite elem_of_map_to_list.
Qed.

Lemma mounts_NoDup d : dedup_wf d → NoDup (m_destination <$> mounts d).
Proof.
  intros Hd. rewrite mounts_perm.
  assert (m_destination <$> (map_to_list d).*2 = (map_to_list d).*1) as ->.
  { rewrite <- list_fmap_compose. apply list_fmap_ext. intros i [dst m] Hi.
    apply (Hd dst m). apply elem_of_map_to_list. by eapply list_elem_of_lookup_2. }
  apply NoDup_fst_map_to_list.
Qed.

Lemma elem_of_mounts_added ms m :
  m ∈ mounts (addMounts ms newMountDedup) ↔ first_mount (m_destination m) ms = Some m.
Proof.
  rewrite elem_of_mounts by apply addMounts_wf, newMountDedup_wf.
  rewrite addMounts_lookup. unfold newMountDedup. by rewrite lookup_empty.
Qed.

Lemma StronglySorted_lookup {A} (R : A → A → Prop) l i j a b :
  StronglySorted R l → i < j → l !! i = Some a → l !! j = Some b → R a b.
Proof.
  intros Hs. revert i j. induction Hs as [|x l Hs IH HF]; intros i j Hij Ha Hb; [done|].
  destruct j as [|j]; [lia|]. destruct i as [|i]; simplify_eq/=.
  - rewrite Forall_forall in HF. apply HF. by eapply list_elem_of_lookup_2.
  - eapply IH; [|done..]. lia.
Qed.

Lemma below_depth a b : below a b → mount_depth a < mount_depth b.
Proof.
  intros (rest & Hne & Hb). unfold mount_depth. rewrite Hb, length_app.
  destruct rest; [done|]. simpl. lia.
Qed.

Lemma mounts_parents_first d i j a b :
  mounts d !! i = Some a → mounts d !! j = Some b → below a b → i < j.
Proof.
  intros Ha Hb Hab%below_depth. destruct (decide (i < j)) as [|Hij]; [done|].
  exfalso. destruct (decide (i = j)) as [->|Hne]; [simplify_eq; lia|].
  assert (mount_depth b ≤ mount_depth a); [|lia].
  apply (StronglySorted_lookup (λ a b, mount_depth a ≤ mount_depth b) (mounts d) j i b a);
    [apply sort_slice_sorted|lia|done|done].
Qed.
End with_runtime.

(** ** Properties *)


