(* ===== verification/SafeIO.v ===== *)
(** * Package safeio: opening files in untrusted directories
    (src/bpm/safeio/safeio.go) *)

From S2P Require Import Prelude GoStrings Specs Sys.

Definition O_RDWR : Z := 0x2.
Definition O_CREATE : Z := 0x40.
Definition O_APPEND : Z := 0x400.
Definition O_NOFOLLOW : Z := 0x20000.

Definition OpenAppendChown (path : string) (uid gid perm : Z) : prog (result nat) :=
  r ← call (OpenFile path (Z.lor (Z.lor (Z.lor O_RDWR O_CREATE) O_APPEND) O_NOFOLLOW) perm);
  match r with
  | Err err =>
      if errors_Is err ELOOP
      then Ret (Err (Wrapf "refusing to open symlink at %s: %w" [path] err))
      else Ret (Err err)
  | Ok f =>
      e ← call (FileChown f uid gid);
      match e with
      | Some err =>
          _ ← call (FileClose f);
          Ret (Err (Wrapf "chown %s: %w" [path] err))
      | None => Ret (Ok f)
      end
  end.

(** ** Specification *)

(** The call opens [path] without following a symlink at its leaf. *)
Definition opens_nofollow (path : string) (e : event) : Prop :=
  match e with
  | Ev c _ => match c with
              | OpenFile p flags _ => p = path ∧ Z.testbit flags 17 = true
              | _ => False
              end
  end.

(** The call changes the owner of the open file [fd]. *)
Definition chowns_fd (fd : nat) (uid gid : Z) (e : event) : Prop :=
  match e with
  | Ev c _ => match c with
              | FileChown fd' u g => fd' = fd ∧ u = uid ∧ g = gid
              | _ => False
              end
  end.

(** ** Lemmas *)

(** The shape of every execution of [OpenAppendChown]. *)
Lemma OpenAppendChown_trace path uid gid perm tr f :
  exec_trace (OpenAppendChown path uid gid perm) tr f →
  ∃ open rest, tr = open :: rest ∧ opens_nofollow path open ∧
    match f with
    | FVal (Ok fd) => ev_opened open = Some fd ∧
        ∃ e, rest = [e] ∧ chowns_fd fd uid gid e
    | FVal (Err _) =>
        (ev_opened open = None ∧ rest = []) ∨
        (∃ fd e c, ev_opened open = Some fd ∧ rest = [e; c]
           ∧ chowns_fd fd uid gid e ∧ ev_closed c = Some fd)
    | _ => False
    end.
Proof.
  unfold OpenAppendChown. intros H. trace_all.
  all: eexists _, _; split; [reflexivity|]; split; [by split|]; simpl.
  - right. by eexists _, _, _.
  - split; [done|]. eexists. split; [reflexivity|]. by split_and!.
  - by left.
  - by left.
Qed.

Lemma OpenAppendChown_fds path uid gid perm tr f fds :
  exec_trace (OpenAppendChown path uid gid perm) tr f →
  match f with
  | FVal (Ok fd) => open_fds fds tr = fd :: fds
  | FVal (Err _) => open_fds fds tr = fds
  | _ => False
  end.
Proof.
  unfold OpenAppendChown. intros H. trace_all; unfold open_fds; simpl; try done.
  unfold fds_step. simpl. by rewrite decide_True.
Qed.

(** ** Properties *)

(** C26: [OpenAppendChown], whatever the system answers: the only file opened is
    the given path, with O_NOFOLLOW; ownership is changed only through the
    descriptor so obtained; on success exactly that descriptor stays open and
    has been given to the requested user, on failure no descriptor stays
    open; and it never panics. *)
Theorem open_append_chown_safe path uid gid perm tr f
    (Htr : exec_trace (OpenAppendChown path uid gid perm) tr f) :
  (∃ open rest, tr = open :: rest ∧ opens_nofollow path open
     ∧ ∀ e, e ∈ rest → (∃ fd, ev_opened open = Some fd ∧
          (chowns_fd fd uid gid e ∨ ev_closed e = Some fd)))
  ∧ match f with
    | FVal (Ok fd) => open_fds [] tr = [fd]
        ∧ (∃ e, e ∈ tr ∧ chowns_fd fd uid gid e)
    | FVal (Err _) => open_fds [] tr = []
    | _ => False
    end.
Proof.
  pose proof (OpenAppendChown_fds _ _ _ _ _ _ [] Htr) as Hfds.
  apply OpenAppendChown_trace in Htr as (open & rest & -> & Hopen & Hf).
  destruct f as [[fd|err]|p|]; try done.
  - destruct Hf as (Ho & e & -> & He). split; [|set_solver].
    exists open, [e]. split_and!; [done..|]. set_solver.
  - split; [|done]. exists open, rest. split_and!; [done..|].
    destruct Hf as [[_ ->]|(fd & e & c & Ho & -> & He & Hc)]; set_solver.
Qed.

Lemma open_append_chown_witness :
  let tr := [Ev (OpenFile "/l" (Z.lor (Z.lor (Z.lor O_RDWR O_CREATE) O_APPEND) O_NOFOLLOW) 384) (Ok 3);
             Ev (FileChown 3 1000 1000) None] in
  open_fds [] tr = [3].
Proof.
  intros tr.
  apply (open_append_chown_safe "/l" 1000 1000 384 tr (FVal (Ok 3))).
  do 2 eexists. split; [reflexivity|]. do 2 eexists. split; [reflexivity|].
  split; reflexivity.
Defined.

(** A planted symlink cannot redirect the operation: on a system whose
    open(2) answers ELOOP, without any effect, when O_NOFOLLOW is given and the
    leaf of the path is a symlink, [OpenAppendChown] on such a path refuses with
    an error that names the path and leaves the system unchanged. *)
Lemma open_append_chown_refuses_symlink {W} (h : handler W) (is_symlink : W → string → Prop)
    path uid gid perm w
    (Hopen : ∀ p flags perm w, is_symlink w p → Z.testbit flags 17 = true →
       h _ (OpenFile p flags perm) w = (Err (SysError "open" p ELOOP), w))
    (Hlink : is_symlink w path) :
  run h (OpenAppendChown path uid gid perm) w =
    (FVal (Err (Wrapf "refusing to open symlink at %s: %w" [path]
                  (SysError "open" path ELOOP))), w).
Proof. unfold OpenAppendChown. simpl. by rewrite Hopen. Qed.

(** A system with symlinks at the paths of [w] that answers every other call
    with success. *)
Definition symlink_handler : handler (list string) := λ B c w,
  match c in sys B return B * list string with
  | OpenFile p flags _ =>
      if bool_decide (p ∈ w) && Z.testbit flags 17
      then (Err (SysError "open" p ELOOP), w) else (Ok 3, w)
  | c' => (default_answer c', w)
  end.

Lemma refuses_symlink_witness :
  run symlink_handler (OpenAppendChown "/log" 1000 1000 384) ["/log"] =
    (FVal (Err (Wrapf "refusing to open symlink at %s: %w" ["/log"]
                  (SysError "open" "/log" ELOOP))), ["/log"]).
Proof.
  apply (open_append_chown_refuses_symlink symlink_handler (λ w p, p ∈ w)).
  - intros p flags perm w Hp Hf. unfold symlink_handler.
    rewrite bool_decide_eq_true_2 by exact Hp. rewrite Hf. reflexivity.
  - apply list_elem_of_here.
Defined.
