(* ===== verification/Sha256.v ===== *)
(** * crypto/sha256

    The hash hostlock names the lock files of volumes with, as FIPS 180-4 defines it:
    32-bit words are numbers in Z kept in range by [w32]. *)

From S2P Require Import Prelude GoStrings.
From Stdlib Require Import Ascii.

Local Open Scope Z_scope.

(** ** Words *)

Definition w32 (x : Z) : Z := Z.land x 0xFFFFFFFF.
Definition rotr (n x : Z) : Z := Z.lor (Z.shiftr x n) (w32 (Z.shiftl x (32 - n))).

Definition Ch (x y z : Z) : Z := Z.lxor (Z.land x y) (Z.land (Z.lxor x 0xFFFFFFFF) z).
Definition Maj (x y z : Z) : Z := Z.lxor (Z.lxor (Z.land x y) (Z.land x z)) (Z.land y z).
Definition Sigma0 (x : Z) : Z := Z.lxor (Z.lxor (rotr 2 x) (rotr 13 x)) (rotr 22 x).
Definition Sigma1 (x : Z) : Z := Z.lxor (Z.lxor (rotr 6 x) (rotr 11 x)) (rotr 25 x).
Definition sigma0 (x : Z) : Z := Z.lxor (Z.lxor (rotr 7 x) (rotr 18 x)) (Z.shiftr x 3).
Definition sigma1 (x : Z) : Z := Z.lxor (Z.lxor (rotr 17 x) (rotr 19 x)) (Z.shiftr x 10).

(** The constants are the first 32 bits of the fractional parts of the cube roots of
    the first 64 primes, and of the square roots of the first eight for the initial
    value of the hash. *)
Definition is_prime (n : Z) : bool :=
  forallb (λ d, negb (n mod d =? 0)) (Z.of_nat <$> seq 2 (Z.to_nat n - 2)).
Definition first_primes : list Z :=
  List.filter is_prime (Z.of_nat <$> seq 2 310).

(** The integer cube root below [2 ^ bits]. *)
Fixpoint cube_root (bits : nat) (low n : Z) : Z :=
  match bits with
  | O => low
  | S b =>
      let r := low + 2 ^ Z.of_nat b in
      if r * r * r <=? n then cube_root b r n else cube_root b low n
  end.

Definition round_constants : list Z :=
  (λ p, w32 (cube_root 35 0 (p * 2 ^ 96))) <$> first_primes.

(** The eight working variables. *)
Record digest := mkDigest { da : Z; db : Z; dc : Z; dd : Z; de : Z; df : Z; dg : Z; dh : Z }.

Definition initial_digest : digest :=
  let h i := w32 (Z.sqrt (nth i first_primes 0 * 2 ^ 64)) in
  mkDigest (h 0%nat) (h 1%nat) (h 2%nat) (h 3%nat) (h 4%nat) (h 5%nat) (h 6%nat) (h 7%nat).

(** ** Padding *)

Fixpoint string_bytes (s : string) : list Z :=
  match s with EmptyString => [] | String c r => Z.of_nat (byte_val c) :: string_bytes r end.

(** The [n] low bytes of [x], most significant first. *)
Fixpoint big_endian (n : nat) (x : Z) : list Z :=
  match n with
  | O => []
  | S n' => Z.land (Z.shiftr x (8 * Z.of_nat n')) 255 :: big_endian n' x
  end.

Definition pad (m : list Z) : list Z :=
  let len := Z.of_nat (length m) in
  let zeros := Z.to_nat ((55 - len) mod 64) in
  m ++ [128] ++ replicate zeros 0 ++ big_endian 8 (8 * len).

(** ** Blocks *)

Fixpoint words (m : list Z) : list Z :=
  match m with
  | b0 :: b1 :: b2 :: b3 :: m' =>
      Z.lor (Z.lor (Z.shiftl b0 24) (Z.shiftl b1 16)) (Z.lor (Z.shiftl b2 8) b3) :: words m'
  | _ => []
  end.

(** The schedule, last word first, extended by [n] words. *)
Fixpoint extend (n : nat) (ws : list Z) : list Z :=
  match n with
  | O => ws
  | S n' =>
      let w i := nth i ws 0 in
      extend n' (w32 (sigma1 (w 1%nat) + w 6%nat + sigma0 (w 14%nat) + w 15%nat) :: ws)
  end.
Definition schedule (block : list Z) : list Z := rev (extend 48 (rev block)).

Definition sha_round (d : digest) (kw : Z * Z) : digest :=
  let t1 := dh d + Sigma1 (de d) + Ch (de d) (df d) (dg d) + kw.1 + kw.2 in
  let t2 := Sigma0 (da d) + Maj (da d) (db d) (dc d) in
  mkDigest (w32 (t1 + t2)) (da d) (db d) (dc d) (w32 (dd d + t1)) (de d) (df d) (dg d).

Definition sha_block (d : digest) (block : list Z) : digest :=
  let r := foldl sha_round d (combine round_constants (schedule block)) in
  mkDigest (w32 (da d + da r)) (w32 (db d + db r)) (w32 (dc d + dc r)) (w32 (dd d + dd r))
    (w32 (de d + de r)) (w32 (df d + df r)) (w32 (dg d + dg r)) (w32 (dh d + dh r)).

Fixpoint blocks (fuel : nat) (ws : list Z) (d : digest) : digest :=
  match fuel, ws with
  | S fuel', _ :: _ => blocks fuel' (List.skipn 16 ws) (sha_block d (List.firstn 16 ws))
  | _, _ => d
  end.

Fixpoint bytes_string (l : list Z) : string :=
  match l with [] => "" | b :: l' => String (byte_of (Z.to_nat b)) (bytes_string l') end.

(** [hash.Write(m)] and [hash.Sum(nil)] of a new hash. *)
Definition sha256_Sum (m : string) : string :=
  let ws := words (pad (string_bytes m)) in
  let d := blocks (length ws) ws initial_digest in
  bytes_string (concat (big_endian 4 <$> [da d; db d; dc d; dd d; de d; df d; dg d; dh d])).

Arguments sha256_Sum : simpl never.

Local Close Scope Z_scope.

Example constants_count : length first_primes = 64 ∧ length round_constants = 64.
Proof. vm_compute. split; reflexivity. Qed.

(** The examples of FIPS 180-4. *)
Example sha256_abc : hex_string (sha256_Sum "abc")
  = "ba7816bf8f01cfea414140de5dae2223b00361a396177a9cb410ff61f20015ad".
Proof. vm_compute. reflexivity. Qed.
Example sha256_empty : hex_string (sha256_Sum "")
  = "e3b0c44298fc1c149afbf4c8996fb92427ae41e4649b934ca495991b7852b855".
Proof. vm_compute. reflexivity. Qed.
Example sha256_two_blocks :
  hex_string (sha256_Sum "abcdbcdecdefdefgefghfghighijhijkijkljklmklmnlmnomnopnopq")
  = "248d6a61d20638b8e5c026930c3e6039a33ce45964ff2167f6ecedd419db06c1".
Proof. vm_compute. reflexivity. Qed.

(** ** Lengths *)

Lemma length_bytes_string l : String.length (bytes_string l) = length l.
Proof. induction l as [|b l IH]; simpl; [done|]. by rewrite IH. Qed.

Lemma length_hex_string s : String.length (hex_string s) = 2 * String.length s.
Proof.
  induction s as [|c s IH]; [done|]. change (hex_string (String c s)) with (hex2 c +:+ hex_string s).
  rewrite length_app_string, IH. cbn [String.length]. unfold hex2. simpl. lia.
Qed.

Lemma length_sha256 m : String.length (sha256_Sum m) = 32.
Proof. unfold sha256_Sum. by rewrite length_bytes_string. Qed.
