(* ===== verification/Locks.v ===== *)
(** * Packages flock and hostlock: cross-process locks
    (src/bpm/flock/flock.go, src/bpm/hostlock/hostlock.go)

    A [Flock] is an open lock file and whether this handle has locked it;
    hostlock names the lock files of jobs and volumes.  The kernel's side is the
    interface [FlockKernel]: what flock(2), open(2) and close(2) document about
    which descriptor holds the lock of a file.  Any number of processes taking
    and releasing locks is a step relation over the kernel state and the handles
    of all processes; mutual exclusion is an invariant of it. *)

From S2P Require Import Prelude GoStrings GoPath JobID Bosh Specs Sys Config SafeIO Sha256.

(** ** flock.go *)

Record FlockH := mkFlock { fl_fd : nat; fl_locked : bool }.

Definition O_CREATE_RDWR : Z := Z.lor 0x40 0x2.

Definition Flock_New (path : string) : prog (result FlockH) :=
  try_or (call (OpenFile path O_CREATE_RDWR mode_0600)) id (λ f,
  Ret (Ok (mkFlock f false))).

Definition Flock_Lock (f : FlockH) : prog (FlockH * option error) :=
  err ← call (Flock (fl_fd f) LOCK_EX);
  match err with
  | Some e => Ret (f, Some e)
  | None => Ret (mkFlock (fl_fd f) true, None)
  end.

Definition Flock_Unlock (f : FlockH) : prog (FlockH * option error) :=
  if negb (fl_locked f) then Crash (PanicMsg "flock: unlock of unlocked lock")
  else
    err ← call (Flock (fl_fd f) LOCK_UN);
    match err with
    | Some e => Ret (f, Some e)
    | None => Ret (mkFlock (fl_fd f) false, None)
    end.

(** ** hostlock.go *)

Record Handle := NewHandle { h_path : string }.

(** [flock.New] then [Lock], returning the locked handle. *)
Definition lock_file (path : string) : prog (result FlockH) :=
  try_or (Flock_New path) id (λ fl,
  r ← Flock_Lock fl;
  match r with
  | (_, Some err) => Ret (Err err)
  | (fl', None) => Ret (Ok fl')
  end).

Definition job_lock_path (h : Handle) (job process : string) : string :=
  let name := Encode (job +:+ "." +:+ process) in
  path_Join [h_path h; "job-" +:+ name +:+ ".lock"].

Definition LockJob (h : Handle) (job process : string) : prog (result FlockH) :=
  lock_file (job_lock_path h job process).

Definition volume_lock_path (h : Handle) (path : string) : string :=
  path_Join [h_path h; "vol-" +:+ hex_string (sha256_Sum path) +:+ ".lock"].

Definition LockVolume (h : Handle) (path : string) : prog (result FlockH) :=
  lock_file (volume_lock_path h path).

(** ** The kernel's side *)

(** [file_of w fd] is the file an open descriptor refers to, [holder w p] the
    descriptor holding the exclusive lock of a file.  The fields state what
    the manual pages document: opening gives a descriptor that was not open,
    LOCK_EX succeeds only when no other descriptor holds the lock, and only
    LOCK_UN and closing release it. *)
Class FlockKernel {W : Type} (h : handler W) : Type := {
  file_of : W → nat → option string;
  holder : W → string → option nat;
  k_open : ∀ p flags perm w fd w', h _ (OpenFile p flags perm) w = (Ok fd, w') →
    file_of w fd = None ∧ file_of w' fd = Some p
    ∧ (∀ fd', fd' ≠ fd → file_of w' fd' = file_of w fd')
    ∧ (∀ q, holder w' q = holder w q);
  k_open_err : ∀ p flags perm w e w', h _ (OpenFile p flags perm) w = (Err e, w') →
    (∀ fd, file_of w' fd = file_of w fd) ∧ (∀ q, holder w' q = holder w q);
  k_flock_err : ∀ fd op w e w', h _ (Flock fd op) w = (Some e, w') →
    (∀ fd, file_of w' fd = file_of w fd) ∧ (∀ q, holder w' q = holder w q);
  k_lock : ∀ fd p w w', file_of w fd = Some p → h _ (Flock fd LOCK_EX) w = (None, w') →
    (holder w p = None ∨ holder w p = Some fd) ∧ holder w' p = Some fd
    ∧ (∀ q, q ≠ p → holder w' q = holder w q) ∧ (∀ fd', file_of w' fd' = file_of w fd');
  k_unlock : ∀ fd p w w', file_of w fd = Some p → h _ (Flock fd LOCK_UN) w = (None, w') →
    (∀ q, holder w' q = if decide (holder w q = Some fd) then None else holder w q)
    ∧ (∀ fd', file_of w' fd' = file_of w fd');
  k_close : ∀ fd w e w', h _ (FileClose fd) w = (e, w') →
    (∀ q, holder w' q = if decide (holder w q = Some fd) then None else holder w q)
    ∧ (∀ fd', file_of w' fd' = if decide (fd' = fd) then None else file_of w fd')
}.

(** ** Processes taking and releasing locks *)

Section steps.
Context {W : Type} (h : handler W) `{FlockKernel W h}.

(** The kernel state, and the lock handles of all processes by descriptor, each
    with the path of its lock file. *)
Definition lock_state : Type := W * gmap nat (FlockH * string).

Inductive lock_step : lock_state → lock_state → Prop :=
| step_lock p w fl w' hs :
    run h (lock_file p) w = (FVal (Ok fl), w') →
    lock_step (w, hs) (w', <[fl_fd fl := (fl, p)]> hs)
| step_lock_fails p w e w' hs :
    run h (lock_file p) w = (FVal (Err e), w') →
    lock_step (w, hs) (w', hs)
| step_unlock fd fl p fl' e w w' hs :
    hs !! fd = Some (fl, p) →
    run h (Flock_Unlock fl) w = (FVal (fl', e), w') →
    lock_step (w, hs) (w', <[fd := (fl', p)]> hs)
| step_exit fd e w w' hs :
    h _ (FileClose fd) w = (e, w') →
    lock_step (w, hs) (w', delete fd hs).

Definition lock_inv (s : lock_state) : Prop :=
  ∀ fd fl p, s.2 !! fd = Some (fl, p) →
    fl_fd fl = fd ∧ file_of s.1 fd = Some p
    ∧ (fl_locked fl = true → holder s.1 p = Some fd).
End steps.

(** ** Lemmas *)

Section invariant.
Context {W : Type} (h : handler W) `{FlockKernel W h}.

(** What [lock_file] does to the kernel state. *)
Lemma lock_file_ok p w fl w' :
  run h (lock_file p) w = (FVal (Ok fl), w') →
  fl_locked fl = true ∧ file_of w (fl_fd fl) = None
  ∧ file_of w' (fl_fd fl) = Some p ∧ holder w' p = Some (fl_fd fl)
  ∧ (holder w p = None ∨ holder w p = Some (fl_fd fl))
  ∧ (∀ fd', fd' ≠ fl_fd fl → file_of w' fd' = file_of w fd')
  ∧ (∀ q, q ≠ p → holder w' q = holder w q).
Proof.
  unfold lock_file, Flock_New, Flock_Lock, try_or. simpl.
  destruct (h _ (OpenFile p O_CREATE_RDWR mode_0600) w) as [[fd|e] w1] eqn:Ho; simpl; [|done].
  destruct (h _ (Flock fd LOCK_EX) w1) as [[e|] w2] eqn:Hl; simpl; [done|].
  intros [= <- <-]. simpl.
  apply k_open in Ho as (Hfresh & Hfd & Hfds & Hhold).
  apply (k_lock fd p) in Hl as (Hfree & Hheld & Hothers & Hfiles); [|done].
  rewrite Hhold in Hfree. split_and!; [done|done| |done|done| |].
  - by rewrite Hfiles.
  - intros fd' Hne. rewrite Hfiles. by apply Hfds.
  - intros q Hq. rewrite Hothers by done. apply Hhold.
Qed.

Lemma lock_file_err p w e w' :
  run h (lock_file p) w = (FVal (Err e), w') →
  (∀ fd q, file_of w fd = Some q → file_of w' fd = Some q)
  ∧ (∀ q, holder w' q = holder w q).
Proof.
  unfold lock_file, Flock_New, Flock_Lock, try_or. simpl.
  destruct (h _ (OpenFile p O_CREATE_RDWR mode_0600) w) as [[fd|e'] w1] eqn:Ho; simpl.
  - destruct (h _ (Flock fd LOCK_EX) w1) as [[e'|] w2] eqn:Hl; simpl; [|done].
    intros [= <- <-]. apply k_open in Ho as (Hfresh & Hfd & Hfds & Hhold).
    apply k_flock_err in Hl as (Hfiles & Hhold2). split.
    + intros fd' q Hq. rewrite Hfiles. rewrite Hfds; [done|]. by intros ->; rewrite Hfresh in Hq.
    + intros q. by rewrite Hhold2.
  - intros [= <- <-]. apply k_open_err in Ho as [Hfiles Hhold].
    split; [intros; by rewrite Hfiles|done].
Qed.

Lemma unlock_spec fl p w fl' e w' :
  file_of w (fl_fd fl) = Some p →
  run h (Flock_Unlock fl) w = (FVal (fl', e), w') →
  fl_fd fl' = fl_fd fl ∧ (∀ fd, file_of w' fd = file_of w fd)
  ∧ ((fl' = fl ∧ ∀ q, holder w' q = holder w q)
     ∨ (fl_locked fl' = false ∧
        ∀ q, holder w' q = if decide (holder w q = Some (fl_fd fl)) then None else holder w q)).
Proof.
  intros Hf. unfold Flock_Unlock. destruct (fl_locked fl); simpl; [|done].
  destruct (h _ (Flock (fl_fd fl) LOCK_UN) w) as [[e'|] w1] eqn:Hu; simpl; intros [= <- <- <-].
  - apply k_flock_err in Hu as [Hfiles Hhold]. eauto 10.
  - apply (k_unlock _ p) in Hu as [Hhold Hfiles]; [|done]. simpl. eauto 10.
Qed.

Lemma lock_step_inv s s' : lock_step h s s' → lock_inv h s → lock_inv h s'.
Proof.
  intros Hstep Hinv. destruct Hstep as [p w fl w' hs Hrun|p w e w' hs Hrun
    |fd fl p fl' e w w' hs Hfd Hrun|fd e w w' hs Hclose]; intros fd0 fl0 p0; simpl.
  - apply lock_file_ok in Hrun as (Hlk & Hfresh & Hfile & Hheld & Hfree & Hfiles & Hothers).
    rewrite lookup_insert. case_decide as Hd.
    { intros [= <- <-]. by subst. }
    intros H0. destruct (Hinv _ _ _ H0) as (Hfd & Hf & Hh). simpl in *.
    rewrite Hfiles by congruence. split_and!; [done|done|].
    intros Hl. destruct (decide (p0 = p)) as [->|Hp]; [|rewrite Hothers by done; auto].
    rewrite (Hh Hl) in Hfree. by destruct Hfree; simplify_eq.
  - apply lock_file_err in Hrun as [Hfiles Hhold]. intros H0.
    destruct (Hinv _ _ _ H0) as (Hfd & Hf & Hh). simpl in *. rewrite Hhold. auto.
  - destruct (Hinv _ _ _ Hfd) as (Hfd' & Hf & Hh). simpl in *. subst fd.
    apply (unlock_spec _ p) in Hrun as (Hfd2 & Hfiles & Hcases); [|done].
    rewrite lookup_insert. case_decide as Hd.
    + intros [= <- <-]. subst fd0. rewrite Hfiles. split_and!; [done|done|].
      destruct Hcases as [[-> Hhold]|[Hl Hhold]]; [|by rewrite Hl].
      rewrite Hhold. auto.
    + intros H0. destruct (Hinv _ _ _ H0) as (Hfd0 & Hf0 & Hh0). simpl in *.
      rewrite Hfiles. split_and!; [done|done|]. intros Hl.
      destruct Hcases as [[_ Hhold]|[_ Hhold]]; rewrite Hhold; [auto|].
      rewrite (Hh0 Hl). case_decide; [congruence|done].
  - rewrite lookup_delete. case_decide as Hd; [done|]. intros H0.
    destruct (Hinv _ _ _ H0) as (Hfd0 & Hf0 & Hh0). simpl in *.
    apply k_close in Hclose as [Hhold Hfiles]. rewrite Hfiles, Hhold.
    rewrite decide_False by done. split_and!; [done|done|]. intros Hl.
    rewrite (Hh0 Hl). case_decide; [congruence|done].
Qed.

Lemma lock_steps_inv s s' : rtc (lock_step h) s s' → lock_inv h s → lock_inv h s'.
Proof. induction 1; eauto using lock_step_inv. Qed.

Lemma lock_inv_init w : lock_inv h (w, ∅).
Proof. intros fd fl p. simpl. by rewrite lookup_empty. Qed.
End invariant.

Lemma job_lock_name_normal job process :
  normal_elem ("job-" +:+ Encode (job +:+ "." +:+ process) +:+ ".lock").
Proof.
  rewrite <- app_assoc. apply normal_suffix; [|simpl; lia].
  by rewrite !no_byte_app, Encode_no_slash.
Qed.

Lemma job_lock_path_wf h rs job process :
  Forall normal_elem rs → h_path h = abs_path rs →
  job_lock_path h job process =
  abs_path (rs ++ ["job-" +:+ Encode (job +:+ "." +:+ process) +:+ ".lock"]).
Proof.
  intros Hrs Hh. unfold job_lock_path. rewrite Hh.
  apply (path_Join_abs_rel rs ["job-" +:+ Encode (job +:+ "." +:+ process) +:+ ".lock"]);
    [done|]. repeat constructor; apply job_lock_name_normal.
Qed.

(** Files of one directory are the same exactly when their names are. *)
Lemma same_directory_inj rs x y :
  Forall normal_elem rs → normal_elem x → normal_elem y →
  abs_path (rs ++ [x]) = abs_path (rs ++ [y]) → x = y.
Proof.
  intros Hrs Hx Hy Heq. apply abs_path_inj in Heq.
  - apply (inj (rs ++.)) in Heq. congruence.
  - apply Forall_app. split; [done|]. by apply Forall_singleton.
  - apply Forall_app. split; [done|]. by apply Forall_singleton.
Qed.

Lemma job_lock_path_inj h rs j1 p1 j2 p2 :
  Forall normal_elem rs → h_path h = abs_path rs →
  job_lock_path h j1 p1 = job_lock_path h j2 p2 →
  j1 +:+ "." +:+ p1 = j2 +:+ "." +:+ p2.
Proof.
  intros Hrs Hh. rewrite !(job_lock_path_wf h rs) by done. intros Heq.
  apply same_directory_inj in Heq; [|done|apply job_lock_name_normal..].
  rewrite <- !app_assoc in Heq. apply suffix_inj, app_inj_l in Heq.
  apply Encode_inj' in Heq. by rewrite !app_assoc in Heq.
Qed.

Lemma hex_string_no_slash s : no_byte slash (hex_string s) = true.
Proof.
  induction s as [|c s IH]; [done|]. change (hex_string (String c s)) with (hex2 c +:+ hex_string s).
  rewrite no_byte_app, IH, andb_true_r. revert c. apply forall_byte. vm_compute. reflexivity.
Qed.

Lemma volume_lock_name_normal path :
  normal_elem ("vol-" +:+ hex_string (sha256_Sum path) +:+ ".lock").
Proof.
  rewrite <- app_assoc. apply normal_suffix; [|simpl; lia].
  by rewrite !no_byte_app, hex_string_no_slash.
Qed.

Lemma volume_lock_path_wf h rs path :
  Forall normal_elem rs → h_path h = abs_path rs →
  volume_lock_path h path =
  abs_path (rs ++ ["vol-" +:+ hex_string (sha256_Sum path) +:+ ".lock"]).
Proof.
  intros Hrs Hh. unfold volume_lock_path. rewrite Hh.
  apply (path_Join_abs_rel rs ["vol-" +:+ hex_string (sha256_Sum path) +:+ ".lock"]);
    [done|]. repeat constructor; apply volume_lock_name_normal.
Qed.

(** ** A kernel *)

(** Open descriptors and held locks.  Waiting for a lock is not represented:
    a LOCK_EX that would block is answered with EINTR. *)
Record kernel := mkKernel { k_files : gmap nat string; k_locks : gmap string nat }.

Definition kernel_handler : handler kernel := λ B c w,
  match c in sys B return B * kernel with
  | OpenFile p _ _ =>
      let fd := fresh (dom (k_files w)) in
      (Ok fd, mkKernel (<[fd := p]> (k_files w)) (k_locks w))
  | Flock fd LOCK_EX =>
      match k_files w !! fd with
      | None => (Some (SysError "flock" "" (EOTHER 9)), w)
      | Some p =>
          match k_locks w !! p with
          | None => (None, mkKernel (k_files w) (<[p := fd]> (k_locks w)))
          | Some fd' =>
              if decide (fd' = fd) then (None, w)
              else (Some (SysError "flock" p (EOTHER 4)), w)
          end
      end
  | Flock fd LOCK_UN =>
      (None, mkKernel (k_files w) (filter (λ pf, pf.2 ≠ fd) (k_locks w)))
  | FileClose fd =>
      (None, mkKernel (delete fd (k_files w))
               (filter (λ pf, pf.2 ≠ fd) (k_locks w)))
  | c' => (default_answer c', w)
  end.

#[export] Instance kernel_flock : FlockKernel kernel_handler.
Proof.
  refine {| file_of w fd := k_files w !! fd; holder w p := k_locks w !! p |}.
  - intros p flags perm w fd w' Hr. simpl in Hr. simplify_eq/=.
    pose proof (is_fresh (dom (k_files w))) as Hfresh. apply not_elem_of_dom in Hfresh.
    split_and!; [done|by rewrite lookup_insert_eq| |done].
    intros fd' Hne. by rewrite lookup_insert_ne.
  - intros p flags perm w e w' Hr. simpl in Hr. by simplify_eq.
  - intros fd [] w e w' Hr; simpl in Hr; [|by simplify_eq].
    destruct (k_files w !! fd) as [p|]; [|by simplify_eq].
    destruct (k_locks w !! p); [|by simplify_eq]. by case_decide; simplify_eq.
  - intros fd p w w' Hf Hr. simpl in Hr. rewrite Hf in Hr.
    destruct (k_locks w !! p) as [fd'|] eqn:Hl; simplify_eq/=.
    + case_decide; simplify_eq. split_and!; auto.
    + split_and!; [by left|by rewrite lookup_insert_eq| |done].
      intros q Hq. by rewrite lookup_insert_ne.
  - intros fd p w w' Hf Hr. simpl in Hr. simplify_eq/=. split; [|done].
    intros q. rewrite map_lookup_filter. destruct (k_locks w !! q) as [fd'|]; simpl; [|done].
    case_guard; case_decide; naive_solver.
  - intros fd w e w' Hr. simpl in Hr. simplify_eq/=. split.
    + intros q. rewrite map_lookup_filter. destruct (k_locks w !! q) as [fd'|]; simpl; [|done].
      case_guard; case_decide; naive_solver.
    + intros fd'. rewrite lookup_delete. repeat case_decide; naive_solver.
Defined.

(** ** Properties *)

(** C11: mutual exclusion: however any number of processes open, lock, unlock
    and close lock files, starting from none, at most one handle at a time is
    locked for the lock file of a given job and process (or volume), and a
    handle that believes it is locked holds the kernel's lock. *)
Theorem job_lock_mutual_exclusion {W} (h : handler W) `{FlockKernel W h} w0 w hs
    (Hreach : rtc (lock_step h) (w0, ∅) (w, hs)) :
  (∀ fd fl p, hs !! fd = Some (fl, p) → fl_locked fl = true → holder w p = Some fd)
  ∧ (∀ fd1 fl1 fd2 fl2 p, hs !! fd1 = Some (fl1, p) → hs !! fd2 = Some (fl2, p) →
      fl_locked fl1 = true → fl_locked fl2 = true → fd1 = fd2).
Proof.
  pose proof (lock_steps_inv h _ _ Hreach (lock_inv_init h w0)) as Hinv.
  assert (∀ fd fl p, hs !! fd = Some (fl, p) → fl_locked fl = true → holder w p = Some fd)
    as Hh by (intros fd fl p Hfd; apply (Hinv _ _ _ Hfd)).
  split; [done|]. intros fd1 fl1 fd2 fl2 p H1 H2 L1 L2.
  pose proof (Hh _ _ _ H1 L1) as E1. rewrite (Hh _ _ _ H2 L2) in E1. by simplify_eq.
Qed.

Definition locks_handle : Handle := NewHandle "/var/vcap/data/bpm/locks".

Lemma mutual_exclusion_witness :
  ∃ w hs fd fl p, rtc (lock_step kernel_handler) (mkKernel ∅ ∅, ∅) (w, hs)
    ∧ hs !! fd = Some (fl, p) ∧ fl_locked fl = true ∧ holder w p = Some fd.
Proof.
  destruct (run kernel_handler (LockJob locks_handle "server" "worker") (mkKernel ∅ ∅))
    as [r w] eqn:Hrun.
  assert (rtc (lock_step kernel_handler) (mkKernel ∅ ∅, ∅)
    (w, <[0 := (mkFlock 0 true, job_lock_path locks_handle "server" "worker")]> ∅)) as Hr.
  { apply rtc_once. vm_compute in Hrun. injection Hrun as <- <-.
    exact (step_lock kernel_handler (job_lock_path locks_handle "server" "worker")
      (mkKernel ∅ ∅) (mkFlock 0 true) _ ∅ eq_refl). }
  destruct (job_lock_mutual_exclusion kernel_handler _ _ _ Hr) as [Hh _].
  eexists _, _, 0, (mkFlock 0 true), _. split; [exact Hr|].
  split; [apply lookup_insert_eq|]. split; [reflexivity|].
  eapply Hh; [apply lookup_insert_eq|reflexivity].
Defined.

(** The lifecycle lock separates processes that do not share names: in a
    well-formed lock directory, dot-free job and process names have the same
    lock file exactly when they are the same job and process; but the container
    shared by process [a.b] of job [a.b] and process [b] of job [a] (see the
    collision of container IDs) is guarded by two different lock files; the lock of
    a volume is never that of a process, and two volumes share one exactly when their
    paths have the same hash. *)
Lemma job_lock_separates env h rs j1 p1 j2 p2
    (Hrs : Forall normal_elem rs) (Hh : h_path h = abs_path rs)
    (Hj1 : dot_free j1) (Hj2 : dot_free j2) :
  (job_lock_path h j1 p1 = job_lock_path h j2 p2 ↔ j1 = j2 ∧ p1 = p2)
  ∧ (∀ a b, a ≠ b →
      let c1 := NewBPMConfig env (a +:+ "." +:+ b) (a +:+ "." +:+ b) in
      let c2 := NewBPMConfig env a b in
      ContainerID c1 = ContainerID c2
      ∧ job_lock_path h (jobName c1) (procName c1)
        ≠ job_lock_path h (jobName c2) (procName c2))
  ∧ (∀ v j p, volume_lock_path h v ≠ job_lock_path h j p)
  ∧ (∀ v1 v2, volume_lock_path h v1 = volume_lock_path h v2
       ↔ sha256_Sum v1 = sha256_Sum v2).
Proof.
  split; [split|split; [|split]].
  - intros Heq. apply (job_lock_path_inj h rs) in Heq; [|done..]. by apply dot_app_inj.
  - by intros [-> ->].
  - intros a b Hab c1 c2. split.
    + unfold c1, c2, ContainerID. simpl. by rewrite decide_True, decide_False.
    + intros Heq. apply (job_lock_path_inj h rs) in Heq; [|done..].
      apply (f_equal String.length) in Heq. simpl in Heq.
      rewrite !length_app_string in Heq. simpl in Heq. lia.
  - intros v j p. rewrite (volume_lock_path_wf _ rs), (job_lock_path_wf _ rs) by done.
    intros Heq%same_directory_inj; [done|done|apply volume_lock_name_normal|apply job_lock_name_normal].
  - intros v1 v2. rewrite !(volume_lock_path_wf _ rs) by done. split; [|by intros E; rewrite E].
    intros Heq%same_directory_inj; [|done|apply volume_lock_name_normal..].
    rewrite <- !app_assoc in Heq. apply suffix_inj, app_inj_l in Heq.
    apply (f_equal hex_DecodeString) in Heq. rewrite !hex_roundtrip in Heq. by apply (inj Some).
Qed.

Lemma job_lock_separates_witness :
  job_lock_path locks_handle "server" "worker" ≠ job_lock_path locks_handle "server" "server".
Proof.
  destruct (job_lock_separates (NewEnv "") locks_handle ["var"; "vcap"; "data"; "bpm"; "locks"]
    "server" "worker" "server" "server") as [H _].
  - apply (bool_decide_unpack _). vm_compute. exact I.
  - reflexivity.
  - reflexivity.
  - reflexivity.
  - intros E. apply H in E as [_ E]. discriminate E.
Defined.
