(* ===== verification/Host.v ===== *)
(** * Packages sharedvolume, usertools and sysfeat: the host system
    (src/bpm/sharedvolume/share.go, src/bpm/usertools/finder.go,
    src/bpm/sysfeat/sysfeat.go) *)

From S2P Require Import Prelude GoStrings GoPath Specs Sys SpecBuilder.

(** ** sharedvolume *)

Definition MS_BIND : Z := 0x1000.
Definition MS_SHARED : Z := 0x100000.

Definition MakeShared (path : string) : prog (option error) :=
  try_err (call (Mounted path)) id (λ isMount,
  check_err (if negb isMount then call (MountCall path path "" MS_BIND "") else Ret None) id (
  err ← call (MountCall "none" path "" MS_SHARED "");
  match err with
  | Some err =>
      if negb isMount then _ ← call (Unmount path 0); Ret (Some err) else Ret None
  | None => Ret None
  end)).

(** ** usertools *)

Definition VcapUser : string := "vcap".

Definition atoi_error (s : string) : error := Errorf "strconv.Atoi: parsing %q" [s].

Definition Lookup (username : string) : prog (result User) :=
  try_or (call (user_Lookup username)) id (λ u,
  Ret (match Atoi (ou_uid u) with
  | None => Err (atoi_error (ou_uid u))
  | Some uid =>
      if (uid <? 0)%Z then Err (NewError "UID can't be negative")
      else match Atoi (ou_gid u) with
      | None => Err (atoi_error (ou_gid u))
      | Some gid =>
          if (gid <? 0)%Z then Err (NewError "GID can't be negative")
          else Ok (mkUser (uint32 uid) (uint32 gid) (ou_username u))
      end
  end)).

(** ** sysfeat *)

Definition swapPathCgroup1 : string := "memory.memsw.limit_in_bytes".
Definition swapPathCgroup2 : string := "memory.swap.max".
Definition unifiedMountpoint : string := "/sys/fs/cgroup".
Definition hybridMountpoint : string := "/sys/fs/cgroup/unified".
Definition rosettaBinfmtPath : string := "/proc/sys/fs/binfmt_misc/rosetta".

Definition swapLimitSupportedCgroup2 : prog (result bool) :=
  hybrid ← call IsCgroup2HybridMode;
  let mountpoint := if hybrid : bool then hybridMountpoint else unifiedMountpoint in
  e ← call (PathExists (path_Join [mountpoint; swapPathCgroup2]));
  if e : bool then Ret (Ok true) else Ret (Ok false).

Definition swapLimitSupportedCgroup1 : prog (result bool) :=
  try_or (call (FindCgroupMountpoint "" "memory")) id (λ mountPoint,
  r ← call (Stat (path_Join [mountPoint; swapPathCgroup1]));
  Ret (Ok (is_ok r))).

Definition swapLimitSupported : prog (result bool) :=
  unified ← call IsCgroup2UnifiedMode;
  if unified : bool then swapLimitSupportedCgroup2 else swapLimitSupportedCgroup1.

Definition seccompSupported : prog bool :=
  r ← call (Stat rosettaBinfmtPath);
  Ret (negb (is_ok r)).

Definition Fetch : prog (result Features) :=
  try_or swapLimitSupported id (λ supported,
  seccomp ← seccompSupported;
  Ret (Ok (mkFeatures supported seccomp))).

(** ** Specification *)

(** The mount calls on [path]: bind mounts of it onto itself that succeeded,
    unmounts requested, and whether it was made shared. *)
Definition ev_bound (path : string) (e : event) : bool :=
  match e with
  | Ev c r =>
      match c in sys B return B → bool with
      | MountCall s t _ flags _ => λ r,
          bool_decide (s = path ∧ t = path ∧ flags = MS_BIND) && bool_decide (r = None)
      | _ => λ _, false
      end r
  end.
Definition ev_unmount (path : string) (e : event) : bool :=
  match e with
  | Ev c _ => match c with Unmount t _ => bool_decide (t = path) | _ => false end
  end.
Definition ev_shared (path : string) (e : event) : bool :=
  match e with
  | Ev c r =>
      match c in sys B return B → bool with
      | MountCall _ t _ flags _ => λ r,
          bool_decide (t = path ∧ flags = MS_SHARED) && bool_decide (r = None)
      | _ => λ _, false
      end r
  end.
Definition ev_mounted (path : string) (e : event) : bool :=
  match e with
  | Ev c r =>
      match c in sys B return B → bool with
      | Mounted p => λ r, bool_decide (p = path ∧ r = Ok true)
      | _ => λ _, false
      end r
  end.

(** ** Properties *)

(** C38: [MakeShared], whatever the system answers: it never panics; an error
    after the path was bind-mounted onto itself is always followed by an unmount
    of it; and a nil result means the path was made shared, unless it already
    was a mount point: then a failure to make it shared is dropped and the
    result is nil all the same. *)
Theorem make_shared_rolls_back path tr f
    (Htr : exec_trace (MakeShared path) tr f) :
  (∃ r, f = FVal r ∧
    (r ≠ None → existsb (ev_bound path) tr = true → existsb (ev_unmount path) tr = true)
    ∧ (r = None → existsb (ev_shared path) tr = true ∨ existsb (ev_mounted path) tr = true))
  ∧ (∀ err, exec_trace (MakeShared path)
       [Ev (Mounted path) (Ok true); Ev (MountCall "none" path "" MS_SHARED "") (Some err)]
       (FVal None)).
Proof.
  split.
  - unfold MakeShared, try_err, check_err in Htr. trace_all; eexists; (split; [reflexivity|]);
      unfold ev_bound, ev_unmount, ev_shared, ev_mounted; simpl;
      try destruct a; split; intros; repeat case_bool_decide; naive_solver.
  - intros err. unfold MakeShared, try_err, check_err. simpl.
    eexists _, _. split; [reflexivity|]. simpl.
    eexists _, _. split; [reflexivity|]. by split.
Qed.

Lemma make_shared_witness :
  existsb (ev_unmount "/v")
    [Ev (Mounted "/v") (Ok false); Ev (MountCall "/v" "/v" "" MS_BIND "") None;
     Ev (MountCall "none" "/v" "" MS_SHARED "") (Some (SysError "mount" "/v" (EOTHER 22)));
     Ev (Unmount "/v" 0) None] = true.
Proof.
  destruct (make_shared_rolls_back "/v"
    [Ev (Mounted "/v") (Ok false); Ev (MountCall "/v" "/v" "" MS_BIND "") None;
     Ev (MountCall "none" "/v" "" MS_SHARED "") (Some (SysError "mount" "/v" (EOTHER 22)));
     Ev (Unmount "/v" 0) None] (FVal (Some (SysError "mount" "/v" (EOTHER 22)))))
    as [(r & Hr & Hroll & _) _].
  - do 4 (eexists _, _; split; [reflexivity|]). split; reflexivity.
  - injection Hr as <-. apply Hroll; [discriminate|reflexivity].
Defined.

(** [Lookup], whatever the user database answers, never panics; the user it
    returns carries the name of the entry and the entry's numeric ids, both
    non-negative, reduced modulo 2^32 (so ids below 2^32 are kept exactly), and
    an id that is not a decimal [int] or is negative is an error. *)
Lemma lookup_ids name tr f
    (Htr : exec_trace (Lookup name) tr f) :
  ∃ r, f = FVal r ∧ ∀ u, r = Ok u →
    ∃ entry uid gid, tr = [Ev (user_Lookup name) (Ok entry)]
    ∧ Atoi (ou_uid entry) = Some uid ∧ Atoi (ou_gid entry) = Some gid
    ∧ (0 ≤ uid)%Z ∧ (0 ≤ gid)%Z
    ∧ u = mkUser (uid mod two32) (gid mod two32) (ou_username entry)
    ∧ ((uid < two32)%Z → u_uid u = uid) ∧ ((gid < two32)%Z → u_gid u = gid).
Proof.
  unfold Lookup, try_or in Htr. trace_all; eexists; (split; [reflexivity|]);
    intros u Hu; [|done].
  destruct (Atoi (ou_uid a)) as [uid|] eqn:Eu; [|done].
  destruct (uid <? 0)%Z eqn:Hu0; [done|].
  destruct (Atoi (ou_gid a)) as [gid|] eqn:Eg; [|done].
  destruct (gid <? 0)%Z eqn:Hg0; [done|]. injection Hu as <-.
  apply Z.ltb_ge in Hu0, Hg0. eexists a, uid, gid.
  split_and!; [done..| |]; intros; simpl; by apply uint32_small.
Qed.

Lemma lookup_ids_witness :
  ∃ r, FVal (Ok (mkUser 1000 1001 "vcap")) = FVal r ∧ ∀ u, r = Ok u → u_uid u = 1000%Z.
Proof.
  destruct (lookup_ids "vcap" [Ev (user_Lookup "vcap") (Ok (mkOSUser "1000" "1001" "vcap"))]
    (FVal (Ok (mkUser 1000 1001 "vcap")))) as (r & Hr & H).
  - eexists _, _. split; [reflexivity|]. split; reflexivity.
  - exists r. split; [exact Hr|]. intros u Hu.
    injection Hr as <-. injection Hu as <-. reflexivity.
Defined.
