(* ===== verification/Cgroups.v ===== *)
(** * Package cgroups (src/bpm/cgroups/cgroup.go)

    Mounting the cgroup v1 hierarchies on hosts without systemd, reading bpm's
    own cgroup, and naming the cgroup of a container for runc's systemd
    driver. *)

From S2P Require Import Prelude GoStrings GoPath Specs Sys.
From Stdlib Require Import Ascii.

Definition cgroupRoot : string := "/sys/fs/cgroup".

Definition MS_NOSUID : Z := 0x2.
Definition MS_NODEV : Z := 0x4.
Definition MS_NOEXEC : Z := 0x8.

(** ** bufio.Scanner *)

Definition ErrTooLong : error := Sentinel "bufio.Scanner: token too long".
Definition MaxScanTokenSize : Z := 64 * 1024.

Definition dropCR (s : string) : string :=
  match str_rev s with String "013" r => str_rev r | _ => s end.

(** The tokens of [ScanLines] and what [Err] returns after the last: a line that
    does not fit the buffer ends the scan; a failed read ends it after what was read. *)
Fixpoint scan_lines (lines : list string) (rerr : option error) : list string * option error :=
  match lines with
  | [] | [""] => ([], rerr)
  | line :: lines' =>
      if (MaxScanTokenSize <=? Z.of_nat (String.length line))%Z then ([], Some ErrTooLong)
      else let '(rest, err) := scan_lines lines' rerr in (dropCR line :: rest, err)
  end.
Definition Scanner_lines (data : string) (rerr : option error) : list string * option error :=
  scan_lines (Split "010" data) rerr.

(** ** /proc/self/cgroup *)

(** The loop over the scanned lines; [serr] is the scanner's error.  A line
    without a colon has no [fields[1]]. *)
Fixpoint subsystemGroupingFromProcCgroup (lines : list string) (serr : option error)
    (subsystem : string) : outcome (result string) :=
  match lines with
  | [] => match serr with
          | Some e => Val (Err e)
          | None => Val (Ok subsystem)
          end
  | line :: lines' =>
      match Split ":" line with
      | _ :: grouping :: _ =>
          if slices_Contains (Split "," grouping) subsystem then Val (Ok grouping)
          else subsystemGroupingFromProcCgroup lines' serr subsystem
      | _ => Panics IndexOutOfRange
      end
  end.

Definition subsystemGrouping (subsystem : string) : prog (result string) :=
  f ← call (ReadStream "/proc/self/cgroup");
  match f with
  | Err err => if os_IsNotExist err then Ret (Ok subsystem) else Ret (Err err)
  | Ok (data, rerr) =>
      let '(lines, serr) := Scanner_lines data rerr in
      lift_outcome (subsystemGroupingFromProcCgroup lines serr subsystem)
  end.

Definition is_newline (c : ascii) : bool := Ascii.eqb c "013" || Ascii.eqb c "010".

Fixpoint selfCgroupPathFromReader (lines : list string) (serr : option error)
    : result string :=
  match lines with
  | [] => match serr with
          | Some e => Err (Wrapf "reading /proc/self/cgroup: %w" [] e)
          | None => Err (Errorf "no cgroup v2 entry found in /proc/self/cgroup" [])
          end
  | line :: lines' =>
      if HasPrefix line "0::" then Ok (TrimRight (TrimPrefix line "0::") is_newline)
      else selfCgroupPathFromReader lines' serr
  end.

Definition SelfCgroupPath : prog (result string) :=
  f ← call (ReadStream "/proc/self/cgroup");
  match f with
  | Err err => Ret (Err (Wrapf "opening /proc/self/cgroup: %w" [] err))
  | Ok (data, rerr) =>
      let '(lines, serr) := Scanner_lines data rerr in Ret (selfCgroupPathFromReader lines serr)
  end.

(** ** Names for the systemd driver *)

Definition systemd_valid (c : ascii) : bool :=
  in_range "a" "z" c || in_range "A" "Z" c || in_range "0" "9" c
  || Ascii.eqb c "-" || Ascii.eqb c "_".

(** One rune per round; [fuel] bounds the rounds by the number of bytes. *)
Fixpoint normalize_loop (fuel : nat) (s : string) : string :=
  match fuel, s with
  | S fuel', String c s' =>
      if systemd_valid c then String c (normalize_loop fuel' s')
      else String "-" (normalize_loop fuel' (rune_rest c s'))
  | _, _ => ""
  end.
Definition normalizeForSystemdName (s : string) : string :=
  normalize_loop (String.length s) s.

(** The first part ending in [.slice], with the part after it. *)
Fixpoint find_slice (parts : list string) : option (string * option string) :=
  match parts with
  | [] => None
  | part :: parts' =>
      if HasSuffix part ".slice" then Some (part, head parts') else find_slice parts'
  end.

(** The first part whose normalised form is not empty. *)
Fixpoint first_normalized (parts : list string) : string :=
  match parts with
  | [] => ""
  | part :: parts' =>
      let normalized := normalizeForSystemdName part in
      if decide (normalized ≠ "") then normalized +:+ "-" else first_normalized parts'
  end.

Definition ToSystemdCgroupsPath (selfPath containerID : string) : string :=
  let parts := Split slash (TrimLeft selfPath (λ c, Ascii.eqb c slash)) in
  let '(slice, uniquePart) :=
    match find_slice parts with
    | None => ("system.slice", "")
    | Some (part, None) => (part, "")
    | Some (part, Some next) =>
        let normalized := normalizeForSystemdName next in
        (part, if decide (normalized ≠ "") then normalized +:+ "-" else "")
    end in
  let uniquePart := if decide (uniquePart = "") then first_normalized parts else uniquePart in
  slice +:+ ":" +:+ (uniquePart +:+ "bpm") +:+ ":" +:+ containerID.

(** ** Mounting cgroup v1 *)

Definition mountCgroupTmpfsIfNotPresent (mountInfos : list string) : prog (option error) :=
  if slices_Contains mountInfos cgroupRoot then Ret None
  else check_err (call (MkdirAll cgroupRoot mode_0755)) id (
       call (MountCall "tmpfs" cgroupRoot "tmpfs"
               (Z.lor (Z.lor MS_NOSUID MS_NOEXEC) MS_NODEV) "mode=755")).

Definition mountCgroupSubsystem (subsystem : string) : prog (option error) :=
  let mountpoint := path_Join [cgroupRoot; subsystem] in
  st ← call (Stat mountpoint);
  let create :=
    match st with
    | Err err =>
        if os_IsNotExist err then
          check_err (call (MkdirAll mountpoint mode_0755)) id (call (Chmod mountpoint mode_0755))
        else Ret None
    | Ok _ => Ret None
    end in
  check_err create id (
  err ← call (MountCall "cgroup" mountpoint "cgroup" 0 subsystem);
  match err with
  | None | Some (SysError _ _ EBUSY) => Ret None
  | Some e => Ret (Some (Wrapf "unable to mount %s: %w" [mountpoint] e))
  end).

Fixpoint mount_subsystems (subsystems : list string) : prog (option error) :=
  match subsystems with
  | [] => Ret None
  | sub :: rest =>
      try_err (subsystemGrouping sub)
        (ErrorfErr "unable to retrieve subsystem grouping for %s: %s" [sub]) (λ group,
      check_err (mountCgroupSubsystem group)
        (ErrorfErr "unable to mount subsystem for %s: %s" [sub]) (
      mount_subsystems rest))
  end.

Definition Setup : prog (option error) :=
  unified ← call IsCgroup2UnifiedMode;
  if unified : bool then Ret None else
  try_err (call (GetMounts cgroupRoot)) (ErrorfErr "unable to retrieve mounts: %s" []) (λ mounts,
  check_err (mountCgroupTmpfsIfNotPresent mounts)
    (ErrorfErr "unable to mount cgroup tmpfs: %s" []) (
  try_err (call GetAllSubsystems)
    (ErrorfErr "unable to retrieve cgroup subsystems: %s" []) (λ subsystems,
  mount_subsystems subsystems))).

(** ** Specification *)

Fixpoint all_systemd_valid (s : string) : bool :=
  match s with
  | EmptyString => true
  | String c s' => systemd_valid c && all_systemd_valid s'
  end.

(** The cgroup file system was mounted at [mp], or something already was. *)
Definition ev_mounted_at (mp : string) (e : event) : bool :=
  match e with
  | Ev c r =>
      match c in sys B return B → bool with
      | MountCall _ t fstype _ _ => λ r,
          bool_decide (t = mp ∧ fstype = "cgroup") &&
          match r with None | Some (SysError _ _ EBUSY) => true | _ => false end
      | _ => λ _, false
      end r
  end.

(** The calls of [Setup]: it reads, and makes and mounts only [/sys/fs/cgroup] and what
    is below it. *)
Definition setup_call (B : Type) (c : sys B) : Prop :=
  match c with
  | IsCgroup2UnifiedMode | GetMounts _ | GetAllSubsystems | ReadStream _ | Stat _ => True
  | MkdirAll p m => (p = cgroupRoot ∨ ∃ g, p = path_Join [cgroupRoot; g]) ∧ m = mode_0755
  | Chmod p m => (∃ g, p = path_Join [cgroupRoot; g]) ∧ m = mode_0755
  | MountCall source target fstype flags data =>
      (source = "tmpfs" ∧ target = cgroupRoot ∧ fstype = "tmpfs"
       ∧ flags = Z.lor (Z.lor MS_NOSUID MS_NOEXEC) MS_NODEV ∧ data = "mode=755")
      ∨ (source = "cgroup" ∧ target = path_Join [cgroupRoot; data] ∧ fstype = "cgroup" ∧ flags = 0%Z)
  | _ => False
  end.

Definition ev_tmpfs_mounted (e : event) : bool :=
  match e with
  | Ev c r =>
      match c in sys B return B → bool with
      | MountCall _ t fstype _ _ => λ r,
          bool_decide (t = cgroupRoot ∧ fstype = "tmpfs" ∧ r = None)
      | _ => λ _, false
      end r
  end.

(** ** Lemmas *)

Lemma normalize_valid fuel s : all_systemd_valid (normalize_loop fuel s) = true.
Proof.
  revert s. induction fuel as [|fuel IH]; intros s; simpl; [done|].
  destruct s as [|c s]; [done|]. destruct (systemd_valid c) eqn:Hc; simpl; by rewrite ?Hc, IH.
Qed.

Lemma all_systemd_valid_app s t :
  all_systemd_valid (s +:+ t) = all_systemd_valid s && all_systemd_valid t.
Proof.
  induction s as [|c s IH]; [done|]. rewrite app_cons. simpl. by rewrite IH, andb_assoc.
Qed.

Lemma all_systemd_valid_no_colon s : all_systemd_valid s = true → no_byte ":" s = true.
Proof.
  induction s as [|c s IH]; simpl; [done|].
  rewrite !andb_true_iff, negb_true_iff. intros [Hc Hs]. split; [|auto].
  apply Ascii.eqb_neq. by intros ->.
Qed.

Lemma no_byte_TrimLeft c s f : no_byte c s = true → no_byte c (TrimLeft s f) = true.
Proof.
  induction s as [|d s IH]; simpl; [done|]. intros H. destruct (f d); [|done].
  apply andb_true_iff in H as [_ H]. auto.
Qed.

Lemma no_byte_Split c sep s :
  no_byte c s = true → Forall (λ p, no_byte c p = true) (Split sep s).
Proof.
  induction s as [|d s IH]; simpl; [by repeat constructor|].
  rewrite andb_true_iff. intros [Hd Hs]. specialize (IH Hs).
  destruct (Ascii.eqb d sep); [by constructor|].
  destruct (Split sep s) as [|p ps]; inversion IH; subst; constructor; simpl;
    rewrite ?Hd; auto.
Qed.

(** *** What [normalizeForSystemdName] and [ToSystemdCgroupsPath] compute *)

Lemma normalize_fuel n fuel s :
  String.length s ≤ n → String.length s ≤ fuel → normalize_loop n s = normalize_loop fuel s.
Proof.
  revert fuel s. induction n as [|n IH]; intros [|fuel] [|c s]; simpl; try lia; try done.
  intros Hn Hf. pose proof (rune_rest_length c s). by rewrite !(IH fuel) by lia.
Qed.

Lemma normalize_cons c s :
  normalizeForSystemdName (String c s)
  = if systemd_valid c then String c (normalizeForSystemdName s)
    else String "-" (normalizeForSystemdName (rune_rest c s)).
Proof.
  pose proof (rune_rest_length c s). unfold normalizeForSystemdName. simpl.
  by rewrite (normalize_fuel (String.length s) (String.length (rune_rest c s)) (rune_rest c s)).
Qed.

Lemma normalize_empty s : normalizeForSystemdName s = "" ↔ s = "".
Proof.
  split; [|by intros ->]. destruct s as [|c s]; [done|]. rewrite normalize_cons.
  by destruct (systemd_valid c).
Qed.

(** The elements of a cgroup path. *)
Definition cgroup_elements (selfPath : string) : list string :=
  Split slash (TrimLeft selfPath (λ c, Ascii.eqb c slash)).

(** The prefix made from the first element that is not empty. *)
Definition anchored (elements : list string) (unique : string) : Prop :=
  (∃ before e after, elements = before ++ e :: after ∧ Forall (λ x, x = "") before ∧ e ≠ ""
     ∧ unique = normalizeForSystemdName e +:+ "-")
  ∨ Forall (λ x, x = "") elements ∧ unique = "".

(** The choice of slice and prefix: the first element that is a slice and the element
    after it; without a slice [system.slice], without an element after it (or with an
    empty one) the first element that is not empty. *)
Definition chosen (elements : list string) (slice unique : string) : Prop :=
  (∃ before after, elements = before ++ slice :: after
     ∧ HasSuffix slice ".slice" = true ∧ Forall (λ e, HasSuffix e ".slice" = false) before
     ∧ if decide (default "" (head after) = "") then anchored elements unique
       else unique = normalizeForSystemdName (default "" (head after)) +:+ "-")
  ∨ Forall (λ e, HasSuffix e ".slice" = false) elements ∧ slice = "system.slice"
    ∧ anchored elements unique.

Lemma find_slice_None parts :
  find_slice parts = None → Forall (λ e, HasSuffix e ".slice" = false) parts.
Proof.
  induction parts as [|p parts IH]; simpl; [done|].
  destruct (HasSuffix p ".slice") eqn:E; [done|]. by constructor; [|apply IH].
Qed.

Lemma find_slice_Some parts part next :
  find_slice parts = Some (part, next) →
  ∃ before after, parts = before ++ part :: after ∧ next = head after
    ∧ HasSuffix part ".slice" = true ∧ Forall (λ e, HasSuffix e ".slice" = false) before.
Proof.
  induction parts as [|p parts IH]; simpl; [done|].
  destruct (HasSuffix p ".slice") eqn:E.
  - intros [= <- <-]. by exists [], parts.
  - intros (before & after & -> & -> & Hs & Hb)%IH. exists (p :: before), after.
    by split_and!; [..|constructor].
Qed.

Lemma first_normalized_anchored parts : anchored parts (first_normalized parts).
Proof.
  induction parts as [|p parts IH]; simpl; [by right|].
  case_decide as Hp; rewrite normalize_empty in Hp.
  - left. by exists [], p, parts.
  - subst p. destruct IH as [(before & e & after & -> & Hb & He & ->)|[Hall ->]].
    + left. exists (EmptyString :: before), e, after. by split_and!; [|constructor|..].
    + right. by split; [constructor|].
Qed.

(** The fallback when no prefix was found next to the slice. *)
Lemma prefix_anchored parts next :
  let unique := if decide (normalizeForSystemdName next ≠ "")
                then normalizeForSystemdName next +:+ "-" else "" in
  let unique' := if decide (unique = "") then first_normalized parts else unique in
  if decide (next = "") then anchored parts unique' else unique' = normalizeForSystemdName next +:+ "-".
Proof.
  destruct (decide (next = "")) as [->|Hn]; cbv zeta; [apply first_normalized_anchored|].
  rewrite (decide_True (P := normalizeForSystemdName next ≠ "")) by by rewrite normalize_empty.
  rewrite decide_False; [done|]. by destruct (normalizeForSystemdName next).
Qed.

Lemma ToSystemd_chosen selfPath containerID :
  ∃ slice unique,
    ToSystemdCgroupsPath selfPath containerID
      = slice +:+ ":" +:+ (unique +:+ "bpm") +:+ ":" +:+ containerID
    ∧ chosen (cgroup_elements selfPath) slice unique.
Proof.
  unfold ToSystemdCgroupsPath. fold (cgroup_elements selfPath).
  generalize (cgroup_elements selfPath) as parts. intros parts.
  destruct (find_slice parts) as [[part next]|] eqn:Hs.
  - apply find_slice_Some in Hs as (before & after & Hparts & -> & Hsuf & Hb).
    destruct after as [|next after]; eexists _, _; (split; [reflexivity|]); left;
      eexists before, _; (split_and!; [exact Hparts|done..|]); simpl.
    + apply first_normalized_anchored.
    + apply prefix_anchored.
  - eexists _, _. split; [reflexivity|]. right.
    split_and!; [by apply find_slice_None|done|apply first_normalized_anchored].
Qed.

(** The fields are well formed. *)
Lemma anchored_valid elements unique : anchored elements unique → all_systemd_valid unique = true.
Proof.
  intros [(before & e & after & _ & _ & _ & ->)|[_ ->]]; [|done].
  rewrite all_systemd_valid_app. unfold normalizeForSystemdName. by rewrite normalize_valid.
Qed.

Lemma chosen_valid elements slice unique :
  Forall (λ p, no_byte ":" p = true) elements → chosen elements slice unique →
  HasSuffix slice ".slice" = true ∧ no_byte ":" slice = true ∧ all_systemd_valid unique = true.
Proof.
  intros HF [(before & after & -> & Hsuf & _ & Hu)|(_ & -> & Hu%anchored_valid)]; [|done].
  apply Forall_app in HF as [_ HF]. apply Forall_cons in HF as [Hs _].
  split_and!; [done..|]. case_decide; [by eapply anchored_valid|]. subst unique.
  rewrite all_systemd_valid_app. unfold normalizeForSystemdName. by rewrite normalize_valid.
Qed.

(** ** Properties *)

(** The cgroup path for runc's systemd driver always has the form
    [slice:prefix:name] the driver expects. *)
Lemma scope_name_fields selfPath containerID slice unique :
  no_byte ":" selfPath = true → no_byte ":" containerID = true →
  chosen (cgroup_elements selfPath) slice unique →
  Split ":" (slice +:+ ":" +:+ (unique +:+ "bpm") +:+ ":" +:+ containerID)
    = [slice; unique +:+ "bpm"; containerID]
  ∧ HasSuffix slice ".slice" = true ∧ all_systemd_valid (unique +:+ "bpm") = true.
Proof.
  intros Hpath Hid Hch. apply chosen_valid in Hch as (Hsuf & Hslice & Hvalid);
    [|by apply no_byte_Split, no_byte_TrimLeft].
  split_and!; [|done|by rewrite all_systemd_valid_app, Hvalid].
  rewrite Split_app_str by done. rewrite Split_app_str.
  - by rewrite Split_no_sep.
  - rewrite no_byte_app. by rewrite all_systemd_valid_no_colon.
Qed.

Lemma trace_check_err_None p g k tr :
  exec_trace (check_err p g k) tr (FVal None) →
  ∃ t1 t2, tr = t1 ++ t2 ∧ exec_trace p t1 (FVal None) ∧ exec_trace k t2 (FVal None).
Proof.
  intros ([e|] & t1 & t2 & -> & H1 & H2)%trace_bind_FVal; [by trace_step|eauto].
Qed.

Lemma trace_try_err_None {A} (p : prog (result A)) g (k : A → prog (option error)) tr :
  exec_trace (try_err p g k) tr (FVal None) →
  ∃ a t1 t2, tr = t1 ++ t2 ∧ exec_trace p t1 (FVal (Ok a)) ∧ exec_trace (k a) t2 (FVal None).
Proof.
  intros ([a|e] & t1 & t2 & -> & H1 & H2)%trace_bind_FVal; [eauto 6|by trace_step].
Qed.

(** The subsystems a line of /proc/self/cgroup names, and the group of [sub] there: the
    second field of the first line that names it, [sub] alone when none does. *)
Definition controllers (line : string) : list string :=
  match Split ":" line with _ :: grouping :: _ => Split "," grouping | _ => [] end.
Definition grouped (lines : list string) (sub group : string) : Prop :=
  (∃ before line after hid rest,
     lines = before ++ line :: after ∧ Split ":" line = hid :: group :: rest
     ∧ sub ∈ Split "," group ∧ Forall (λ l, sub ∉ controllers l) before)
  ∨ group = sub ∧ Forall (λ l, sub ∉ controllers l) lines.

(** The group by what opening and reading the file gave. *)
Definition own_group (r : result (string * option error)) (sub group : string) : Prop :=
  match r with
  | Err e => os_IsNotExist e = true ∧ group = sub
  | Ok (data, rerr) => grouped (Scanner_lines data rerr).1 sub group
  end.

(** The hierarchy of a group is mounted; its directory is made only when missing, and
    something mounted there already is accepted. *)
Definition mounts_group (group : string) (tr : list event) : Prop :=
  let mp := path_Join [cgroupRoot; group] in
  ∃ st made r,
    tr = Ev (Stat mp) st :: made ++ [Ev (MountCall "cgroup" mp "cgroup" 0 group) r]
    ∧ (if match st with Err e => os_IsNotExist e | Ok _ => false end
       then made = [Ev (MkdirAll mp mode_0755) None; Ev (Chmod mp mode_0755) None]
       else made = [])
    ∧ (r = None ∨ ∃ op p, r = Some (SysError op p EBUSY)).
(** All that is done for one subsystem. *)
Definition mounts_subsystem (sub : string) (tr : list event) : Prop :=
  ∃ r group t, tr = Ev (ReadStream "/proc/self/cgroup") r :: t
    ∧ own_group r sub group ∧ mounts_group group t.

Lemma slices_Contains_spec l x : slices_Contains l x = true ↔ x ∈ l.
Proof.
  unfold slices_Contains. rewrite existsb_exists. setoid_rewrite <- list_elem_of_In. split.
  - by intros (y & Hy & ->%String.eqb_eq).
  - intros Hx. exists x. by rewrite String.eqb_eq.
Qed.

Lemma grouping_grouped lines serr sub group :
  subsystemGroupingFromProcCgroup lines serr sub = Val (Ok group) → grouped lines sub group.
Proof.
  induction lines as [|line lines IH]; simpl.
  - destruct serr; [done|]. intros [= ->]. by right.
  - destruct (Split ":" line) as [|f0 [|grouping fs]] eqn:Hl; [done|done|].
    destruct (slices_Contains (Split "," grouping) sub) eqn:Hc.
    + apply slices_Contains_spec in Hc. intros [= ->]. left. by exists [], line, lines, f0, fs.
    + assert (sub ∉ controllers line) as Hn.
      { unfold controllers. rewrite Hl, <- slices_Contains_spec. by rewrite Hc. }
      intros [(before & l & after & hid & rest & -> & Hs & Hin & Hb)|[-> Hall]]%IH.
      * left. exists (line :: before), l, after, hid, rest. by split_and!; [..|constructor].
      * right. by split; [|constructor].
Qed.

Lemma subsystemGrouping_trace sub tr group :
  exec_trace (subsystemGrouping sub) tr (FVal (Ok group)) →
  ∃ r, tr = [Ev (ReadStream "/proc/self/cgroup") r] ∧ own_group r sub group.
Proof.
  intros (r & t & -> & Htr)%exec_trace_Call. exists r. destruct r as [[data rerr]|e]; simpl in Htr |- *.
  - destruct (Scanner_lines data rerr) as [lines serr].
    destruct (subsystemGroupingFromProcCgroup lines serr sub) as [o|] eqn:Hg; simpl in Htr;
      trace_step; simplify_eq. split; [done|]. by apply grouping_grouped in Hg.
  - destruct (os_IsNotExist e); trace_step; by simplify_eq.
Qed.

Lemma mountCgroupSubsystem_trace group tr :
  exec_trace (mountCgroupSubsystem group) tr (FVal None) → mounts_group group tr.
Proof.
  intros (st & t & -> & Htr)%exec_trace_Call. unfold mounts_group.
  set (mp := path_Join [cgroupRoot; group]) in *. clearbody mp.
  apply trace_check_err_None in Htr as (t1 & t2 & -> & Hmk & Htr).
  apply exec_trace_Call in Htr as (r & t3 & -> & Htr).
  assert (t3 = [] ∧ (r = None ∨ ∃ op p, r = Some (SysError op p EBUSY))) as [-> Hr].
  { destruct r as [e|]; [|destruct Htr; by split; [|left]].
    destruct e; try (by destruct Htr as [_ [=]]).
    destruct code; try (by destruct Htr as [_ [=]]). destruct Htr; eauto 6. }
  exists st, t1, r. split_and!; [done| |done].
  destruct st as [fi|e]; [by destruct Hmk|]. destruct (os_IsNotExist e); [|by destruct Hmk].
  apply trace_check_err_None in Hmk as (t4 & t5 & -> & H1 & H2).
  apply exec_trace_Call in H1 as (r1 & t6 & -> & [-> [= <-]]).
  by apply exec_trace_Call in H2 as (r2 & t7 & -> & [-> [= <-]]).
Qed.

Lemma mount_subsystems_trace subs tr :
  exec_trace (mount_subsystems subs) tr (FVal None) →
  ∃ ts, tr = concat ts ∧ Forall2 mounts_subsystem subs ts.
Proof.
  revert tr. induction subs as [|sub subs IH]; intros tr Htr.
  { exists []. by destruct Htr as [-> _]. }
  apply trace_try_err_None in Htr as (group & t1 & t2 & -> & Hg & Htr).
  apply trace_check_err_None in Htr as (t3 & t4 & -> & Hm & Htr).
  apply subsystemGrouping_trace in Hg as (r & -> & Hg). apply mountCgroupSubsystem_trace in Hm.
  apply IH in Htr as (ts & -> & Hts).
  exists ((Ev (ReadStream "/proc/self/cgroup") r :: t3) :: ts). split; [done|].
  constructor; [|done]. by exists r, group, t3.
Qed.

Lemma Setup_calls : all_calls setup_call Setup.
Proof.
  assert (∀ sub, all_calls setup_call (mountCgroupSubsystem sub)) as Hmount.
  { intros sub. unfold mountCgroupSubsystem. all_calls_tac; simpl; eauto 10. }
  assert (∀ sub, all_calls setup_call (subsystemGrouping sub)) as Hgroup.
  { intros sub. split; [done|]. intros [[data rerr]|e].
    - cbn. destruct (Scanner_lines data rerr) as [lines serr].
      by destruct (subsystemGroupingFromProcCgroup lines serr sub).
    - simpl. by destruct (os_IsNotExist e). }
  split; [done|]. intros []; [done|]. split; [done|]. intros [mounts|e]; [|done].
  cbn [prog_bind]. apply all_calls_bind.
  { unfold mountCgroupTmpfsIfNotPresent. all_calls_tac; simpl; auto 8. }
  intros [e|]; [exact I|]. split; [exact I|]. intros [subs|e]; [|exact I]. cbn [prog_bind].
  induction subs as [|sub subs IH]; [done|].
  apply all_calls_bind; [apply Hgroup|]. intros [group|e]; [|done].
  apply all_calls_bind; [apply Hmount|]. by intros [e|].
Qed.

(** C39: preparing cgroups on a host without systemd: whatever the system answers,
    [Setup] makes and mounts nothing but the tmpfs (nosuid, noexec, nodev) on
    [/sys/fs/cgroup] and cgroup hierarchies below it.  When it succeeds, the host has
    the unified hierarchy and nothing was done; or [/sys/fs/cgroup] was mounted before
    or is now, and then, for every subsystem of the kernel in turn, /proc/self/cgroup is
    read and exactly one hierarchy is mounted (a busy mount point counts as mounted): that
    of the group the first line naming the subsystem gives, and of the subsystem alone only
    when no line names it or the file does not exist.  Its directory is made only when
    missing. *)
Theorem setup_mounts_hierarchies tr f (Htr : exec_trace Setup tr f) :
  Forall (λ e, match e with Ev c _ => setup_call _ c end) tr
  ∧ (f = FVal None →
     tr = [Ev IsCgroup2UnifiedMode true]
     ∨ ∃ mounts t0 subs ts,
         tr = Ev IsCgroup2UnifiedMode false :: Ev (GetMounts cgroupRoot) (Ok mounts)
                :: t0 ++ Ev GetAllSubsystems (Ok subs) :: concat ts
         ∧ (if slices_Contains mounts cgroupRoot then t0 = [] else existsb ev_tmpfs_mounted t0 = true)
         ∧ Forall2 mounts_subsystem subs ts).
Proof.
  split; [eapply all_calls_trace; [apply Setup_calls|done]|]. intros ->.
  apply exec_trace_Call in Htr as ([] & t1 & -> & Htr); [by destruct Htr as [-> _]; left|]. right.
  apply trace_try_err_None in Htr as (mounts & t2 & t3 & -> & Hget & Htr).
  apply exec_trace_Call in Hget as (r & t4 & -> & [-> [= <-]]).
  apply trace_check_err_None in Htr as (t5 & t6 & -> & Htmp & Htr).
  apply trace_try_err_None in Htr as (subs & t7 & t8 & -> & Hsubs & Htr).
  apply exec_trace_Call in Hsubs as (r & t9 & -> & [-> [= <-]]).
  apply mount_subsystems_trace in Htr as (ts & -> & Hts).
  exists mounts, t5, subs, ts. split_and!; [done| |done].
  unfold mountCgroupTmpfsIfNotPresent in Htmp. destruct (slices_Contains mounts cgroupRoot).
  - by destruct Htmp.
  - apply trace_check_err_None in Htmp as (t10 & t11 & -> & _ & Hm).
    apply exec_trace_Call in Hm as (r & t12 & -> & [-> [= <-]]).
    apply existsb_exists. eexists. split; [apply list_elem_of_In, elem_of_app; right; left|].
    by apply bool_decide_eq_true_2.
Qed.

(** A host whose own cgroup groups cpu with cpuacct, where memory is mounted already. *)
Definition v1_handler : handler unit := λ B c w,
  (match c in sys B return B with
   | GetAllSubsystems => Ok ["cpu"; "memory"]
   | ReadStream _ => Ok ("4:cpu,cpuacct:/bpm" +:+ newline +:+ "3:memory:/bpm" +:+ newline, None)
   | MountCall "cgroup" "/sys/fs/cgroup/memory" _ _ _ => Some (SysError "mount" "" EBUSY)
   | c' => default_answer c'
   end, w).

Lemma setup_mounts_hierarchies_witness :
  ∃ tr, exec_trace Setup tr (FVal None)
  ∧ (tr = [Ev IsCgroup2UnifiedMode true]
     ∨ ∃ mounts t0 subs ts,
         tr = Ev IsCgroup2UnifiedMode false :: Ev (GetMounts cgroupRoot) (Ok mounts)
                :: t0 ++ Ev GetAllSubsystems (Ok subs) :: concat ts
         ∧ (if slices_Contains mounts cgroupRoot then t0 = [] else existsb ev_tmpfs_mounted t0 = true)
         ∧ Forall2 mounts_subsystem subs ts)
  ∧ existsb (ev_mounted_at "/sys/fs/cgroup/cpu,cpuacct") tr = true.
Proof.
  pose proof (trace_of_exec v1_handler Setup tt) as Htr.
  assert ((run v1_handler Setup tt).1 = FVal None) as Hr by (vm_compute; reflexivity).
  rewrite Hr in Htr. exists (trace_of v1_handler Setup tt). split; [exact Htr|]. split.
  - exact (proj2 (setup_mounts_hierarchies _ _ Htr) eq_refl).
  - vm_compute. reflexivity.
Defined.

(** A path through a slice: only the slice and the next element count. *)
Lemma nested_slice slice next rest containerID :
  no_byte slash slice = true → HasSuffix slice ".slice" = true →
  no_byte slash next = true → next ≠ "" →
  ToSystemdCgroupsPath ("/" +:+ slice +:+ "/" +:+ next +:+ "/" +:+ rest) containerID
  = slice +:+ ":" +:+ ((normalizeForSystemdName next +:+ "-") +:+ "bpm") +:+ ":" +:+ containerID.
Proof.
  intros Hs Hsuf Hn Hne. unfold ToSystemdCgroupsPath.
  assert (TrimLeft ("/" +:+ slice +:+ "/" +:+ next +:+ "/" +:+ rest) (λ c, Ascii.eqb c slash)
    = slice +:+ String slash "" +:+ next +:+ String slash "" +:+ rest) as ->.
  { destruct slice as [|c slice]; [done|]. simpl in Hs. apply andb_prop in Hs as [Hc _].
    apply negb_true_iff in Hc. simpl. by rewrite Hc. }
  rewrite !Split_app_str by done. cbn [find_slice]. rewrite Hsuf. cbn [head].
  assert (normalizeForSystemdName next ≠ "") as Hnorm.
  { destruct next as [|c next]; [done|]. unfold normalizeForSystemdName. simpl.
    by destruct (systemd_valid c). }
  rewrite (decide_True (P := normalizeForSystemdName next ≠ "")) by done.
  rewrite decide_False; [done|]. by destruct (normalizeForSystemdName next).
Qed.

(** C40: the scope name for runc's systemd driver: for a cgroup path and a container ID
    without colons the result is [slice:prefix:name], with exactly these three fields.
    The slice is the first element of the path ending in [.slice], or [system.slice] when
    there is none.  The prefix is the element after the slice, normalised, with [-bpm]; if
    there is no such element or it is empty, it is made from the first non-empty element of
    the path, and it is [bpm] alone only when all elements are empty.  Normalising keeps
    letters, digits, [-] and [_] and turns every other character (a whole UTF-8 sequence,
    or an invalid byte) into one dash, so the prefix is valid in a unit name.  The name is
    the container ID.  Nothing after the element next to the slice counts: where that
    element is a slice again, all containers below it share the prefix, which is then not
    unique per warden container as the comment of [ToSystemdCgroupsPath] says. *)
Theorem systemd_scope_name selfPath containerID
    (Hpath : no_byte ":" selfPath = true) (Hid : no_byte ":" containerID = true) :
  (∃ slice unique,
    ToSystemdCgroupsPath selfPath containerID
      = slice +:+ ":" +:+ (unique +:+ "bpm") +:+ ":" +:+ containerID
    ∧ chosen (cgroup_elements selfPath) slice unique
    ∧ Split ":" (ToSystemdCgroupsPath selfPath containerID)
      = [slice; unique +:+ "bpm"; containerID]
    ∧ HasSuffix slice ".slice" = true
    ∧ all_systemd_valid (unique +:+ "bpm") = true)
  ∧ normalizeForSystemdName "" = ""
  ∧ (∀ c s, normalizeForSystemdName (String c s)
      = if systemd_valid c then String c (normalizeForSystemdName s)
        else String "-" (normalizeForSystemdName (rune_rest c s)))
  ∧ (∀ slice next a b,
      no_byte slash slice = true → HasSuffix slice ".slice" = true →
      no_byte slash next = true → next ≠ "" →
      ToSystemdCgroupsPath ("/" +:+ slice +:+ "/" +:+ next +:+ "/" +:+ a) containerID
      = ToSystemdCgroupsPath ("/" +:+ slice +:+ "/" +:+ next +:+ "/" +:+ b) containerID).
Proof.
  split_and!; [|done|apply normalize_cons|].
  - destruct (ToSystemd_chosen selfPath containerID) as (slice & unique & E & Hch).
    exists slice, unique. split; [exact E|]. split; [exact Hch|]. rewrite E.
    by apply (scope_name_fields selfPath).
  - intros slice next a b Hs Hsuf Hn Hne. by rewrite !nested_slice.
Qed.

Lemma systemd_scope_name_witness :
  (∃ slice unique,
    ToSystemdCgroupsPath "/system.slice/garden-abc.scope/monit.service" "bpm-uaa"
      = slice +:+ ":" +:+ (unique +:+ "bpm") +:+ ":" +:+ "bpm-uaa"
    ∧ chosen ["system.slice"; "garden-abc.scope"; "monit.service"] slice unique)
  ∧ Split ":" (ToSystemdCgroupsPath "/system.slice/garden-abc.scope/monit.service" "bpm-uaa")
    = ["system.slice"; "garden-abc-scope-bpm"; "bpm-uaa"]
  ∧ ToSystemdCgroupsPath "/system.slice/system-garden.slice/garden-abc.scope" "bpm-uaa"
    = ToSystemdCgroupsPath "/system.slice/system-garden.slice/garden-def.scope" "bpm-uaa".
Proof.
  destruct (systemd_scope_name "/system.slice/garden-abc.scope/monit.service" "bpm-uaa")
    as ((slice & unique & H & Hch & _) & _ & _ & Hnested).
  - reflexivity.
  - reflexivity.
  - split; [exists slice, unique; exact (conj H Hch)|]. split; [vm_compute; reflexivity|].
    apply (Hnested "system.slice" "system-garden.slice" "garden-abc.scope" "garden-def.scope");
      reflexivity || discriminate.
Defined.
