(* ===== verification/Adapter.v ===== *)
(** * Package adapter: preparing the host and building the container specification
    (src/bpm/runc/adapter/adapter.go)

    [CreateJobPrerequisites] creates the directories and log files of a process;
    [BuildSpec] turns its configuration into the specification runc runs.  The
    system's answers come from the environment (see Sys); the iteration order of
    Go maps and the sort of the standard library from their interfaces;
    [ToBytes] is the parser of code.cloudfoundry.org/bytefmt. *)

From S2P Require Import Prelude GoStrings GoPath JobID Bosh Specs Sys Config Seccomp SpecBuilder Mounts SafeIO Locks Host.

Definition resolvConfDir : string := "/run/resolvconf".
Definition systemdResolvedConfDir : string := "/run/systemd/resolve".
Definition defaultLang : string := "en_US.UTF-8".

Record RuncAdapter := NewRuncAdapter {
  a_features : Features;
  a_glob : string → prog (result (list string));
  a_shareMount : string → prog (option error);
  a_locker : string → prog (result FlockH);
  a_cgroupsPathFor : option (string → prog (result string))
}.

(** ** Host preparation *)

Definition checkDirExists (dir : string) : prog (result bool) :=
  st ← call (Stat dir);
  match st with
  | Ok _ => Ret (Ok true)
  | Err err => if negb (os_IsNotExist err) then Ret (Err err) else Ret (Ok false)
  end.

(** The deferred unlock runs after [shareMount]; its error is ignored. *)
Definition makeShared (a : RuncAdapter) (volume : Volume) : prog (option error) :=
  try_err (a_locker a (v_path volume)) id (λ held,
  deferring (a_shareMount a (v_path volume)) (Flock_Unlock held)).

Definition createDirFor (path : string) (uid gid : Z) : prog (option error) :=
  check_err (call (MkdirAll path mode_0700)) id (call (Chown path uid gid)).

Fixpoint createDirs (dirs : list string) (user : User) : prog (option error) :=
  match dirs with
  | [] => Ret None
  | dir :: dirs' =>
      check_err (createDirFor dir (u_uid user) (u_gid user)) id (createDirs dirs' user)
  end.

Fixpoint chownPaths (paths : list string) (user : User) : prog (option error) :=
  match paths with
  | [] => Ret None
  | path :: paths' =>
      check_err (call (Chown path (u_uid user) (u_gid user))) id (chownPaths paths' user)
  end.

Fixpoint close_all (fds : list nat) : prog unit :=
  match fds with
  | [] => Ret tt
  | fd :: fds' => _ ← call (FileClose fd); close_all fds'
  end.

(** The loop of [createLogFiles]: [files] are the files opened so far, closed in
    order when a later one fails. *)
Fixpoint open_log_files (paths : list string) (user : User) (files : list nat)
    : prog (result (list nat)) :=
  match paths with
  | [] => Ret (Ok files)
  | path :: paths' =>
      f ← OpenAppendChown path (u_uid user) (u_gid user) mode_0600;
      match f with
      | Err err => _ ← close_all files; Ret (Err err)
      | Ok fd => open_log_files paths' user (files ++ [fd])
      end
  end.

Definition createLogFiles (bpmCfg : BPMConfig) (user : User) : prog (result (nat * nat)) :=
  try_or (open_log_files [External (Config_Stdout bpmCfg); External (Config_Stderr bpmCfg)]
            user []) id (λ files,
  match files with
  | [f0; f1] => Ret (Ok (f0, f1))
  | _ => Crash IndexOutOfRange
  end).

(** The loop over the additional volumes: the directories to create and the
    paths to chown. *)
Fixpoint prepare_volumes (a : RuncAdapter) (vols : list Volume)
    (dirsToCreate pathsToChown : list string) : prog (result (list string * list string)) :=
  match vols with
  | [] => Ret (Ok (dirsToCreate, pathsToChown))
  | vol :: vols' =>
      check_or (if v_shared vol then makeShared a vol else Ret None) id (
      if v_mountOnly vol then prepare_volumes a vols' dirsToCreate pathsToChown
      else
        fi ← call (Stat (v_path vol));
        match fi with
        | Err err =>
            if os_IsNotExist err then
              prepare_volumes a vols' (dirsToCreate ++ [v_path vol])
                (pathsToChown ++ [v_path vol])
            else Ret (Err err)
        | Ok fi =>
            check_or (if fi_IsDir fi && negb (fi_mode fi =? mode_0700)%Z
                      then call (Chmod (v_path vol) mode_0700) else Ret None) id (
            prepare_volumes a vols' dirsToCreate (pathsToChown ++ [v_path vol]))
        end)
  end.

Definition CreateJobPrerequisites (a : RuncAdapter) (bpmCfg : BPMConfig)
    (procCfg : ProcessConfig) (user : User) : prog (result (nat * nat)) :=
  check_or (call (MkdirAll (External (PidDir bpmCfg)) mode_0700)) id (
  try_or (prepare_volumes a (pc_additionalVolumes procCfg) [] []) id (λ '(dirs, chowns),
  let dirs := dirs ++ [External (BPMConfig_LogDir bpmCfg); External (SocketDir bpmCfg);
                       External (TempDir bpmCfg)] in
  let dirs := if pc_ephemeralDisk procCfg
              then dirs ++ [External (BPMConfig_DataDir bpmCfg)] else dirs in
  try_or (if pc_persistentDisk procCfg then
            let storeDir := External (BPMConfig_StoreDir bpmCfg) in
            try_or (checkDirExists (Dir storeDir)) id (λ storeExists,
            if negb storeExists
            then Ret (Err (NewError "requested persistent disk does not exist"))
            else Ret (Ok (dirs ++ [storeDir])))
          else Ret (Ok dirs)) id (λ dirs,
  check_or (createDirs dirs user) id (
  check_or (chownPaths chowns user) id (
  createLogFiles bpmCfg user))))).

(** ** Mounts *)

Definition systemIdentityMounts : list Mount :=
  [IdentityMount "/bin" [AllowExec];
   IdentityMount "/etc" [AllowExec];
   IdentityMount "/lib" [AllowExec];
   IdentityMount "/lib64" [AllowExec];
   IdentityMount "/sbin" [AllowExec];
   IdentityMount "/usr" [AllowExec]].

Definition path_mount (p : Path) (opts : list MountOption) : Mount :=
  Mount_from_to (External p) (Internal p) opts.

Definition boshMounts (bpmCfg : BPMConfig) (mountData mountStore : bool) : list Mount :=
  let tmpDir := TempDir bpmCfg in
  [Mount_from_to (External tmpDir) "/tmp" [WithRecursiveBind; AllowWrites];
   Mount_from_to (External tmpDir) "/var/tmp" [WithRecursiveBind; AllowWrites];
   path_mount tmpDir [WithRecursiveBind; AllowWrites];
   path_mount (BPMConfig_DataPackageDir bpmCfg) [AllowExec];
   path_mount (BPMConfig_PackageDir bpmCfg) [AllowExec];
   path_mount (BPMConfig_JobDir bpmCfg) [AllowExec];
   path_mount (BPMConfig_LogDir bpmCfg) [WithRecursiveBind; AllowWrites]]
  ++ (if mountData
      then [path_mount (BPMConfig_DataDir bpmCfg) [WithRecursiveBind; AllowWrites]] else [])
  ++ (if mountStore
      then [path_mount (BPMConfig_StoreDir bpmCfg) [WithRecursiveBind; AllowWrites]] else []).

Definition volume_mount_options (vol : Volume) : list MountOption :=
  [WithRecursiveBind]
  ++ (if v_allowExecutions vol then [AllowExec] else [])
  ++ (if v_writable vol then [AllowWrites] else []).

Definition userProvidedIdentityMounts (volumes : list Volume) : list Mount :=
  (λ vol, IdentityMount (v_path vol) (volume_mount_options vol)) <$> volumes.

Fixpoint glob_expand (a : RuncAdapter) (volumes expanded : list Volume)
    : prog (result (list Volume)) :=
  match volumes with
  | [] => Ret (Ok expanded)
  | volume :: volumes' =>
      try_or (a_glob a (v_path volume)) id (λ matches,
      glob_expand a volumes' (expanded ++
        ((λ m, mkVolume m (v_writable volume) (v_allowExecutions volume)
                 (v_mountOnly volume) (v_shared volume)) <$> matches)))
  end.
Definition globExpandVolumes (a : RuncAdapter) (volumes : list Volume)
    : prog (result (list Volume)) := glob_expand a volumes [].

(** The volume lies at or below the destination of the mount. *)
Definition under_mount (m : Mount) (v : Volume) : bool :=
  let boshMountDirParts := Split slash (m_destination m) in
  let volumeDirParts := Split slash (v_path v) in
  (length boshMountDirParts <=? length volumeDirParts)
  && bool_decide (boshMountDirParts = take (length boshMountDirParts) volumeDirParts).

Definition filterVolumesUnderBoshMounts (boshMounts : list Mount)
    (unrestrictedVolumes : list Volume) : list Volume :=
  filter (λ v, existsb (λ m, under_mount m v) boshMounts = false) unrestrictedVolumes.

(** ** Process *)

Definition wrapWithInit (bpmCfg : BPMConfig) (procCfg : ProcessConfig)
    : string * list string :=
  (Internal (TiniPath bpmCfg),
   ["-w"; "-s"; "--"; pc_executable procCfg] ++ pc_args procCfg).

Definition defaultPath (cfg : BPMConfig) : string :=
  Internal (Path_Join (BPMConfig_JobDir cfg) ["bin"])
  +:+ ":/usr/local/bin:/usr/local/sbin:/usr/bin:/usr/sbin:/bin:/sbin:.".

Definition processEnvironment `{MapRange} (env : gmap string string) (cfg : BPMConfig)
    : list string :=
  let unless k v := match env !! k with Some _ => [] | None => [k +:+ "=" +:+ v] end in
  ((λ kv, kv.1 +:+ "=" +:+ kv.2) <$> map_range env)
  ++ unless "TMPDIR" (Internal (TempDir cfg))
  ++ unless "LANG" defaultLang
  ++ unless "PATH" (defaultPath cfg)
  ++ unless "HOME" (Internal (BPMConfig_DataDir cfg)).

Definition processCapabilities (caps : list string) : list string :=
  (λ cap, "CAP_" +:+ cap) <$> caps.

(** ** BuildSpec *)

Section build.
Context `{MapRange, SortSlice} (ToBytes : string → result Z).

Definition unsafe_flag (f : Unsafe → bool) (procCfg : ProcessConfig) : bool :=
  match pc_unsafe procCfg with Some u => f u | None => false end.

Definition apply_limits (features : Features) (limits : option Limits) (spec : Spec)
    : result Spec :=
  match limits with
  | None => Ok spec
  | Some l =>
      spec ←? match l_memory l with
              | None => Ok spec
              | Some m =>
                  memLimit ←? ToBytes m;
                  Ok (Apply spec [WithMemoryLimit (int64_of_uint64 memLimit) features])
              end;
      let spec := match l_processes l with
                  | Some n => Apply spec [WithPidLimit n] | None => spec end in
      let spec := match l_openFiles l with
                  | Some n => Apply spec [WithOpenFileLimit n] | None => spec end in
      Ok (match l_coreFileSize l with
          | Some n => Apply spec [WithCoreFileSizeLimit n] | None => spec end)
  end.

(** The specification before limits and privileges. *)
Definition base_spec (bpmCfg : BPMConfig) (procCfg : ProcessConfig) (user : User)
    (ms : gmap string Mount) : Spec :=
  let cwd := if decide (pc_workDir procCfg ≠ "") then pc_workDir procCfg
             else Internal (BPMConfig_JobDir bpmCfg) in
  let '(wrappedExe, wrappedArgs) := wrapWithInit bpmCfg procCfg in
  Build [WithRootFilesystem (RootFSPath bpmCfg);
         WithUser user;
         WithProcess wrappedExe wrappedArgs
           (processEnvironment (default ∅ (pc_env procCfg)) bpmCfg) cwd;
         WithCapabilities (processCapabilities (pc_capabilities procCfg));
         WithMounts (mounts ms);
         WithNamespace "ipc"; WithNamespace "mount"; WithNamespace "uts"].

(** The options that depend on the host and on the unsafe section. *)
Definition apply_unsafe (features : Features) (procCfg : ProcessConfig) (spec : Spec) : Spec :=
  let spec := if negb (unsafe_flag HostPidNamespace procCfg)
              then Apply spec [WithNamespace "pid"] else spec in
  let spec := if negb (SeccompSupported features) then Apply spec [WithoutSeccomp] else spec in
  if unsafe_flag Privileged procCfg then Apply spec [WithPrivileged] else spec.

(** The mounts of the unrestricted volumes, after those in [ms]. *)
Definition add_unrestricted (a : RuncAdapter) (procCfg : ProcessConfig)
    (boshMs : list Mount) (ms : gmap string Mount) : prog (result (gmap string Mount)) :=
  match pc_unsafe procCfg with
  | Some u =>
      if 0 <? length (UnrestrictedVolumes u) then
        try_or (globExpandVolumes a (UnrestrictedVolumes u)) id (λ expanded,
        let filteredVolumes := filterVolumesUnderBoshMounts boshMs expanded in
        Ret (Ok (addMounts (userProvidedIdentityMounts filteredVolumes) ms)))
      else Ret (Ok ms)
  | None => Ret (Ok ms)
  end.

(** An error of [cgroupsPathFor] leaves the cgroup path unset. *)
Definition add_cgroups_path (a : RuncAdapter) (bpmCfg : BPMConfig) (spec : Spec)
    : prog (result Spec) :=
  match a_cgroupsPathFor a with
  | None => Ret (Ok spec)
  | Some f =>
      r ← f (ContainerID bpmCfg);
      match r with
      | Ok cgroupsPath => Ret (Ok (Apply spec [WithCgroupsPath cgroupsPath]))
      | Err _ => Ret (Ok spec)
      end
  end.

Definition BuildSpec (a : RuncAdapter) (bpmCfg : BPMConfig) (procCfg : ProcessConfig)
    (user : User) : prog (result Spec) :=
  try_or (checkDirExists resolvConfDir) id (λ resolvConfDirExists,
  try_or (checkDirExists systemdResolvedConfDir) id (λ systemdResolvedConfDirExists,
  let sysMounts := systemIdentityMounts
    ++ (if resolvConfDirExists then [IdentityMount resolvConfDir []] else [])
    ++ (if systemdResolvedConfDirExists then [IdentityMount systemdResolvedConfDir []] else []) in
  let boshMs := boshMounts bpmCfg (pc_ephemeralDisk procCfg) (pc_persistentDisk procCfg) in
  let ms := addMounts sysMounts newMountDedup in
  let ms := addMounts boshMs ms in
  let ms := addMounts (userProvidedIdentityMounts (pc_additionalVolumes procCfg)) ms in
  try_or (add_unrestricted a procCfg boshMs ms) id (λ ms,
  let spec := base_spec bpmCfg procCfg user ms in
  try_or (Ret (apply_limits (a_features a) (pc_limits procCfg) spec)) id (λ spec,
  add_cgroups_path a bpmCfg (apply_unsafe (a_features a) procCfg spec))))).
End build.

(** ** Specification *)

(** A bind mount on which set-user-ID bits and device files are inert. *)
Definition bind_mount_safe (m : Mount) : Prop :=
  m_type m = "bind" ∧ "nosuid" ∈ m_options m ∧ "nodev" ∈ m_options m
  ∧ NoDup (m_options m).

Definition mount_writable (m : Mount) : Prop := "rw" ∈ m_options m.

(** Along the trace the pattern of a volume was expanded, and the path is a match. *)
Definition globbed (a : RuncAdapter) (tr : list event) (v0 : Volume) (p : string) : Prop :=
  ∃ t1 t2 t3 ms, tr = t1 ++ t2 ++ t3
    ∧ exec_trace (a_glob a (v_path v0)) t2 (FVal (Ok ms)) ∧ p ∈ ms.

(** The ways a mount can be allowed to be writable: it is one of bpm's own
    mounts; the configuration has a writable additional volume at its
    destination; or its destination is a match of the pattern of a writable
    unrestricted volume and does not lie at or below one of bpm's own mounts. *)
Definition writable_by (a : RuncAdapter) (tr : list event) (bpmCfg : BPMConfig)
    (procCfg : ProcessConfig) (m : Mount) : Prop :=
  let boshMs := boshMounts bpmCfg (pc_ephemeralDisk procCfg) (pc_persistentDisk procCfg) in
  m ∈ boshMs
  ∨ (∃ v, v ∈ pc_additionalVolumes procCfg ∧ v_writable v = true
       ∧ m_destination m = v_path v)
  ∨ (∃ v u v0, m_destination m = v_path v ∧ existsb (λ b, under_mount b v) boshMs = false
       ∧ pc_unsafe procCfg = Some u ∧ v0 ∈ UnrestrictedVolumes u
       ∧ v_writable v0 = true ∧ globbed a tr v0 (m_destination m)).

(** The variables bpm sets when the configuration does not. *)
Definition default_env (cfg : BPMConfig) : gmap string string :=
  <["TMPDIR" := Internal (TempDir cfg)]> (
  <["LANG" := defaultLang]> (
  <["PATH" := defaultPath cfg]> {["HOME" := Internal (BPMConfig_DataDir cfg)]})).

(** [p] is the path of a directory [CreateJobPrerequisites] hands to the user:
    a directory of the job or a volume that is not mount-only. *)
Definition owned_path (bpmCfg : BPMConfig) (procCfg : ProcessConfig) (p : string) : Prop :=
  p ∈ [External (BPMConfig_LogDir bpmCfg); External (SocketDir bpmCfg);
       External (TempDir bpmCfg)]
  ∨ (pc_ephemeralDisk procCfg = true ∧ p = External (BPMConfig_DataDir bpmCfg))
  ∨ (pc_persistentDisk procCfg = true ∧ p = External (BPMConfig_StoreDir bpmCfg))
  ∨ ∃ v, v ∈ pc_additionalVolumes procCfg ∧ v_mountOnly v = false ∧ v_path v = p.

(** [p] is the path of an additional volume the configuration shares. *)
Definition shared_path (procCfg : ProcessConfig) (p : string) : Prop :=
  ∃ v, v ∈ pc_additionalVolumes procCfg ∧ v_shared v = true ∧ v_path v = p.

(** The calls [CreateJobPrerequisites] may make; [lockPath] names the lock files
    of volumes. *)
Definition prereq_event (lockPath : string → string) (bpmCfg : BPMConfig)
    (procCfg : ProcessConfig) (user : User) (e : event) : Prop :=
  match e with
  | Ev c _ =>
      match c with
      | MkdirAll p mode => mode = mode_0700 ∧
          (p = External (PidDir bpmCfg) ∨ owned_path bpmCfg procCfg p)
      | Chown p uid gid => uid = u_uid user ∧ gid = u_gid user
          ∧ owned_path bpmCfg procCfg p
      | Chmod p mode => mode = mode_0700 ∧
          ∃ v, v ∈ pc_additionalVolumes procCfg ∧ v_mountOnly v = false ∧ v_path v = p
      | OpenFile p flags mode => mode = mode_0600 ∧
          (Z.testbit flags 17 = true
             ∧ p ∈ [External (Config_Stdout bpmCfg); External (Config_Stderr bpmCfg)]
           ∨ ∃ q, shared_path procCfg q ∧ p = lockPath q)
      | FileChown _ uid gid => uid = u_uid user ∧ gid = u_gid user
      | Mounted p | MountCall _ p _ _ _ | Unmount p _ => shared_path procCfg p
      | Stat _ | FileClose _ | Flock _ _ => True
      | _ => False
      end
  end.

(** ** Lemmas: the environment of the process *)

Definition insert_default (k v : string) (m : gmap string string) : gmap string string :=
  match m !! k with Some _ => m | None => <[k := v]> m end.

Lemma insert_default_union k v m : insert_default k v m = m ∪ {[k := v]}.
Proof.
  unfold insert_default. apply map_eq. intros i.
  destruct (m !! k) eqn:E; rewrite lookup_union, lookup_singleton; case_decide; subst;
    rewrite ?E, ?lookup_insert; try case_decide; try done;
    destruct (m !! i); done.
Qed.

Lemma insert_default_list k v m :
  format_var <$> map_to_list (insert_default k v m) ≡ₚ
  (format_var <$> map_to_list m)
  ++ match m !! k with Some _ => [] | None => [k +:+ "=" +:+ v] end.
Proof.
  unfold insert_default. destruct (m !! k) eqn:E.
  - by rewrite (right_id_L [] (++)).
  - rewrite map_to_list_insert by done. rewrite fmap_cons.
    by rewrite (comm (++)).
Qed.

Lemma insert_default_lookup_ne k k' v m :
  k ≠ k' → insert_default k v m !! k' = m !! k'.
Proof.
  intros Hne. unfold insert_default. destruct (m !! k); [done|]. by rewrite lookup_insert_ne.
Qed.

Lemma processEnvironment_perm `{MapRange} env cfg :
  processEnvironment env cfg ≡ₚ format_var <$> map_to_list (env ∪ default_env cfg).
Proof.
  assert (env ∪ default_env cfg =
    insert_default "HOME" (Internal (BPMConfig_DataDir cfg))
     (insert_default "PATH" (defaultPath cfg)
      (insert_default "LANG" defaultLang
       (insert_default "TMPDIR" (Internal (TempDir cfg)) env)))) as ->.
  { rewrite !insert_default_union, <- !(assoc_L (∪)). by f_equal. }
  rewrite !insert_default_list.
  rewrite !insert_default_lookup_ne by done.
  unfold processEnvironment. rewrite map_range_perm.
  by rewrite <- !(assoc_L (++)).
Qed.

(** ** Lemmas: mounts *)

Lemma system_mounts_safe : Forall bind_mount_safe systemIdentityMounts.
Proof. repeat constructor; simpl; set_solver. Qed.

Lemma bosh_mounts_safe c d s : Forall bind_mount_safe (boshMounts c d s).
Proof.
  unfold boshMounts. rewrite !Forall_app.
  destruct d, s; split_and!; repeat constructor; simpl; set_solver.
Qed.

Lemma volume_mounts_safe vols : Forall bind_mount_safe (userProvidedIdentityMounts vols).
Proof.
  unfold userProvidedIdentityMounts. apply Forall_fmap, Forall_true.
  intros [p [] [] mo sh]; repeat constructor; simpl; set_solver.
Qed.

Lemma system_mounts_readonly m : m ∈ systemIdentityMounts → ¬ mount_writable m.
Proof.
  assert (Forall (λ m, "rw" ∉ m_options m) systemIdentityMounts) as HF
    by by apply (bool_decide_unpack _); vm_compute.
  rewrite Forall_forall in HF. apply HF.
Qed.

Lemma volume_mount_writable v :
  mount_writable (IdentityMount (v_path v) (volume_mount_options v)) → v_writable v = true.
Proof. destruct v as [p [] [] mo sh]; unfold mount_writable; simpl; set_solver. Qed.

Lemma first_mount_elem dst ms m : first_mount dst ms = Some m → m ∈ ms ∧ m_destination m = dst.
Proof.
  unfold first_mount. intros H. apply List.find_some in H as [Hin Hd].
  apply bool_decide_eq_true in Hd. by rewrite list_elem_of_In.
Qed.

Lemma first_mount_app dst ms1 ms2 m :
  first_mount dst ms1 = Some m → first_mount dst (ms1 ++ ms2) = Some m.
Proof.
  unfold first_mount. induction ms1 as [|x ms1 IH]; simpl; [done|].
  by destruct (bool_decide (m_destination x = dst)).
Qed.

Lemma first_mount_extra dst ms1 extra ms2 m :
  extra ⊆ [IdentityMount resolvConfDir []; IdentityMount systemdResolvedConfDir []] →
  dst ∉ [resolvConfDir; systemdResolvedConfDir] →
  first_mount dst (ms1 ++ ms2) = Some m → first_mount dst ((ms1 ++ extra) ++ ms2) = Some m.
Proof.
  intros Hextra Hd. unfold first_mount. induction ms1 as [|x ms1 IH]; simpl.
  - intros Hm. induction extra as [|e extra IHe]; simpl; [done|].
    rewrite bool_decide_eq_false_2; [apply IHe; set_solver|].
    assert (e ∈ [IdentityMount resolvConfDir []; IdentityMount systemdResolvedConfDir []])
      as He by (apply Hextra; left).
    intros <-. apply Hd.
    apply elem_of_cons in He as [->|He%list_elem_of_singleton]; [left|subst e; right; left].
  - by destruct (bool_decide (m_destination x = dst)).
Qed.

Lemma under_mount_spec m v :
  under_mount m v = true ↔
  ∃ rest, Split slash (v_path v) = Split slash (m_destination m) ++ rest.
Proof.
  unfold under_mount. rewrite andb_true_iff, bool_decide_eq_true, Nat.leb_le. split.
  - intros [Hlen Heq]. exists (List.skipn (length (Split slash (m_destination m)))
      (Split slash (v_path v))).
    etrans; [symmetry; apply (take_drop (length (Split slash (m_destination m))))|].
    by rewrite <- Heq.
  - intros [rest Hr]. rewrite Hr, length_app, take_app_length. split; [lia|done].
Qed.

(** ** Lemmas: BuildSpec *)

(** Everything in a specification but its resource limits. *)
Definition limits_free (s : Spec) :=
  (s_version s, s_root s, s_mounts s,
   (sp_user (s_process s), sp_args (s_process s), sp_env (s_process s), sp_cwd (s_process s),
    sp_capabilities (s_process s), sp_noNewPrivileges (s_process s)),
   (li_maskedPaths (s_linux s), li_readonlyPaths (s_linux s),
    li_rootfsPropagation (s_linux s), li_seccomp (s_linux s), li_namespaces (s_linux s),
    li_cgroupsPath (s_linux s))).

Lemma limits_free_eq s s' :
  limits_free s = limits_free s' →
  s_root s = s_root s' ∧ s_mounts s = s_mounts s'
  ∧ sp_user (s_process s) = sp_user (s_process s')
  ∧ sp_args (s_process s) = sp_args (s_process s')
  ∧ sp_env (s_process s) = sp_env (s_process s')
  ∧ sp_cwd (s_process s) = sp_cwd (s_process s')
  ∧ sp_capabilities (s_process s) = sp_capabilities (s_process s')
  ∧ sp_noNewPrivileges (s_process s) = sp_noNewPrivileges (s_process s')
  ∧ li_maskedPaths (s_linux s) = li_maskedPaths (s_linux s')
  ∧ li_readonlyPaths (s_linux s) = li_readonlyPaths (s_linux s')
  ∧ li_rootfsPropagation (s_linux s) = li_rootfsPropagation (s_linux s')
  ∧ li_seccomp (s_linux s) = li_seccomp (s_linux s')
  ∧ li_namespaces (s_linux s) = li_namespaces (s_linux s')
  ∧ li_cgroupsPath (s_linux s) = li_cgroupsPath (s_linux s').
Proof. unfold limits_free. intros H. injection H. intros. by split_and!. Qed.

(** The limits in a specification. *)
Definition spec_limits (s : Spec) :=
  (res_memory (li_resources (s_linux s)), res_pids (li_resources (s_linux s)),
   sp_rlimits (s_process s)).

(** The limits a configuration asks for; [mem] is its memory limit in bytes. *)
Definition wanted_limits (features : Features) (limits : option Limits) (mem : Z) :=
  match limits with
  | None => (None, None, [])
  | Some l =>
      ((λ _, let n := int64_of_uint64 mem in
             mkMemory (Some n) (if SwapLimitSupported features then Some n else None))
         <$> l_memory l,
       l_processes l,
       match l_openFiles l with Some n => [mkRlimit "RLIMIT_NOFILE" n n] | None => [] end
       ++ match l_coreFileSize l with Some n => [mkRlimit "RLIMIT_CORE" n n] | None => [] end)
  end.

Section build_lemmas.
Context `{MapRange, SortSlice} (ToBytes : string → result Z).

Lemma apply_limits_frame features limits s s' :
  apply_limits ToBytes features limits s = Ok s' → limits_free s' = limits_free s.
Proof.
  destruct limits as [[mem files procs core]|]; simpl; [|by intros [= <-]].
  destruct mem as [m|]; simpl; [destruct (ToBytes m); simpl; [|done]|];
    destruct files, procs, core; by intros [= <-].
Qed.

Lemma apply_limits_limits features limits s s' :
  spec_limits s = (None, None, []) →
  apply_limits ToBytes features limits s = Ok s' →
  ∃ mem, spec_limits s' = wanted_limits features limits mem
    ∧ (∀ l m, limits = Some l → l_memory l = Some m → ToBytes m = Ok mem).
Proof.
  unfold spec_limits. intros Hs.
  destruct limits as [[mem files procs core]|]; simpl.
  2:{ intros [= <-]. exists 0%Z. split; [done|]. by intros ?? [=]. }
  destruct mem as [m|]; simpl.
  - destruct (ToBytes m) as [n|] eqn:Hm; simpl; [|done]. intros Hok. exists n.
    split; [|naive_solver]. injection Hs as H1 H2 H3.
    destruct files, procs, core; injection Hok as <-; simpl; by rewrite ?H2, ?H3.
  - intros Hok. exists 0%Z. split; [|naive_solver]. injection Hs as H1 H2 H3.
    destruct files, procs, core; injection Hok as <-; simpl; by rewrite ?H1, ?H2, ?H3.
Qed.

Lemma base_spec_limits bpmCfg procCfg user ms :
  spec_limits (base_spec bpmCfg procCfg user ms) = (None, None, []).
Proof. done. Qed.

Lemma apply_unsafe_cgroup features procCfg s :
  li_cgroupsPath (s_linux (apply_unsafe features procCfg s)) = li_cgroupsPath (s_linux s).
Proof.
  unfold apply_unsafe. by destruct (unsafe_flag HostPidNamespace procCfg),
    (SeccompSupported features), (unsafe_flag Privileged procCfg).
Qed.

Lemma optional_pair_subseteq {A} (b1 b2 : bool) (x y : A) :
  (if b1 then [x] else []) ++ (if b2 then [y] else []) ⊆ [x; y].
Proof. destruct b1, b2; set_solver. Qed.

(** A volume that an unrestricted one was expanded to: a match of its pattern, with its
    flags. *)
Definition expanded_from (a : RuncAdapter) (tr : list event) (v0 v : Volume) : Prop :=
  globbed a tr v0 (v_path v) ∧ v_writable v0 = v_writable v
  ∧ v_allowExecutions v0 = v_allowExecutions v.

(** The mounts added from the unrestricted volumes. *)
Definition unrestricted_from (a : RuncAdapter) (tr : list event) (procCfg : ProcessConfig)
    (boshMs : list Mount) (vols : list Volume) : Prop :=
  Forall (λ v, existsb (λ m, under_mount m v) boshMs = false
    ∧ ∃ u v0, pc_unsafe procCfg = Some u ∧ v0 ∈ UnrestrictedVolumes u
        ∧ expanded_from a tr v0 v) vols.

Lemma globbed_app a t1 t2 t3 v0 p : globbed a t2 v0 p → globbed a (t1 ++ t2 ++ t3) v0 p.
Proof.
  intros (u1 & u2 & u3 & ms & -> & Hg & Hp). exists (t1 ++ u1), u2, (u3 ++ t3), ms.
  by rewrite <- !(assoc_L (++)).
Qed.

Lemma unrestricted_from_app a t1 t2 t3 procCfg boshMs vols :
  unrestricted_from a t2 procCfg boshMs vols →
  unrestricted_from a (t1 ++ t2 ++ t3) procCfg boshMs vols.
Proof.
  intros Hv. eapply Forall_impl; [exact Hv|]. intros v (Hb & u & v0 & Hu & Hin & Hg & Hf).
  split; [done|]. exists u, v0. split_and!; [done..|]. by split; [apply globbed_app|].
Qed.

Lemma glob_expand_from a us volumes expanded tr0 tr vols :
  volumes ⊆ us →
  Forall (λ v, ∃ v0, v0 ∈ us ∧ expanded_from a tr0 v0 v) expanded →
  exec_trace (glob_expand a volumes expanded) tr (FVal (Ok vols)) →
  Forall (λ v, ∃ v0, v0 ∈ us ∧ expanded_from a (tr0 ++ tr) v0 v) vols.
Proof.
  revert expanded tr0 tr. induction volumes as [|v0 volumes IH]; intros expanded tr0 tr Hsub HF Htr.
  - cbn [glob_expand] in Htr. trace_step. simplify_eq. by rewrite (right_id_L [] (++)).
  - cbn [glob_expand] in Htr. apply trace_try_or_Ok in Htr as (ms & t1 & t2 & -> & Hg & Htr).
    rewrite (assoc_L (++)). apply (IH _ (tr0 ++ t1)) in Htr; [done|set_solver|].
    apply Forall_app. split.
    + eapply Forall_impl; [exact HF|]. intros v (v1 & Hv1 & Hgl & Hfl). exists v1.
      split_and!; [done|]. split; [by apply (globbed_app a [])|done].
    + apply Forall_fmap, Forall_forall. intros p Hp. exists v0. split; [set_solver|].
      split; [|done]. exists tr0, t1, [], ms. by rewrite (right_id_L [] (++)).
Qed.

Lemma add_unrestricted_Ok a procCfg boshMs ms tr ms' :
  exec_trace (add_unrestricted a procCfg boshMs ms) tr (FVal (Ok ms')) →
  ∃ vols, unrestricted_from a tr procCfg boshMs vols
    ∧ ms' = addMounts (userProvidedIdentityMounts vols) ms.
Proof.
  unfold add_unrestricted. intros Htr. destruct (pc_unsafe procCfg) as [u|] eqn:Hu.
  2:{ trace_step. exists []. split; [constructor|naive_solver]. }
  destruct (0 <? length (UnrestrictedVolumes u)).
  2:{ trace_step. exists []. split; [constructor|naive_solver]. }
  apply trace_try_or_Ok in Htr as (exp & t9 & t10 & -> & Hglob & Hms).
  trace_step. simplify_eq. eexists. split; [|reflexivity].
  apply (glob_expand_from a (UnrestrictedVolumes u) _ _ []) in Hglob; [|done|constructor].
  rewrite (right_id_L [] (++)). unfold filterVolumesUnderBoshMounts, unrestricted_from.
  rewrite Forall_forall in Hglob |- *. intros v Hv.
  apply list_elem_of_filter in Hv as [Hf Hv]. split; [done|].
  destruct (Hglob v Hv) as (v0 & ? & ?). eauto 10.
Qed.

Lemma WithCgroupsPath_id s :
  li_cgroupsPath (s_linux s) = "" → Apply s [WithCgroupsPath ""] = s.
Proof. destruct s as [v p r m []]. simpl. by intros ->. Qed.

Lemma add_cgroups_path_Ok a bpmCfg spec tr spec' :
  li_cgroupsPath (s_linux spec) = "" →
  exec_trace (add_cgroups_path a bpmCfg spec) tr (FVal (Ok spec')) →
  ∃ cgroup, spec' = Apply spec [WithCgroupsPath cgroup].
Proof.
  intros Hcg Htr. unfold add_cgroups_path in Htr.
  assert (spec' = spec → ∃ cgroup, spec' = Apply spec [WithCgroupsPath cgroup]) as Hid.
  { intros ->. exists "". by rewrite WithCgroupsPath_id. }
  destruct (a_cgroupsPathFor a) as [f|].
  2:{ trace_step. apply Hid. congruence. }
  apply trace_bind_FVal in Htr as ([p|e] & t9 & t10 & -> & _ & Htr); trace_step.
  - exists p. congruence.
  - apply Hid. congruence.
Qed.

(** What a successful [BuildSpec] returns: the specification built from the
    mounts of the system, of bpm, of the additional volumes and of the
    unrestricted volumes outside bpm's own directories, in this order of
    priority, with the limits and the unsafe options applied. *)
Lemma BuildSpec_Ok a bpmCfg procCfg user tr spec :
  exec_trace (BuildSpec ToBytes a bpmCfg procCfg user) tr (FVal (Ok spec)) →
  ∃ extra vols spec1 cgroup,
    let boshMs := boshMounts bpmCfg (pc_ephemeralDisk procCfg) (pc_persistentDisk procCfg) in
    extra ⊆ [IdentityMount resolvConfDir []; IdentityMount systemdResolvedConfDir []]
    ∧ unrestricted_from a tr procCfg boshMs vols
    ∧ apply_limits ToBytes (a_features a) (pc_limits procCfg)
        (base_spec bpmCfg procCfg user
          (addMounts (userProvidedIdentityMounts vols)
            (addMounts (userProvidedIdentityMounts (pc_additionalVolumes procCfg))
              (addMounts boshMs
                (addMounts (systemIdentityMounts ++ extra) newMountDedup))))) = Ok spec1
    ∧ spec = Apply (apply_unsafe (a_features a) procCfg spec1) [WithCgroupsPath cgroup].
Proof.
  unfold BuildSpec. intros Htr.
  apply trace_try_or_Ok in Htr as (b1 & t1 & t2 & -> & _ & Htr).
  apply trace_try_or_Ok in Htr as (b2 & t3 & t4 & -> & _ & Htr).
  apply trace_try_or_Ok in Htr as (ms & t5 & t6 & -> & Hms & Htr).
  apply trace_try_or_Ok in Htr as (spec1 & t7 & t8 & -> & Hl & Htr).
  apply exec_trace_Ret in Hl as [_ Hl]. injection Hl as Hl. symmetry in Hl.
  apply add_unrestricted_Ok in Hms as (vols & Hvols & Hms). rewrite Hms in Hl.
  pose proof (apply_limits_frame _ _ _ _ Hl) as Hfr.
  apply limits_free_eq in Hfr as (_&_&_&_&_&_&_&_&_&_&_&_&_&Hcg).
  apply add_cgroups_path_Ok in Htr as [cgroup Hspec].
  2:{ rewrite apply_unsafe_cgroup. exact Hcg. }
  eexists _, vols, spec1, cgroup.
  split; [apply (optional_pair_subseteq b1 b2)|].
  split; [rewrite (assoc_L (++)); by apply unrestricted_from_app|].
  split; [exact Hl|exact Hspec].
Qed.
End build_lemmas.

Section prepare.
Context (handle : Handle) (a : RuncAdapter).
Context (Hlocker : a_locker a = LockVolume handle).
Context (Hshare : a_shareMount a = MakeShared).
Context (bpmCfg : BPMConfig) (procCfg : ProcessConfig) (user : User).
Abbreviation P := (prereq_event (volume_lock_path handle) bpmCfg procCfg user).

Lemma LockVolume_wp p :
  shared_path procCfg p → wp P (okP (λ fl, fl_locked fl = true)) (LockVolume handle p).
Proof.
  intros Hp. unfold LockVolume, lock_file, Flock_New. simpl. intros r. split.
  { split; [done|]. right. by exists p. }
  destruct r as [fd|e]; simpl; [|done]. intros [e|]; by split.
Qed.

Lemma MakeShared_wp p : shared_path procCfg p → wp P (λ _, True) (MakeShared p).
Proof.
  intros Hp. unfold MakeShared, try_err. eapply wp_bind.
  { apply (wp_call P (λ _, True)). intros r. by split. }
  intros [m|e] _; [|done]. apply wp_check_err.
  { destruct (negb m); [|done]. apply wp_call. intros r. by split. }
  eapply wp_bind; [apply (wp_call P (λ _, True)); intros r; by split|].
  intros [e|] _; [|done]. destruct (negb m); [|done]. simpl. intros r. by split.
Qed.

Lemma makeShared_wp v :
  v ∈ pc_additionalVolumes procCfg → v_shared v = true →
  wp P (λ _, True) (makeShared a v).
Proof.
  intros Hv Hs. assert (shared_path procCfg (v_path v)) as Hp by by exists v.
  unfold makeShared. rewrite Hlocker, Hshare.
  eapply wp_bind; [by apply LockVolume_wp|]. intros [fl|e] Hfl; [|done].
  apply wp_defer; [by apply MakeShared_wp|]. unfold Flock_Unlock.
  simpl in Hfl. rewrite Hfl. simpl. intros [e|]; by split_and!.
Qed.

Lemma createDirs_wp dirs :
  Forall (owned_path bpmCfg procCfg) dirs → wp P (λ _, True) (createDirs dirs user).
Proof.
  induction 1 as [|d dirs Hd HF IH]; [done|]. cbn [createDirs].
  apply wp_check_err; [|exact IH].
  unfold createDirFor. apply wp_check_err.
  - apply (wp_call P (λ _, True)). intros r. split; [|exact I]. simpl. auto.
  - apply (wp_call P (λ _, True)). intros r. split; [|exact I]. simpl. auto.
Qed.

Lemma chownPaths_wp paths :
  Forall (owned_path bpmCfg procCfg) paths → wp P (λ _, True) (chownPaths paths user).
Proof.
  induction 1 as [|d paths Hd HF IH]; [done|]. cbn [chownPaths].
  apply wp_check_err; [|exact IH]. apply wp_call. intros r. by split_and!.
Qed.

Lemma close_all_wp fds : wp P (λ _, True) (close_all fds).
Proof. induction fds as [|fd fds IH]; [done|]. simpl. by split. Qed.

Lemma OpenAppendChown_wp path :
  path ∈ [External (Config_Stdout bpmCfg); External (Config_Stderr bpmCfg)] →
  wp P (λ _, True) (OpenAppendChown path (u_uid user) (u_gid user) mode_0600).
Proof.
  intros Hp. unfold OpenAppendChown. eapply wp_bind.
  { apply (wp_call P (λ _, True)). intros r. split; [|done]. split; [done|]. by left. }
  intros [fd|e] _; [|by destruct (errors_Is e ELOOP)].
  eapply wp_bind; [apply (wp_call P (λ _, True)); intros r; by split_and!|].
  intros [e|] _; [|done]. simpl. by split.
Qed.

Lemma open_log_files_wp paths files :
  paths ⊆ [External (Config_Stdout bpmCfg); External (Config_Stderr bpmCfg)] →
  wp P (okP (λ fs, length fs = length files + length paths))
    (open_log_files paths user files).
Proof.
  revert files. induction paths as [|p paths IH]; intros files Hsub; cbn [open_log_files].
  { simpl. lia. }
  eapply wp_bind; [apply OpenAppendChown_wp, Hsub; left|]. intros [fd|e] _.
  - assert (paths ⊆ [External (Config_Stdout bpmCfg); External (Config_Stderr bpmCfg)])
      as Hsub' by (intros x Hx; apply Hsub; by right).
    eapply wp_mono; [done| |by apply IH]. intros [fs|e]; simpl; [|done].
    rewrite length_app. simpl. lia.
  - eapply wp_bind; [apply close_all_wp|]. done.
Qed.

Lemma createLogFiles_wp : wp P (okP (λ _, True)) (createLogFiles bpmCfg user).
Proof.
  eapply wp_try_or; [by apply open_log_files_wp|]. intros fs Hfs. simpl in Hfs.
  by destruct fs as [|f0 [|f1 [|]]].
Qed.

Lemma prepare_volumes_wp vols dirs chowns :
  vols ⊆ pc_additionalVolumes procCfg →
  Forall (owned_path bpmCfg procCfg) dirs → Forall (owned_path bpmCfg procCfg) chowns →
  wp P (okP (λ r, Forall (owned_path bpmCfg procCfg) r.1
                  ∧ Forall (owned_path bpmCfg procCfg) r.2))
    (prepare_volumes a vols dirs chowns).
Proof.
  revert dirs chowns. induction vols as [|v vols IH]; intros dirs chowns Hsub Hd Hc; [done|].
  cbn [prepare_volumes]. apply wp_check_or.
  { destruct (v_shared v) eqn:Hs; [|done].
    apply makeShared_wp; [apply Hsub; left|done]. }
  assert (vols ⊆ pc_additionalVolumes procCfg) as Hsub' by set_solver.
  destruct (v_mountOnly v) eqn:Hmo; [by apply IH|].
  assert (owned_path bpmCfg procCfg (v_path v)) as Hv.
  { right; right; right. exists v. split_and!; [set_solver|done|done]. }
  assert (∀ l, Forall (owned_path bpmCfg procCfg) l →
    Forall (owned_path bpmCfg procCfg) (l ++ [v_path v])) as Happ.
  { intros l Hl. apply Forall_app. split; [done|]. by apply Forall_singleton. }
  eapply wp_bind; [apply (wp_call P (λ _, True)); intros r; by split|]. intros [fi|e] _.
  - apply wp_check_or; [|by apply IH; auto].
    destruct (_ && _); [|done]. apply wp_call. intros r. split; [|done].
    split; [done|]. exists v. split_and!; [set_solver|done|done].
  - destruct (os_IsNotExist e); [|done]. apply IH; auto.
Qed.

Lemma checkDirExists_wp dir : wp P (okP (λ _, True)) (checkDirExists dir).
Proof.
  unfold checkDirExists. simpl. intros r. split; [done|].
  destruct r as [fi|e]; [done|]. by destruct (os_IsNotExist e).
Qed.

Lemma CreateJobPrerequisites_wp :
  wp P (okP (λ _, True)) (CreateJobPrerequisites a bpmCfg procCfg user).
Proof.
  unfold CreateJobPrerequisites. apply wp_check_or.
  { apply wp_call. intros r. split; [|done]. simpl. auto. }
  eapply wp_try_or; [by apply prepare_volumes_wp|].
  intros [dirs chowns] [Hdirs Hchowns]. simpl in Hdirs, Hchowns.
  assert (Forall (owned_path bpmCfg procCfg) (dirs ++ [External (BPMConfig_LogDir bpmCfg);
    External (SocketDir bpmCfg); External (TempDir bpmCfg)])) as H1.
  { apply Forall_app. split; [done|]. repeat constructor; left; set_solver. }
  eapply (wp_try_or _ (Forall (owned_path bpmCfg procCfg))).
  - assert (Forall (owned_path bpmCfg procCfg)
      (if pc_ephemeralDisk procCfg
       then (dirs ++ [External (BPMConfig_LogDir bpmCfg); External (SocketDir bpmCfg);
              External (TempDir bpmCfg)]) ++ [External (BPMConfig_DataDir bpmCfg)]
       else dirs ++ [External (BPMConfig_LogDir bpmCfg); External (SocketDir bpmCfg);
              External (TempDir bpmCfg)])) as H2.
    { destruct (pc_ephemeralDisk procCfg) eqn:He; [|done].
      apply Forall_app. split; [done|]. apply Forall_singleton. right; left. done. }
    destruct (pc_persistentDisk procCfg) eqn:Hp; [|exact H2].
    eapply wp_try_or; [apply checkDirExists_wp|]. intros [] _; [|done].
    apply Forall_app. split; [done|]. apply Forall_singleton. right; right; left. done.
  - intros ds Hds. apply wp_check_or; [by apply createDirs_wp|].
    apply wp_check_or; [by apply chownPaths_wp|]. apply createLogFiles_wp.
Qed.
End prepare.

(** ** Lemmas: the finished specification *)

Section finished.
Context `{MapRange, SortSlice} (ToBytes : string → result Z).

Lemma base_spec_fields bpmCfg procCfg user ms :
  let s := base_spec bpmCfg procCfg user ms in
  s_root s = Some (RootFSPath bpmCfg)
  ∧ s_mounts s = s_mounts DefaultSpec ++ mounts ms
  ∧ sp_user (s_process s) = user
  ∧ sp_args (s_process s) =
      Internal (TiniPath bpmCfg) :: ["-w"; "-s"; "--"; pc_executable procCfg] ++ pc_args procCfg
  ∧ sp_env (s_process s) = processEnvironment (default ∅ (pc_env procCfg)) bpmCfg
  ∧ sp_cwd (s_process s) = (if decide (pc_workDir procCfg ≠ "") then pc_workDir procCfg
                            else Internal (BPMConfig_JobDir bpmCfg))
  ∧ caps_exactly (processCapabilities (pc_capabilities procCfg)) s
  ∧ sp_noNewPrivileges (s_process s) = true
  ∧ li_maskedPaths (s_linux s) = li_maskedPaths (s_linux DefaultSpec)
  ∧ li_readonlyPaths (s_linux s) = li_readonlyPaths (s_linux DefaultSpec)
  ∧ li_rootfsPropagation (s_linux s) = "private"
  ∧ li_seccomp (s_linux s) = Some DefaultSeccomp
  ∧ li_namespaces (s_linux s) = ["ipc"; "mount"; "uts"].
Proof. split_and!; reflexivity. Qed.

(** The namespaces of a container. *)
Definition wanted_namespaces (procCfg : ProcessConfig) : list string :=
  ["ipc"; "mount"; "uts"]
  ++ (if unsafe_flag HostPidNamespace procCfg then [] else ["pid"]).

Lemma apply_unsafe_unprivileged features procCfg s :
  unsafe_flag Privileged procCfg = false →
  let s' := apply_unsafe features procCfg s in
  s_process s' = s_process s ∧ s_root s' = s_root s ∧ s_mounts s' = s_mounts s
  ∧ li_maskedPaths (s_linux s') = li_maskedPaths (s_linux s)
  ∧ li_readonlyPaths (s_linux s') = li_readonlyPaths (s_linux s)
  ∧ li_rootfsPropagation (s_linux s') = li_rootfsPropagation (s_linux s)
  ∧ li_resources (s_linux s') = li_resources (s_linux s)
  ∧ li_seccomp (s_linux s') =
      (if SeccompSupported features then li_seccomp (s_linux s) else None)
  ∧ li_namespaces (s_linux s') = li_namespaces (s_linux s)
      ++ (if unsafe_flag HostPidNamespace procCfg then [] else ["pid"]).
Proof.
  intros Hp. unfold apply_unsafe. rewrite Hp.
  destruct (unsafe_flag HostPidNamespace procCfg), (SeccompSupported features);
    simpl; rewrite ?(right_id_L [] (++)); by split_and!.
Qed.

Lemma apply_unsafe_privileged features procCfg s :
  unsafe_flag Privileged procCfg = true →
  let s' := apply_unsafe features procCfg s in
  let c := sp_capabilities (s_process s) in
  let d := DefaultPrivilegedCapabilities in
  s_process s' = mkSpecProcess RootUser (sp_args (s_process s)) (sp_env (s_process s))
    (sp_cwd (s_process s))
    (mkCaps (Ambient c ++ d) (Bounding c ++ d) (Effective c) (Inheritable c ++ d)
       (Permitted c ++ d)) (sp_rlimits (s_process s)) false
  ∧ s_mounts s' = (λ m, mkMount (m_destination m) (m_type m) (m_source m)
      (removeNosuidMountOption (m_options m))) <$> s_mounts s
  ∧ li_maskedPaths (s_linux s') = [] ∧ li_readonlyPaths (s_linux s') = []
  ∧ li_seccomp (s_linux s') = None
  ∧ li_resources (s_linux s') = li_resources (s_linux s)
  ∧ li_namespaces (s_linux s') = li_namespaces (s_linux s)
      ++ (if unsafe_flag HostPidNamespace procCfg then [] else ["pid"]).
Proof.
  intros Hp. unfold apply_unsafe. rewrite Hp. unfold WithPrivileged. cbv zeta.
  generalize DefaultPrivilegedCapabilities. intros d.
  destruct (unsafe_flag HostPidNamespace procCfg), (SeccompSupported features); simpl;
    rewrite ?(right_id_L [] (++)); by split_and!.
Qed.

Lemma apply_unsafe_limits features procCfg s :
  spec_limits (apply_unsafe features procCfg s) = spec_limits s
  ∧ sp_env (s_process (apply_unsafe features procCfg s)) = sp_env (s_process s)
  ∧ sp_args (s_process (apply_unsafe features procCfg s)) = sp_args (s_process s)
  ∧ sp_cwd (s_process (apply_unsafe features procCfg s)) = sp_cwd (s_process s).
Proof.
  unfold apply_unsafe, WithPrivileged, spec_limits.
  generalize DefaultPrivilegedCapabilities. intros d.
  by destruct (unsafe_flag HostPidNamespace procCfg), (SeccompSupported features),
    (unsafe_flag Privileged procCfg).
Qed.

(** The mounts bpm offers to the container, in order of priority. *)
Definition offered_mounts (bpmCfg : BPMConfig) (procCfg : ProcessConfig)
    (extra : list Mount) (vols : list Volume) : list Mount :=
  (systemIdentityMounts ++ extra)
  ++ boshMounts bpmCfg (pc_ephemeralDisk procCfg) (pc_persistentDisk procCfg)
  ++ userProvidedIdentityMounts (pc_additionalVolumes procCfg)
  ++ userProvidedIdentityMounts vols.

(** [BuildSpec_Ok] with the order of priority as one list and the limits
    resolved. *)
Lemma BuildSpec_shape a bpmCfg procCfg user tr spec :
  exec_trace (BuildSpec ToBytes a bpmCfg procCfg user) tr (FVal (Ok spec)) →
  ∃ extra vols spec1 cgroup mem,
    extra ⊆ [IdentityMount resolvConfDir []; IdentityMount systemdResolvedConfDir []]
    ∧ unrestricted_from a tr procCfg
        (boshMounts bpmCfg (pc_ephemeralDisk procCfg) (pc_persistentDisk procCfg)) vols
    ∧ limits_free spec1 = limits_free (base_spec bpmCfg procCfg user
        (addMounts (offered_mounts bpmCfg procCfg extra vols) newMountDedup))
    ∧ spec_limits spec1 = wanted_limits (a_features a) (pc_limits procCfg) mem
    ∧ (∀ l m, pc_limits procCfg = Some l → l_memory l = Some m → ToBytes m = Ok mem)
    ∧ spec = Apply (apply_unsafe (a_features a) procCfg spec1) [WithCgroupsPath cgroup].
Proof.
  intros (extra & vols & spec1 & cgroup & Hextra & Hvols & Hl & Hspec)%BuildSpec_Ok.
  destruct (apply_limits_limits ToBytes _ _ _ _ (base_spec_limits _ _ _ _) Hl)
    as (mem & Hlim & Hmem).
  apply apply_limits_frame in Hl.
  exists extra, vols, spec1, cgroup, mem. unfold offered_mounts.
  rewrite !addMounts_app in *. by split_and!.
Qed.

Lemma offered_mounts_safe bpmCfg procCfg extra vols :
  extra ⊆ [IdentityMount resolvConfDir []; IdentityMount systemdResolvedConfDir []] →
  Forall bind_mount_safe (offered_mounts bpmCfg procCfg extra vols).
Proof.
  intros Hextra. unfold offered_mounts. rewrite !Forall_app.
  split_and!; [apply system_mounts_safe| |apply bosh_mounts_safe|apply volume_mounts_safe..].
  apply Forall_forall. intros m Hm. apply Hextra in Hm.
  apply elem_of_cons in Hm as [->|Hm%list_elem_of_singleton]; [|subst m];
    repeat constructor; simpl; set_solver.
Qed.

Lemma extra_mounts_readonly extra m :
  extra ⊆ [IdentityMount resolvConfDir []; IdentityMount systemdResolvedConfDir []] →
  m ∈ extra → ¬ mount_writable m.
Proof.
  intros Hs Hm. apply Hs in Hm.
  apply elem_of_cons in Hm as [->|Hm%list_elem_of_singleton]; [|subst m];
    unfold mount_writable; simpl; set_solver.
Qed.

Lemma volume_mount_inv vols m :
  m ∈ userProvidedIdentityMounts vols → mount_writable m →
  ∃ v, v ∈ vols ∧ v_writable v = true ∧ m_destination m = v_path v.
Proof.
  intros (v & -> & Hv)%list_elem_of_fmap Hw. exists v.
  split_and!; [done|by apply volume_mount_writable|done].
Qed.

(** Who may make a mount writable. *)
Lemma offered_mounts_writable a tr bpmCfg procCfg extra vols m :
  extra ⊆ [IdentityMount resolvConfDir []; IdentityMount systemdResolvedConfDir []] →
  unrestricted_from a tr procCfg
    (boshMounts bpmCfg (pc_ephemeralDisk procCfg) (pc_persistentDisk procCfg)) vols →
  m ∈ offered_mounts bpmCfg procCfg extra vols → mount_writable m →
  writable_by a tr bpmCfg procCfg m.
Proof.
  intros Hextra Hvols Hm Hw. unfold offered_mounts in Hm.
  rewrite !elem_of_app in Hm. destruct Hm as [[Hm|Hm]|[Hm|[Hm|Hm]]].
  - by apply system_mounts_readonly in Hm.
  - by apply (extra_mounts_readonly extra) in Hm.
  - by left.
  - right; left. by apply volume_mount_inv.
  - right; right. apply volume_mount_inv in Hm as (v & Hv & Hvw & Hd); [|done].
    unfold unrestricted_from in Hvols. rewrite Forall_forall in Hvols.
    destruct (Hvols v Hv) as (Hu & u & v0 & ? & ? & Hg & Hw0 & _).
    exists v, u, v0. split_and!; [done..|congruence|by rewrite Hd].
Qed.
End finished.

(** ** Properties *)

Section properties.
Context `{MapRange, SortSlice} (ToBytes : string → result Z).

(** C1: confinement: whatever the system answers, the specification
    [BuildSpec] returns for a process that is not privileged runs it as the
    given user, on the root file system of its bundle, under the init process with
    exactly the configured executable and arguments, with no-new-privileges, all
    of the default masked and read-only paths, private mount propagation, the
    default seccomp profile (unless the kernel has no seccomp), exactly the
    configured capabilities and none effective, and its own ipc, mount, uts and
    (unless it asks for the host's) pid namespaces. *)
Theorem build_spec_confined a bpmCfg procCfg user tr spec
  (Hpriv : unsafe_flag Privileged procCfg = false)
  (Htr : exec_trace (BuildSpec ToBytes a bpmCfg procCfg user) tr (FVal (Ok spec))) :
  spec_confined (a_features a) spec
  ∧ caps_exactly (processCapabilities (pc_capabilities procCfg)) spec
  ∧ sp_user (s_process spec) = user
  ∧ s_root spec = Some (RootFSPath bpmCfg)
  ∧ sp_args (s_process spec) =
      Internal (TiniPath bpmCfg) :: ["-w"; "-s"; "--"; pc_executable procCfg] ++ pc_args procCfg
  ∧ li_namespaces (s_linux spec) = wanted_namespaces procCfg.
Proof.
  apply BuildSpec_shape in Htr as (extra & vols & s1 & cgroup & mem & _ & _ & Hfr & _ & _ & ->).
  destruct (base_spec_fields bpmCfg procCfg user
    (addMounts (offered_mounts bpmCfg procCfg extra vols) newMountDedup))
    as (B1&B2&B3&B4&B5&B6&B7&B8&B9&B10&B11&B12&B13).
  apply limits_free_eq in Hfr as (F1&F2&F3&F4&F5&F6&F7&F8&F9&F10&F11&F12&F13&_).
  destruct (apply_unsafe_unprivileged (a_features a) procCfg s1 Hpriv)
    as (U1&U2&U3&U4&U5&U6&U7&U8&U9).
  unfold spec_confined, caps_exactly in *. unfold wanted_namespaces.
  cbn [Apply foldl WithCgroupsPath set_linux s_process s_linux s_root li_seccomp
    li_maskedPaths li_readonlyPaths li_rootfsPropagation li_namespaces].
  rewrite U1, U2, U4, U5, U6, U8, U9. rewrite F1, F3, F4, F7, F8, F9, F10, F11, F12, F13.
  rewrite B1, B3, B4, B7, B8, B9, B10, B11, B12, B13. by split_and!.
Qed.

(** C2: mount policy: the mounts of an unprivileged container are runc's
    defaults followed by bind mounts with pairwise distinct destinations, every
    one of them [nosuid] and [nodev]; one is writable only if it is bpm's own, a
    writable additional volume of the configuration has its destination, or its
    destination matches the pattern of a writable unrestricted volume (and lies
    neither at nor below one of bpm's own mounts); and no volume of the configuration replaces
    a mount of the system's or of bpm's directories. *)
Theorem build_spec_mount_policy a bpmCfg procCfg user tr spec
  (Hpriv : unsafe_flag Privileged procCfg = false)
  (Htr : exec_trace (BuildSpec ToBytes a bpmCfg procCfg user) tr (FVal (Ok spec))) :
  let boshMs := boshMounts bpmCfg (pc_ephemeralDisk procCfg) (pc_persistentDisk procCfg) in
  ∃ ms, s_mounts spec = s_mounts DefaultSpec ++ ms
  ∧ NoDup (m_destination <$> ms)
  ∧ Forall bind_mount_safe ms
  ∧ (∀ m, m ∈ ms → mount_writable m → writable_by a tr bpmCfg procCfg m)
  ∧ (∀ m, m_destination m ∉ [resolvConfDir; systemdResolvedConfDir] →
       first_mount (m_destination m) (systemIdentityMounts ++ boshMs) = Some m → m ∈ ms).
Proof.
  intros boshMs.
  apply BuildSpec_shape in Htr
    as (extra & vols & s1 & cgroup & mem & Hextra & Hvols & Hfr & _ & _ & ->).
  destruct (base_spec_fields bpmCfg procCfg user
    (addMounts (offered_mounts bpmCfg procCfg extra vols) newMountDedup)) as (_&B2&_).
  apply limits_free_eq in Hfr as (_&F2&_).
  destruct (apply_unsafe_unprivileged (a_features a) procCfg s1 Hpriv) as (_&_&U3&_).
  exists (mounts (addMounts (offered_mounts bpmCfg procCfg extra vols) newMountDedup)).
  pose proof (offered_mounts_safe bpmCfg procCfg extra vols Hextra) as Hsafe.
  rewrite Forall_forall in Hsafe. split_and!.
  - change (s_mounts (apply_unsafe (a_features a) procCfg s1) = 
      s_mounts DefaultSpec
      ++ mounts (addMounts (offered_mounts bpmCfg procCfg extra vols) newMountDedup)).
    by rewrite U3, F2, B2.
  - apply mounts_NoDup, addMounts_wf, newMountDedup_wf.
  - apply Forall_forall. intros m Hm%elem_of_mounts_added.
    apply first_mount_elem in Hm as [Hm _]. by apply Hsafe.
  - intros m Hm%elem_of_mounts_added Hw. apply first_mount_elem in Hm as [Hm _].
    by apply (offered_mounts_writable _ _ _ _ extra vols).
  - intros m Hd Hm. apply elem_of_mounts_added. unfold offered_mounts.
    rewrite (assoc_L (++)). apply first_mount_app. by apply first_mount_extra.
Qed.

(** C22: privileged containers: the specification [BuildSpec] returns for a
    privileged process runs it as root without seccomp, masked or read-only
    paths, with the configured and all the privileged capabilities, and no mount
    is [nosuid]; its namespaces and its command line are those of any other
    process. *)
Theorem build_spec_privileged a bpmCfg procCfg user tr spec
  (Hpriv : unsafe_flag Privileged procCfg = true)
  (Htr : exec_trace (BuildSpec ToBytes a bpmCfg procCfg user) tr (FVal (Ok spec))) :
  sp_user (s_process spec) = RootUser
  ∧ sp_noNewPrivileges (s_process spec) = false
  ∧ li_seccomp (s_linux spec) = None
  ∧ li_maskedPaths (s_linux spec) = [] ∧ li_readonlyPaths (s_linux spec) = []
  ∧ caps_exactly (processCapabilities (pc_capabilities procCfg)
      ++ DefaultPrivilegedCapabilities) spec
  ∧ Forall (λ m, "nosuid" ∉ m_options m) (s_mounts spec)
  ∧ sp_args (s_process spec) =
      Internal (TiniPath bpmCfg) :: ["-w"; "-s"; "--"; pc_executable procCfg] ++ pc_args procCfg
  ∧ li_namespaces (s_linux spec) = wanted_namespaces procCfg.
Proof.
  apply BuildSpec_shape in Htr
    as (extra & vols & s1 & cgroup & mem & Hextra & _ & Hfr & _ & _ & ->).
  destruct (base_spec_fields bpmCfg procCfg user
    (addMounts (offered_mounts bpmCfg procCfg extra vols) newMountDedup))
    as (B1&B2&B3&B4&B5&B6&B7&B8&B9&B10&B11&B12&B13).
  apply limits_free_eq in Hfr as (F1&F2&F3&F4&F5&F6&F7&F8&F9&F10&F11&F12&F13&_).
  destruct (apply_unsafe_privileged (a_features a) procCfg s1 Hpriv)
    as (U1&U2&U3&U4&U5&U6&U7).
  pose proof (offered_mounts_safe bpmCfg procCfg extra vols Hextra) as Hsafe.
  rewrite Forall_forall in Hsafe.
  unfold caps_exactly in *. unfold wanted_namespaces. cbn [Apply foldl WithCgroupsPath
    set_linux s_process s_linux s_mounts li_seccomp li_maskedPaths li_readonlyPaths
    li_namespaces].
  rewrite U1, U2, U3, U4, U5, U7. cbn [sp_user sp_noNewPrivileges sp_capabilities sp_args].
  rewrite F2, F4, F7, F13, B2, B4, B7, B13. split_and!; try done.
  apply Forall_fmap, Forall_app. split.
  - eapply Forall_impl; [apply default_mounts_nodup|]. intros m Hm. simpl.
    by apply removeNosuid_gone.
  - apply Forall_forall. intros m Hm%elem_of_mounts_added. simpl.
    apply first_mount_elem in Hm as [Hm _]. apply removeNosuid_gone. by apply Hsafe.
Qed.

(** C23: limits and environment: privileged or not, the specification carries
    exactly the configured limits (the memory limit converted to a signed 64-bit
    number, and used for swap too when the kernel limits swap), the configured
    working directory or the job's, and in some order the configured environment
    with the defaults for TMPDIR, LANG, PATH and HOME where it leaves them out. *)
Theorem build_spec_limits_env a bpmCfg procCfg user tr spec
  (Htr : exec_trace (BuildSpec ToBytes a bpmCfg procCfg user) tr (FVal (Ok spec))) :
  (∃ mem, spec_limits spec = wanted_limits (a_features a) (pc_limits procCfg) mem
     ∧ ∀ l m, pc_limits procCfg = Some l → l_memory l = Some m → ToBytes m = Ok mem)
  ∧ sp_env (s_process spec)
      ≡ₚ format_var <$> map_to_list (default ∅ (pc_env procCfg) ∪ default_env bpmCfg)
  ∧ sp_cwd (s_process spec) =
      (if decide (pc_workDir procCfg = "") then Internal (BPMConfig_JobDir bpmCfg)
       else pc_workDir procCfg).
Proof.
  apply BuildSpec_shape in Htr
    as (extra & vols & s1 & cgroup & mem & _ & _ & Hfr & Hlim & Hmem & ->).
  destruct (base_spec_fields bpmCfg procCfg user
    (addMounts (offered_mounts bpmCfg procCfg extra vols) newMountDedup))
    as (_&_&_&_&B5&B6&_).
  apply limits_free_eq in Hfr as (_&_&_&_&F5&F6&_).
  destruct (apply_unsafe_limits (a_features a) procCfg s1) as (U1&U2&_&U4).
  change (spec_limits (Apply (apply_unsafe (a_features a) procCfg s1) [WithCgroupsPath cgroup]))
    with (spec_limits (apply_unsafe (a_features a) procCfg s1)).
  cbn [Apply foldl WithCgroupsPath set_linux s_process].
  rewrite U1, U2, U4, F5, F6, B5, B6, Hlim. split_and!.
  - by exists mem.
  - apply processEnvironment_perm.
  - repeat case_decide; done.
Qed.
End properties.

(** The tests on strings the comparisons of path elements amount to. *)
Definition below (dir path : string) : bool := HasPrefix path (dir +:+ String slash "").
Definition at_or_below (dir path : string) : bool := String.eqb path dir || below dir path.

Lemma pathIsIn_below path prefix : pathIsIn path [prefix] = below prefix path.
Proof. apply eq_true_iff_eq. by rewrite pathIsIn_spec, Split_prefix. Qed.

Lemma under_mount_below m v : under_mount m v = at_or_below (m_destination m) (v_path v).
Proof.
  apply eq_true_iff_eq. unfold at_or_below, below.
  rewrite under_mount_spec, orb_true_iff, String.eqb_eq, <- Split_prefix. split.
  - intros [[|x rest] Hr]; [left|right; by exists (x :: rest)].
    rewrite (right_id_L [] (++)) in Hr. by apply Split_inj in Hr.
  - intros [->|(rest & _ & Hr)]; [|by exists rest]. exists []. by rewrite (right_id_L [] (++)).
Qed.

(** C25: the two element-by-element path comparisons are prefix tests: a path is in
    one of several directories exactly when it starts with one of them and a slash,
    and the filter of unrestricted volumes keeps, in order, exactly those that are not
    the destination of a mount of bpm and do not start with one and a slash. *)
Theorem path_comparisons_equal_prefix_tests :
  (∀ path prefixes, pathIsIn path prefixes = existsb (λ p, below p path) prefixes)
  ∧ (∀ boshMs volumes, filterVolumesUnderBoshMounts boshMs volumes =
       List.filter (λ v, negb (existsb (λ m, at_or_below (m_destination m) (v_path v)) boshMs))
         volumes).
Proof.
  split.
  - intros path prefixes. induction prefixes as [|p prefixes IH]; [done|]. cbn [existsb].
    rewrite <- IH, <- pathIsIn_below. unfold pathIsIn. cbn [existsb]. by rewrite orb_false_r.
  - intros boshMs volumes. unfold filterVolumesUnderBoshMounts.
    assert (∀ v, existsb (λ m, under_mount m v) boshMs
      = existsb (λ m, at_or_below (m_destination m) (v_path v)) boshMs) as Heq.
    { intros v. induction boshMs as [|m ms IH]; [done|]. simpl. by rewrite IH, under_mount_below. }
    induction volumes as [|v volumes IH]; [done|]. rewrite filter_cons. cbn [List.filter].
    rewrite <- Heq, <- IH. by destruct (existsb (λ m, under_mount m v) boshMs).
Qed.

(** ** Witnesses for the properties of BuildSpec *)

Definition sample_bpmCfg : BPMConfig := NewBPMConfig (NewEnv "") "server" "worker".
Definition sample_user : User := mkUser 1000 1000 "vcap".
Definition sample_limits : Limits := mkLimits (Some "1G") (Some 1024%Z) (Some 20%Z) None.
Definition sample_procCfg (priv : bool) : ProcessConfig :=
  mkProcessConfig "worker" "/var/vcap/packages/worker/bin/worker" ["--fast"] None
    [mkVolume "/var/vcap/data/shared" true false false false] ["NET_BIND_SERVICE"]
    true None (Some sample_limits) false "" (Some (mkUnsafe priv [] false)) "".
Definition sample_adapter : RuncAdapter :=
  NewRuncAdapter (mkFeatures true true) (λ _, Ret (Ok [])) (λ _, Ret None)
    (λ p, lock_file p) None.
Definition sample_ToBytes (s : string) : result Z :=
  if decide (s = "1G") then Ok (2 ^ 30)%Z else Err (NewError "byte quantity").

Lemma sample_BuildSpec priv :
  ∃ tr spec, exec_trace (@BuildSpec map_range_list sort_slice_merge sample_ToBytes
    sample_adapter sample_bpmCfg (sample_procCfg priv) sample_user) tr (FVal (Ok spec)).
Proof.
  destruct (run_exec_trace idle_handler (@BuildSpec map_range_list sort_slice_merge
    sample_ToBytes sample_adapter sample_bpmCfg (sample_procCfg priv) sample_user) tt)
    as [tr Htr].
  exists tr. eexists. exact Htr.
Qed.

Lemma build_spec_confined_witness : ∃ spec : Spec,
  spec_confined (mkFeatures true true) spec
  ∧ caps_exactly ["CAP_NET_BIND_SERVICE"] spec
  ∧ li_namespaces (s_linux spec) = ["ipc"; "mount"; "uts"; "pid"].
Proof.
  destruct (sample_BuildSpec false) as (tr & spec & Htr). exists spec.
  destruct (@build_spec_confined map_range_list sort_slice_merge sample_ToBytes
    sample_adapter sample_bpmCfg (sample_procCfg false) sample_user tr spec
    eq_refl Htr) as (H1 & H2 & _ & _ & _ & H3).
  exact (conj H1 (conj H2 H3)).
Defined.

Lemma build_spec_mount_policy_witness : ∃ spec : Spec,
  IdentityMount "/usr" [AllowExec] ∈ s_mounts spec.
Proof.
  destruct (sample_BuildSpec false) as (tr & spec & Htr). exists spec.
  destruct (@build_spec_mount_policy map_range_list sort_slice_merge sample_ToBytes
    sample_adapter sample_bpmCfg (sample_procCfg false) sample_user tr spec
    eq_refl Htr) as (ms & Hms & _ & _ & _ & Hin).
  rewrite Hms. apply elem_of_app. right. apply Hin; [|reflexivity].
  apply (bool_decide_unpack _). vm_compute. exact I.
Defined.

Lemma build_spec_privileged_witness : ∃ spec : Spec,
  sp_user (s_process spec) = RootUser ∧ li_seccomp (s_linux spec) = None.
Proof.
  destruct (sample_BuildSpec true) as (tr & spec & Htr). exists spec.
  destruct (@build_spec_privileged map_range_list sort_slice_merge sample_ToBytes
    sample_adapter sample_bpmCfg (sample_procCfg true) sample_user tr spec
    eq_refl Htr) as (H1 & _ & H2 & _).
  exact (conj H1 H2).
Defined.

Lemma build_spec_limits_env_witness : ∃ spec : Spec,
  spec_limits spec = (Some (mkMemory (Some (2 ^ 30)%Z) (Some (2 ^ 30)%Z)), Some 20%Z,
                      [mkRlimit "RLIMIT_NOFILE" 1024 1024]).
Proof.
  destruct (sample_BuildSpec false) as (tr & spec & Htr). exists spec.
  destruct (@build_spec_limits_env map_range_list sort_slice_merge sample_ToBytes
    sample_adapter sample_bpmCfg (sample_procCfg false) sample_user tr spec Htr)
    as ((mem & Hl & Hm) & _).
  specialize (Hm sample_limits "1G" eq_refl eq_refl). injection Hm as Hm.
  rewrite Hl, <- Hm. reflexivity.
Defined.

(** ** Properties of CreateJobPrerequisites *)

Lemma close_all_fds fds tr f acc :
  exec_trace (close_all fds) tr f → open_fds (fds ++ acc) tr = acc ∧ f = FVal tt.
Proof.
  revert tr acc. induction fds as [|fd fds IH]; intros tr acc Htr; cbn [close_all] in Htr.
  { trace_step. by subst. }
  apply exec_trace_Call in Htr as (r & tr' & -> & Htr).
  unfold open_fds. cbn [foldl app].
  change (foldl fds_step (fds_step (fd :: fds ++ acc) (Ev (FileClose fd) r)) tr')
    with (open_fds (remove_one fd (fd :: fds ++ acc)) tr').
  rewrite remove_one_head. by apply IH.
Qed.

Lemma open_log_files_fds paths user files tr f :
  exec_trace (open_log_files paths user files) tr f →
  match f with
  | FVal (Ok fs) => length fs = length files + length paths ∧ open_fds files tr ≡ₚ fs
  | FVal (Err _) => open_fds files tr ≡ₚ []
  | _ => False
  end.
Proof.
  revert files tr. induction paths as [|p paths IH]; intros files tr Htr;
    cbn [open_log_files] in Htr.
  { trace_step. subst. simpl. split; [lia|done]. }
  apply exec_trace_bind in Htr as [(r & t1 & t2 & -> & Ho & Htr)|[(x & Ho & ->)|[Ho ->]]];
    apply (OpenAppendChown_fds _ _ _ _ _ _ files) in Ho; [|done..].
  destruct r as [fd|e].
  - apply IH in Htr. destruct f as [[fs|e]|x|]; try done; rewrite ?length_app in Htr.
    + destruct Htr as [Hl Hp]. simpl in *. split; [lia|].
      by rewrite open_fds_app, Ho, Permutation_cons_append.
    + by rewrite open_fds_app, Ho, Permutation_cons_append.
  - apply exec_trace_bind in Htr as [([] & u1 & u2 & -> & Hc & Htr)|[(x & Hc & ->)|[Hc ->]]];
      apply (close_all_fds _ _ _ []) in Hc as [Hc ?]; [|done..].
    trace_step. subst. rewrite List.app_nil_r in Hc. rewrite List.app_nil_r.
    by rewrite open_fds_app, Ho, Hc.
Qed.

(** A log file was opened for appending, private and without following a symlink, and
    given to the user. *)
Definition log_opened (path : string) (user : User) (fd : nat) : list event :=
  [Ev (OpenFile path (Z.lor (Z.lor (Z.lor O_RDWR O_CREATE) O_APPEND) O_NOFOLLOW) mode_0600) (Ok fd);
   Ev (FileChown fd (u_uid user) (u_gid user)) None].

Lemma open_log_files_opened paths user files tr fs :
  exec_trace (open_log_files paths user files) tr (FVal (Ok fs)) →
  ∃ new, fs = files ++ new ∧ length new = length paths
    ∧ tr = concat (zip_with (λ path fd, log_opened path user fd) paths new).
Proof.
  revert files tr. induction paths as [|p paths IH]; intros files tr Htr; cbn [open_log_files] in Htr.
  { apply exec_trace_Ret in Htr as [-> [= ->]]. exists []. by rewrite (right_id_L [] (++)). }
  apply trace_bind_FVal in Htr as ([fd|e] & t1 & t2 & -> & Ho & Htr).
  - apply IH in Htr as (new & -> & Hlen & ->). exists (fd :: new).
    assert (t1 = log_opened p user fd) as ->
      by (unfold OpenAppendChown in Ho; trace_all; by simplify_eq).
    split_and!; [by rewrite <- (assoc_L (++))|by cbn; rewrite Hlen|done].
  - by apply trace_bind_FVal in Htr as (u & t3 & t4 & -> & _ & [_ [=]]%exec_trace_Ret).
Qed.

Lemma createLogFiles_opened bpmCfg user tr f0 f1 :
  exec_trace (createLogFiles bpmCfg user) tr (FVal (Ok (f0, f1))) →
  tr = log_opened (External (Config_Stdout bpmCfg)) user f0
       ++ log_opened (External (Config_Stderr bpmCfg)) user f1.
Proof.
  intros ([fs|e] & t1 & t2 & -> & Ho & Htr)%trace_bind_FVal; [|by destruct Htr as [_ [=]]].
  apply open_log_files_opened in Ho as (new & -> & Hlen & ->).
  destruct new as [|g0 [|g1 [|]]]; try done. by destruct Htr as [-> [= -> ->]].
Qed.

(** C37: log files: whatever the system answers, [createLogFiles] does not panic.  If it
    succeeds, all it has done is to open the job's standard output and then its standard
    error log, each for appending, with mode 0600 and without following a symlink, and to
    give each to the process's user through its descriptor; exactly these two files are
    open, and it returns them in this order.  If it fails, it has closed every file it
    opened. *)
Theorem create_log_files_no_leak bpmCfg user tr f
  (Htr : exec_trace (createLogFiles bpmCfg user) tr f) :
  (∃ e, f = FVal (Err e) ∧ open_fds [] tr = [])
  ∨ ∃ f0 f1, f = FVal (Ok (f0, f1)) ∧ open_fds [] tr ≡ₚ [f0; f1]
      ∧ tr = log_opened (External (Config_Stdout bpmCfg)) user f0
             ++ log_opened (External (Config_Stderr bpmCfg)) user f1.
Proof.
  pose proof (createLogFiles_opened bpmCfg user tr) as Hopened.
  pose proof Htr as Htr'. unfold createLogFiles, try_or in Htr.
  apply exec_trace_bind in Htr as [(r & t1 & t2 & -> & Ho & Htr)|[(x & Ho & ->)|[Ho ->]]];
    apply open_log_files_fds in Ho; [|done..].
  destruct r as [fs|e].
  - destruct Ho as [Hlen Ho]. destruct fs as [|f0 [|f1 [|]]]; try done.
    trace_step. subst. right. exists f0, f1. split_and!; [done|by rewrite (right_id_L [] (++))|].
    by apply Hopened.
  - trace_step. subst. left. rewrite (right_id_L [] (++)).
    eexists. split; [done|]. by apply Permutation_nil_r.
Qed.

Lemma create_log_files_witness : ∃ tr f0 f1,
  exec_trace (createLogFiles sample_bpmCfg sample_user) tr (FVal (Ok (f0, f1)))
  ∧ open_fds [] tr ≡ₚ [f0; f1].
Proof.
  destruct (run_exec_trace idle_handler (createLogFiles sample_bpmCfg sample_user) tt)
    as [tr Htr].
  destruct (create_log_files_no_leak _ _ _ _ Htr) as [(e & He & _)|(f0 & f1 & Hf & Hfds & _)].
  - vm_compute in He. discriminate He.
  - exists tr, f0, f1. rewrite <- Hf. split; [exact Htr|exact Hfds].
Defined.

(** C12: host preparation: whatever the system answers, with bpm's own volume
    locks and mount sharing [CreateJobPrerequisites] neither panics nor runs
    forever, and touches nothing but what the configuration names: directories
    are created with mode 0700, ownership goes only to the process's user and
    only on the job's directories and on volumes that are not mount-only, modes
    change only on such volumes, log files are opened without following a
    symlink, and mounts change only at shared volumes. *)
Theorem create_prerequisites_touches_only handle features glob cg bpmCfg procCfg user tr f
  (Htr : exec_trace (CreateJobPrerequisites
    (NewRuncAdapter features glob MakeShared (LockVolume handle) cg)
    bpmCfg procCfg user) tr f) :
  Forall (prereq_event (volume_lock_path handle) bpmCfg procCfg user) tr
  ∧ ∃ r, f = FVal r.
Proof.
  eapply wp_sound in Htr as [HF (r & Hr & _)]; [by eauto|].
  by apply CreateJobPrerequisites_wp.
Qed.

Lemma create_prerequisites_witness : ∃ tr r,
  let a := NewRuncAdapter (mkFeatures true true) (λ _, Ret (Ok [])) MakeShared
    (LockVolume (NewHandle "/var/vcap/data/bpm/locks")) None in
  exec_trace (CreateJobPrerequisites a sample_bpmCfg (sample_procCfg false) sample_user)
    tr (FVal (Ok r))
  ∧ Forall (prereq_event (volume_lock_path (NewHandle "/var/vcap/data/bpm/locks"))
      sample_bpmCfg (sample_procCfg false) sample_user) tr.
Proof.
  destruct (run_exec_trace idle_handler (CreateJobPrerequisites
    (NewRuncAdapter (mkFeatures true true) (λ _, Ret (Ok [])) MakeShared
      (LockVolume (NewHandle "/var/vcap/data/bpm/locks")) None)
    sample_bpmCfg (sample_procCfg false) sample_user) tt) as [tr Htr].
  destruct (create_prerequisites_touches_only _ _ _ _ _ _ _ _ _ Htr) as [HF _].
  eexists tr, _. split; [exact Htr|exact HF].
Defined.
