(* ===== verification/Client.v ===== *)
(** * Package client: driving the runc binary (src/bpm/runc/client/client.go)

    Every operation is one invocation of runc, or file operations on a bundle.
    What runc prints is decoded by encoding/json; the decoders are operations of
    the class [JSON], whose instance [go_JSON] is the model of that package.  The
    theorems only use that decoding errors are not errors of bpm itself, so they
    hold for every document runc may print. *)

From S2P Require Import Prelude GoStrings GoPath Specs Json SpecJson Sys.

(** [json.Unmarshal] into the three types the package decodes. *)
Class JSON : Type := {
  json_State : string → result State;
  json_Msg : string → result string;
  json_ContainerStates : string → result (list ContainerState);
  json_State_foreign : ∀ data e, json_State data = Err e → foreign e
}.

#[export, refine] Instance go_JSON : JSON := {|
  json_State := Unmarshal_State;
  json_Msg := Unmarshal_Msg;
  json_ContainerStates := Unmarshal_ContainerStates
|}.
Proof.
  intros data e. unfold Unmarshal_State, json_Unmarshal.
  destruct (json_parse data) as [v|]; [|by intros [= <-]].
  destruct (decode_struct _ _ v) as [a []]; [done|by intros [= <-]].
Defined.

Record RuncClient := NewRuncClient {
  runcPath : string;
  runcRoot : string;
  inSystemd : bool
}.

Definition buildCmd (c : RuncClient) (command : string) (extra : list string) : Cmd :=
  let args := ["--root"; runcRoot c] in
  let args := if inSystemd c then args ++ ["--systemd-cgroup"] else args in
  exec_Command (runcPath c) ((args ++ [command]) ++ extra).

Definition with_output (cmd : Cmd) (stdout stderr : writer) : Cmd :=
  mkCmd (cmd_path cmd) (cmd_args cmd) (cmd_env cmd) (cmd_stdin cmd) stdout stderr.
Definition with_stdin (cmd : Cmd) : Cmd :=
  mkCmd (cmd_path cmd) (cmd_args cmd) (cmd_env cmd) true (cmd_stdout cmd) (cmd_stderr cmd).

(** [cmd.Run()] when only the error matters. *)
Definition run_cmd (cmd : Cmd) : prog (option error) :=
  r ← call (RunCmd cmd); Ret (cr_err r).

Definition O_RDWR_CREATE : Z := Z.lor 0x2 0x40.

(** [Encode] writes the whole document at once; the file is closed when it
    returns, and the error of closing is ignored.  An existing file is not
    truncated. *)
Definition CreateBundle (bundlePath : string) (jobSpec : Spec) (user : User)
    : prog (option error) :=
  check_err (call (MkdirAll bundlePath mode_0700)) id (
  let rootfsPath := path_Join [bundlePath; "rootfs"] in
  check_err (call (MkdirAll rootfsPath mode_0755)) id (
  try_err (call (OpenFile (path_Join [bundlePath; "config.json"]) O_RDWR_CREATE mode_0600)) id
    (λ f,
  err ← call (FileWrite f (Encode_Spec jobSpec));
  _ ← call (FileClose f);
  Ret err))).

Definition RunContainer_args (pidFilePath bundlePath containerID : string) (detach : bool)
    : list string :=
  let args := ["--bundle"; bundlePath] in
  let args := if detach then (args ++ ["--pid-file"; pidFilePath]) ++ ["--detach"] else args in
  args ++ [containerID].

(** When runc could not be started there is no [ProcessState] and [Sys()] is
    called on a nil pointer; otherwise the wait status has an exit status. *)
Definition RunContainer (c : RuncClient) (pidFilePath bundlePath containerID : string)
    (detach : bool) (stdout stderr : writer) : prog (Z * option error) :=
  let runcCmd := with_output
    (buildCmd c "run" (RunContainer_args pidFilePath bundlePath containerID detach))
    stdout stderr in
  r ← call (RunCmd runcCmd);
  match cr_err r with
  | None => Ret (0%Z, None)
  | Some err =>
      match cr_state r with
      | None => Crash NilDereference
      | Some status => Ret (status, Some err)
      end
  end.

Definition Exec (c : RuncClient) (containerID command : string) (stdout stderr : writer)
    : prog (option error) :=
  term ← call (Getenv "TERM");
  let runcCmd := buildCmd c "exec"
    ["--tty"; "--env"; "TERM=" +:+ term; containerID; command] in
  run_cmd (with_output (with_stdin runcCmd) stdout stderr).

Section decoding.
Context `{JSON}.

(** [None] is the nil error: the container does not exist. *)
Definition decodeContainerStateErr (b : string) (err : error) : option error :=
  match json_Msg b with
  | Err _ => Some err
  | Ok msg => if Contains msg "container does not exist" then None else Some err
  end.

(** A nil state with a nil error is [Ok None]. *)
Definition ContainerState_ (c : RuncClient) (containerID : string)
    : prog (result (option State)) :=
  let runcCmd := buildCmd c "--log-format" ["json"; "state"; containerID] in
  r ← call (CombinedOutput runcCmd);
  match r with
  | (data, Some err) =>
      match decodeContainerStateErr data err with
      | None => Ret (Ok None)
      | Some err => Ret (Err err)
      end
  | (data, None) =>
      match json_State data with
      | Err err => Ret (Err err)
      | Ok state => Ret (Ok (Some state))
      end
  end.

Definition ListContainers (c : RuncClient) : prog (result (list ContainerState)) :=
  r ← call (Output (buildCmd c "list" ["--format"; "json"]));
  match r with
  | (_, Some err) => Ret (Err err)
  | (data, None) => Ret (json_ContainerStates data)
  end.
End decoding.

Definition SignalContainer (c : RuncClient) (containerID : string) (signal : Signal)
    : prog (option error) :=
  run_cmd (buildCmd c "kill" [containerID; Signal_String signal]).

Definition DeleteContainer (c : RuncClient) (containerID : string) : prog (option error) :=
  run_cmd (buildCmd c "delete" ["--force"; containerID]).

Definition DestroyBundle (bundlePath : string) : prog (option error) :=
  call (RemoveAll bundlePath).

(** ** The bundle *)

(** The contents of a file after writing at its beginning without truncating it. *)
Definition overwrite (old data : string) : string := data +:+ drop (String.length data) old.

(** The first document of a file, as a [json.Decoder] reads it. *)
Definition first_document (contents : string) : option json :=
  fst <$> parse_value (String.length contents) contents.

Definition bundle_calls (bundlePath : string) (spec : Spec) (f : nat)
    (r1 r2 : option error) (r3 : result nat) (r4 r5 : option error) : list event :=
  [Ev (MkdirAll bundlePath mode_0700) r1;
   Ev (MkdirAll (path_Join [bundlePath; "rootfs"]) mode_0755) r2;
   Ev (OpenFile (path_Join [bundlePath; "config.json"]) O_RDWR_CREATE mode_0600) r3;
   Ev (FileWrite f (Encode_Spec spec)) r4;
   Ev (FileClose f) r5].

(** C13: the bundle tells runc the specification, provided that every string of it is
    valid UTF-8 (encoding/json writes an invalid byte as U+FFFD, so such a string is not
    read back) and its integers fit 64 bits: when [CreateBundle] succeeds it
    has made the two directories and written one document to config.json, and
    whatever that file contained before (it is not truncated, so the rest of a
    longer old document stays behind), the first document in it decodes to the
    specification, field by field. *)
Theorem create_bundle_roundtrip bundlePath spec user tr old
  (Hok : spec_ok spec)
  (Htr : exec_trace (CreateBundle bundlePath spec user) tr (FVal None)) :
  (∃ f e, tr = bundle_calls bundlePath spec f None None (Ok f) None e)
  ∧ ∃ v, first_document (overwrite old (Encode_Spec spec)) = Some v ∧ spec_of_json v = spec.
Proof.
  split.
  - unfold CreateBundle, check_err, try_err in Htr. trace_all. eauto.
  - clear Htr. exists (spec_json spec). split; [|by apply read_spec].
    destruct (fine_spec spec Hok) as [Hr _]. unfold first_document, overwrite, Encode_Spec, json_indent.
    set (rest := drop _ _). rewrite app_assoc.
    assert (∀ d, white (indent_nl d) = true) as Hnl by (intros d; by induction d).
    pose proof (read_value indent_nl " " Hnl eq_refl (spec_json spec) Hr 0
      (String.length (json_print indent_nl " " 0 (spec_json spec)
         +:+ String (byte_of 10) "" +:+ rest)) "" (String (byte_of 10) "" +:+ rest) eq_refl eq_refl)
      as Hread.
    rewrite app_nil_l in Hread. rewrite Hread; [done|].
    rewrite !length_app_string. pose proof (cost_length indent_nl " " 0 _ Hr). lia.
Qed.

Definition bundle_spec : Spec :=
  mkSpec "1.2.1"
    (mkSpecProcess (mkUser 1000 1000 "") ["/bin/server"; "--motd=<hello & goodbye>"] ["LANG=C"; "CITY=Zürich"]
       "/" (mkCaps ["CAP_CHOWN"] ["CAP_CHOWN"] [] [] []) [mkRlimit "RLIMIT_NOFILE" 100 100] true)
    (Some "/rootfs") [mkMount "/tmp" "bind" "/var/vcap/data/tmp" ["rw"]]
    (mkSpecLinux ["/etc/sv"] [] (mkResources (Some (mkMemory (Some (-1)%Z) None)) (Some 10%Z))
       "private"
       (Some (mkSeccomp "SCMP_ACT_ERRNO" []
          [mkSyscall ["clone"] "SCMP_ACT_ALLOW" None [mkSeccompArg 0 2114060288 0 "SCMP_CMP_MASKED_EQ"]]))
       ["pid"] "").

Lemma bundle_spec_ok : spec_ok bundle_spec.
Proof.
  repeat split; simpl in *; simplify_eq/=; repeat first [reflexivity|done|apply Forall_nil; done|apply Forall_cons; split|intros ? [= <-]|split].
Qed.

Lemma create_bundle_witness : ∃ tr v,
  exec_trace (CreateBundle "/bundle" bundle_spec (mkUser 0 0 "")) tr (FVal None)
  ∧ first_document (overwrite "" (Encode_Spec bundle_spec)) = Some v
  ∧ spec_of_json v = bundle_spec.
Proof.
  destruct (run_exec_trace idle_handler (CreateBundle "/bundle" bundle_spec (mkUser 0 0 "")) tt)
    as [tr Htr].
  assert ((run idle_handler (CreateBundle "/bundle" bundle_spec (mkUser 0 0 "")) tt).1 = FVal None)
    as Hok by reflexivity.
  rewrite Hok in Htr.
  destruct (create_bundle_roundtrip "/bundle" bundle_spec (mkUser 0 0 "") tr "" bundle_spec_ok Htr)
    as [_ [v [H1 H2]]].
  exists tr, v. split_and!; [exact Htr|exact H1|exact H2].
Defined.

(** ** What runc prints *)

(** An entry of [runc list]: the three fields bpm decodes among others. *)
Definition entry_json (before after : members) (cs : ContainerState) : json :=
  JObject (before ++ [("id", JString (cs_id cs)); ("pid", json_int (cs_pid cs));
                      ("status", JString (cs_status cs))] ++ after).

(** Fields that none of the three names stands for, even ignoring case. *)
Definition unrelated (ms : members) : Prop :=
  Forall (λ kv, find_field ["id"; "pid"; "status"] kv.1 = None) ms.

Definition entry_ok (cs : ContainerState) : Prop :=
  plain (cs_id cs) ∧ plain (cs_status cs) ∧ (- 2 ^ 63 ≤ cs_pid cs < 2 ^ 63)%Z.

Abbreviation store := (λ '(a, ok) '(k, v), let '(a, ok') := set_ContainerState k v a in (a, ok && ok')).

Lemma store_unrelated ms a ok : unrelated ms → foldl store (a, ok) ms = (a, ok).
Proof.
  induction 1 as [|[k v] ms Hk Hms IH]; [done|]. simpl in *. unfold set_ContainerState.
  rewrite Hk. by rewrite andb_true_r.
Qed.

Lemma decode_entry before after cs :
  unrelated before → unrelated after → entry_ok cs →
  decode_struct set_ContainerState (mkContainerState "" 0 "") (entry_json before after cs) = (cs, true).
Proof.
  intros Hb Ha (_ & _ & Hpid). unfold decode_struct, entry_json.
  rewrite !foldl_app, store_unrelated by done. cbn [foldl].
  unfold json_int. cbn. rewrite Atoi_Itoa by done. cbn. rewrite store_unrelated by done.
  by destruct cs.
Qed.

Lemma fine_entry n before after cs :
  fine_members n before → fine_members n after → entry_ok cs → fine (S n) (entry_json before after cs).
Proof.
  intros Hb Ha (Hi & Hs & Hp). apply fine_object, fine_app, fine_app; [done| |done].
  assert (int_ok (cs_pid cs)) by (unfold int_ok; lia).
  repeat apply Forall_cons_2; try apply Forall_nil_2; (split; [done|]);
    [by apply fine_string|by apply fine_int|by apply fine_string].
Qed.

Lemma list_document_decoded before after l :
  unrelated before ∧ fine_members 100 before → unrelated after ∧ fine_members 100 after →
  Forall entry_ok l →
  json_ContainerStates (json_compact (JArray (entry_json before after <$> l))) = Ok l.
Proof.
  intros [Hb Hfb] [Ha Hfa] Hl.
  assert (fine 102 (JArray (entry_json before after <$> l))) as [Hr Hn].
  { apply fine_array, Forall_fmap. eapply Forall_impl; [exact Hl|]. intros cs Hcs.
    by apply fine_entry. }
  simpl. unfold Unmarshal_ContainerStates, json_Unmarshal.
  rewrite json_parse_compact; [|done|unfold maxNestingDepth; lia].
  assert (forallb (λ x, (decode_struct set_ContainerState (mkContainerState "" 0 "") x).2)
    (entry_json before after <$> l) = true) as Hok.
  { clear Hr Hn. induction Hl as [|cs l Hcs Hl IH]; [done|]. rewrite fmap_cons. cbn [forallb].
    by rewrite decode_entry. }
  unfold decode_list. rewrite Hok. f_equal. rewrite <- list_fmap_compose.
  clear Hr Hn Hok. induction Hl as [|cs l Hcs Hl IH]; [done|]. rewrite fmap_cons, IH.
  cbv beta delta [compose]. by rewrite decode_entry.
Qed.

(** The answer to a command whose output was collected. *)
Definition ev_output (e : event) : option (string * option error) :=
  match e with
  | Ev c r => match c in sys B return B → option (string * option error) with
              | Output _ => λ r, Some r | _ => λ _, None
              end r
  end.

Lemma ListContainers_answer `{JSON} c doc f :
  exec_trace (ListContainers c)
    [Ev (Output (buildCmd c "list" ["--format"; "json"])) (doc, None)] f →
  f = FVal (json_ContainerStates doc).
Proof.
  unfold ListContainers. generalize (buildCmd c "list" ["--format"; "json"]). intros cmd Htr.
  apply exec_trace_Call in Htr as (r & tr & Heq & Htr).
  apply (f_equal (omap ev_output)) in Heq as Hr. injection Hr as <- _.
  by apply exec_trace_Ret in Htr as [_ ->].
Qed.

(** [ListContainers] inverts what runc prints: when [runc list] answers with the
    JSON document for some containers, whatever other fields it adds before and after
    the ones bpm knows, exactly those containers are returned, in order. *)
Lemma list_document_roundtrip c before after l f
  (Hbefore : unrelated before ∧ fine_members 100 before)
  (Hafter : unrelated after ∧ fine_members 100 after) (Hl : Forall entry_ok l)
  (Htr : exec_trace (ListContainers c) [Ev (Output (buildCmd c "list" ["--format"; "json"]))
           (json_compact (JArray (entry_json before after <$> l)), None)] f) :
  f = FVal (Ok l).
Proof.
  apply ListContainers_answer in Htr as ->. by rewrite (list_document_decoded before after l).
Qed.

Definition sample_entries : list ContainerState :=
  [mkContainerState "bpm-server" 4711 "running"; mkContainerState "bpm-nginx.nxwm63tc" 0 "stopped"].

Definition sample_document : string :=
  json_compact (JArray (entry_json [("ociVersion", JString "1.2.1")] [("owner", JString "root")]
    <$> sample_entries)).

Lemma list_document_witness : ∃ f,
  exec_trace (ListContainers (NewRuncClient "/bin/runc" "/run/runc" false))
    [Ev (Output (buildCmd (NewRuncClient "/bin/runc" "/run/runc" false) "list" ["--format"; "json"]))
       (sample_document, None)] f
  ∧ f = FVal (Ok sample_entries).
Proof.
  assert (exec_trace (ListContainers (NewRuncClient "/bin/runc" "/run/runc" false))
    [Ev (Output (buildCmd (NewRuncClient "/bin/runc" "/run/runc" false) "list" ["--format"; "json"]))
       (sample_document, None)] (FVal (json_ContainerStates sample_document))) as Htr.
  { exists (sample_document, None), []. split; [reflexivity|]. split; reflexivity. }
  eexists. split; [exact Htr|].
  refine (list_document_roundtrip (NewRuncClient "/bin/runc" "/run/runc" false)
    [("ociVersion", JString "1.2.1")] [("owner", JString "root")] sample_entries _ _ _ _ Htr).
  - split; [by repeat constructor|]. by apply fine_req; [|apply fine_string].
  - split; [by repeat constructor|]. by apply fine_req; [|apply fine_string].
  - apply Forall_cons_2; [|apply Forall_cons_2; [|apply Forall_nil_2]]; (split; [done|split; [done|done]]).
Defined.
