(* ===== verification/Containers.v ===== *)
(** * The containers of a host, as runc manages them

    The abstract state behind package client: which containers exist, with the
    status runc reports for each.  A container's process may exit at any moment,
    so between two observations existing containers stay but may become stopped
    ([evolves]).  [RuncHost] states what runc's documentation says its commands
    do to that state; the lemmas lift it to the operations of package client,
    and [sim_handler] is a small simulated host that satisfies it. *)

From S2P Require Import Prelude GoStrings GoPath Specs Json SpecJson Sys Client.
From Stdlib Require Import Ascii.

(** ** Evolution of the containers *)

Abbreviation containers_map := (gmap string string).

Definition status_evolves (s s' : option string) : Prop :=
  s' = s ∨ (is_Some s ∧ s' = Some "stopped").

(** Nothing but exits of container processes happened. *)
Definition evolves (m m' : containers_map) : Prop :=
  ∀ id, status_evolves (m !! id) (m' !! id).

(** Nothing else happened to the containers other than [id]. *)
Definition evolves_except (id : string) (m m' : containers_map) : Prop :=
  ∀ id', id' ≠ id → status_evolves (m !! id') (m' !! id').

#[export] Instance status_evolves_preorder : PreOrder status_evolves.
Proof.
  split; [intros s; by left|]. intros s1 s2 s3 [->|[H1 ->]] H2; [done|].
  right. split; [done|]. by destruct H2 as [->|[_ ->]].
Qed.

#[export] Instance evolves_preorder : PreOrder evolves.
Proof. split; [intros m id; done|]. intros m1 m2 m3 H1 H2 id. etrans; [apply H1|apply H2]. Qed.

#[export] Instance evolves_except_preorder id : PreOrder (evolves_except id).
Proof.
  split; [intros m id' _; done|]. intros m1 m2 m3 H1 H2 id' Hne.
  etrans; [by apply H1|by apply H2].
Qed.

Lemma evolves_weaken id m m' : evolves m m' → evolves_except id m m'.
Proof. intros H id' _. apply H. Qed.

Lemma evolves_None m m' id : evolves m m' → m !! id = None ↔ m' !! id = None.
Proof. intros H. destruct (H id) as [->|[[s Hs] ->]]; [done|]. by rewrite Hs. Qed.

Lemma evolves_is_Some m m' id : evolves m m' → is_Some (m !! id) ↔ is_Some (m' !! id).
Proof. intros H. rewrite <- !not_eq_None_Some. by rewrite (evolves_None m m'). Qed.

#[export] Hint Resolve evolves_weaken : bpm.

(** ** What runc promises *)

(** Neither path lies at or below the other, element by element. *)
Definition path_apart (p q : string) : Prop :=
  ∀ rest, Split slash p ≠ Split slash q ++ rest ∧ Split slash q ≠ Split slash p ++ rest.

(** The calls that may create or destroy containers: invocations of the runc
    binary and removals in the neighbourhood of its state directory. *)
Definition ordinary_call (c : RuncClient) (B : Type) (k : sys B) : Prop :=
  match k with
  | RunCmd cmd | CombinedOutput cmd | Output cmd | StartCmd cmd => cmd_path cmd ≠ runcPath c
  | RemoveAll p => path_apart p (runcRoot c)
  | _ => True
  end.

Definition is_runc (c : RuncClient) (command : string) (extra : list string) (cmd : Cmd) : Prop :=
  cmd_path cmd = cmd_path (buildCmd c command extra)
  ∧ cmd_args cmd = cmd_args (buildCmd c command extra).

Definition state_file (c : RuncClient) (id : string) : string :=
  path_Join [runcRoot c; id; "state.json"].

Class RuncHost {W : Type} (h : handler W) (c : RuncClient) `{JSON} : Type := {
  containers : W → containers_map;
  (* calls that have nothing to do with runc *)
  host_ordinary : ∀ B (k : sys B) w,
    ordinary_call c B k → evolves (containers w) (containers (h B k w).2);
  (* runc state: prints the state of an existing container; fails with a message
     saying so when there is none; may fail otherwise *)
  host_state : ∀ id cmd w data err w',
    is_runc c "--log-format" ["json"; "state"; id] cmd →
    h _ (CombinedOutput cmd) w = ((data, err), w') →
    evolves (containers w) (containers w')
    ∧ match err with
      | None => ∀ s, json_State data = Ok s → containers w !! id = Some (st_status s)
      | Some e => foreign e ∧ ∀ msg, json_Msg data = Ok msg →
          Contains msg "container does not exist" = true → containers w !! id = None
      end;
  (* runc list: prints every container *)
  host_list : ∀ cmd w data err w',
    is_runc c "list" ["--format"; "json"] cmd →
    h _ (Output cmd) w = ((data, err), w') →
    evolves (containers w) (containers w')
    ∧ (err = None → ∀ l, json_ContainerStates data = Ok l →
         ∀ id st, (∃ pid, mkContainerState id pid st ∈ l) ↔ containers w !! id = Some st);
  (* runc kill: sends a signal *)
  host_kill : ∀ id sig cmd w r w',
    is_runc c "kill" [id; sig] cmd →
    h _ (RunCmd cmd) w = (r, w') → evolves (containers w) (containers w');
  (* runc exec: runs another process in a container *)
  host_exec : ∀ args cmd w r w',
    is_runc c "exec" args cmd →
    h _ (RunCmd cmd) w = (r, w') → evolves (containers w) (containers w');
  (* runc delete --force: removes the container, if it exists *)
  host_delete : ∀ id cmd w r w',
    is_runc c "delete" ["--force"; id] cmd →
    h _ (RunCmd cmd) w = (r, w') →
    evolves_except id (containers w) (containers w')
    ∧ (cr_err r = None → containers w' !! id = None);
  (* runc run: creates and starts a container that does not exist; detached, it
     leaves the container behind; in the foreground, it removes it on exit *)
  host_run : ∀ pidfile bundle id detach cmd w r w',
    is_runc c "run" (RunContainer_args pidfile bundle id detach) cmd →
    h _ (RunCmd cmd) w = (r, w') →
    evolves_except id (containers w) (containers w')
    ∧ (cr_err r = None → containers w !! id = None
       ∧ (if detach then is_Some (containers w' !! id) else containers w' !! id = None));
  (* removing a container's state file affects that container only *)
  host_remove_state : ∀ id w,
    evolves_except id (containers w) (containers (h _ (RemoveAll (state_file c id)) w).2)
}.

(** ** The operations of package client *)

Section client.
Context {W : Type} (h : handler W) (c : RuncClient) `{JSON} `{!RuncHost h c}.

Lemma buildCmd_is_runc command extra : is_runc c command extra (buildCmd c command extra).
Proof. done. Qed.

(** A program whose calls are all ordinary leaves the containers alone. *)
Lemma ordinary_run {A} (p : prog A) w :
  all_calls (ordinary_call c) p → evolves (containers w) (containers (run h p w).2).
Proof.
  intros Hp. set (R w w' := evolves (containers w) (containers w')).
  assert (PreOrder R) as HR.
  { split; unfold R; [intros w0; reflexivity|]. intros w1 w2 w3. apply transitivity. }
  apply (all_calls_run h (ordinary_call c) R); [|done].
  intros B k w0. apply host_ordinary.
Qed.

Lemma ContainerState_run id w r w' :
  run h (ContainerState_ c id) w = (r, w') →
  evolves (containers w) (containers w')
  ∧ match r with
    | FVal (Ok (Some s)) => containers w !! id = Some (st_status s)
    | FVal (Ok None) => containers w !! id = None
    | FVal (Err e) => foreign e
    | _ => False
    end.
Proof.
  unfold ContainerState_. cbn [mbind prog_mbind call prog_bind run].
  destruct (h _ (CombinedOutput _) w) as [[data err] w1] eqn:Hc.
  apply (host_state id) in Hc as [Hev Hd]; [|apply buildCmd_is_runc].
  destruct err as [e|].
  - unfold decodeContainerStateErr. destruct (json_Msg data) as [msg|e'] eqn:Hmsg;
      [destruct (Contains _ _) eqn:Hc|]; intros [= <- <-]; naive_solver.
  - destruct (json_State data) eqn:Hs; intros [= <- <-]; eauto using json_State_foreign.
Qed.

Lemma ListContainers_run w r w' :
  run h (ListContainers c) w = (r, w') →
  evolves (containers w) (containers w')
  ∧ match r with
    | FVal (Ok l) => ∀ id st,
        (∃ pid, mkContainerState id pid st ∈ l) ↔ containers w !! id = Some st
    | FVal (Err _) => True
    | _ => False
    end.
Proof.
  unfold ListContainers. cbn [mbind prog_mbind call prog_bind run].
  destruct (h _ (Output _) w) as [[data err] w1] eqn:Hc.
  apply host_list in Hc as [Hev Hd]; [|apply buildCmd_is_runc].
  destruct err as [e|]; simpl; intros [= <- <-]; [done|].
  destruct (json_ContainerStates data); eauto.
Qed.

Lemma SignalContainer_run id sig w r w' :
  run h (SignalContainer c id sig) w = (r, w') → evolves (containers w) (containers w').
Proof.
  unfold SignalContainer, run_cmd. cbn [mbind prog_mbind call prog_bind run].
  destruct (h _ (RunCmd _) w) as [cr w1] eqn:Hc.
  apply (host_kill id (Signal_String sig)) in Hc; [|apply buildCmd_is_runc].
  by intros [= <- <-].
Qed.

Lemma DeleteContainer_run id w r w' :
  run h (DeleteContainer c id) w = (r, w') →
  evolves_except id (containers w) (containers w')
  ∧ (r = FVal None → containers w' !! id = None).
Proof.
  unfold DeleteContainer, run_cmd. cbn [mbind prog_mbind call prog_bind run].
  destruct (h _ (RunCmd _) w) as [cr w1] eqn:Hc.
  apply (host_delete id) in Hc as [Hev Hd]; [|apply buildCmd_is_runc].
  intros [= <- <-]. split; [done|]. intros [= Hr]. auto.
Qed.

Lemma RunContainer_run pidfile bundle id detach out err w r w' :
  run h (RunContainer c pidfile bundle id detach out err) w = (r, w') →
  evolves_except id (containers w) (containers w')
  ∧ (∀ status, r = FVal (status, None) → status = 0%Z ∧ containers w !! id = None
       ∧ (if detach then is_Some (containers w' !! id) else containers w' !! id = None)).
Proof.
  unfold RunContainer. cbn [mbind prog_mbind call prog_bind run].
  destruct (h _ (RunCmd _) w) as [cr w1] eqn:Hc.
  apply (host_run pidfile bundle id detach) in Hc as [Hev Hd]; [|by split].
  destruct (cr_err cr) as [e|]; [destruct (cr_state cr)|]; intros [= <- <-];
    (split; [done|]); intros st [= <-]. destruct Hd as [H1 H2]; [done|]. by split_and!.
Qed.

Lemma Exec_run id command out err w r w' :
  run h (Exec c id command out err) w = (r, w') → evolves (containers w) (containers w').
Proof.
  unfold Exec, run_cmd. cbn [mbind prog_mbind call prog_bind run].
  pose proof (host_ordinary _ (Getenv "TERM") w I) as H1.
  destruct (h _ (Getenv "TERM") w) as [term w1] eqn:Hg. simpl in H1.
  cbn [mbind prog_mbind prog_bind run].
  destruct (h _ (RunCmd _) w1) as [cr w2] eqn:Hc.
  eapply host_exec in Hc; [|by split]. intros [= <- <-]. by transitivity (containers w1).
Qed.
End client.

(** ** A simulated host *)

(** The documents runc prints; what is not UTF-8 makes it fail. *)
Definition sim_plain (id st : string) : bool := utf8_valid id && utf8_valid st.

Definition sim_state_document (id st : string) : string :=
  json_compact (entry_json [] [] (mkContainerState id 42 st)).
Definition sim_error_document (msg : string) : string :=
  json_compact (JObject [("level", JString "error"); ("msg", JString msg)]).
Definition sim_list_document (m : containers_map) : string :=
  json_compact (JArray (entry_json [] [] <$>
    ((λ kv, mkContainerState kv.1 42 kv.2) <$> map_to_list m))).

Definition sim_client : RuncClient :=
  NewRuncClient "/var/vcap/packages/bpm/bin/runc" "/var/vcap/sys/run/bpm-runc" false.

(** A runc invocation without output: the error and the new containers. *)
Definition sim_runc (args : list string) (m : containers_map) : CmdResult * containers_map :=
  let failed := mkCmdResult (Some (ExitError 1)) (Some 1%Z) in
  let done := mkCmdResult None (Some 0%Z) in
  match args with
  | _ :: _ :: command :: rest =>
      if decide (command = "kill") then
        match rest with
        | id :: _ => match m !! id with
                     | Some _ => (done, <[id := "stopped"]> m)
                     | None => (failed, m)
                     end
        | [] => (failed, m)
        end
      else if decide (command = "delete") then
        match rest with _ :: id :: _ => (done, delete id m) | _ => (failed, m) end
      else if decide (command = "run") then
        match rest with
        | [_; _; id] => match m !! id with None => (done, m) | Some _ => (failed, m) end
        | [_; _; _; _; _; id] =>
            match m !! id with
            | None => (done, <[id := "running"]> m)
            | Some _ => (failed, m)
            end
        | _ => (failed, m)
        end
      else (done, m)
  | _ => (failed, m)
  end.

Definition sim_handler : handler containers_map := λ B c m,
  match c in sys B return B * containers_map with
  | RunCmd cmd =>
      if decide (cmd_path cmd = runcPath sim_client) then sim_runc (cmd_args cmd) m
      else (mkCmdResult None (Some 0%Z), m)
  | CombinedOutput cmd =>
      match cmd_args cmd with
      | [_; _; _; _; _; id] =>
          match m !! id with
          | Some st =>
              if sim_plain id st then ((sim_state_document id st, None), m)
              else (("", Some (ExitError 1)), m)
          | None => ((sim_error_document "container does not exist", Some (ExitError 1)), m)
          end
      | _ => (("", Some (ExitError 1)), m)
      end
  | Output _ =>
      if forallb (λ kv, sim_plain kv.1 kv.2) (map_to_list m) then ((sim_list_document m, None), m)
      else (("", Some (ExitError 1)), m)
  | c' => (default_answer c', m)
  end.

Lemma evolves_stopped id m : is_Some (m !! id) → evolves m (<[id := "stopped"]> m).
Proof.
  intros H id'. destruct (decide (id = id')) as [<-|Hne].
  - rewrite lookup_insert_eq. by right.
  - rewrite lookup_insert_ne by done. by left.
Qed.

Lemma evolves_except_insert id st m : evolves_except id m (<[id := st]> m).
Proof. intros id' Hne. rewrite lookup_insert_ne by done. by left. Qed.

Lemma evolves_except_delete id m : evolves_except id m (delete id m).
Proof. intros id' Hne. rewrite lookup_delete_ne by done. by left. Qed.

Lemma sim_RunCmd command extra cmd m :
  is_runc sim_client command extra cmd →
  sim_handler _ (RunCmd cmd) m = sim_runc ("--root" :: "" :: command :: extra) m.
Proof.
  intros [Hp Ha]. unfold sim_handler. rewrite Hp, Ha, decide_True by done. done.
Qed.

Lemma sim_entry_ok id st : sim_plain id st = true → entry_ok (mkContainerState id 42 st).
Proof. intros [Hi Hs]%andb_true_iff. by repeat split. Qed.

Lemma sim_state_decoded id st :
  sim_plain id st = true → json_State (sim_state_document id st) = Ok (mkState id st 42).
Proof.
  intros Hp%sim_entry_ok. destruct (fine_entry 0 [] [] _ (Forall_nil_2 _) (Forall_nil_2 _) Hp) as [Hr Hn].
  simpl. unfold Unmarshal_State, json_Unmarshal, sim_state_document.
  rewrite json_parse_compact; [done|done|unfold maxNestingDepth; lia].
Qed.

Lemma sim_list_decoded m :
  forallb (λ kv, sim_plain kv.1 kv.2) (map_to_list m) = true →
  json_ContainerStates (sim_list_document m)
  = Ok ((λ kv, mkContainerState kv.1 42 kv.2) <$> map_to_list m).
Proof.
  intros Hm. apply list_document_decoded; [by repeat constructor..|].
  apply Forall_fmap, Forall_forall. intros [id st] Hin. apply sim_entry_ok.
  rewrite forallb_forall in Hm. apply (Hm (id, st)). by apply list_elem_of_In.
Qed.

#[export] Instance sim_host : RuncHost sim_handler sim_client.
Proof.
  refine {| containers m := m |}.
  - intros B k m Hk. destruct k; try reflexivity.
    + simpl in *. rewrite decide_False by done. reflexivity.
    + simpl. destruct (cmd_args c) as [|? [|? [|? [|? [|? [|id [|]]]]]]]; try reflexivity.
      destruct (m !! id) as [st|]; [|reflexivity]. by destruct (sim_plain id st).
    + simpl. by destruct (forallb _ _).
  - intros id cmd m data err m' [Hp Ha]. unfold sim_handler. rewrite Ha. cbn [cmd_args buildCmd].
    cbn. destruct (m !! id) as [st|] eqn:Hm; [destruct (sim_plain id st) eqn:Hpl|];
      intros [= <- <- <-]; (split; [reflexivity|]).
    + intros s. change (json_State (sim_state_document id st) = Ok s → Some st = Some (st_status s)).
      rewrite sim_state_decoded by done. by intros [= <-].
    + by split; [|intros msg].
    + done.
  - intros cmd m data err m' _. unfold sim_handler. destruct (forallb _ _) eqn:Hall;
      intros [= <- <- <-]; (split; [reflexivity|]); [|done].
    intros _ l. rewrite sim_list_decoded by done.
    intros [= <-] id st. setoid_rewrite list_elem_of_fmap.
    rewrite <- elem_of_map_to_list. split.
    + intros (pid & [k v] & [= -> -> ->] & Hin). done.
    + intros Hin. exists 42%Z, (id, st). done.
  - intros id sig cmd m r m' Hc. rewrite (sim_RunCmd _ _ _ _ Hc). unfold sim_runc. simpl.
    destruct (m !! id) eqn:Hm; intros [= <- <-]; [|reflexivity]. by apply evolves_stopped.
  - intros args cmd m r m' Hc. rewrite (sim_RunCmd _ _ _ _ Hc). unfold sim_runc. simpl.
    by intros [= <- <-].
  - intros id cmd m r m' Hc. rewrite (sim_RunCmd _ _ _ _ Hc). unfold sim_runc. simpl.
    intros [= <- <-]. split; [apply evolves_except_delete|]. intros _. apply lookup_delete_eq.
  - intros pidfile bundle id detach cmd m r m' Hc. rewrite (sim_RunCmd _ _ _ _ Hc).
    unfold sim_runc. destruct detach; simpl; destruct (m !! id) eqn:Hm; intros [= <- <-];
      (split; [try reflexivity; apply evolves_except_insert|]); try done.
    intros _. rewrite lookup_insert_eq. split; [done|]. eauto.
  - intros id m. reflexivity.
Defined.
