(* ===== verification/Lifecycle.v ===== *)
(** * Package lifecycle: starting, stopping and inspecting processes
    (src/bpm/runc/lifecycle/lifecycle.go)

    [RuncLifecycle] holds the interfaces the package declares, as records of
    operations; [runc_client] is the implementation of [RuncClient] by package
    client.  Log lines are not modelled.  The loop of [StopProcess] ends when
    the container has stopped or the timer fires; it runs on fuel, and the
    theorems say how much is enough. *)

From S2P Require Import Prelude GoStrings GoPath JobID Bosh Specs Sys Config Host Client Containers.

(** Durations are in nanoseconds. *)
Definition Second : Z := 1000000000.
Definition ContainerSigQuitGracePeriod : Z := 2 * Second.
Definition ContainerStatePollInterval : Z := 1 * Second.

Definition ContainerStateRunning : string := "running".
Definition ContainerStatePaused : string := "paused".
Definition ContainerStateStopped : string := "stopped".

Definition timeoutError : error := Sentinel "failed to stop job within timeout".
Definition isNotExistError : error :=
  Sentinel "process is not running or could not be found".

Definition IsNotExist (err : option error) : bool :=
  bool_decide (err = Some isNotExistError).

(** ** Interfaces *)

Record RuncClientI := mkRuncClientI {
  rc_CreateBundle : string → Spec → User → prog (option error);
  rc_RunContainer : string → string → string → bool → writer → writer →
                    prog (Z * option error);
  rc_Exec : string → string → writer → writer → prog (option error);
  rc_ContainerState : string → prog (result (option State));
  rc_ListContainers : prog (result (list ContainerState));
  rc_SignalContainer : string → Signal → prog (option error);
  rc_DeleteContainer : string → prog (option error);
  rc_DestroyBundle : string → prog (option error)
}.

Record RuncAdapterI := mkRuncAdapterI {
  ra_CreateJobPrerequisites : BPMConfig → ProcessConfig → User → prog (result (nat * nat));
  ra_BuildSpec : BPMConfig → ProcessConfig → User → prog (result Spec)
}.

Record RuncLifecycle := NewRuncLifecycle {
  j_runcClient : RuncClientI;
  j_runcAdapter : RuncAdapterI;
  j_userFinder : string → prog (result User);
  j_commandRunner : Cmd → prog (option error);
  j_deleteFile : string → prog (option error)
}.

Definition runc_client `{JSON} (c : RuncClient) : RuncClientI :=
  mkRuncClientI CreateBundle (RunContainer c) (Exec c) (ContainerState_ c)
    (ListContainers c) (SignalContainer c) (DeleteContainer c) DestroyBundle.

(** [commandRunner.Run]. *)
Definition commandRunner_Run (cmd : Cmd) : prog (option error) := run_cmd cmd.

(** ** Container states *)

Definition containerStateToString (cs : string) : string :=
  if decide (cs = "creating") then ProcessStateCreating
  else if decide (cs = "created") then ProcessStateCreated
  else if decide (cs = "running") then ProcessStateRunning
  else if decide (cs = "stopped") then ProcessStateFailed
  else ProcessStateFailed.

Definition containerStateFromString (status : string) : string :=
  if decide (status = ProcessStateCreating) then "creating"
  else if decide (status = ProcessStateCreated) then "created"
  else if decide (status = ProcessStateRunning) then "running"
  else if decide (status = ProcessStateFailed) then "stopped"
  else ProcessStateFailed.

Definition newProcessFromContainerState (id status : string) (pid : Z) : Process :=
  mkProcess id pid (containerStateToString status).

(** ** Operations *)

Section operations.
Context (j : RuncLifecycle).
Abbreviation client := (j_runcClient j).

(** The files opened by [CreateJobPrerequisites] are returned only when every
    later step succeeds. *)
Definition setupProcess (bpmCfg : BPMConfig) (procCfg : ProcessConfig)
    : prog (result (nat * nat)) :=
  try_or (j_userFinder j VcapUser) id (λ user,
  try_or (ra_CreateJobPrerequisites (j_runcAdapter j) bpmCfg procCfg user)
    (λ err, ErrorfErr "failed to create system files: %s" [] err) (λ '(stdout, stderr),
  try_or (ra_BuildSpec (j_runcAdapter j) bpmCfg procCfg user) id (λ spec,
  check_or (rc_CreateBundle client (BundlePath bpmCfg) spec user)
    (λ err, ErrorfErr "bundle build failure: %s" [] err) (
  check_or (match pc_hooks procCfg with
            | None => Ret None
            | Some hooks =>
                j_commandRunner j (mkCmd (PreStart hooks) [] (Some (sp_env (s_process spec)))
                  false (ToFile stdout) (ToFile stderr))
            end) (λ err, ErrorfErr "prestart hook failed: %s" [] err) (
  Ret (Ok (stdout, stderr))))))).

(** The deferred calls close stderr, then stdout. *)
Definition close_both (stdout stderr : nat) : prog (option error) :=
  _ ← call (FileClose stderr);
  call (FileClose stdout).

Definition StartProcess (bpmCfg : BPMConfig) (procCfg : ProcessConfig) : prog (option error) :=
  try_err (setupProcess bpmCfg procCfg) id (λ '(stdout, stderr),
  deferring (
    r ← rc_RunContainer client (External (PidFile bpmCfg)) (BundlePath bpmCfg)
          (ContainerID bpmCfg) true (ToFile stdout) (ToFile stderr);
    Ret (r.2)) (close_both stdout stderr)).

Definition RunProcess (bpmCfg : BPMConfig) (procCfg : ProcessConfig)
    : prog (Z * option error) :=
  s ← setupProcess bpmCfg procCfg;
  match s with
  | Err err => Ret (0%Z, Some err)
  | Ok (stdout, stderr) =>
      deferring (
        rc_RunContainer client (External (PidFile bpmCfg)) (BundlePath bpmCfg)
          (ContainerID bpmCfg) false (ToFileAndStdout stdout) (ToFileAndStderr stderr))
        (close_both stdout stderr)
  end.

Definition StatProcess (cfg : BPMConfig) : prog (result Process) :=
  try_or (rc_ContainerState client (ContainerID cfg)) id (λ container,
  match container with
  | None => Ret (Err isNotExistError)
  | Some container =>
      Ret (Ok (newProcessFromContainerState (st_id container) (st_status container)
                 (st_pid container)))
  end).

Definition OpenShell (cfg : BPMConfig) (stdout stderr : writer) : prog (option error) :=
  rc_Exec client (ContainerID cfg) "/bin/bash" stdout stderr.

Definition ListProcesses : prog (result (list Process)) :=
  try_or (rc_ListContainers client) id (λ containers,
  Ret (Ok ((λ c, newProcessFromContainerState (cs_id c)
                   (containerStateFromString (cs_status c)) (cs_pid c)) <$> containers))).

(** The check after each query of the state: a nil state with a nil error is
    dereferenced; an error is only logged. *)
Definition state_stopped (state : result (option State)) : outcome bool :=
  match state with
  | Err _ => Val false
  | Ok None => Panics NilDereference
  | Ok (Some s) => Val (bool_decide (st_status s = ContainerStateStopped))
  end.

Fixpoint stop_loop (fuel : nat) (cfg : BPMConfig) : prog (option error) :=
  match fuel with
  | O => OutOfFuel
  | S fuel' =>
      ev ← call SelectTick;
      match ev with
      | Tick =>
          state ← rc_ContainerState client (ContainerID cfg);
          stopped ← lift_outcome (state_stopped state);
          if stopped : bool then Ret None else stop_loop fuel' cfg
      | Timeout =>
          _ ← rc_SignalContainer client (ContainerID cfg) Quit;
          _ ← call (Sleep ContainerSigQuitGracePeriod);
          Ret (Some timeoutError)
      end
  end.

Definition StopProcess (fuel : nat) (cfg : BPMConfig) (procCfg : ProcessConfig)
    (exitTimeout : Z) : prog (option error) :=
  check_err (rc_SignalContainer client (ContainerID cfg) (ParseShutdownSignal procCfg)) id (
  state ← rc_ContainerState client (ContainerID cfg);
  stopped ← lift_outcome (state_stopped state);
  if stopped : bool then Ret None
  else
    _ ← call (NewTimer exitTimeout);
    _ ← call (NewTicker ContainerStatePollInterval);
    deferring (stop_loop fuel cfg) (call TickerStop)).

Definition RemoveProcess (cfg : BPMConfig) : prog (option error) :=
  check_err (rc_DeleteContainer client (ContainerID cfg)) id (
  check_err (rc_DestroyBundle client (BundlePath cfg)) id (
  j_deleteFile j (External (PidFile cfg)))).
End operations.

(** ** Specification of StopProcess *)

(** What a call reports about a container's state. *)
Definition decode_state `{JSON} (r : string * option error) : result (option State) :=
  match r with
  | (data, Some err) =>
      match decodeContainerStateErr data err with None => Ok None | Some err => Err err end
  | (data, None) =>
      match json_State data with Err err => Err err | Ok state => Ok (Some state) end
  end.

Definition ev_state `{JSON} (e : event) : option (result (option State)) :=
  match e with
  | Ev c r => match c in sys B return B → option (result (option State)) with
              | CombinedOutput _ => λ r, Some (decode_state r)
              | _ => λ _, None
              end r
  end.

(** The states observed along a trace. *)
Definition observed `{JSON} (tr : list event) : list (result (option State)) :=
  omap ev_state tr.

Definition ev_command (e : event) : option (list string) :=
  match e with Ev c _ => match c with RunCmd cmd => Some (cmd_args cmd) | _ => None end end.

(** The commands run along a trace. *)
Definition commands_run (tr : list event) : list (list string) := omap ev_command tr.

Definition ev_tick (e : event) : option unit :=
  match e with
  | Ev c r => match c in sys B return B → option unit with
              | SelectTick => λ r, match r with Tick => Some tt | Timeout => None end
              | _ => λ _, None
              end r
  end.

(** How often the ticker fired. *)
Definition ticks (tr : list event) : nat := length (omap ev_tick tr).

(** [runc kill id sig]. *)
Definition kill_command (c : RuncClient) (id : string) (sig : Signal) : list string :=
  cmd_args (buildCmd c "kill" [id; Signal_String sig]).

(** The last observation is that the container has stopped. *)
Definition seen_stopped `{JSON} (tr : list event) : Prop :=
  ∃ s, last (observed tr) = Some (Ok (Some s)) ∧ st_status s = ContainerStateStopped.

(** ** Lemmas: traces of StopProcess *)

Section stop.
Context `{JSON} (c : RuncClient) (j : RuncLifecycle).
Context (Hclient : j_runcClient j = runc_client c).

Lemma observed_app t1 t2 : observed (t1 ++ t2) = observed t1 ++ observed t2.
Proof. apply omap_app. Qed.
Lemma commands_run_app t1 t2 : commands_run (t1 ++ t2) = commands_run t1 ++ commands_run t2.
Proof. apply omap_app. Qed.
Lemma ticks_app t1 t2 : ticks (t1 ++ t2) = ticks t1 + ticks t2.
Proof. unfold ticks. by rewrite omap_app, length_app. Qed.

Lemma observed_cons e tr :
  observed (e :: tr) = match ev_state e with Some x => x :: observed tr | None => observed tr end.
Proof. done. Qed.
Lemma commands_run_cons e tr :
  commands_run (e :: tr) =
  match ev_command e with Some x => x :: commands_run tr | None => commands_run tr end.
Proof. done. Qed.
Lemma ticks_cons e tr :
  ticks (e :: tr) = match ev_tick e with Some _ => S (ticks tr) | None => ticks tr end.
Proof. unfold ticks. simpl. by destruct (ev_tick e). Qed.

Lemma ContainerState_trace id tr f :
  exec_trace (ContainerState_ c id) tr f →
  ∃ r, tr = [Ev (CombinedOutput (buildCmd c "--log-format" ["json"; "state"; id])) r]
    ∧ f = FVal (decode_state r).
Proof.
  unfold ContainerState_. intros Htr.
  apply exec_trace_Call in Htr as (r & tr' & -> & Htr). exists r.
  unfold decode_state. destruct r as [data [e|]];
    [destruct (decodeContainerStateErr data e)|destruct (json_State data)];
    apply exec_trace_Ret in Htr as [-> ->]; done.
Qed.

Lemma SignalContainer_trace id sig tr f :
  exec_trace (SignalContainer c id sig) tr f →
  ∃ r, tr = [Ev (RunCmd (buildCmd c "kill" [id; Signal_String sig])) r] ∧ f = FVal (cr_err r).
Proof.
  unfold SignalContainer, run_cmd. intros Htr.
  apply exec_trace_Call in Htr as (r & tr' & -> & Htr).
  apply exec_trace_Ret in Htr as [-> ->]. eauto.
Qed.

(** A query of the state and the check of its answer. *)
Lemma state_check_trace {A} id (k : bool → prog A) tr f :
  exec_trace (prog_bind (ContainerState_ c id)
    (λ state, prog_bind (lift_outcome (state_stopped state)) k)) tr f →
  ∃ e t2 state, tr = e :: t2 ∧ ev_state e = Some state ∧ ev_command e = None
    ∧ ev_tick e = None ∧
    match state_stopped state with
    | Val b => exec_trace (k b) t2 f
    | Panics p => t2 = [] ∧ f = FPanic p
    end.
Proof.
  intros Htr. apply exec_trace_bind in Htr
    as [(s & t1 & t2 & -> & Hs & Htr)|[(x & Hs & ->)|[Hs ->]]];
    apply ContainerState_trace in Hs as (r & -> & Hs); [|done..].
  injection Hs as ->. eexists _, t2, _. split; [reflexivity|].
  split; [reflexivity|]. split; [done|]. split; [done|].
  destruct (state_stopped (decode_state r)) as [b|p]; [done|].
  by apply exec_trace_Crash in Htr.
Qed.

Lemma state_stopped_true state :
  state_stopped state = Val true →
  ∃ s, state = Ok (Some s) ∧ st_status s = ContainerStateStopped.
Proof.
  destruct state as [[s|]|e]; simpl; intros [= Hs]. apply bool_decide_eq_true in Hs. eauto.
Qed.
Lemma state_stopped_panics state p :
  state_stopped state = Panics p → state = Ok None ∧ p = NilDereference.
Proof. destruct state as [[s|]|e]; simpl; naive_solver. Qed.

(** The end of a stop that timed out: the timer fires, SIGQUIT is sent, and the grace
    period passes. *)
Definition timed_out (cfg : BPMConfig) (r : CmdResult) : list event :=
  [Ev SelectTick Timeout; Ev (RunCmd (buildCmd c "kill" [ContainerID cfg; Signal_String Quit])) r;
   Ev (Sleep ContainerSigQuitGracePeriod) tt].

(** States that keep the loop going. *)
Definition not_stopped (tr : list event) : Prop :=
  Forall (λ s, state_stopped s = Val false) (observed tr).

(** How a run of the loop can end. *)
Definition stop_ends (fuel : nat) (cfg : BPMConfig) (tr : list event) (f : final (option error))
    : Prop :=
  match f with
  | FVal None => commands_run tr = [] ∧ seen_stopped tr
  | FVal (Some e) => e = timeoutError
      ∧ ∃ t r, tr = t ++ timed_out cfg r ∧ commands_run t = [] ∧ not_stopped t
  | FPanic p => commands_run tr = [] ∧ p = NilDereference ∧ last (observed tr) = Some (Ok None)
  | FFuel => commands_run tr = [] ∧ ticks tr = fuel
  end.

(** One more tick and query in front. *)
Lemma stop_ends_tick fuel cfg e state tr f :
  ev_state e = Some state → state_stopped state = Val false → ev_command e = None →
  ev_tick e = None → stop_ends fuel cfg tr f →
  stop_ends (S fuel) cfg (Ev SelectTick Tick :: e :: tr) f.
Proof.
  intros He Hs Hc Ht.
  assert (commands_run (Ev SelectTick Tick :: e :: tr) = commands_run tr) as Hcmds
    by (by rewrite !commands_run_cons, Hc).
  assert (∀ t, observed (Ev SelectTick Tick :: e :: t) = state :: observed t) as Hobs
    by (intros t; by rewrite !observed_cons, He).
  unfold stop_ends, seen_stopped. rewrite Hcmds, Hobs, !ticks_cons, Ht, last_cons. simpl ev_tick.
  destruct f as [[err|]|p|].
  - intros (-> & t & r & -> & Ht0 & Hns). split; [done|].
    exists (Ev SelectTick Tick :: e :: t), r. split_and!; [done|by rewrite !commands_run_cons, Hc|].
    unfold not_stopped. rewrite Hobs. by constructor.
  - intros (Hcr & s & -> & Hst). eauto.
  - by intros (Hcr & -> & ->).
  - intros [-> ->]. done.
Qed.

Lemma stop_loop_trace fuel cfg tr f :
  exec_trace (stop_loop j fuel cfg) tr f → stop_ends fuel cfg tr f.
Proof.
  revert tr. induction fuel as [|fuel IH]; intros tr Htr; cbn [stop_loop] in Htr.
  { by destruct Htr as [-> ->]. }
  apply exec_trace_Call in Htr as ([|] & tr' & -> & Htr); rewrite Hclient in Htr.
  - apply state_check_trace in Htr as (e & t2 & state & -> & He & Hc & Ht & Htr).
    destruct (state_stopped state) as [[|]|p] eqn:Hst.
    + apply exec_trace_Ret in Htr as [-> ->]. apply state_stopped_true in Hst as (s & -> & Hs).
      split; [by rewrite !commands_run_cons, Hc|]. exists s. by rewrite !observed_cons, He.
    + by eapply stop_ends_tick; [..|apply IH].
    + destruct Htr as [-> ->]. apply state_stopped_panics in Hst as [-> ->].
      split; [by rewrite !commands_run_cons, Hc|]. by rewrite !observed_cons, He.
  - apply exec_trace_bind in Htr as [(s & t1 & t2 & -> & Hs & Htr)|[(x & Hs & ->)|[Hs ->]]];
      apply SignalContainer_trace in Hs as (r & -> & Hs); [|done..].
    apply exec_trace_Call in Htr as ([] & t3 & -> & Htr). apply exec_trace_Ret in Htr as [-> ->].
    split; [done|]. exists [], r. split_and!; [done..|constructor].
Qed.
End stop.

(** ** Clocks *)

(** [timer_left w] bounds how many ticks will be received before the timer
    started last fires: receiving a tick uses one up, starting a timer for
    [d] leaves at most [budget d], and nothing else adds to it. *)
Class TickBudget {W : Type} (h : handler W) (budget : Z → nat) : Type := {
  timer_left : W → nat;
  timer_tick : ∀ w w', h _ SelectTick w = (Tick, w') → timer_left w' < timer_left w;
  timer_new : ∀ d w, timer_left (h _ (NewTimer d) w).2 ≤ budget d;
  timer_other : ∀ B (k : sys B) w,
    match k with NewTimer _ => False | _ => True end →
    timer_left (h B k w).2 ≤ timer_left w
}.

Section stop_terminates.
Context `{JSON} (c : RuncClient) (j : RuncLifecycle).
Context (Hclient : j_runcClient j = runc_client c).
Context {W} (h : handler W) (budget : Z → nat) `{!TickBudget h budget}.

Lemma stop_loop_terminates fuel cfg w :
  timer_left w < fuel → (run h (stop_loop j fuel cfg) w).1 ≠ FFuel.
Proof.
  revert w. induction fuel as [|fuel IH]; intros w Hlt; [lia|].
  cbn [stop_loop]. rewrite Hclient. cbn [mbind prog_mbind call prog_bind run].
  destruct (h _ SelectTick w) as [[|] w1] eqn:Htick.
  - apply timer_tick in Htick. cbn [runc_client rc_ContainerState].
    unfold mbind, prog_mbind. rewrite run_bind. unfold ContainerState_. cbn [mbind prog_mbind call prog_bind run].
    pose proof (timer_other _ (CombinedOutput (buildCmd c "--log-format"
      ["json"; "state"; ContainerID cfg])) w1 I) as Hle.
    destruct (h _ (CombinedOutput _) w1) as [[data err] w2]. simpl in Hle.
    assert (timer_left w2 < fuel) as Hlt' by lia.
    destruct err as [e|]; [destruct (decodeContainerStateErr data e)
                          |destruct (json_State data)]; cbn [run].
    all: rewrite run_bind; cbn [state_stopped lift_outcome run]; try (by apply IH); try done.
    all: case_bool_decide; [done|by apply IH].
  - cbn [runc_client rc_SignalContainer]. unfold SignalContainer, run_cmd, mbind, prog_mbind.
    cbn [mbind prog_mbind call prog_bind run].
    destruct (h _ (RunCmd _) w1) as [cr w2]. cbn [mbind prog_mbind call prog_bind run].
    by destruct (h _ (Sleep _) w2) as [[] w3].
Qed.

Lemma StopProcess_terminates fuel cfg procCfg exitTimeout w :
  budget exitTimeout < fuel →
  (run h (StopProcess j fuel cfg procCfg exitTimeout) w).1 ≠ FFuel.
Proof.
  intros Hb. unfold StopProcess, check_err. rewrite Hclient.
  cbn [runc_client rc_SignalContainer rc_ContainerState].
  unfold SignalContainer, run_cmd. cbn [mbind prog_mbind call prog_bind run].
  destruct (h _ (RunCmd _) w) as [cr w1]. destruct (cr_err cr) as [e|]; [done|].
  unfold ContainerState_. cbn [mbind prog_mbind call prog_bind run].
  destruct (h _ (CombinedOutput _) w1) as [[data err] w2].
  assert (∀ b : bool, (run h (if b then Ret None else
    _ ← call (NewTimer exitTimeout); _ ← call (NewTicker ContainerStatePollInterval);
    deferring (stop_loop j fuel cfg) (call TickerStop)) w2).1 ≠ FFuel) as Hk.
  { intros [|]; [done|]. cbn [mbind prog_mbind call prog_bind run].
    pose proof (timer_new exitTimeout w2) as H1.
    destruct (h _ (NewTimer _) w2) as [[] w3].
    pose proof (timer_other _ (NewTicker ContainerStatePollInterval) w3 I) as H2.
    destruct (h _ (NewTicker _) w3) as [[] w4]. simpl in H1, H2.
    rewrite run_defer. pose proof (stop_loop_terminates fuel cfg w4 ltac:(lia)) as H3.
    destruct (run h (stop_loop j fuel cfg) w4) as [[a|p|] w5]; [| |done];
      cbn [mbind prog_mbind call prog_bind run]; by destruct (h _ TickerStop w5). }
  destruct err as [e|]; [destruct (decodeContainerStateErr data e)
                        |destruct (json_State data)];
    cbn [prog_bind state_stopped lift_outcome run]; try apply (Hk false); try done.
  apply Hk.
Qed.
End stop_terminates.

(** ** What the package relies on

    [ContainerService] is the contract of the [RuncClient] interface in terms of
    the containers of the host; [QuietSetup] says of the other interfaces that
    they neither create nor remove containers.  The operations are verified
    against these two classes. *)

(** Calls that concern open files, the clock or a job's configuration. *)
Definition plain_call {B} (k : sys B) : Prop :=
  match k with
  | FileClose _ | ReadFile _ | NewTimer _ | NewTicker _ | TickerStop | SelectTick | Sleep _ =>
      True
  | _ => False
  end.

Section contracts.
Context {W : Type} (h : handler W).

Class ContainerService (cl : RuncClientI) : Type := {
  view : W → containers_map;
  svc_state : ∀ id w r w', run h (rc_ContainerState cl id) w = (r, w') →
    evolves (view w) (view w')
    ∧ match r with
      | FVal (Ok (Some s)) => view w !! id = Some (st_status s)
      | FVal (Ok None) => view w !! id = None
      | FVal (Err e) => foreign e
      | _ => False
      end;
  svc_list : ∀ w r w', run h (rc_ListContainers cl) w = (r, w') →
    evolves (view w) (view w')
    ∧ match r with
      | FVal (Ok l) => ∀ id st,
          (∃ pid, mkContainerState id pid st ∈ l) ↔ view w !! id = Some st
      | FVal (Err _) => True
      | _ => False
      end;
  svc_signal : ∀ id sig w r w', run h (rc_SignalContainer cl id sig) w = (r, w') →
    evolves (view w) (view w');
  svc_exec : ∀ id cmd out err w r w', run h (rc_Exec cl id cmd out err) w = (r, w') →
    evolves (view w) (view w');
  svc_delete : ∀ id w r w', run h (rc_DeleteContainer cl id) w = (r, w') →
    evolves_except id (view w) (view w') ∧ (r = FVal None → view w' !! id = None);
  svc_run : ∀ pidfile bundle id detach out err w r w',
    run h (rc_RunContainer cl pidfile bundle id detach out err) w = (r, w') →
    evolves_except id (view w) (view w')
    ∧ (∀ status, r = FVal (status, None) → status = 0%Z ∧ view w !! id = None
         ∧ (if detach then is_Some (view w' !! id) else view w' !! id = None));
  svc_bundle : ∀ bundle spec user w r w',
    run h (rc_CreateBundle cl bundle spec user) w = (r, w') → evolves (view w) (view w');
  svc_call : ∀ B (k : sys B) w, plain_call k → evolves (view w) (view (h B k w).2)
}.

Definition quiet `{ContainerService cl} {A} (p : prog A) : Prop :=
  ∀ w r w', run h p w = (r, w') → evolves (view w) (view w').

Class QuietSetup (j : RuncLifecycle) `{!ContainerService (j_runcClient j)}
    (cfg : BPMConfig) (procCfg : ProcessConfig) : Prop := {
  quiet_user : quiet (j_userFinder j VcapUser);
  quiet_prerequisites : ∀ user,
    quiet (ra_CreateJobPrerequisites (j_runcAdapter j) cfg procCfg user);
  quiet_spec : ∀ user, quiet (ra_BuildSpec (j_runcAdapter j) cfg procCfg user);
  quiet_hook : ∀ hooks env out err, pc_hooks procCfg = Some hooks →
    quiet (j_commandRunner j (mkCmd (PreStart hooks) [] env false out err))
}.

Class QuietRemoval (j : RuncLifecycle) `{!ContainerService (j_runcClient j)}
    (cfg : BPMConfig) : Prop := {
  quiet_bundle : quiet (rc_DestroyBundle (j_runcClient j) (BundlePath cfg));
  quiet_pidfile : quiet (j_deleteFile j (External (PidFile cfg)))
}.
End contracts.

(** Package client fulfils the contract on every host where runc behaves as
    documented. *)
#[export, refine] Instance runc_client_service {W} (h : handler W) (c : RuncClient) `{JSON}
    `{!RuncHost h c} : ContainerService h (runc_client c) := {| view := containers |}.
Proof.
  - apply ContainerState_run.
  - apply ListContainers_run.
  - apply SignalContainer_run.
  - apply Exec_run.
  - apply DeleteContainer_run.
  - apply RunContainer_run.
  - intros bundle spec user w r w' Hr.
    pose proof (ordinary_run h c (CreateBundle bundle spec user) w) as Ho.
    cbn [runc_client rc_CreateBundle] in Hr. rewrite Hr in Ho. apply Ho.
    unfold CreateBundle. all_calls_tac.
  - intros B k w Hk. apply host_ordinary. by destruct k.
Defined.

(** ** Lemmas: the operations against the contracts *)

Section operations_lemmas.
Context {W : Type} (h : handler W) (j : RuncLifecycle).
Context `{HS : !ContainerService h (j_runcClient j)}.
Context (cfg : BPMConfig) (procCfg : ProcessConfig).

Lemma quiet_ret {A} (a : A) : quiet h (Ret a).
Proof. intros w r w' [= <- <-]. reflexivity. Qed.

Lemma quiet_bind {A B} (p : prog A) (k : A → prog B) :
  quiet h p → (∀ a, quiet h (k a)) → quiet h (prog_bind p k).
Proof.
  intros Hp Hk w r w' (f & w1 & H1 & H2)%run_bind_inv. apply Hp in H1.
  destruct f; [|by destruct H2 as [_ ->]..].
  apply Hk in H2. by transitivity (view h w1).
Qed.

Lemma quiet_defer {A B} (p : prog A) (d : prog B) :
  quiet h p → quiet h d → quiet h (deferring p d).
Proof.
  intros Hp Hd w r w' Hr. rewrite run_defer in Hr.
  destruct (run h p w) as [f w1] eqn:H1. apply Hp in H1.
  assert (∀ f, quiet h (prog_bind d (λ _, resume f : prog A))) as Hk.
  { intros f0. apply quiet_bind; [done|]. intros _. destruct f0; by intros ??? [= <- <-]. }
  destruct f; [apply (Hk (FVal a)) in Hr|apply (Hk (FPanic p0)) in Hr|by injection Hr as <- <-];
    by transitivity (view h w1).
Qed.

Lemma quiet_call {B} (k : sys B) :
  plain_call k → quiet h (call k).
Proof.
  intros Hk w r w'. simpl. pose proof (svc_call h _ k w Hk) as He.
  destruct (h B k w). by intros [= <- <-].
Qed.

Lemma quiet_try_or {A B} (p : prog (result A)) g (k : A → prog (result B)) :
  quiet h p → (∀ a, quiet h (k a)) → quiet h (try_or p g k).
Proof. intros. apply quiet_bind; [done|]. intros [a|e]; [done|apply quiet_ret]. Qed.

Lemma quiet_check_or {B} (p : prog (option error)) g (k : prog (result B)) :
  quiet h p → quiet h k → quiet h (check_or p g k).
Proof. intros. apply quiet_bind; [done|]. intros [e|]; [apply quiet_ret|done]. Qed.

Lemma quiet_state id : quiet h (rc_ContainerState (j_runcClient j) id).
Proof. intros w r w' Hr. by apply (svc_state h) in Hr as [? _]. Qed.

Lemma setupProcess_quiet `{!QuietSetup h j cfg procCfg} :
  quiet h (setupProcess j cfg procCfg).
Proof.
  apply quiet_try_or; [exact (quiet_user h (cfg:=cfg) (procCfg:=procCfg))|]. intros user.
  apply quiet_try_or; [by apply quiet_prerequisites|]. intros [out err].
  apply quiet_try_or; [by apply quiet_spec|]. intros spec.
  apply quiet_check_or; [intros w r w'; apply svc_bundle|].
  apply quiet_check_or; [|apply quiet_ret].
  destruct (pc_hooks procCfg) eqn:Hh; [by eapply quiet_hook|apply quiet_ret].
Qed.

Lemma close_both_quiet out err : quiet h (close_both out err).
Proof. apply quiet_bind; [by apply quiet_call|]. intros _. by apply quiet_call. Qed.

Lemma close_both_run {A} out err (p : prog A) w r w' :
  run h (deferring p (close_both out err)) w = (r, w') →
  ∃ w1, run h p w = (r, w1) ∧ evolves (view h w1) (view h w').
Proof.
  rewrite run_defer. destruct (run h p w) as [f w1] eqn:H1. intros Hr. exists w1.
  assert (∀ f : final A, run h (prog_bind (close_both out err) (λ _, resume f)) w1 = (r, w') →
    f ≠ FFuel → f = r ∧ evolves (view h w1) (view h w')) as Hk.
  { intros f0 Hf0 Hne. apply run_bind_inv in Hf0 as (f2 & w2 & H2 & H3).
    apply close_both_quiet in H2 as He. simpl in H2.
    destruct (h _ (FileClose err) w1) as [? w3], (h _ (FileClose out) w3). injection H2 as <- <-.
    destruct f0; by injection H3 as <- <-. }
  destruct f as [a|x|]; [| |by injection Hr as <- <-].
  - destruct (Hk (FVal a) Hr) as [-> He]; done.
  - destruct (Hk (FPanic x) Hr) as [-> He]; done.
Qed.

Lemma StartProcess_run `{!QuietSetup h j cfg procCfg} w r w' :
  run h (StartProcess j cfg procCfg) w = (r, w') →
  evolves_except (ContainerID cfg) (view h w) (view h w')
  ∧ (r = FVal None → is_Some (view h w' !! ContainerID cfg)).
Proof.
  unfold StartProcess, try_err. intros (f & w1 & H1 & H2)%run_bind_inv.
  apply setupProcess_quiet in H1 as He1.
  destruct f as [[[out err]|e]|x|];
    [|injection H2 as <- <-|destruct H2 as [-> ->]..].
  2-4: split; [by auto with bpm|done].
  apply close_both_run in H2 as (w2 & H2 & He3).
  apply run_bind_inv in H2 as (f & w3 & H2 & H3). apply (svc_run h) in H2 as [He2 Hrun].
  assert (w3 = w2) as -> by (destruct f; naive_solver). split.
  - transitivity (view h w1); [by auto with bpm|].
    transitivity (view h w2); auto with bpm.
  - intros ->. apply (evolves_is_Some _ _ _ He3). destruct f as [[status e]|x|]; [|naive_solver..].
    injection H3 as ->. by apply (Hrun status).
Qed.

Lemma RunProcess_run `{!QuietSetup h j cfg procCfg} w r w' :
  run h (RunProcess j cfg procCfg) w = (r, w') →
  evolves_except (ContainerID cfg) (view h w) (view h w')
  ∧ (∀ status, r = FVal (status, None) → status = 0%Z ∧ view h w' !! ContainerID cfg = None).
Proof.
  unfold RunProcess. intros (f & w1 & H1 & H2)%run_bind_inv.
  apply setupProcess_quiet in H1 as He1.
  destruct f as [[[out err]|e]|x|];
    [|injection H2 as <- <-|destruct H2 as [-> ->]..].
  2-4: split; [by auto with bpm|done].
  apply close_both_run in H2 as (w2 & H2 & He3). apply (svc_run h) in H2 as [He2 Hrun]. split.
  - transitivity (view h w1); [by auto with bpm|].
    transitivity (view h w2); auto with bpm.
  - intros status ->. destruct (Hrun status eq_refl) as (? & _ & Hn).
    split; [done|]. by apply (evolves_None _ _ _ He3).
Qed.

Lemma StatProcess_run w r w' :
  run h (StatProcess j cfg) w = (r, w') →
  evolves (view h w) (view h w')
  ∧ match r with
    | FVal (Ok p) => ∃ st, view h w !! ContainerID cfg = Some st
        ∧ pr_status p = containerStateToString st
    | FVal (Err e) => if IsNotExist (Some e) then view h w !! ContainerID cfg = None
                      else foreign e
    | _ => False
    end.
Proof.
  unfold StatProcess, try_or. intros (f & w1 & H1 & H2)%run_bind_inv.
  apply (svc_state h) in H1 as [He Hv].
  destruct f as [[[s|]|e]|x|]; [injection H2 as <- <-..|done|done]; (split; [done|]).
  - by exists (st_status s).
  - done.
  - simpl. unfold IsNotExist. by case_bool_decide; simplify_eq.
Qed.

Lemma RemoveProcess_run `{!QuietRemoval h j cfg} w r w' :
  run h (RemoveProcess j cfg) w = (r, w') →
  evolves_except (ContainerID cfg) (view h w) (view h w')
  ∧ (r = FVal None → view h w' !! ContainerID cfg = None).
Proof.
  unfold RemoveProcess, check_err. intros (f & w1 & H1 & H2)%run_bind_inv.
  apply (svc_delete h) in H1 as [He1 Hd].
  destruct f as [[e|]|x|]; [injection H2 as <- <-| |destruct H2 as [-> ->]..];
    [done| |done|done].
  assert (quiet h (prog_bind (rc_DestroyBundle (j_runcClient j) (BundlePath cfg)) (λ e,
    match e with None => j_deleteFile j (External (PidFile cfg))
    | Some e => Ret (Some (id e)) end))) as Hq.
  { apply quiet_bind; [by eapply quiet_bundle|].
    intros [e|]; [apply quiet_ret|by eapply quiet_pidfile]. }
  apply Hq in H2 as He2. split.
  - transitivity (view h w1); auto with bpm.
  - intros _. apply (evolves_None _ _ _ He2). by apply Hd.
Qed.

Lemma stop_loop_quiet fuel : quiet h (stop_loop j fuel cfg).
Proof.
  induction fuel as [|fuel IH]; cbn [stop_loop]; [by intros w r w' [= <- <-]|].
  apply quiet_bind; [by apply quiet_call|]. intros [|].
  - apply quiet_bind; [apply quiet_state|]. intros state.
    apply quiet_bind; [destruct (state_stopped state); by intros w r w' [= <- <-]|].
    intros [|]; [apply quiet_ret|exact IH].
  - apply quiet_bind; [intros w r w'; apply svc_signal|]. intros _.
    apply quiet_bind; [by apply quiet_call|]. intros _. apply quiet_ret.
Qed.

Lemma StopProcess_quiet fuel exitTimeout :
  quiet h (StopProcess j fuel cfg procCfg exitTimeout).
Proof.
  apply quiet_bind; [intros w r w'; apply svc_signal|]. intros [e|]; [apply quiet_ret|].
  apply quiet_bind; [apply quiet_state|]. intros state.
  apply quiet_bind; [destruct (state_stopped state); by intros w r w' [= <- <-]|].
  intros [|]; [apply quiet_ret|].
  apply quiet_bind; [by apply quiet_call|]. intros _.
  apply quiet_bind; [by apply quiet_call|]. intros _.
  apply quiet_defer; [apply stop_loop_quiet|by apply quiet_call].
Qed.
End operations_lemmas.

(** The part of [StopProcess] after the first check: the timer, the loop, and the ticker
    stopped however the loop ends. *)
Definition armed (exitTimeout : Z) : list event :=
  [Ev (NewTimer exitTimeout) tt; Ev (NewTicker ContainerStatePollInterval) tt].

Lemma stop_tail_trace `{JSON} j fuel cfg exitTimeout tr f :
  exec_trace (_ ← call (NewTimer exitTimeout);
    _ ← call (NewTicker ContainerStatePollInterval);
    deferring (stop_loop j fuel cfg) (call TickerStop)) tr f →
  ∃ tl, exec_trace (stop_loop j fuel cfg) tl f
    ∧ tr = armed exitTimeout ++ tl ++ match f with FFuel => [] | _ => [Ev TickerStop tt] end.
Proof.
  intros Htr. apply exec_trace_Call in Htr as ([] & t1 & -> & Htr).
  apply exec_trace_Call in Htr as ([] & t2 & -> & Htr).
  apply exec_trace_defer in Htr as [(f0 & tl & t4 & -> & Hl & Hf0 & Htr)|[Hl ->]].
  - apply exec_trace_Call in Htr as ([] & t5 & -> & Htr). exists tl.
    destruct f0; [|..|done]; by destruct Htr as [-> ->].
  - exists t2. by rewrite (right_id_L [] (++)).
Qed.

(** The status bpm shows does not depend on whether it went through
    [containerStateFromString] first, as in [ListProcesses], or not, as in
    [StatProcess]. *)
Lemma containerState_from_to s :
  containerStateToString (containerStateFromString s) = containerStateToString s.
Proof.
  unfold containerStateFromString, containerStateToString, ProcessStateCreating,
    ProcessStateCreated, ProcessStateRunning, ProcessStateFailed.
  repeat case_decide; by simplify_eq.
Qed.

(** ** Properties *)

(** C9: the stop protocol: whatever runc and the clock answer, [StopProcess] sends the
    configured shutdown signal exactly once and first.  Then either that failed and its
    error is returned at once; or it returns nil, the last state it saw was [stopped] and
    no other signal was sent; or it armed a timer for the exit timeout, no state it saw
    until that timer fired was [stopped], and only then it sent SIGQUIT, once, waited for
    the grace period, stopped the ticker and returned the timeout error; or a query
    answered that the container no longer exists and the nil state is dereferenced, with
    no other signal sent; or the ticker fired as often as the fuel allows. *)
Theorem stop_process_protocol `{JSON} c j fuel cfg procCfg exitTimeout tr f
  (Hclient : j_runcClient j = runc_client c)
  (Htr : exec_trace (StopProcess j fuel cfg procCfg exitTimeout) tr f) :
  let shutdown := kill_command c (ContainerID cfg) (ParseShutdownSignal procCfg) in
  (∃ e r, f = FVal (Some e) ∧ cr_err r = Some e
     ∧ tr = [Ev (RunCmd (buildCmd c "kill" [ContainerID cfg;
               Signal_String (ParseShutdownSignal procCfg)])) r])
  ∨ (f = FVal None ∧ commands_run tr = [shutdown] ∧ seen_stopped tr)
  ∨ (f = FVal (Some timeoutError)
     ∧ ∃ t0 t1 r, tr = t0 ++ armed exitTimeout ++ t1 ++ timed_out c cfg r ++ [Ev TickerStop tt]
         ∧ commands_run t0 = [shutdown] ∧ commands_run t1 = []
         ∧ not_stopped t0 ∧ not_stopped t1)
  ∨ (f = FPanic NilDereference ∧ commands_run tr = [shutdown]
     ∧ last (observed tr) = Some (Ok None))
  ∨ (f = FFuel ∧ commands_run tr = [shutdown] ∧ ticks tr = fuel).
Proof.
  unfold StopProcess, check_err in Htr. rewrite Hclient in Htr.
  apply exec_trace_bind in Htr as [(e & t1 & t2 & -> & Hs & Htr)|[(x & Hs & ->)|[Hs ->]]];
    apply SignalContainer_trace in Hs as (r & -> & Hs); [|done..].
  injection Hs as ->. destruct (cr_err r) as [e|] eqn:Hr.
  { apply exec_trace_Ret in Htr as [-> ->]. left. by exists e, r. }
  right. apply state_check_trace in Htr as (e & t3 & state & -> & He & Hc & Ht & Htr).
  set (first := Ev (RunCmd (buildCmd c "kill" [ContainerID cfg;
    Signal_String (ParseShutdownSignal procCfg)])) r).
  assert (∀ t, commands_run ([first] ++ e :: t) =
    kill_command c (ContainerID cfg) (ParseShutdownSignal procCfg) :: commands_run t) as Hcmds.
  { intros t. rewrite commands_run_app, !commands_run_cons, Hc. done. }
  assert (∀ t, observed ([first] ++ e :: t) = state :: observed t) as Hobs.
  { intros t. rewrite observed_app, !observed_cons, He. done. }
  destruct (state_stopped state) as [[|]|p] eqn:Hst.
  - apply exec_trace_Ret in Htr as [-> ->]. left. split; [done|].
    apply state_stopped_true in Hst as (s & -> & Hss).
    rewrite Hcmds. split; [done|]. exists s. by rewrite Hobs.
  - apply stop_tail_trace in Htr as (tl & Hl & ->).
    apply (stop_loop_trace c j Hclient) in Hl as Hend. unfold seen_stopped.
    rewrite Hcmds, Hobs, ticks_app, !ticks_cons, Ht. unfold armed. simpl app.
    rewrite !commands_run_cons, !observed_cons, !ticks_cons. simpl ev_command. simpl ev_state. simpl ev_tick.
    rewrite commands_run_app, observed_app, ticks_app.
    destruct f as [[err|]|p|].
    + destruct Hend as (-> & t & r' & -> & Ht0 & Hns). right; left. split; [done|].
      exists [first; e], t, r'. split_and!; [by rewrite <- !(assoc_L (++))| |done| |done].
      * by rewrite !commands_run_cons, Hc.
      * unfold not_stopped. rewrite !observed_cons, He. by repeat constructor.
    + destruct Hend as (Hcr & s & Hlast & Hss). left.
      change (observed [Ev TickerStop tt]) with (@nil (result (option State))).
      rewrite Hcr, (right_id_L [] (++)).
      split_and!; [done..|]. exists s. by rewrite last_cons, Hlast.
    + destruct Hend as (Hcr & -> & Hlast). right; right; left.
      change (observed [Ev TickerStop tt]) with (@nil (result (option State))).
      rewrite Hcr, (right_id_L [] (++)).
      by rewrite last_cons, Hlast.
    + destruct Hend as [Hcr Hn]. right; right; right. rewrite Hcr, Hn. unfold ticks. simpl.
      by rewrite Nat.add_0_r.
  - destruct Htr as [-> ->]. apply state_stopped_panics in Hst as [-> ->].
    right; right; left. by rewrite Hcmds, Hobs.
Qed.

(** A lifecycle on the simulated host, whose adapter does no preparation. *)
Definition sim_lifecycle : RuncLifecycle :=
  NewRuncLifecycle (runc_client sim_client)
    (mkRuncAdapterI (λ _ _ _, Ret (Ok (3, 4)))
       (λ _ _ _, Ret (Err (NewError "no specification"))))
    Lookup commandRunner_Run (λ p, call (RemoveAll p)).
Definition sim_bpmCfg : BPMConfig := NewBPMConfig (NewEnv "") "server" "worker".
Definition sim_procCfg : ProcessConfig :=
  mkProcessConfig "worker" "/bin/worker" [] None [] [] false None None false "" None "INT".

Lemma stop_process_witness : ∃ tr,
  exec_trace (StopProcess sim_lifecycle 5 sim_bpmCfg sim_procCfg (15 * Second)) tr (FVal None)
  ∧ commands_run tr = [kill_command sim_client (ContainerID sim_bpmCfg) Int].
Proof.
  assert ((run sim_handler (StopProcess sim_lifecycle 5 sim_bpmCfg sim_procCfg (15 * Second))
    {[ContainerID sim_bpmCfg := "running"]}).1 = FVal None) as Hf by (vm_compute; reflexivity).
  apply run_ends in Hf as [tr Htr]. exists tr. split; [exact Htr|].
  destruct (stop_process_protocol sim_client sim_lifecycle 5 sim_bpmCfg sim_procCfg
    (15 * Second) tr _ eq_refl Htr) as [(e & r & Hf & _)|[(_ & Hc & _)|Hother]];
    [discriminate Hf|exact Hc|].
  destruct Hother as [[Hf _]|[[Hf _]|[Hf _]]]; discriminate Hf.
Defined.

(** C10: stopping terminates: on a host whose ticker fires at most
    [budget exitTimeout] times before a timer of [exitTimeout] does, one more
    unit of fuel is enough for [StopProcess] to return (or to panic), so the
    loop ends. *)
Theorem stop_process_terminates `{JSON} {W} (h : handler W) budget `{!TickBudget h budget}
  c j fuel cfg procCfg exitTimeout w
  (Hclient : j_runcClient j = runc_client c) (Hfuel : budget exitTimeout < fuel) :
  let f := (run h (StopProcess j fuel cfg procCfg exitTimeout) w).1 in
  (∃ r, f = FVal r) ∨ (∃ p, f = FPanic p).
Proof.
  intros f. pose proof (StopProcess_terminates c j Hclient h budget fuel cfg procCfg
    exitTimeout w Hfuel) as Hf. fold f in Hf. destruct f as [r|p|]; eauto. done.
Qed.

(** A clock with a ticker of [ContainerStatePollInterval], on a host that never
    reports a stopped container; the world is the number of ticks left. *)
Definition clock_handler : handler nat := λ B c n,
  match c in sys B return B * nat with
  | SelectTick => match n with S n' => (Tick, n') | O => (Timeout, O) end
  | NewTimer d => (tt, Z.to_nat (d / ContainerStatePollInterval))
  | c' => (default_answer c', n)
  end.

#[export] Instance clock_budget :
  TickBudget clock_handler (λ d, Z.to_nat (d / ContainerStatePollInterval)).
Proof.
  refine {| timer_left n := n |}.
  - intros [|n] n' [=]. subst. lia.
  - intros d n. simpl. lia.
  - intros B k n Hk. destruct k; simpl; try lia. destruct n; simpl; lia.
Defined.

Lemma stop_process_terminates_witness :
  run clock_handler (StopProcess sim_lifecycle 16 sim_bpmCfg sim_procCfg (15 * Second)) 0
  = (FVal (Some timeoutError), 0).
Proof.
  destruct (stop_process_terminates clock_handler _ sim_client sim_lifecycle 16 sim_bpmCfg
    sim_procCfg (15 * Second) 0 eq_refl ltac:(by apply Nat.ltb_lt)) as [[r Hr]|[p Hp]];
    [|vm_compute in Hp; discriminate Hp].
  vm_compute. reflexivity.
Defined.

(** What [ListProcesses] and [StatProcess] report: on a host where runc
    behaves as documented, every container is listed once per entry of runc's
    list with the status [running], [created] or [creating] as runc has it and
    [failed] for everything else, and nothing else is listed; [StatProcess]
    gives the same status for a container, and the not-exist error only if there
    is none. *)
Lemma processes_reported {W} (h : handler W) j `{!ContainerService h (j_runcClient j)}
  cfg w r w' s w''
  (Hl : run h (ListProcesses j) w = (FVal (Ok r), w'))
  (Hs : run h (StatProcess j cfg) w = (FVal s, w'')) :
  (∀ id status, (∃ pid, mkProcess id pid status ∈ r) ↔
     ∃ st, view h w !! id = Some st ∧ status = containerStateToString st)
  ∧ match s with
    | Ok p => ∃ st, view h w !! ContainerID cfg = Some st
                ∧ pr_status p = containerStateToString st
    | Err e => IsNotExist (Some e) = true → view h w !! ContainerID cfg = None
    end.
Proof.
  apply (StatProcess_run h j cfg) in Hs as [_ Hs]. split.
  2:{ destruct s as [p|e]; [done|]. intros He. by rewrite He in Hs. }
  unfold ListProcesses, try_or in Hl. apply run_bind_inv in Hl as (f & w1 & H1 & H2).
  apply (svc_list h) in H1 as [_ Hv]. destruct f as [[l|e]|x|]; [|done|naive_solver..].
  injection H2 as <- _. intros id status. setoid_rewrite list_elem_of_fmap. split.
  - intros (pid & [cid cpid cst] & [= -> -> ->] & Hin). exists cst.
    rewrite containerState_from_to. split; [|done]. apply Hv. eauto.
  - intros (st & Hst & ->). apply Hv in Hst as [pid Hin].
    exists pid, (mkContainerState id pid st). split; [|done].
    unfold newProcessFromContainerState. simpl. by rewrite containerState_from_to.
Qed.

Lemma processes_reported_witness :
  ∃ r, (run sim_handler (ListProcesses sim_lifecycle)
         {[ContainerID sim_bpmCfg := "paused"]}).1 = FVal (Ok r)
  ∧ ∃ pid, mkProcess (ContainerID sim_bpmCfg) pid "failed" ∈ r.
Proof.
  set (w := {[ContainerID sim_bpmCfg := "paused"]} : containers_map).
  assert (∃ r w', run sim_handler (ListProcesses sim_lifecycle) w = (FVal (Ok r), w'))
    as (r & w' & Hl) by (do 2 eexists; reflexivity).
  assert (∃ s w', run sim_handler (StatProcess sim_lifecycle sim_bpmCfg) w = (FVal s, w'))
    as (s & w'' & Hs) by (do 2 eexists; reflexivity).
  exists r. split; [by rewrite Hl|].
  destruct (processes_reported sim_handler sim_lifecycle sim_bpmCfg w r w' s w'' Hl Hs)
    as [Hr _].
  apply Hr. exists "paused". split; reflexivity.
Defined.
