(* ===== verification/Tabwriter.v ===== *)
(** * text/tabwriter

    The table formatter behind [bpm list], as [tabwriter.NewWriter(out, 0, 0, 1, ' ', 0)]
    configures it: no minimum width, one space of padding, no flags.  Text is split
    into cells by tabs (and vertical tabs) and into lines by newlines and form feeds; a
    tab-terminated cell belongs to a column of the consecutive lines that have such a
    cell at its position, and the cells of one column are padded to one width.  Bytes
    are collected until a line of a single cell, a form feed or [Flush] writes them. *)

From S2P Require Import Prelude GoStrings Specs Sys.
From Stdlib Require Import Ascii.

(** [utf8.RuneCount]: an invalid byte is one rune. *)
Fixpoint rune_count_loop (fuel : nat) (s : string) : Z :=
  match fuel, s with
  | S fuel', String c s' => 1 + rune_count_loop fuel' (rune_rest c s')
  | _, _ => 0
  end%Z.
Definition RuneCount (s : string) : Z := rune_count_loop (String.length s) s.

(** ** The writer *)

(** A cell keeps its text, where the package keeps the size of its slice of the
    buffer. *)
Record cell := mkCell { c_text : string; c_width : Z }.

(** [w_lines] are the terminated lines and [w_cells] the cells of the last one;
    [w_text], [w_width] describe the cell being collected, whose last bytes [w_tail]
    ([buf[pos:]]) are not measured yet; [w_escape] is set inside escaped text. *)
Record writer := mkWriter {
  w_lines : list (list cell);
  w_cells : list cell;
  w_text : string;
  w_width : Z;
  w_tail : string;
  w_escape : bool
}.

Definition tabwriter_NewWriter : writer := mkWriter [] [] "" 0 "" false.

Definition tw_append (b : writer) (text : string) : writer :=
  mkWriter (w_lines b) (w_cells b) (w_text b +:+ text) (w_width b) (w_tail b +:+ text) (w_escape b).
Definition updateWidth (b : writer) : writer :=
  mkWriter (w_lines b) (w_cells b) (w_text b) (w_width b + RuneCount (w_tail b))%Z "" (w_escape b).
Definition terminateCell (b : writer) : writer :=
  mkWriter (w_lines b) (w_cells b ++ [mkCell (w_text b) (w_width b)]) "" 0 (w_tail b) (w_escape b).
Definition addLine (b : writer) : writer :=
  mkWriter (w_lines b ++ [w_cells b]) [] (w_text b) (w_width b) (w_tail b) (w_escape b).
Definition set_escape (e : bool) (b : writer) : writer :=
  mkWriter (w_lines b) (w_cells b) (w_text b) (w_width b) (w_tail b) e.
(** The two escape bytes stay in the text but do not count. *)
Definition endEscape (b : writer) : writer :=
  let b := updateWidth b in
  mkWriter (w_lines b) (w_cells b) (w_text b) (w_width b - 2)%Z (w_tail b) false.

(** ** Formatting *)

(** A line with what ends it: a newline, or nothing for the last line buffered. *)
Definition tline : Type := list cell * string.

Fixpoint end_lines (last : list cell) (lines : list (list cell)) : list tline :=
  match lines with
  | [] => [(last, "")]
  | l :: lines' => (l, newline) :: end_lines last lines'
  end.

Fixpoint spaces (n : nat) : string :=
  match n with O => "" | S n' => String " " (spaces n') end.
Definition writePadding (textw cellw : Z) : string := spaces (Z.to_nat (cellw - textw)).

Fixpoint write_cells (widths : list Z) (cells : list cell) : string :=
  match cells with
  | [] => ""
  | c :: cells' =>
      c_text c +:+ match widths with w :: _ => writePadding (c_width c) w | [] => "" end
      +:+ write_cells (tail widths) cells'
  end.

Fixpoint writeLines (widths : list Z) (lines : list tline) : string :=
  match lines with
  | [] => ""
  | (cells, e) :: lines' => write_cells widths cells +:+ e +:+ writeLines widths lines'
  end.

(** A line has a tab-terminated cell in the column: [column < len(line)-1]. *)
Definition in_column (column : nat) (l : tline) : bool := column <? length l.1 - 1.

(** Maximal runs of consecutive lines that have, or do not have, the column. *)
Fixpoint blocks (column : nat) (lines : list tline) : list (bool * list tline) :=
  match lines with
  | [] => []
  | l :: lines' =>
      match blocks column lines' with
      | (b, g) :: gs =>
          if Bool.eqb b (in_column column l) then (b, l :: g) :: gs
          else (in_column column l, [l]) :: (b, g) :: gs
      | [] => [(in_column column l, [l])]
      end
  end.

Definition cell_width (column : nat) (l : tline) : Z :=
  match l.1 !! column with Some c => c_width c + 1 | None => 0 end%Z.
(** The width of the column in a block: the widest cell and one space of padding. *)
Definition column_width (column : nat) (g : list tline) : Z :=
  foldr (λ l w, Z.max (cell_width column l) w) 0%Z g.

Fixpoint format (fuel : nat) (widths : list Z) (lines : list tline) : string :=
  match fuel with
  | O => ""
  | S fuel' =>
      let column := length widths in
      foldr (λ bg out,
        (if (bg.1 : bool) then format fuel' (widths ++ [column_width column bg.2]) bg.2
         else writeLines widths bg.2) +:+ out) "" (blocks column lines)
  end.

(** Every level of the recursion handles one more column, so one more than the number
    of cells of the longest line is enough. *)
Definition format_fuel (lines : list tline) : nat :=
  S (foldr (λ l n, Nat.max (length l.1) n) 0 lines).

(** What [flushNoDefers] writes. *)
Definition flush_text (b : writer) : string :=
  let b := match w_text b with
           | "" => b
           | _ => terminateCell (if w_escape b then endEscape b else b)
           end in
  let lines := end_lines (w_cells b) (w_lines b) in
  format (format_fuel lines) [] lines.

(** The writes to the underlying stream, which end with the first that fails. *)
Definition write_out (out : string) : prog (option error) :=
  match out with "" => Ret None | _ => call (Print Stdout out) end.

(** [Flush] resets the writer even if it fails. *)
Definition tabwriter_Flush (b : writer) : prog (writer * option error) :=
  err ← write_out (flush_text b); Ret (tabwriter_NewWriter, err).

(** ** [Write] *)

Definition c_tab : ascii := "009".
Definition c_newline : ascii := "010".
Definition c_vtab : ascii := "011".
Definition c_formfeed : ascii := "012".
Definition c_Escape : ascii := "255".

(** The writer after a byte, and whether it has to be flushed. *)
Definition write_byte (b : writer) (ch : ascii) : writer * bool :=
  if w_escape b then
    let b := tw_append b (String ch "") in
    if Ascii.eqb ch c_Escape then (endEscape b, false) else (b, false)
  else if Ascii.eqb ch c_tab || Ascii.eqb ch c_vtab then (terminateCell (updateWidth b), false)
  else if Ascii.eqb ch c_newline || Ascii.eqb ch c_formfeed then
    let b := terminateCell (updateWidth b) in
    let ncells := length (w_cells b) in
    (addLine b, Ascii.eqb ch c_formfeed || (ncells =? 1))
  else if Ascii.eqb ch c_Escape then
    (set_escape true (tw_append (updateWidth b) (String ch "")), false)
  else (tw_append b (String ch ""), false).

(** A flush that fails ends the call and leaves the lines buffered. *)
Fixpoint tabwriter_Write (b : writer) (buf : string) : prog (writer * option error) :=
  match buf with
  | EmptyString => Ret (b, None)
  | String ch buf' =>
      match write_byte b ch with
      | (b, false) => tabwriter_Write b buf'
      | (b, true) =>
          err ← write_out (flush_text b);
          match err with
          | Some e => Ret (b, Some e)
          | None => tabwriter_Write tabwriter_NewWriter buf'
          end
      end
  end.

(** ** Fuel *)

Lemma blocks_sub column lines :
  Forall (λ bg, Forall (λ l, l ∈ lines ∧ in_column column l = bg.1) bg.2) (blocks column lines).
Proof.
  induction lines as [|l lines IH]; [constructor|].
  assert (Forall (λ bg, Forall (λ l', l' ∈ l :: lines ∧ in_column column l' = bg.1) bg.2)
    (blocks column lines)) as IH'.
  { eapply Forall_impl; [exact IH|]. intros bg Hbg. eapply Forall_impl; [exact Hbg|].
    intros l' [Hin ?]. split; [by right|done]. }
  clear IH. simpl. destruct (blocks column lines) as [|[b g] gs].
  - repeat constructor.
  - apply Forall_cons in IH' as [Hg Hgs]. destruct (Bool.eqb_spec b (in_column column l)) as [->|].
    + repeat constructor; done.
    + repeat constructor; done.
Qed.

Lemma format_S fuel widths lines :
  format (S fuel) widths lines =
  foldr (λ bg out,
    (if (bg.1 : bool) then format fuel (widths ++ [column_width (length widths) bg.2]) bg.2
     else writeLines widths bg.2) +:+ out) "" (blocks (length widths) lines).
Proof. done. Qed.

Lemma foldr_text_ext {A} (f g : A → string) (l : list A) :
  Forall (λ x, f x = g x) l →
  foldr (λ x out, f x +:+ out) "" l = foldr (λ x out, g x +:+ out) "" l.
Proof. induction 1 as [|x l Hx _ IH]; [done|]. simpl. by rewrite Hx, IH. Qed.

(** More fuel than the cells of a line beyond the columns already open changes nothing. *)
Lemma format_enough fuel fuel' widths lines :
  Forall (λ l, length l.1 ≤ length widths + fuel) lines → fuel ≤ fuel' →
  format (S fuel) widths lines = format (S fuel') widths lines.
Proof.
  revert fuel' widths lines. induction fuel as [|fuel IH]; intros fuel' widths lines Hlen Hle;
    rewrite !format_S; apply foldr_text_ext;
    (eapply Forall_impl; [apply (blocks_sub (length widths) lines)|]);
    intros [[] g] Hg; simpl in *; [|done| |done].
  - destruct g as [|l g]; [by destruct fuel'|]. apply Forall_cons in Hg as [[Hin Hcol] _].
    rewrite Forall_forall in Hlen. specialize (Hlen _ Hin).
    apply Nat.ltb_lt in Hcol. simpl in *. lia.
  - destruct fuel' as [|fuel']; [lia|]. apply IH; [|lia]. rewrite Forall_forall in Hlen.
    eapply Forall_impl; [exact Hg|]. intros l [Hin _]. specialize (Hlen _ Hin).
    rewrite length_app. simpl. lia.
Qed.

Lemma longest_line lines :
  Forall (λ l, length l.1 ≤ foldr (λ l n, Nat.max (length l.1) n) 0 lines) (lines : list tline).
Proof.
  induction lines as [|l lines IH]; [done|]. constructor; simpl; [lia|].
  eapply Forall_impl; [exact IH|]. simpl. lia.
Qed.

(** The fuel of [format] is enough. *)
Lemma format_fuel_enough fuel lines :
  format_fuel lines ≤ fuel → format (format_fuel lines) [] lines = format fuel [] lines.
Proof.
  unfold format_fuel. intros H. destruct fuel as [|fuel]; [lia|].
  apply format_enough; [apply longest_line|lia].
Qed.

(** ** Tables: lines with the same number of cells *)

Lemma blocks_uniform column b lines rest :
  lines ≠ [] → Forall (λ l, in_column column l = b) lines →
  Forall (λ l, in_column column l ≠ b) rest →
  blocks column (lines ++ rest) = (b, lines) :: blocks column rest.
Proof.
  intros Hne Hl Hr. induction Hl as [|l lines Hb Hl IH]; [done|]. simpl.
  destruct lines as [|l' lines].
  - simpl. destruct rest as [|r rest]; simpl; [by rewrite Hb|].
    apply Forall_cons in Hr as [Hr _]. rewrite <- Hb in Hr.
    destruct (blocks column rest) as [|[b' g] gs].
    + destruct (Bool.eqb_spec (in_column column r) (in_column column l)); by subst.
    + destruct (Bool.eqb_spec b' (in_column column r)) as [->|].
      * destruct (Bool.eqb_spec (in_column column r) (in_column column l)); by subst.
      * destruct (Bool.eqb_spec (in_column column r) (in_column column l)); by subst.
  - rewrite IH by done. rewrite Hb. by rewrite Bool.eqb_reflx.
Qed.

Lemma blocks_same column b lines :
  lines ≠ [] → Forall (λ l, in_column column l = b) lines → blocks column lines = [(b, lines)].
Proof.
  intros Hne Hl. rewrite <- (right_id_L [] (++) lines) at 1. by rewrite (blocks_uniform _ b).
Qed.

(** A line of a table of three columns. *)
Definition cells3 (l : tline) : Prop := length l.1 = 3.

Lemma in_column_cells3 column lines :
  Forall cells3 lines → Forall (λ l, in_column column l = (column <? 2)) lines.
Proof.
  intros Hl. eapply Forall_impl; [exact Hl|]. intros [cells e] H.
  unfold in_column, cells3 in *. by rewrite H.
Qed.

(** Two columns of padded cells, the third as it is. *)
Lemma format_cells3 fuel lines :
  lines ≠ [] → Forall cells3 lines →
  format (S (S (S fuel))) [] (lines ++ [([], "")])
  = writeLines [column_width 0 lines; column_width 1 lines] lines.
Proof.
  intros Hne H3. pose proof (λ c, in_column_cells3 c lines H3) as Hcol.
  cbn [format length]. rewrite (blocks_uniform 0 true) by (done || apply (Hcol 0) || by repeat constructor).
  cbn [foldr fst snd List.app length].
  rewrite (blocks_same 1 true) by (done || apply (Hcol 1)).
  cbn [foldr fst snd List.app length].
  rewrite (blocks_same 2 false) by (done || apply (Hcol 2)).
  simpl. by rewrite !app_nil_r.
Qed.

(** ** Writing rows *)

(** Text without a byte that is special to the writer. *)
Fixpoint plain (s : string) : bool :=
  match s with
  | EmptyString => true
  | String c s' =>
      negb (Ascii.eqb c c_tab || Ascii.eqb c c_vtab || Ascii.eqb c c_newline
            || Ascii.eqb c c_formfeed || Ascii.eqb c c_Escape) && plain s'
  end.

Lemma plain_app s t : plain (s +:+ t) = plain s && plain t.
Proof. induction s as [|c s IH]; [done|]. rewrite app_cons. simpl. rewrite IH. apply andb_assoc. Qed.

Lemma Write_plain b s t :
  w_escape b = false → plain s = true →
  tabwriter_Write b (s +:+ t) = tabwriter_Write (tw_append b s) t.
Proof.
  revert b. induction s as [|c s IH]; intros b He Hs.
  - destruct b. unfold tw_append. simpl. by rewrite !app_nil_r.
  - simpl in Hs. apply andb_prop in Hs as [Hc Hs]. rewrite !negb_orb in Hc.
    repeat (apply andb_prop in Hc as [Hc ?%negb_true_iff]). apply negb_true_iff in Hc.
    rewrite app_cons. cbn [tabwriter_Write]. unfold write_byte. rewrite He.
    repeat match goal with H : Ascii.eqb c _ = false |- _ => rewrite H; clear H end. simpl.
    rewrite IH by done. unfold tw_append. simpl. by rewrite !app_assoc.
Qed.

(** The writer between two lines. *)
Definition between (lines : list (list cell)) : writer := mkWriter lines [] "" 0 "" false.

Definition text_cell (s : string) : cell := mkCell s (RuneCount s).

Lemma Write_row lines x y z :
  plain x = true → plain y = true → plain z = true →
  tabwriter_Write (between lines) (x +:+ tab +:+ y +:+ tab +:+ z +:+ newline)
  = Ret (between (lines ++ [[text_cell x; text_cell y; text_cell z]]), None).
Proof.
  intros Hx Hy Hz. rewrite Write_plain by done. unfold tab at 1. rewrite app_cons, app_nil_l.
  cbn [tabwriter_Write]. unfold write_byte at 1. simpl.
  rewrite Write_plain by done. unfold tab at 1. rewrite app_cons, app_nil_l.
  cbn [tabwriter_Write]. unfold write_byte at 1. simpl.
  rewrite Write_plain by done. unfold newline. cbn [tabwriter_Write]. unfold write_byte at 1. simpl. done.
Qed.

Lemma end_lines_map last lines :
  end_lines last lines = map (λ l, (l, newline)) lines ++ [(last, "")].
Proof. induction lines as [|l lines IH]; [done|]. simpl. by rewrite IH. Qed.

(** What [Flush] writes for rows of three plain cells. *)
Lemma Flush_rows lines :
  lines ≠ [] → Forall (λ cells, length cells = 3) lines →
  let ls := map (λ l, (l, newline)) lines in
  flush_text (between lines) = writeLines [column_width 0 ls; column_width 1 ls] ls.
Proof.
  intros Hne H3 ls. unfold flush_text, between. cbn [w_text w_cells w_lines].
  rewrite end_lines_map. fold ls.
  assert (Forall cells3 ls) as Hls by (subst ls; by apply Forall_map).
  assert (ls ≠ []) as Hne' by (subst ls; by destruct lines).
  rewrite (format_fuel_enough (S (S (S (format_fuel (ls ++ [([], "")]))))) _) by lia.
  by apply format_cells3.
Qed.
