(* ===== verification/Presenters.v ===== *)
(** * Packages presenters and exitstatus (src/bpm/presenters/presenters.go,
    src/bpm/exitstatus/error.go) *)

From S2P Require Import Prelude GoStrings JobID Specs Sys Tabwriter.
From Stdlib Require Import Ascii.

(** ** presenters *)

(** The result of the write is ignored. *)
Definition printRow (w : writer) (args : list string) : prog writer :=
  let row := Join tab args in
  r ← tabwriter_Write w (row +:+ newline); Ret r.1.

Definition shown_pid (process : Process) : string :=
  if (0 <? pr_pid process)%Z then Itoa (pr_pid process) else "-".

(** The loop of [PrintJobs]: decoding a name may fail, or panic. *)
Fixpoint print_jobs_loop (tw : writer) (processes : list Process) : prog (result writer) :=
  match processes with
  | [] => Ret (Ok tw)
  | process :: processes' =>
      name ← lift_outcome (Decode (pr_name process));
      match name with
      | Err err => Ret (Err err)
      | Ok name =>
          tw ← printRow tw [name; shown_pid process; pr_status process];
          print_jobs_loop tw processes'
      end
  end.

Definition PrintJobs (processes : list Process) : prog (option error) :=
  tw ← printRow tabwriter_NewWriter ["Name"; "Pid"; "Status"];
  r ← print_jobs_loop tw processes;
  match r with
  | Err err => Ret (Some err)
  | Ok tw => r ← tabwriter_Flush tw; Ret r.2
  end.

(** ** exitstatus *)

Definition FromError (err : option error) : Z :=
  match err with
  | None => 0
  | Some (StatusError status _) => status
  | Some _ => 1
  end.

(** ** The table [bpm list] prints *)

(** The reference: rows of three texts; the first two columns are as wide as their
    widest text and a space. *)
Definition trow : Type := string * string * string.

Definition widest (f : trow → string) (rows : list trow) : Z :=
  foldr (λ r w, Z.max (RuneCount (f r)) w) 0%Z rows.
Definition pad (s : string) (w : Z) : string :=
  s +:+ spaces (Z.to_nat (w + 1 - RuneCount s)).
Definition table_line (w0 w1 : Z) (r : trow) : string :=
  pad r.1.1 w0 +:+ pad r.1.2 w1 +:+ r.2 +:+ newline.
Definition table (rows : list trow) : string :=
  foldr (λ r out, table_line (widest (λ r, r.1.1) rows) (widest (λ r, r.1.2) rows) r +:+ out)
    "" rows.

Definition header : trow := ("Name", "Pid", "Status").
Definition shown (process : Process) (name : string) : trow :=
  (name, if decide (pr_pid process ≤ 0)%Z then "-" else Itoa (pr_pid process), pr_status process).

Definition row_cells (r : trow) : list cell := [text_cell r.1.1; text_cell r.1.2; text_cell r.2].

Lemma RuneCount_nonneg s : (0 ≤ RuneCount s)%Z.
Proof.
  unfold RuneCount. generalize (String.length s) as fuel. intros fuel. revert s.
  induction fuel as [|fuel IH]; intros [|c s]; simpl; [lia..|]. specialize (IH (rune_rest c s)). lia.
Qed.

Lemma column_width_rows k f rows :
  rows ≠ [] → (∀ r, row_cells r !! k = Some (text_cell (f r))) →
  column_width k (map (λ l, (l, newline)) (map row_cells rows)) = (widest f rows + 1)%Z.
Proof.
  intros Hne Hk. unfold column_width, widest.
  assert (∀ r, cell_width k (row_cells r, newline) = RuneCount (f r) + 1)%Z as Hw.
  { intros r. unfold cell_width. simpl fst. by rewrite Hk. }
  destruct rows as [|r rows]; [done|]. clear Hne. revert r.
  induction rows as [|r' rows IH]; intros r.
  - simpl. rewrite Hw. pose proof (RuneCount_nonneg (f r)). lia.
  - specialize (IH r'). cbn [map foldr] in *. rewrite Hw, IH. lia.
Qed.

(** What [Flush] writes for plain rows is the table. *)
Lemma Flush_table rows :
  rows ≠ [] → flush_text (between (map row_cells rows)) = table rows.
Proof.
  intros Hne. rewrite Flush_rows.
  - rewrite (column_width_rows 0 (λ r, r.1.1)), (column_width_rows 1 (λ r, r.1.2)) by done.
    unfold table. generalize (widest (λ r, r.1.1) rows) (widest (λ r, r.1.2) rows).
    intros w0 w1. clear Hne. induction rows as [|r rows IH]; [done|].
    cbn [map foldr writeLines]. rewrite IH. unfold table_line, pad, row_cells. simpl.
    unfold writePadding. by rewrite !app_nil_r, !app_assoc.
  - by destruct rows.
  - apply Forall_map. by apply Forall_true.
Qed.

Lemma itoa_loop_plain fuel n acc : plain acc = true → plain (itoa_loop fuel n acc) = true.
Proof.
  revert n acc. induction fuel as [|fuel IH]; intros n acc Hacc; [done|]. cbn [itoa_loop].
  assert (plain (String (digit_char (n mod 10)) acc) = true) as H.
  { pose proof (Z.mod_pos_bound n 10 ltac:(lia)) as Hm.
    assert ((n mod 10)%Z ∈ (Z.of_nat <$> seq 0 10)) as Hin.
    { apply list_elem_of_fmap. exists (Z.to_nat (n mod 10)). split; [lia|]. apply elem_of_seq. lia. }
    revert Hin. generalize (n mod 10)%Z as m. intros m Hin. cbn [plain]. rewrite Hacc, andb_true_r.
    revert m Hin. apply Forall_forall, (bool_decide_unpack _). vm_compute. exact I. }
  case_match; [done|]. by apply IH.
Qed.

Lemma shown_pid_plain process : plain (shown_pid process) = true.
Proof.
  unfold shown_pid, Itoa. case_match; [|done]. case_match; [lia|]. by apply itoa_loop_plain.
Qed.

Lemma shown_spec process name : shown process name = (name, shown_pid process, pr_status process).
Proof. unfold shown, shown_pid. case_decide; case_match; done || lia. Qed.

Lemma printRow_plain rows x y z :
  plain x = true → plain y = true → plain z = true →
  printRow (between (map row_cells rows)) [x; y; z]
  = Ret (between (map row_cells (rows ++ [(x, y, z)]))).
Proof.
  intros Hx Hy Hz. unfold printRow. cbn [Join].
  rewrite !app_assoc, Write_row by done. cbn. by rewrite map_app.
Qed.

(** The rows a process list is shown with. *)
Definition legible (process : Process) (name : string) : Prop :=
  Decode (pr_name process) = Val (Ok name) ∧ plain name = true ∧ plain (pr_status process) = true.

Lemma print_jobs_loop_plain rows ps names rest :
  Forall2 legible ps names →
  print_jobs_loop (between (map row_cells rows)) (ps ++ rest)
  = print_jobs_loop (between (map row_cells (rows ++ zip_with shown ps names))) rest.
Proof.
  intros H. revert rows. induction H as [|p n ps names (Hd & Hn & Hs) _ IH]; intros rows.
  - simpl. by rewrite (right_id_L [] (++)).
  - cbn [print_jobs_loop List.app]. rewrite Hd. cbn [lift_outcome].
    change (prog_bind (printRow (between (map row_cells rows)) [n; shown_pid p; pr_status p])
      (λ tw, print_jobs_loop tw (ps ++ rest)) =
      print_jobs_loop (between (map row_cells (rows ++ zip_with shown (p :: ps) (n :: names)))) rest).
    rewrite printRow_plain by (done || apply shown_pid_plain). cbn [prog_bind]. rewrite IH.
    cbn [zip_with]. by rewrite <- (assoc_L (++)), shown_spec.
Qed.

(** The heading and the rows of the first processes are with the table writer when the
    others are looked at. *)
Lemma PrintJobs_app ps names rest :
  Forall2 legible ps names →
  PrintJobs (ps ++ rest) =
  (r ← print_jobs_loop (between (map row_cells (header :: zip_with shown ps names))) rest;
   match r with Err err => Ret (Some err) | Ok tw => r ← tabwriter_Flush tw; Ret r.2 end).
Proof.
  intros Hps. pose proof (printRow_plain [] "Name" "Pid" "Status" eq_refl eq_refl eq_refl) as Hheader.
  change (between (map row_cells [])) with tabwriter_NewWriter in Hheader.
  change (between (map row_cells ([] ++ [("Name", "Pid", "Status")])))
    with (between (map row_cells [header])) in Hheader.
  unfold PrintJobs. rewrite Hheader. cbn [mbind prog_mbind prog_bind].
  by rewrite (print_jobs_loop_plain [header] ps names rest Hps).
Qed.

Lemma PrintJobs_rows ps names :
  Forall2 legible ps names →
  PrintJobs ps = call (Print Stdout (table (header :: zip_with shown ps names))).
Proof.
  intros Hps. rewrite <- (right_id_L [] (++) ps) at 1. rewrite (PrintJobs_app _ _ _ Hps).
  cbn [print_jobs_loop mbind prog_mbind prog_bind]. unfold tabwriter_Flush.
  by rewrite (Flush_table (header :: _)).
Qed.

(** C30: [PrintJobs], provided that the decoded names and the statuses are plain (they
    contain none of the bytes the table writer treats specially: tab, line break,
    vertical tab, form feed and escape), prints one table, whose lines are a heading and
    the processes in order with decoded names, the columns padded to their widest entry,
    and returns the error of the write if there is one.  When a name after such processes
    cannot be decoded its error is returned, and a decoding that panics panics, with
    nothing printed.  It is text/tabwriter run on the rows that equals the table.  (A name
    that is not plain is laid out differently, and a form feed in one prints at once.) *)
Theorem print_jobs_table ps names (Hps : Forall2 legible ps names) :
  PrintJobs ps = call (Print Stdout (table (header :: zip_with shown ps names)))
  ∧ (∀ p rest err, Decode (pr_name p) = Val (Err err) → PrintJobs (ps ++ p :: rest) = Ret (Some err))
  ∧ (∀ p rest x, Decode (pr_name p) = Panics x → PrintJobs (ps ++ p :: rest) = Crash x).
Proof.
  split_and!; [by apply PrintJobs_rows|..]; intros p rest x Hd; rewrite (PrintJobs_app _ _ _ Hps);
    cbn [print_jobs_loop]; by rewrite Hd.
Qed.

Definition sample_processes : list Process :=
  [mkProcess (Encode "server.worker") 4711 "running"; mkProcess (Encode "db") 0 "stopped"].

Lemma print_jobs_table_witness :
  PrintJobs sample_processes = call (Print Stdout
    ("Name          Pid  Status" +:+ newline +:+ "server.worker 4711 running" +:+ newline
     +:+ "db            -    stopped" +:+ newline))
  ∧ PrintJobs (sample_processes ++ [mkProcess "redis" 7 "running"]) =
    Ret (Some (Errorf "invalid job ID (missing prefix): %q" ["redis"])).
Proof.
  destruct (print_jobs_table sample_processes ["server.worker"; "db"]) as (H & He & _).
  - repeat constructor; vm_compute; reflexivity.
  - split; [exact H|]. apply He. vm_compute. reflexivity.
Defined.
