(* ===== verification/Cobra.v ===== *)
(** * Command lines (vendored packages pflag and cobra)

    What bpm uses of src/bpm/vendor/github.com/spf13: package pflag's parser of
    flags, and how cobra finds the command of a command line, parses its flags and
    runs its hooks.  A flag writes to a variable of the program; the variables are
    a state [S], and a command is a record of its name, flags, hooks and
    subcommands.  Features bpm does not use (required flags, persistent post-run
    hooks, deprecated flags, unknown-flag lists) and the texts of usage messages
    are left out. *)

From S2P Require Import Prelude GoStrings Specs Sys.
From Stdlib Require Import Ascii.

(** ** strconv *)

(** [strconv.ParseBool]. *)
Definition ParseBool (s : string) : option bool :=
  if slices_Contains ["1"; "t"; "T"; "true"; "TRUE"; "True"] s then Some true
  else if slices_Contains ["0"; "f"; "F"; "false"; "FALSE"; "False"] s then Some false
  else None.

(** The value of a digit in bases up to 36. *)
Definition digit_val (c : ascii) : option Z :=
  let n := Z.of_nat (byte_val c) in
  if in_range "0" "9" c then Some (n - 48)%Z
  else if in_range "a" "z" c then Some (n - 87)%Z
  else if in_range "A" "Z" c then Some (n - 55)%Z
  else None.

(** The digits of [ParseUint] with base 0: underscores are skipped here and
    checked by [underscoreOK]. *)
Fixpoint parse_digits (base acc : Z) (s : string) : option Z :=
  match s with
  | EmptyString => Some acc
  | String c s' =>
      if Ascii.eqb c "_" then parse_digits base acc s'
      else d ← digit_val c; if (d <? base)%Z then parse_digits base (acc * base + d)%Z s' else None
  end.

Definition is_hex_letter (c : ascii) : bool := in_range "a" "f" c || in_range "A" "F" c.

(** The loop of [underscoreOK]; [saw_digit] and [saw_underscore] tell what the
    previous byte was. *)
Fixpoint underscores_separate (hex saw_digit saw_underscore : bool) (s : string) : bool :=
  match s with
  | EmptyString => negb saw_underscore
  | String c s' =>
      if in_range "0" "9" c || (hex && is_hex_letter c) then underscores_separate hex true false s'
      else if Ascii.eqb c "_" then saw_digit && underscores_separate hex false true s'
      else negb saw_underscore && underscores_separate hex false false s'
  end.

(** The base named by a prefix and what follows it. *)
Definition base_prefix (s : string) : option (Z * string) :=
  match s with
  | String "0" (String b r) =>
      if slices_Contains ["b"; "B"] (String b "") then Some (2%Z, r)
      else if slices_Contains ["o"; "O"] (String b "") then Some (8%Z, r)
      else if slices_Contains ["x"; "X"] (String b "") then Some (16%Z, r)
      else None
  | _ => None
  end.

(** [underscoreOK] after the sign. *)
Definition underscoreOK (s : string) : bool :=
  match base_prefix s with
  | Some (b, r) => underscores_separate (b =? 16)%Z true false r
  | None => underscores_separate false false false s
  end.

(** [ParseUint(s, 0, 64)] without the range check: a prefix needs a digit after
    it, otherwise the leading zero means octal. *)
Definition parse_uint0 (s : string) : option Z :=
  match s with
  | EmptyString => None
  | String "0" r =>
      v ← match base_prefix s with
          | Some (b, String c r') => parse_digits b 0 (String c r')
          | _ => parse_digits 8 0 r
          end;
      if underscoreOK s then Some v else None
  | _ => v ← parse_digits 10 0 s; if underscoreOK s then Some v else None
  end.

(** [strconv.ParseInt(s, 0, 64)]. *)
Definition ParseInt0 (s : string) : option Z :=
  match s with
  | String "-" r => v ← parse_uint0 r; if (v <=? 2 ^ 63)%Z then Some (- v)%Z else None
  | String "+" r => v ← parse_uint0 r; if (v <? 2 ^ 63)%Z then Some v else None
  | _ => v ← parse_uint0 s; if (v <? 2 ^ 63)%Z then Some v else None
  end.

(** ** pflag *)

Section pflag.
Context {S : Type}.

(** [fl_set changed value]: what [Value.Set] does to the variable, where
    [changed] tells whether the flag was given before; an error is the cause
    reported for the value. *)
Record Flag := mkFlag {
  fg_name : string;
  fg_shorthand : option ascii;
  fg_NoOptDefVal : string;
  fg_set : bool → string → S → S * option error
}.

(** [StringVarP], [BoolVarP], [IntVarP], [StringArrayVarP] with the assignment of
    their variable. *)
Definition StringVarP (assign : string → S → S) (name : string) (short : option ascii) : Flag :=
  mkFlag name short "" (λ _ v s, (assign v s, None)).
Definition BoolVarP (assign : bool → S → S) (name : string) (short : option ascii) : Flag :=
  mkFlag name short "true" (λ _ v s,
    match ParseBool v with
    | Some b => (assign b s, None)
    | None => (assign false s, Some (Errorf "strconv.ParseBool: parsing %q: invalid syntax" [v]))
    end).
Definition IntVarP (assign : Z → S → S) (name : string) (short : option ascii) : Flag :=
  mkFlag name short "" (λ _ v s,
    match ParseInt0 v with
    | Some n => (assign n s, None)
    | None => (assign 0%Z s, Some (Errorf "strconv.ParseInt: parsing %q" [v]))
    end).
(** The first value replaces the default, later ones are appended. *)
Definition StringArrayVarP (value : S → list string) (assign : list string → S → S)
    (name : string) (short : option ascii) : Flag :=
  mkFlag name short "" (λ changed v s,
    (assign (if changed : bool then value s ++ [v] else [v]) s, None)).

Definition FlagSet : Type := list Flag.

Definition lookup_flag (fs : FlagSet) (name : string) : option Flag :=
  List.find (λ f, String.eqb (fg_name f) name) fs.
Definition ShorthandLookup (fs : FlagSet) (c : ascii) : option Flag :=
  List.find (λ f, match fg_shorthand f with Some d => Ascii.eqb d c | None => false end) fs.

(** The state of a parse: the variables, the flags given so far, the arguments
    that are not flags. *)
Record ParseState := mkParse { ps_vars : S; ps_changed : list string; ps_args : list string }.

Definition ErrHelp : error := Sentinel "pflag.ErrHelp".
Definition isGotestShorthandFlag (flag : string) : bool := HasPrefix flag "test.".

Definition flag_title (f : Flag) : string :=
  match fg_shorthand f with
  | Some c => "-" +:+ String c "" +:+ ", --" +:+ fg_name f
  | None => "--" +:+ fg_name f
  end.

(** [FlagSet.Set] of a flag of the set. *)
Definition set_flag (f : Flag) (value : string) (ps : ParseState) : ParseState * option error :=
  let '(s, err) := fg_set f (slices_Contains (ps_changed ps) (fg_name f)) value (ps_vars ps) in
  match err with
  | Some e => (mkParse s (ps_changed ps) (ps_args ps),
               Some (ErrorfErr "invalid argument %q for %q flag: %v" [value; flag_title f] e))
  | None => (mkParse s (fg_name f :: ps_changed ps) (ps_args ps), None)
  end.

(** [parseLongArg] on [--name]: the remaining arguments, the state, the error. *)
Definition parseLongArg (fs : FlagSet) (name : string) (args : list string) (ps : ParseState)
    : list string * ParseState * option error :=
  match name with
  | EmptyString | String "-" _ | String "=" _ =>
      (args, ps, Some (Errorf "bad flag syntax: %s" ["--" +:+ name]))
  | _ =>
      let '(key, val) := Cut "=" name in
      match lookup_flag fs key with
      | None =>
          (args, ps, Some (if String.eqb key "help" then ErrHelp
                           else Errorf "unknown flag: --%s" [key]))
      | Some f =>
          match val with
          | Some v => let '(ps, err) := set_flag f v ps in (args, ps, err)
          | None =>
              if negb (String.eqb (fg_NoOptDefVal f) "") then
                let '(ps, err) := set_flag f (fg_NoOptDefVal f) ps in (args, ps, err)
              else
                match args with
                | v :: args' => let '(ps, err) := set_flag f v ps in (args', ps, err)
                | [] => (args, ps, Some (Errorf "flag needs an argument: --%s" [key]))
                end
          end
      end
  end.

(** The letters of [parseShortArg], by [parseSingleShortArg].  Every letter looks
    at the original [args]: a letter that takes the next argument is the last. *)
Fixpoint parseShorthands (fs : FlagSet) (shorthands : string) (args : list string)
    (ps : ParseState) : list string * ParseState * option error :=
  match shorthands with
  | EmptyString => (args, ps, None)
  | String c rest =>
      if isGotestShorthandFlag shorthands then (args, ps, None)
      else match ShorthandLookup fs c with
      | None =>
          (args, ps, Some (if Ascii.eqb c "h" then ErrHelp
            else Errorf "unknown shorthand flag: %q in -%s" [String c ""; shorthands]))
      | Some f =>
          match rest with
          | String "=" (String d v) =>
              let '(ps, err) := set_flag f (String d v) ps in (args, ps, err)
          | _ =>
              if negb (String.eqb (fg_NoOptDefVal f) "") then
                match set_flag f (fg_NoOptDefVal f) ps with
                | (ps, None) => parseShorthands fs rest args ps
                | (ps, Some err) => (args, ps, Some err)
                end
              else
                match rest, args with
                | String _ _, _ => let '(ps, err) := set_flag f rest ps in (args, ps, err)
                | "", v :: args' => let '(ps, err) := set_flag f v ps in (args', ps, err)
                | "", [] =>
                    (args, ps, Some (Errorf "flag needs an argument: %q in -%s" [String c ""; shorthands]))
                end
          end
      end
  end.

Definition add_arg (s : string) (ps : ParseState) : ParseState :=
  mkParse (ps_vars ps) (ps_changed ps) (ps_args ps ++ [s]).
Definition add_args (l : list string) (ps : ParseState) : ParseState :=
  mkParse (ps_vars ps) (ps_changed ps) (ps_args ps ++ l).

(** [parseArgs]: every step consumes at least one argument, so the number of
    arguments bounds the steps. *)
Fixpoint parse_args_loop (fuel : nat) (fs : FlagSet) (args : list string) (ps : ParseState)
    : ParseState * option error :=
  match fuel, args with
  | _, [] => (ps, None)
  | O, _ => (ps, None)
  | Datatypes.S fuel', s :: args =>
      match s with
      | EmptyString | String "-" EmptyString => parse_args_loop fuel' fs args (add_arg s ps)
      | String "-" (String "-" EmptyString) => (add_args args ps, None)
      | String "-" (String "-" name) =>
          match parseLongArg fs name args ps with
          | (args, ps, None) => parse_args_loop fuel' fs args ps
          | (_, ps, Some err) => (ps, Some err)
          end
      | String "-" shorthands =>
          match parseShorthands fs shorthands args ps with
          | (args, ps, None) => parse_args_loop fuel' fs args ps
          | (_, ps, Some err) => (ps, Some err)
          end
      | _ => parse_args_loop fuel' fs args (add_arg s ps)
      end
  end.

(** [FlagSet.Parse]. *)
Definition Parse (fs : FlagSet) (args : list string) (s : S) : ParseState * option error :=
  parse_args_loop (length args) fs args (mkParse s [] []).
End pflag.
Arguments Flag : clear implicits.
Arguments FlagSet : clear implicits.
Arguments ParseState : clear implicits.

(** ** cobra: the command of a command line *)

Section cobra.
Context {S H : Type}.

(** A command with its hooks [H]; [c_Args] is nil for most commands. *)
#[warnings="-register-all"] Inductive Command := mkCommand {
  c_Use : string;
  c_Aliases : list string;
  c_flags : FlagSet S;
  c_persistent : FlagSet S;
  c_Args : option (list string → option error);
  c_DisableFlagParsing : bool;
  c_hooks : H;
  c_commands : list Command
}.

Definition Command_Name (c : Command) : string := (Cut " " (c_Use c)).1.
Definition HasSubCommands (c : Command) : bool := bool_decide (c_commands c ≠ []).

Definition hasNoOptDefVal (name : string) (fs : FlagSet S) : bool :=
  match lookup_flag fs name with
  | Some f => negb (String.eqb (fg_NoOptDefVal f) "")
  | None => false
  end.
Definition shortHasNoOptDefVal (c : ascii) (fs : FlagSet S) : bool :=
  match ShorthandLookup fs c with
  | Some f => negb (String.eqb (fg_NoOptDefVal f) "")
  | None => false
  end.

(** The cases of the switch in [stripFlags] and [argsMinusFirstX]: the end of the
    flags, a flag whose value is the next argument, another flag, an argument. *)
Inductive arg_kind := EndOfFlags | FlagWithValue | OtherFlag | Positional.

Definition classify_arg (fs : FlagSet S) (s : string) : arg_kind :=
  match s with
  | String "-" (String "-" EmptyString) => EndOfFlags
  | String "-" r =>
      let no_equals := negb (Contains s "=") in
      let long := match r with
                  | String "-" name => no_equals && negb (hasNoOptDefVal name fs)
                  | _ => false
                  end in
      let short := match r with
                   | String c EmptyString => no_equals && negb (shortHasNoOptDefVal c fs)
                   | _ => false
                   end in
      if long || short then FlagWithValue else OtherFlag
  | _ => Positional
  end.

(** A flag that takes a value ends the loop when at most one argument is left. *)
Fixpoint stripFlags_loop (fuel : nat) (fs : FlagSet S) (args : list string) : list string :=
  match fuel, args with
  | _, [] => []
  | O, _ => []
  | Datatypes.S fuel', s :: args =>
      match classify_arg fs s with
      | EndOfFlags => []
      | FlagWithValue =>
          match args with
          | [] | [_] => []
          | _ :: args => stripFlags_loop fuel' fs args
          end
      | OtherFlag => stripFlags_loop fuel' fs args
      | Positional =>
          if String.eqb s "" then stripFlags_loop fuel' fs args
          else s :: stripFlags_loop fuel' fs args
      end
  end.
Definition stripFlags (fs : FlagSet S) (args : list string) : list string :=
  stripFlags_loop (length args) fs args.

Fixpoint argsMinusFirstX (fuel : nat) (fs : FlagSet S) (args : list string) (x : string)
    : list string :=
  match fuel, args with
  | _, [] => []
  | O, _ => args
  | Datatypes.S fuel', s :: args' =>
      match classify_arg fs s with
      | EndOfFlags => args
      | FlagWithValue =>
          match args' with
          | [] => args
          | v :: args'' => s :: v :: argsMinusFirstX fuel' fs args'' x
          end
      | OtherFlag => s :: argsMinusFirstX fuel' fs args' x
      | Positional => if String.eqb s x then args' else s :: argsMinusFirstX fuel' fs args' x
      end
  end.

Definition findNext (c : Command) (next : string) : option Command :=
  List.find (λ cmd, String.eqb (Command_Name cmd) next || slices_Contains (c_Aliases cmd) next)
    (c_commands c).

(** A command that was found: its ancestors, nearest first, and the arguments
    left for it. *)
Record found := mkFound { fd_cmd : Command; fd_parents : list Command; fd_args : list string }.

Definition all_flags (c : Command) (parents : list Command) : FlagSet S :=
  c_flags c ++ c_persistent c ++ concat (c_persistent <$> parents).

(** Every step removes the name of a subcommand from the arguments. *)
Fixpoint innerfind (fuel : nat) (c : Command) (parents : list Command) (args : list string)
    : found :=
  match fuel with
  | O => mkFound c parents args
  | Datatypes.S fuel' =>
      let flags := all_flags c parents in
      match stripFlags flags args with
      | [] => mkFound c parents args
      | next :: _ =>
          match findNext c next with
          | Some cmd =>
              innerfind fuel' cmd (c :: parents) (argsMinusFirstX (length args) flags args next)
          | None => mkFound c parents args
          end
      end
  end.

(** [legacyArgs]; the suggestions of the message are left out. *)
Definition legacyArgs (c : Command) (parents : list Command) (args : list string) : option error :=
  if negb (HasSubCommands c) then None
  else match parents, args with
       | [], a :: _ => Some (Errorf "unknown command %q for %q" [a; Command_Name c])
       | _, _ => None
       end.

Definition Find (root : Command) (args : list string) : found * option error :=
  let f := innerfind (Datatypes.S (length args)) root [] args in
  match c_Args (fd_cmd f) with
  | None =>
      (f, legacyArgs (fd_cmd f) (fd_parents f)
            (stripFlags (all_flags (fd_cmd f) (fd_parents f)) (fd_args f)))
  | Some _ => (f, None)
  end.
End cobra.
Arguments Command : clear implicits.
Arguments found : clear implicits.

(** ** Rendered command lines

    The ways to write an argument or a flag on a command line, and what the parser
    does with them. *)

Section render.
Context {S : Type}.

Inductive flag_style := ShortAlone | LongAlone | ShortSeparate | ShortAttached | ShortEquals
  | LongSeparate | LongEquals.

(** An argument, a flag, or letters of flags without values grouped in front of a flag. *)
Inductive item :=
| Arg (s : string)
| Give (f : Flag S) (st : flag_style) (v : string)
| Grouped (pre : list (Flag S)) (f : Flag S) (st : flag_style) (v : string).

Definition short_name (f : Flag S) : string :=
  match fg_shorthand f with Some c => String c "" | None => "" end.

Definition render_flag (f : Flag S) (st : flag_style) (v : string) : list string :=
  match st with
  | ShortAlone => ["-" +:+ short_name f]
  | LongAlone => ["--" +:+ fg_name f]
  | ShortSeparate => ["-" +:+ short_name f; v]
  | ShortAttached => ["-" +:+ short_name f +:+ v]
  | ShortEquals => ["-" +:+ short_name f +:+ "=" +:+ v]
  | LongSeparate => ["--" +:+ fg_name f; v]
  | LongEquals => ["--" +:+ fg_name f +:+ "=" +:+ v]
  end.
Definition letters (pre : list (Flag S)) : string := foldr (λ f s, short_name f +:+ s) "" pre.

Definition render (i : item) : list string :=
  match i with
  | Arg s => [s]
  | Give f st v => render_flag f st v
  | Grouped pre f st v =>
      match render_flag f st v with
      | String dash w :: ws => String dash (letters pre +:+ w) :: ws
      | ws => ws
      end
  end.

(** What an item means: a flag without a value has its default. *)
Definition apply_flag (f : Flag S) (st : flag_style) (v : string) (ps : ParseState S)
    : ParseState S * option error :=
  match st with
  | ShortAlone | LongAlone => set_flag f (fg_NoOptDefVal f) ps
  | _ => set_flag f v ps
  end.
Fixpoint apply_group (pre : list (Flag S)) (ps : ParseState S) : ParseState S * option error :=
  match pre with
  | [] => (ps, None)
  | f :: pre' =>
      match set_flag f (fg_NoOptDefVal f) ps with
      | (ps, None) => apply_group pre' ps
      | (ps, Some err) => (ps, Some err)
      end
  end.
Definition apply_item (i : item) (ps : ParseState S) : ParseState S * option error :=
  match i with
  | Arg s => (add_arg s ps, None)
  | Give f st v => apply_flag f st v ps
  | Grouped pre f st v =>
      match apply_group pre ps with
      | (ps, None) => apply_flag f st v ps
      | (ps, Some err) => (ps, Some err)
      end
  end.

Fixpoint apply_items (items : list item) (ps : ParseState S) : ParseState S * option error :=
  match items with
  | [] => (ps, None)
  | i :: items' =>
      match apply_item i ps with
      | (ps, None) => apply_items items' ps
      | (ps, Some err) => (ps, Some err)
      end
  end.

(** The flag can be written: it is the one its names stand for, its long name is
    not mistaken for something else, and its letter is neither a dash nor an equals
    sign and does not start the word [test.]. *)
Definition writable (fs : FlagSet S) (f : Flag S) : Prop :=
  lookup_flag fs (fg_name f) = Some f
  ∧ no_byte "=" (fg_name f) = true
  ∧ (match fg_name f with EmptyString | String "-" _ => False | _ => True end)
  ∧ (match fg_shorthand f with
     | None => True
     | Some c => ShorthandLookup fs c = Some f ∧ c ≠ "-"%char ∧ c ≠ "t"%char ∧ c ≠ "="%char
     end).

Definition is_short (st : flag_style) : bool :=
  match st with LongAlone | LongSeparate | LongEquals => false | _ => true end.

Definition flag_ok (fs : FlagSet S) (f : Flag S) (st : flag_style) (v : string) : Prop :=
  writable fs f
  ∧ (is_short st = true → is_Some (fg_shorthand f))
  ∧ (match st with
     | ShortAlone | LongAlone => fg_NoOptDefVal f ≠ ""
     | ShortSeparate | LongSeparate => fg_NoOptDefVal f = ""
     | ShortAttached =>
         fg_NoOptDefVal f = "" ∧ match v with EmptyString | String "=" _ => False | _ => True end
     | ShortEquals => v ≠ ""
     | LongEquals => True
     end).

Definition item_ok (fs : FlagSet S) (i : item) : Prop :=
  match i with
  | Arg s => match s with String "-" (String _ _) => False | _ => True end
  | Give f st v => flag_ok fs f st v
  | Grouped pre f st v =>
      Forall (λ f, flag_ok fs f ShortAlone "") pre ∧ is_short st = true ∧ flag_ok fs f st v
  end.

Lemma Cut_no_sep sep s : no_byte sep s = true → Cut sep s = (s, None).
Proof.
  induction s as [|c s IH]; [done|]. simpl. destruct (Ascii.eqb c sep); [done|].
  intros Hs. by rewrite (IH Hs).
Qed.

Lemma Cut_app sep s r : no_byte sep s = true → Cut sep (s +:+ String sep r) = (s, Some r).
Proof.
  induction s as [|c s IH]; simpl; [by rewrite Ascii.eqb_refl|].
  destruct (Ascii.eqb c sep); [done|]. intros Hs. by rewrite (IH Hs).
Qed.

Lemma eqb_empty_false s : s ≠ "" → String.eqb s "" = false.
Proof. intros Hs. by apply String.eqb_neq. Qed.

(** The first byte of a writable flag's name decides nothing. *)
Lemma parseLongArg_key fs f name args ps :
  writable fs f → (∃ r, name = fg_name f +:+ r) →
  parseLongArg fs name args ps =
    let '(key, val) := Cut "=" name in
    match lookup_flag fs key with
    | None => (args, ps, Some (if String.eqb key "help" then ErrHelp
                               else Errorf "unknown flag: --%s" [key]))
    | Some f =>
        match val with
        | Some v => let '(ps, err) := set_flag f v ps in (args, ps, err)
        | None =>
            if negb (String.eqb (fg_NoOptDefVal f) "") then
              let '(ps, err) := set_flag f (fg_NoOptDefVal f) ps in (args, ps, err)
            else match args with
                 | v :: args' => let '(ps, err) := set_flag f v ps in (args', ps, err)
                 | [] => (args, ps, Some (Errorf "flag needs an argument: --%s" [key]))
                 end
        end
    end.
Proof.
  intros (_ & Heq & Hn & _) [r ->]. destruct (fg_name f) as [|c s]; [done|]. simpl in Heq |- *.
  destruct (Ascii.eqb c "=") eqn:He; [done|].
  unfold parseLongArg.
  destruct c as [[] [] [] [] [] [] [] []]; try done; try reflexivity.
Qed.

Implicit Types (fs : FlagSet S) (ps : ParseState S).

(** One step of the parser per item. *)
Definition then_parse (r : ParseState S * option error) (fuel : nat) (fs : FlagSet S)
    (args : list string) : ParseState S * option error :=
  match r with
  | (ps, None) => parse_args_loop fuel fs args ps
  | (ps, Some err) => (ps, Some err)
  end.

Lemma parse_positional fuel fs s args ps :
  match s with String "-" (String _ _) => False | _ => True end →
  parse_args_loop (Datatypes.S fuel) fs (s :: args) ps = parse_args_loop fuel fs args (add_arg s ps).
Proof.
  destruct s as [|c [|d s]]; intros Hs; [done| |];
    destruct c as [[] [] [] [] [] [] [] []]; simpl in *; done.
Qed.

Lemma parse_long fuel fs c name args ps :
  parse_args_loop (Datatypes.S fuel) fs (("--" +:+ String c name) :: args) ps =
  match parseLongArg fs (String c name) args ps with
  | (args, ps, None) => parse_args_loop fuel fs args ps
  | (_, ps, Some err) => (ps, Some err)
  end.
Proof. done. Qed.

Lemma parse_short fuel fs c rest args ps :
  c ≠ "-"%char →
  parse_args_loop (Datatypes.S fuel) fs (String "-" (String c rest) :: args) ps =
  match parseShorthands fs (String c rest) args ps with
  | (args, ps, None) => parse_args_loop fuel fs args ps
  | (_, ps, Some err) => (ps, Some err)
  end.
Proof. intros Hc. destruct c as [[] [] [] [] [] [] [] []]; simpl in *; done. Qed.

(** The letter of a writable flag. *)
Lemma parseShorthands_letter fs f c rest args ps :
  writable fs f → fg_shorthand f = Some c →
  parseShorthands fs (String c rest) args ps =
  match rest with
  | String "=" (String d v) => let '(ps, err) := set_flag f (String d v) ps in (args, ps, err)
  | _ =>
      if negb (String.eqb (fg_NoOptDefVal f) "") then
        match set_flag f (fg_NoOptDefVal f) ps with
        | (ps, None) => parseShorthands fs rest args ps
        | (ps, Some err) => (args, ps, Some err)
        end
      else
        match rest, args with
        | String _ _, _ => let '(ps, err) := set_flag f rest ps in (args, ps, err)
        | "", v :: args' => let '(ps, err) := set_flag f v ps in (args', ps, err)
        | "", [] =>
            (args, ps, Some (Errorf "flag needs an argument: %q in -%s" [String c ""; String c rest]))
        end
  end.
Proof.
  intros (_ & _ & _ & Hs) Hc. rewrite Hc in Hs. destruct Hs as (Hl & Hd & Ht & _).
  cbn [parseShorthands]. unfold isGotestShorthandFlag. cbn [HasPrefix].
  destruct (Ascii.eqb "t" c) eqn:E; [by apply Ascii.eqb_eq in E; subst|]. simpl. by rewrite Hl.
Qed.

Lemma parse_long_item fuel fs f st v args ps :
  is_short st = false → flag_ok fs f st v →
  parse_args_loop (Datatypes.S fuel) fs (render_flag f st v ++ args) ps
  = then_parse (apply_flag f st v ps) fuel fs args.
Proof.
  intros Hlong (Hw & _ & Hst). pose proof Hw as (Hl & Heq & Hn & _).
  assert (∀ r a p, parseLongArg fs (fg_name f +:+ r) a p = _) as HL
    by (intros; apply (parseLongArg_key fs f); [done|by eexists]).
  assert (∀ a p, parseLongArg fs (fg_name f) a p = _) as HL0
    by (intros; apply (parseLongArg_key fs f); [done|exists ""; by rewrite app_nil_r]).
  assert (∀ n a, (∃ r, n = fg_name f +:+ r) →
    parse_args_loop (Datatypes.S fuel) fs (("--" +:+ n) :: a) ps =
    match parseLongArg fs n a ps with
    | (args, ps, None) => parse_args_loop fuel fs args ps
    | (_, ps, Some err) => (ps, Some err)
    end) as HP by (intros n a [r ->]; destruct (fg_name f); [done|]; apply parse_long).
  assert (∃ r, fg_name f = fg_name f +:+ r) as Hex by (exists ""; by rewrite app_nil_r).
  destruct st; try done; unfold render_flag, apply_flag, then_parse; cbn [app];
    rewrite HP by (done || by eexists).
  - rewrite HL0, Cut_no_sep, Hl, eqb_empty_false by done. simpl.
    by destruct (set_flag f _ ps) as [? []].
  - rewrite HL0, Cut_no_sep, Hl by done. simpl in Hst. rewrite Hst. simpl.
    by destruct (set_flag f v ps) as [? []].
  - rewrite HL. change ("=" +:+ v) with (String "=" v).
    rewrite Cut_app, Hl by done. by destruct (set_flag f v ps) as [? []].
Qed.

Lemma parse_short_item fuel fs f st v args ps :
  is_short st = true → flag_ok fs f st v →
  parse_args_loop (Datatypes.S fuel) fs (render_flag f st v ++ args) ps
  = then_parse (apply_flag f st v ps) fuel fs args.
Proof.
  intros Hlong (Hw & Hshort & Hst). pose proof Hw as (_ & _ & _ & Hs).
  destruct (Hshort Hlong) as [c Hc].
  rewrite Hc in Hs. destruct Hs as (Hl & Hd & _). unfold render_flag, short_name. rewrite Hc.
  pose proof (parseShorthands_letter fs f c) as HL.
  destruct st; try done; cbn [app apply_flag] in *; unfold then_parse;
    rewrite ?app_cons, ?app_nil_l, parse_short, HL by done.
  - rewrite eqb_empty_false by done. simpl. by destruct (set_flag f _ ps) as [? []].
  - rewrite Hst. simpl. by destruct (set_flag f v ps) as [? []].
  - destruct Hst as [Hst Hv]. rewrite Hst. destruct v as [|d v]; [done|].
    assert (∀ A (x y : A), match String d v with String "=" (String _ _) => x | _ => y end = y)
      as Hcase by (intros; destruct d as [[] [] [] [] [] [] [] []]; done).
    destruct d as [[] [] [] [] [] [] [] []]; try done; simpl;
      by destruct (set_flag f _ ps) as [? []].
  - destruct v as [|d v]; [done|]. simpl. by destruct (set_flag f _ ps) as [? []].
Qed.

(** A flag written short starts with its letter. *)
Lemma render_short fs f st v :
  is_short st = true → flag_ok fs f st v →
  ∃ c w ws, render_flag f st v = String "-" (String c w) :: ws ∧ c ≠ "-"%char ∧ c ≠ "="%char.
Proof.
  intros Hst (Hw & Hshort & _). destruct (Hshort Hst) as [c Hc].
  destruct Hw as (_ & _ & _ & Hs). rewrite Hc in Hs. destruct Hs as (_ & Hd & _ & He).
  unfold render_flag, short_name. rewrite Hc.
  destruct st; try done; rewrite ?app_cons, ?app_nil_l; eauto 8.
Qed.

(** Letters in front of another one are flags set to their defaults. *)
Lemma parse_group fs pre c w args ps :
  Forall (λ f, flag_ok fs f ShortAlone "") pre → c ≠ "="%char →
  parseShorthands fs (letters pre +:+ String c w) args ps
  = match apply_group pre ps with
    | (ps, None) => parseShorthands fs (String c w) args ps
    | (ps, Some err) => (args, ps, Some err)
    end.
Proof.
  intros Hpre Hc. revert ps. induction Hpre as [|f pre (Hw & Hshort & Hdef) Hpre IH]; intros ps; [done|].
  destruct (Hshort eq_refl) as [d Hd].
  assert (letters (f :: pre) = String d (letters pre)) as -> by (simpl; unfold short_name; by rewrite Hd).
  rewrite app_cons, (parseShorthands_letter fs f d) by done. rewrite eqb_empty_false by done.
  cbn [negb apply_group].
  assert (∃ e u, letters pre +:+ String c w = String e u ∧ e ≠ "="%char) as (e & u & E & He).
  { destruct Hpre as [|g pre ((_ & _ & _ & Hs) & Hg & _) _]; [by exists c, w|].
    destruct (Hg eq_refl) as [e He]. rewrite He in Hs. destruct Hs as (_ & _ & _ & Hne).
    exists e. simpl. unfold short_name. rewrite He. eauto. }
  rewrite E in IH |- *.
  assert (∀ A (x : ascii → string → A) y,
    match String e u with String "=" (String d v) => x d v | _ => y end = y) as ->
    by (intros; destruct e as [[] [] [] [] [] [] [] []]; done).
  destruct (set_flag f (fg_NoOptDefVal f) ps) as [ps' [err|]]; [done|]. apply IH.
Qed.

Lemma parse_grouped_item fuel fs pre f st v args ps :
  item_ok fs (Grouped pre f st v) →
  parse_args_loop (Datatypes.S fuel) fs (render (Grouped pre f st v) ++ args) ps
  = then_parse (apply_item (Grouped pre f st v) ps) fuel fs args.
Proof.
  intros (Hpre & Hst & Hf). destruct (render_short fs f st v Hst Hf) as (c & w & ws & E & Hd & He).
  cbn [render apply_item]. rewrite E. cbn [app].
  assert (∃ e u, letters pre +:+ String c w = String e u ∧ e ≠ "-"%char) as (e & u & E' & He').
  { destruct Hpre as [|g pre ((_ & _ & _ & Hs) & Hg & _) _]; [by exists c, w|].
    destruct (Hg eq_refl) as [e Heq]. rewrite Heq in Hs. destruct Hs as (_ & Hne & _).
    exists e. simpl. unfold short_name. rewrite Heq. eauto. }
  rewrite E', parse_short by done. rewrite <- E', parse_group by done.
  destruct (apply_group pre ps) as [ps' [err|]]; [done|].
  rewrite <- (parse_short fuel fs c w (ws ++ args)) by done.
  rewrite <- (parse_short_item fuel fs f st v args ps' Hst Hf), E. done.
Qed.

Lemma parse_item fuel fs i args ps :
  item_ok fs i →
  parse_args_loop (Datatypes.S fuel) fs (render i ++ args) ps
  = then_parse (apply_item i ps) fuel fs args.
Proof.
  destruct i as [s|f st v|pre f st v]; [apply parse_positional| |apply parse_grouped_item].
  intros Hok. cbn [render apply_item].
  destruct (is_short st) eqn:Hst; [by apply parse_short_item|by apply parse_long_item].
Qed.

(** Parsing inverts rendering, whatever the ways the items are written. *)
Lemma parse_items fs items args ps fuel :
  Forall (item_ok fs) items → length items ≤ fuel →
  parse_args_loop fuel fs (concat (render <$> items) ++ args) ps
  = then_parse (apply_items items ps) (fuel - length items) fs args.
Proof.
  revert ps fuel. induction items as [|i items IH]; intros ps fuel Hok Hf; cbn [length apply_items].
  { by rewrite Nat.sub_0_r. }
  apply Forall_cons in Hok as [Hi Hok]. destruct fuel as [|fuel]; [simpl in Hf; lia|].
  rewrite fmap_cons. cbn [concat]. rewrite <- (assoc_L (++)), parse_item by done.
  unfold then_parse at 1.
  destruct (apply_item i ps) as [ps' [err|]]; [done|]. apply IH; [done|]. simpl in Hf. lia.
Qed.

Lemma length_render items : length items ≤ length (concat (render <$> items)).
Proof.
  induction items as [|i items IH]; [done|].
  assert (0 < length (render i)) by (destruct i as [?|? [] ?|? ? [] ?]; simpl; lia).
  rewrite fmap_cons. cbn [concat length]. rewrite length_app. lia.
Qed.

Lemma Parse_render fs items args s :
  Forall (item_ok fs) items →
  Parse fs (concat (render <$> items) ++ args) s
  = then_parse (apply_items items (mkParse s [] []))
      (length (concat (render <$> items) ++ args) - length items) fs args.
Proof.
  intros Hok. apply parse_items; [done|]. pose proof (length_render items).
  rewrite length_app. lia.
Qed.
End render.
Arguments item : clear implicits.
