(* ===== verification/Commands.v ===== *)
(** * Package commands: the hooks (src/bpm/commands)

    A command line is handled by three hooks of its command after the root's
    persistent hook, in the order cobra runs them (vendored under
    src/bpm/vendor/github.com/spf13/cobra/command.go): the first error ends the
    run and the later hooks are skipped.  The package-level variables the hooks
    share are the record [Globals].  Usage and log messages are not modelled;
    [ErrorText] renders an error.  [locks] is set by the root's hook, before any hook
    that uses it; the hooks below dereference it first.  [version] also stores the text
    it prints for a development build in [Version], which nothing reads again. *)

From S2P Require Import Prelude GoStrings GoPath JobID Bosh Specs Sys Config SpecBuilder SafeIO Locks Host Cgroups Adapter Client Containers Lifecycle Presenters.

(** ** Package variables *)

(** [bpmCfg], [locks] and [lifecycleLock] are nil until a hook sets them. *)
Record Globals := mkGlobals {
  g_boshEnv : Env;
  g_showVersion : bool;
  g_procName : string;
  g_volumes : list string;
  g_env : list string;
  g_errLogs : bool;
  g_allLogs : bool;
  g_follow : bool;
  g_quiet : bool;
  g_numLines : Z;
  g_Version : string;
  g_bpmCfg : option BPMConfig;
  g_locks : option Handle;
  g_lifecycleLock : option FlockH
}.

Definition set_cfg (procName : string) (cfg : BPMConfig) (g : Globals) : Globals :=
  mkGlobals (g_boshEnv g) (g_showVersion g) procName (g_volumes g) (g_env g) (g_errLogs g)
    (g_allLogs g) (g_follow g) (g_quiet g) (g_numLines g) (g_Version g) (Some cfg)
    (g_locks g) (g_lifecycleLock g).
Definition set_locks (h : Handle) (g : Globals) : Globals :=
  mkGlobals (g_boshEnv g) (g_showVersion g) (g_procName g) (g_volumes g) (g_env g)
    (g_errLogs g) (g_allLogs g) (g_follow g) (g_quiet g) (g_numLines g) (g_Version g)
    (g_bpmCfg g) (Some h) (g_lifecycleLock g).
Definition set_lock (l : FlockH) (g : Globals) : Globals :=
  mkGlobals (g_boshEnv g) (g_showVersion g) (g_procName g) (g_volumes g) (g_env g)
    (g_errLogs g) (g_allLogs g) (g_follow g) (g_quiet g) (g_numLines g) (g_Version g)
    (g_bpmCfg g) (g_locks g) (Some l).

(** How a hook ends: it returns nil, it returns an error, or it exits the
    process. *)
Inductive flow :=
| Next (g : Globals)
| Fails (g : Globals) (err : error)
| Exits (code : Z).

Definition hook : Type := Globals → list string → prog flow.

(** A pointer that must not be nil. *)
Definition deref {A B} (x : option A) (k : A → prog B) : prog B :=
  match x with Some a => k a | None => Crash NilDereference end.

(** [return err] of a hook. *)
Definition returns (g : Globals) (err : option error) : prog flow :=
  Ret (match err with None => Next g | Some e => Fails g e end).

(** ** cobra *)

Definition no_hook : hook := λ g _, Ret (Next g).

(** [Command.execute] after flag parsing: the persistent hook of the root, then
    the hooks of the command. *)
Definition execute (persistentPreRun preRun runE postRun : hook) : hook := λ g args,
  prog_bind (persistentPreRun g args) (λ f1, match f1 with Next g1 =>
  prog_bind (preRun g1 args) (λ f2, match f2 with Next g2 =>
  prog_bind (runE g2 args) (λ f3, match f3 with Next g3 => postRun g3 args
  | _ => Ret f3 end)
  | _ => Ret f2 end)
  | _ => Ret f1 end).

(** ** root.go *)

Definition isRunningSystemd : prog bool :=
  r ← call (Lstat "/run/systemd/system");
  Ret (match r with Err _ => false | Ok fi => fi_IsDir fi end).

Definition cgroupsPathForContainer (containerID : string) : prog (result string) :=
  try_or SelfCgroupPath id (λ selfPath,
  systemd ← isRunningSystemd;
  Ret (Ok (if systemd : bool then ToSystemdCgroupsPath selfPath containerID
           else path_Join [selfPath; containerID]))).

Definition version : hook := λ g args,
  match args with
  | [] =>
      let v := if decide (g_Version g = "") then "[DEV BUILD]" else g_Version g in
      _ ← call (Print Stdout (v +:+ newline)); Ret (Next g)
  | _ => Ret (Exits 1)
  end.

Definition notRoot : error :=
  NewError "bpm must be run as root. Please run 'sudo -i' to become the root user.".

Definition rootPre : hook := λ g _,
  if g_showVersion g then
    f ← version g [];
    match f with Exits c => Ret (Exits c) | _ => Ret (Exits 0) end
  else
    u ← call user_Current;
    match u with
    | Err err => Ret (Fails g (Wrapf "unable to get current user: %w" [] err))
    | Ok usr =>
        if decide (ou_uid usr ≠ "0" ∧ ou_gid usr ≠ "0") then Ret (Fails g notRoot)
        else
          let lockDir := LocksPath (g_boshEnv g) in
          e ← call (MkdirAll lockDir mode_0700);
          match e with
          | Some err => Ret (Fails g err)
          | None =>
              let g := set_locks (NewHandle lockDir) g in
              systemd ← isRunningSystemd;
              if negb systemd then
                e ← Setup;
                returns g ((λ err, Wrapf "unable to setup cgroups: %w" [] err) <$> e)
              else Ret (Next g)
          end
    end.

Definition root : hook := λ g _, Ret (Fails g (NewError "Exit code 1")).

Definition validateInput (g : Globals) (args : list string) : result Globals :=
  match args with
  | [] => Err (NewError "must specify a job")
  | jobName :: _ =>
      let procName := if decide (g_procName g = "") then jobName else g_procName g in
      Ok (set_cfg procName (NewBPMConfig (g_boshEnv g) jobName procName) g)
  end.

(** The log file stays open; the logger itself is not modelled. *)
Definition setupBpmLogs (g : Globals) : prog (option error) :=
  deref (g_bpmCfg g) (λ bpmCfg,
  check_err (call (MkdirAll (External (BPMConfig_LogDir bpmCfg)) mode_0750)) id (
  try_err (Lookup VcapUser) id (λ usr,
  try_err (OpenAppendChown (BPMLog bpmCfg) (u_uid usr) (u_gid usr) mode_0600) id (λ logFile,
  Ret None)))).

Definition acquireLifecycleLock (g : Globals) : prog flow :=
  deref (g_locks g) (λ locks,
  deref (g_bpmCfg g) (λ bpmCfg,
  r ← LockJob locks (jobName bpmCfg) (procName bpmCfg);
  match r with
  | Err err => Ret (Fails g err)
  | Ok l => Ret (Next (set_lock l g))
  end)).

Definition releaseLifecycleLock (g : Globals) : prog flow :=
  deref (g_lifecycleLock g) (λ l,
  r ← Flock_Unlock l;
  match r with
  | (l', Some err) => Ret (Fails (set_lock l' g) err)
  | (l', None) => Ret (Next (set_lock l' g))
  end).

(** A nil entry would be dereferenced; validation has excluded it. *)
Fixpoint find_process (ps : list (option ProcessConfig)) (procName : string)
    : outcome (option ProcessConfig) :=
  match ps with
  | [] => Val None
  | None :: _ => Panics NilDereference
  | Some p :: ps' =>
      if decide (pc_name p = procName) then Val (Some p) else find_process ps' procName
  end.

Definition processByNameFromJobConfig (jobCfg : JobConfig) (procName : string)
    : outcome (result ProcessConfig) :=
  p ←! find_process (Processes jobCfg) procName;
  Val (match p with
       | Some p => Ok p
       | None => Err (Errorf "invalid process: %s" [procName])
       end).

Section program.
Context `{MapRange, SortSlice, JSON}.
Context (ToBytes : string → result Z).
Context (yaml_Unmarshal : string → outcome (result JobConfig)).
Context (ErrorText : error → string).

Definition newAdapter (features : Features) (locks : Handle) : RuncAdapter :=
  NewRuncAdapter features (λ p, call (Glob p)) MakeShared (LockVolume locks)
    (Some cgroupsPathForContainer).

Definition adapter_interface (a : RuncAdapter) : RuncAdapterI :=
  mkRuncAdapterI (CreateJobPrerequisites a) (BuildSpec ToBytes a).

Definition new_lifecycle (c : RuncClient) (features : Features) (locks : Handle)
    : RuncLifecycle :=
  NewRuncLifecycle (runc_client c) (adapter_interface (newAdapter features locks))
    Lookup commandRunner_Run (λ p, call (RemoveAll p)).

Definition newRuncLifecycle (env : Env) (locks : Handle) : prog (result RuncLifecycle) :=
  systemd ← isRunningSystemd;
  let runcClient := NewRuncClient (RuncPath env) (RuncRoot env) systemd in
  try_or Fetch (λ err, Wrapf "failed to fetch system features: %w" [] err) (λ features,
  Ret (Ok (new_lifecycle runcClient features locks))).

Definition forceCleanupBrokenRuncState (env : Env) (bpmCfg : BPMConfig) (j : RuncLifecycle)
    : prog (option error) :=
  let statePath := path_Join [RuncRoot env; ContainerID bpmCfg; "state.json"] in
  check_err (call (RemoveAll statePath))
    (λ err, Wrapf "failed to clean up stale state file: %w" [] err) (
  check_err (RemoveProcess j bpmCfg)
    (λ err, Wrapf "failed to clean up stale job-process: %w" [] err) (
  Ret None)).

(** ** start.go, run.go *)

(** The configuration of the process named on the command line. *)
Definition load_process (bpmCfg : BPMConfig) (procName : string)
    : prog (result ProcessConfig) :=
  try_or (BPMConfig_ParseJobConfig yaml_Unmarshal bpmCfg)
    (λ err, ErrorfErr "failed to parse job configuration: %s" [] err) (λ jobCfg,
  try_or (lift_outcome (processByNameFromJobConfig jobCfg procName))
    (λ _, Errorf "process %q not present in job configuration (%s)"
            [procName; JobConfigPath bpmCfg]) (λ procCfg,
  Ret (Ok procCfg))).

(** The state of the process: an error other than not-exist makes bpm clean up
    and carry on as if there was no process. *)
Definition stat_or_cleanup (env : Env) (bpmCfg : BPMConfig) (j : RuncLifecycle)
    : prog (result string) :=
  p ← StatProcess j bpmCfg;
  match p with
  | Ok process => Ret (Ok (pr_status process))
  | Err err =>
      if negb (IsNotExist (Some err)) then
        check_or (forceCleanupBrokenRuncState env bpmCfg j) id (Ret (Ok ""))
      else Ret (Ok "")
  end.

(** The switch on the state: [go] starts the process. *)
Definition unless_running (bpmCfg : BPMConfig) (j : RuncLifecycle) (state : string)
    (go : prog (option error)) : prog (option error) :=
  if decide (state = ProcessStateRunning) then Ret None
  else if decide (state = ProcessStateFailed) then
    check_err (RemoveProcess j bpmCfg)
      (λ err, ErrorfErr "failed to clean up stale job-process: %s" [] err) go
  else go.

Definition start_process (env : Env) (bpmCfg : BPMConfig) (procCfg : ProcessConfig)
    (j : RuncLifecycle) : prog (option error) :=
  try_err (stat_or_cleanup env bpmCfg j) id (λ state,
  unless_running bpmCfg j state (
  check_err (StartProcess j bpmCfg procCfg)
    (λ err, ErrorfErr "failed to start job-process: %s" [] err) (Ret None))).

Definition start : hook := λ g _,
  deref (g_bpmCfg g) (λ bpmCfg,
  deref (g_locks g) (λ locks,
  err ← try_err (load_process bpmCfg (g_procName g)) id (λ procCfg,
        try_err (newRuncLifecycle (g_boshEnv g) locks) id (λ j,
        start_process (g_boshEnv g) bpmCfg procCfg j));
  returns g err)).

Definition run_process (env : Env) (bpmCfg : BPMConfig) (procCfg : ProcessConfig)
    (j : RuncLifecycle) : prog (option error) :=
  try_err (stat_or_cleanup env bpmCfg j) id (λ state,
  unless_running bpmCfg j state (
  r ← RunProcess j bpmCfg procCfg;
  match r with
  | (status, Some err) =>
      Ret (Some (StatusError status (ErrorfErr "failed to run job-process: %s" [] err)))
  | (_, None) => Ret None
  end)).

(** The configuration with the volumes and variables of the command line. *)
Definition add_flags (g : Globals) (bpmCfg : BPMConfig) (procCfg : ProcessConfig)
    : result ProcessConfig :=
  match AddVolumes procCfg (g_volumes g) (g_boshEnv g) (DefaultVolumes bpmCfg) with
  | (_, Some err) => Err err
  | (procCfg, None) =>
      match AddEnvVars procCfg (g_env g) (g_boshEnv g) (DefaultVolumes bpmCfg) with
      | (_, Some err) => Err err
      | (procCfg, None) => Ok procCfg
      end
  end.

Definition run_command : hook := λ g _,
  deref (g_bpmCfg g) (λ bpmCfg,
  deref (g_locks g) (λ locks,
  err ← try_err (load_process bpmCfg (g_procName g)) id (λ procCfg,
        try_err (Ret (add_flags g bpmCfg procCfg)) id (λ procCfg,
        try_err (newRuncLifecycle (g_boshEnv g) locks) id (λ j,
        run_process (g_boshEnv g) bpmCfg procCfg j)));
  returns g err)).

(** ** stop.go *)

Definition DefaultStopTimeout : Z := 15 * Second.

(** [StopProcess] runs on [fuel]; its error is only logged. *)
Definition stop_process (fuel : nat) (bpmCfg : BPMConfig) (procName : string)
    (j : RuncLifecycle) : prog (option error) :=
  p ← StatProcess j bpmCfg;
  match p with
  | Err err =>
      if IsNotExist (Some err) then Ret None
      else Ret (Some (ErrorfErr "failed to get job-process status: %s" [] err))
  | Ok _ =>
      try_err (load_process bpmCfg procName) id (λ procCfg,
      _ ← StopProcess j fuel bpmCfg procCfg DefaultStopTimeout;
      check_err (RemoveProcess j bpmCfg)
        (λ err, ErrorfErr "failed to cleanup job-process: %s" [] err) (Ret None))
  end.

Definition stop (fuel : nat) : hook := λ g _,
  deref (g_bpmCfg g) (λ bpmCfg,
  deref (g_locks g) (λ locks,
  err ← try_err (newRuncLifecycle (g_boshEnv g) locks) id (λ j,
        stop_process fuel bpmCfg (g_procName g) j);
  returns g err)).

(** [startPre], [stopPre] and [runPre] differ in the session name of the log. *)
Definition lifecyclePre : hook := λ g args,
  match validateInput g args with
  | Err err => Ret (Fails g err)
  | Ok g =>
      err ← setupBpmLogs g;
      match err with
      | Some err => Ret (Fails g err)
      | None => acquireLifecycleLock g
      end
  end.
Definition startPre : hook := lifecyclePre.
Definition stopPre : hook := lifecyclePre.
Definition runPre : hook := lifecyclePre.

Definition startPost : hook := λ g _, releaseLifecycleLock g.
Definition stopPost : hook := λ g _, releaseLifecycleLock g.
Definition runPost : hook := λ g _, releaseLifecycleLock g.

(** ** list.go *)

Definition JobNames (e : Env) : prog (list string) :=
  r ← call (ReadDir (path_Join [env_root e; "jobs"]));
  Ret (match r with Err _ => [] | Ok names => names end).

Fixpoint stopped_processes (env : Env) (job : string) (ps : list (option ProcessConfig))
    : outcome (list Process) :=
  match ps with
  | [] => Val []
  | None :: _ => Panics NilDereference
  | Some p :: ps' =>
      rest ←! stopped_processes env job ps';
      Val (mkProcess (ContainerID (NewBPMConfig env job (pc_name p))) 0 ProcessStateStopped
           :: rest)
  end.

(** The processes of every job with a readable configuration, as stopped. *)
Fixpoint declared_processes (env : Env) (jobs : list string) (processes : list Process)
    : prog (list Process) :=
  match jobs with
  | [] => Ret processes
  | job :: jobs' =>
      r ← BPMConfig_ParseJobConfig yaml_Unmarshal (NewBPMConfig env job "");
      match r with
      | Err err =>
          if os_IsNotExist err then declared_processes env jobs' processes
          else
            _ ← call (Print Stderr ("invalid config for " +:+ job +:+ ": " +:+ ErrorText err));
            declared_processes env jobs' processes
      | Ok jobCfg =>
          ps ← lift_outcome (stopped_processes env job (Processes jobCfg));
          declared_processes env jobs' (processes ++ ps)
      end
  end.

(** Replaces the first process of the same name. *)
Fixpoint replace_process (processes : list Process) (process : Process)
    : option (list Process) :=
  match processes with
  | [] => None
  | p :: ps =>
      if decide (pr_name p = pr_name process) then Some (process :: ps)
      else (λ ps', p :: ps') <$> replace_process ps process
  end.

Definition updateProcess (processes : list Process) (process : Process)
    : outcome (list Process * option error) :=
  match replace_process processes process with
  | Some ps => Val (ps, None)
  | None =>
      name ←! Decode (pr_name process);
      Val (processes, Some (match name with
                            | Err err => err
                            | Ok decodedName => Errorf "process (%s) not defined" [decodedName]
                            end))
  end.

Fixpoint merge_running (running processes : list Process) : prog (list Process) :=
  match running with
  | [] => Ret processes
  | process :: running' =>
      r ← lift_outcome (updateProcess processes process);
      match r with
      | (processes, None) => merge_running running' processes
      | (processes, Some err) =>
          _ ← call (Print Stderr ("extra process running: " +:+ ErrorText err));
          merge_running running' processes
      end
  end.

Definition listContainers : hook := λ g _,
  deref (g_locks g) (λ locks,
  jobs ← JobNames (g_boshEnv g);
  processes ← declared_processes (g_boshEnv g) jobs [];
  j ← newRuncLifecycle (g_boshEnv g) locks;
  match j with
  | Err err => Ret (Fails g err)
  | Ok j =>
      r ← ListProcesses j;
      match r with
      | Err err =>
          _ ← call (Print Stderr ("failed to list jobs: " +:+ ErrorText err +:+ newline));
          Ret (Fails g err)
      | Ok runningProcesses =>
          processes ← merge_running runningProcesses processes;
          err ← PrintJobs processes;
          match err with
          | Some err =>
              _ ← call (Print Stderr ("failed to display jobs: " +:+ ErrorText err +:+ newline));
              Ret (Fails g err)
          | None => Ret (Next g)
          end
      end
  end).

(** ** pid.go, shell.go, trace.go *)

Definition inspectPre : hook := λ g args,
  match validateInput g args with Err err => Ret (Fails g err) | Ok g => Ret (Next g) end.
Definition pidPre : hook := inspectPre.
Definition shellPre : hook := inspectPre.
Definition tracePre : hook := inspectPre.
Definition logsPre : hook := inspectPre.

(** The process the command is about, which must be running. *)
Definition running_process (bpmCfg : BPMConfig) (j : RuncLifecycle) : prog (result Process) :=
  p ← StatProcess j bpmCfg;
  Ret (match p with
       | Err err =>
           if negb (IsNotExist (Some err))
           then Err (ErrorfErr "failed to get job: %s" [] err)
           else Err (NewError "process is not running or could not be found")
       | Ok process =>
           if decide (pr_status process = ProcessStateFailed)
           then Err (NewError "process is not running or could not be found")
           else Ok process
       end).

Definition with_running_process (g : Globals)
    (k : BPMConfig → RuncLifecycle → Process → prog (option error)) : prog flow :=
  deref (g_bpmCfg g) (λ bpmCfg,
  deref (g_locks g) (λ locks,
  err ← try_err (newRuncLifecycle (g_boshEnv g) locks) id (λ j,
        try_err (running_process bpmCfg j) id (λ process, k bpmCfg j process));
  returns g err)).

Definition pidForJob : hook := λ g _,
  with_running_process g (λ _ _ process,
  _ ← call (Print Stdout (Itoa (pr_pid process) +:+ newline)); Ret None).

Definition shell : hook := λ g _,
  with_running_process g (λ bpmCfg j _, OpenShell j bpmCfg ToStdout ToStderr).

(** The loop that forwards signals to a child until it ends: [SelectChild] takes the next
    signal out of the channel, or the end of the child.  The channel holds one signal, so
    those that arrive while one waits in it are lost before this loop. *)
Fixpoint forward_signals (fuel : nat) : prog (option error) :=
  match fuel with
  | O => OutOfFuel
  | S fuel' =>
      ev ← call SelectChild;
      match ev with
      | GotSignal sig => _ ← call (SignalChild sig); forward_signals fuel'
      | ChildDone err => Ret err
      end
  end.

Definition trace_command (fuel : nat) : hook := λ g _,
  with_running_process g (λ _ _ process,
  let straceCmd := mkCmd "strace"
    ["-s"; "100"; "-f"; "-y"; "-yy"; "-p"; Itoa (pr_pid process)] None true ToStdout ToStderr in
  check_err (call (StartCmd straceCmd)) id (
  err ← forward_signals fuel;
  Ret (match err with
       | Some (SignalExit _) => None
       | Some (ExitError code) => if (code =? -1)%Z then None else Some (ExitError code)
       | err => err
       end))).

(** ** logs.go *)

Definition shouldTailStdout (g : Globals) : bool := negb (g_errLogs g) || g_allLogs g.
Definition shouldTailStderr (g : Globals) : bool := g_errLogs g || g_allLogs g.

Fixpoint logsDontExist (files : list string) : prog bool :=
  match files with
  | [] => Ret false
  | f :: files' =>
      r ← call (Stat f);
      match r with
      | Err err => if os_IsNotExist err then Ret true else logsDontExist files'
      | Ok _ => logsDontExist files'
      end
  end.

Definition filesToTail (g : Globals) (bpmCfg : BPMConfig) : list string :=
  (if shouldTailStdout g then [External (Config_Stdout bpmCfg)] else [])
  ++ (if shouldTailStderr g then [External (Config_Stderr bpmCfg)] else []).

Definition tailArgs (g : Globals) (bpmCfg : BPMConfig) : list string :=
  (if g_follow g then ["-f"] else []) ++ (if g_quiet g then ["-q"] else [])
  ++ ["-n " +:+ Itoa (g_numLines g)] ++ filesToTail g bpmCfg.

Definition logsForJob (fuel : nat) : hook := λ g _,
  deref (g_bpmCfg g) (λ bpmCfg,
  missing ← logsDontExist (filesToTail g bpmCfg);
  if missing : bool then Ret (Fails g (NewError "logs not found"))
  else
    let tailCmd := mkCmd "tail" (tailArgs g bpmCfg) None false ToStdout ToStderr in
    e ← call (StartCmd tailCmd);
    match e with
    | Some err => Ret (Fails g err)
    | None =>
        err ← forward_signals fuel;
        if decide (err ≠ None ∧ err ≠ Some (SignalExit "interrupt")) then returns g err
        else _ ← call (Print Stdout newline); Ret (Next g)
    end).

(** ** The hooks of the commands *)

Inductive command := CmdRoot | CmdStart | CmdStop | CmdRun | CmdList | CmdPid | CmdShell
  | CmdTrace | CmdLogs | CmdVersion.

Definition RootCmd_Execute (fuel : nat) (c : command) : hook :=
  match c with
  | CmdRoot => execute rootPre no_hook root no_hook
  | CmdStart => execute rootPre startPre start startPost
  | CmdStop => execute rootPre stopPre (stop fuel) stopPost
  | CmdRun => execute rootPre runPre run_command runPost
  | CmdList => execute rootPre no_hook listContainers no_hook
  | CmdPid => execute rootPre pidPre pidForJob no_hook
  | CmdShell => execute rootPre shellPre shell no_hook
  | CmdTrace => execute rootPre tracePre (trace_command fuel) no_hook
  | CmdLogs => execute rootPre logsPre (logsForJob fuel) no_hook
  | CmdVersion => execute rootPre no_hook version no_hook
  end.

End program.
