(* ===== verification/Bytefmt.v ===== *)
(** * Memory limits: bytefmt.ToBytes
    (src/bpm/vendor/code.cloudfoundry.org/bytefmt/bytes.go)

    The function the adapter parses memory limits with (its theorems hold for any
    such function), down to the arithmetic: the number is a decimal fraction that
    strconv rounds to a float64, which is scaled by a power of two and truncated.
    A float64 that is at least zero is a pair of a significand and an exponent of
    two.  Converting a float64 outside the range of uint64 gives a value that
    depends on the implementation: the parameter [wide]. *)

From S2P Require Import Prelude GoStrings Specs Json Sys Config SpecBuilder Locks Adapter Cobra.
From Stdlib Require Import Ascii.

(** ** strings *)

(** The encodings of the runes with the White_Space property. *)
Definition space_encodings : list string :=
  utf8_encode <$> [9; 10; 11; 12; 13; 32; 0x85; 0xA0; 0x1680; 0x2000; 0x2001; 0x2002; 0x2003;
    0x2004; 0x2005; 0x2006; 0x2007; 0x2008; 0x2009; 0x200A; 0x2028; 0x2029; 0x202F; 0x205F;
    0x3000]%Z.

Fixpoint trim_encodings (encs : list string) (fuel : nat) (s : string) : string :=
  match fuel with
  | O => s
  | S fuel' =>
      match List.find (HasPrefix s) encs with
      | Some e => trim_encodings encs fuel' (drop (String.length e) s)
      | None => s
      end
  end.

Definition TrimSpace (s : string) : string :=
  let s := trim_encodings space_encodings (String.length s) s in
  str_rev (trim_encodings (str_rev <$> space_encodings) (String.length s) (str_rev s)).

(** [strings.ToUpper], as far as its result is ASCII: besides the lower-case letters,
    dotless i (U+0131) becomes I and long s (U+017F) becomes S.  Other runes stay as
    they are here; with one of them the quantity is invalid whatever becomes of it. *)
Definition upper_byte (c : ascii) : ascii :=
  if in_range "a" "z" c then byte_of (byte_val c - 32) else c.
Fixpoint ToUpper (s : string) : string :=
  match s with
  | EmptyString => ""
  | String c r =>
      match r with
      | String d r' =>
          if (byte_val c =? 0xC4) && (byte_val d =? 0xB1) then String "I" (ToUpper r')
          else if (byte_val c =? 0xC5) && (byte_val d =? 0xBF) then String "S" (ToUpper r')
          else String (upper_byte c) (ToUpper r)
      | EmptyString => String (upper_byte c) ""
      end
  end.

(** [s[:i]] and [s[i:]] for the first letter of an upper-cased string. *)
Fixpoint split_letter (s : string) : option (string * string) :=
  match s with
  | EmptyString => None
  | String c r =>
      if in_range "A" "Z" c then Some ("", s)
      else '(a, b) ← split_letter r; Some (String c a, b)
  end.

(** ** strconv.ParseFloat *)

Fixpoint remove_underscores (s : string) : string :=
  match s with
  | EmptyString => ""
  | String c r => if Ascii.eqb c "_" then remove_underscores r else String c (remove_underscores r)
  end.

(** A decimal without exponent, as there is no letter in it: the sign, the digits as
    a number, and how many of them follow the point. *)
Definition parse_decimal (s : string) : option (bool * Z * nat) :=
  let '(neg, s) := match s with
                   | String "-" r => (true, r) | String "+" r => (false, r) | _ => (false, s)
                   end in
  if negb (no_byte "_" s) && negb (underscoreOK s) then None
  else
    let '(i, rest) := span_digits (remove_underscores s) in
    '(f, rest) ← match rest with
                 | String "." r => Some (span_digits r)
                 | _ => Some ("", rest)
                 end;
    match i +:+ f, rest with
    | String _ _, EmptyString => m ← atoi_digits 0 (i +:+ f); Some (neg, m, String.length f)
    | _, _ => None
    end.

(** [num / den / 2^e] as a fraction. *)
Definition scale2 (num den e : Z) : Z * Z :=
  if (0 <=? e)%Z then (num, den * 2 ^ e)%Z else (num * 2 ^ (- e), den)%Z.

(** The nearest integer, the even one of two. *)
Definition round_even (a b : Z) : Z :=
  let q := (a / b)%Z in
  let r := (a mod b)%Z in
  if (2 * r <? b)%Z then q
  else if (b <? 2 * r)%Z then (q + 1)%Z
  else if Z.even q then q else (q + 1)%Z.

(** The exponent with which [num / den] has a significand of 53 bits, or the smallest
    there is. *)
Definition float_exponent (num den : Z) : Z :=
  let l := (Z.log2 num - Z.log2 den)%Z in
  let '(a, b) := scale2 num den l in
  Z.max ((if (b <=? a)%Z then l else l - 1) - 52) (-1074).

Definition round_float (num den : Z) : Z * Z :=
  let e := float_exponent num den in
  let '(a, b) := scale2 num den e in (round_even a b, e).

(** [None]: a syntax error or a number out of range. *)
Definition ParseFloat (s : string) : option (bool * Z * Z) :=
  '(neg, m, k) ← parse_decimal s;
  let '(q, e) := round_float m (10 ^ Z.of_nat k) in
  if (0 <=? e)%Z && (2 ^ 1024 <=? q * 2 ^ e)%Z then None else Some (neg, q, e).

(** ** bytes.go *)

Definition invalidByteQuantityError : error :=
  Sentinel "byte quantity must be a positive integer with a unit of measurement like M, MB, MiB, G, GiB, or GB".

(** The power of 1024 a unit stands for. *)
Definition multiple_exponent (multiple : string) : option Z :=
  if slices_Contains ["E"; "EB"; "EIB"] multiple then Some 6%Z
  else if slices_Contains ["P"; "PB"; "PIB"] multiple then Some 5%Z
  else if slices_Contains ["T"; "TB"; "TIB"] multiple then Some 4%Z
  else if slices_Contains ["G"; "GB"; "GIB"] multiple then Some 3%Z
  else if slices_Contains ["M"; "MB"; "MIB"] multiple then Some 2%Z
  else if slices_Contains ["K"; "KB"; "KIB"] multiple then Some 1%Z
  else if bool_decide (multiple = "B") then Some 0%Z
  else None.

Section ToBytes.
Context (wide : Z → Z → Z).

(** [uint64(q * 2^e)]. *)
Definition uint64_of_float (q e : Z) : Z :=
  let v := if (0 <=? e)%Z then (q * 2 ^ e)%Z else (q / 2 ^ (- e))%Z in
  if (v <? 2 ^ 64)%Z then v else wide q e.

Definition bytefmt_ToBytes (s : string) : result Z :=
  match split_letter (ToUpper (TrimSpace s)) with
  | None => Err invalidByteQuantityError
  | Some (bytesString, multiple) =>
      match ParseFloat bytesString with
      | None => Err invalidByteQuantityError
      | Some (neg, q, e) =>
          if neg && negb (q =? 0)%Z then Err invalidByteQuantityError
          else match multiple_exponent multiple with
               | Some k => Ok (uint64_of_float q (e + 10 * k))
               | None => Err invalidByteQuantityError
               end
      end
  end.
End ToBytes.

Example bytes1 : bytefmt_ToBytes (λ _ _, 0%Z) " 1.5gib" = Ok (3 * 2 ^ 29)%Z.
Proof. vm_compute. reflexivity. Qed.
Example bytes2 : bytefmt_ToBytes (λ _ _, 0%Z) "0.1K" = Ok 102%Z.
Proof. vm_compute. reflexivity. Qed.
Example bytes3 : bytefmt_ToBytes (λ _ _, 0%Z) "1e3M" = Err invalidByteQuantityError.
Proof. vm_compute. reflexivity. Qed.
Example bytes4 : bytefmt_ToBytes (λ _ _, 0%Z) "-1M" = Err invalidByteQuantityError.
Proof. vm_compute. reflexivity. Qed.
Example bytes5 : bytefmt_ToBytes (λ _ _, 0%Z) "9007199254740993B" = Ok 9007199254740992%Z.
Proof. vm_compute. reflexivity. Qed.

(** ** Lemmas *)

Lemma round_float_whole n :
  (0 ≤ n < 2 ^ 53)%Z → ∃ e, (-1074 ≤ e ≤ 0)%Z ∧ round_float n 1 = (n * 2 ^ (- e), e)%Z.
Proof.
  intros Hn. unfold round_float. set (e := float_exponent n 1).
  assert (-1074 ≤ e ≤ 0)%Z as He.
  { unfold e, float_exponent. change (Z.log2 1) with 0%Z. rewrite Z.sub_0_r.
    destruct (scale2 n 1 (Z.log2 n)) as [a b].
    assert (Z.log2 n ≤ 52)%Z.
    { destruct (Z.eq_dec n 0) as [->|]; [done|].
      assert (Z.log2 n < 53)%Z by (apply Z.log2_lt_pow2; lia). lia. }
    destruct (b <=? a)%Z; lia. }
  exists e. split; [done|].
  assert (∀ a, round_even a 1 = a) as Hround.
  { intros a. unfold round_even. rewrite Z.mod_1_r, Z.div_1_r. done. }
  unfold scale2. destruct (Z.leb_spec 0 e).
  - assert (e = 0)%Z as -> by lia. rewrite Z.mul_1_l. change (2 ^ 0)%Z with 1%Z. rewrite Hround.
    change (- 0)%Z with 0%Z. change (2 ^ 0)%Z with 1%Z. by rewrite Z.mul_1_r.
  - by rewrite Hround.
Qed.

Lemma uint64_of_whole wide n e k :
  (0 ≤ n)%Z → (e ≤ 0)%Z → (0 ≤ k)%Z → (n * 2 ^ k < 2 ^ 64)%Z →
  uint64_of_float wide (n * 2 ^ (- e)) (e + k) = (n * 2 ^ k)%Z.
Proof.
  intros Hn He Hk Hlt. unfold uint64_of_float.
  assert ((if (0 <=? e + k)%Z then (n * 2 ^ (- e) * 2 ^ (e + k))%Z
           else (n * 2 ^ (- e) / 2 ^ (- (e + k)))%Z) = (n * 2 ^ k)%Z) as ->.
  { destruct (Z.leb_spec 0 (e + k)).
    - rewrite <- Z.mul_assoc, <- Z.pow_add_r by lia. do 2 f_equal. lia.
    - replace (- e)%Z with (k + - (e + k))%Z by lia. rewrite Z.pow_add_r by lia.
      rewrite Z.mul_assoc, Z.div_mul; [done|]. apply Z.pow_nonzero; lia. }
  by rewrite (proj2 (Z.ltb_lt _ _) Hlt).
Qed.

(** Strings that start with none of the encodings are left alone. *)
Lemma trim_encodings_none encs fuel s :
  List.find (HasPrefix s) encs = None → trim_encodings encs fuel s = s.
Proof. intros Hn. destruct fuel; simpl; [done|]. by rewrite Hn. Qed.

Lemma find_prefix_head c r encs :
  forallb (λ e, match e with String d _ => negb (Ascii.eqb d c) | EmptyString => false end) encs = true →
  List.find (HasPrefix (String c r)) encs = None.
Proof.
  induction encs as [|e encs IH]; [done|]. intros [He Hr]%andb_true_iff. destruct e as [|d e]; [done|].
  cbn [List.find HasPrefix]. apply negb_true_iff in He. rewrite He. by apply IH.
Qed.

Lemma digit_no_space c : in_range "0" "9" c = true →
  forallb (λ e, match e with String d _ => negb (Ascii.eqb d c) | EmptyString => false end)
    space_encodings = true.
Proof.
  revert c. assert (∀ c, implb (in_range "0" "9" c) (forallb (λ e, match e with
    String d _ => negb (Ascii.eqb d c) | EmptyString => false end) space_encodings) = true) as Hall.
  { apply forall_byte. vm_compute. reflexivity. }
  intros c Hc. specialize (Hall c). by rewrite Hc in Hall.
Qed.

Lemma str_rev_append_app s acc : str_rev_append s acc = str_rev s +:+ acc.
Proof.
  unfold str_rev. revert acc. assert (∀ a b, str_rev_append s (a +:+ b) = str_rev_append s a +:+ b) as Hg.
  { induction s as [|c s IH]; intros a b; [done|]. cbn [str_rev_append].
    by rewrite <- app_cons, IH. }
  intros acc. by rewrite <- (app_nil_l acc), Hg, app_nil_l.
Qed.

Lemma str_rev_app s t : str_rev (s +:+ t) = str_rev t +:+ str_rev s.
Proof.
  induction s as [|c s IH]; [by rewrite app_nil_l, app_nil_r|].
  rewrite app_cons. unfold str_rev at 1 3. cbn [str_rev_append].
  rewrite !str_rev_append_app, IH. by rewrite app_assoc.
Qed.

Lemma str_rev_involutive s : str_rev (str_rev s) = s.
Proof.
  induction s as [|c s IH]; [done|]. unfold str_rev at 2. cbn [str_rev_append].
  rewrite str_rev_append_app, str_rev_app, IH. done.
Qed.

Lemma TrimSpace_id c r d u :
  in_range "0" "9" c = true → str_rev u = String d "" +:+ drop 1 (str_rev u) →
  forallb (λ e, match e with String x _ => negb (Ascii.eqb x d) | EmptyString => false end)
    (str_rev <$> space_encodings) = true →
  TrimSpace (String c r +:+ u) = String c r +:+ u.
Proof.
  intros Hc Hd Hsp. unfold TrimSpace.
  rewrite (trim_encodings_none _ _ (String c r +:+ u)).
  2:{ rewrite app_cons. by apply find_prefix_head, digit_no_space. }
  rewrite trim_encodings_none; [by rewrite str_rev_involutive|].
  rewrite str_rev_app, Hd, app_assoc, app_cons. by apply find_prefix_head.
Qed.

Lemma digits_facts s : all_digits s = true →
  (∀ u, match u with String c _ => in_range "A" "Z" (upper_byte c) = true | EmptyString => False end →
    split_letter (ToUpper (s +:+ u)) = Some (s, ToUpper u))
  ∧ no_byte "_" s = true ∧ remove_underscores s = s ∧ span_digits s = (s, "").
Proof.
  assert (∀ c, implb (in_range "0" "9" c) (Ascii.eqb (upper_byte c) c && negb (in_range "A" "Z" c)
    && negb (Ascii.eqb "_" c) && negb (Ascii.eqb c "_") && (byte_val c <? 128)) = true) as Hbyte.
  { apply forall_byte. vm_compute. reflexivity. }
  induction s as [|c s IH]; intros Hs; [split; [|done]|].
  - intros u Hu. rewrite app_nil_l. destruct u as [|c u]; [done|].
    assert (∀ c, implb (in_range "A" "Z" (upper_byte c)) (byte_val c <? 128) = true) as Hlow.
    { apply forall_byte. vm_compute. reflexivity. }
    specialize (Hlow c). rewrite Hu in Hlow. simpl in Hlow. apply Nat.ltb_lt in Hlow.
    assert (∃ v, ToUpper (String c u) = String (upper_byte c) v) as [v ->].
    { cbn [ToUpper]. destruct u as [|d u]; [by eexists|].
      rewrite (proj2 (Nat.eqb_neq (byte_val c) 0xC4)), (proj2 (Nat.eqb_neq (byte_val c) 0xC5)) by lia.
      by eexists. }
    cbn [split_letter]. by rewrite Hu.
  - cbn [all_digits] in Hs. apply andb_true_iff in Hs as [Hc Hs].
    destruct (IH Hs) as (Hsplit & Hno & Hrem & Hspan).
    specialize (Hbyte c). rewrite Hc in Hbyte. cbn [implb] in Hbyte.
    rewrite !andb_true_iff, !negb_true_iff in Hbyte. destruct Hbyte as [[[[Hup Hl] Hu1] Hu2] Hlow].
    apply Ascii.eqb_eq in Hup. apply Nat.ltb_lt in Hlow.
    split_and!.
    + intros u Hu. rewrite app_cons.
      assert (ToUpper (String c (s +:+ u)) = String c (ToUpper (s +:+ u))) as ->.
      { cbn [ToUpper]. destruct (s +:+ u) as [|d v]; [by rewrite Hup|].
        rewrite (proj2 (Nat.eqb_neq (byte_val c) 0xC4)), (proj2 (Nat.eqb_neq (byte_val c) 0xC5)) by lia.
        by rewrite Hup. }
      cbn [split_letter]. rewrite Hl, (Hsplit u Hu). done.
    + cbn [no_byte]. rewrite Hno. by rewrite Hu2.
    + cbn [remove_underscores]. by rewrite Hu2, Hrem.
    + cbn [span_digits]. by rewrite Hc, Hspan.
Qed.

(** The documented spellings of the units, and their lower-case forms. *)
Definition unit_names : list (string * Z) :=
  [("B", 0); ("K", 1); ("KB", 1); ("KiB", 1); ("M", 2); ("MB", 2); ("MiB", 2);
   ("G", 3); ("GB", 3); ("GiB", 3); ("T", 4); ("TB", 4); ("TiB", 4);
   ("P", 5); ("PB", 5); ("PiB", 5); ("E", 6); ("EB", 6); ("EiB", 6);
   ("b", 0); ("k", 1); ("kb", 1); ("kib", 1); ("m", 2); ("mb", 2); ("mib", 2);
   ("g", 3); ("gb", 3); ("gib", 3); ("t", 4); ("tb", 4); ("tib", 4);
   ("p", 5); ("pb", 5); ("pib", 5); ("e", 6); ("eb", 6); ("eib", 6)]%Z.

Definition unit_ok (u : string) (k : Z) : Prop :=
  (match u with String c _ => in_range "A" "Z" (upper_byte c) = true | EmptyString => False end)
  ∧ multiple_exponent (ToUpper u) = Some k ∧ (0 ≤ k)%Z
  ∧ ∃ d, str_rev u = String d "" +:+ drop 1 (str_rev u)
    ∧ forallb (λ e, match e with String x _ => negb (Ascii.eqb x d) | EmptyString => false end)
        (str_rev <$> space_encodings) = true.

Lemma unit_facts u k : (u, k) ∈ unit_names → unit_ok u k.
Proof.
  assert (Forall (λ uk, unit_ok uk.1 uk.2) unit_names) as Hall.
  { repeat (apply Forall_cons; split); [..|by apply Forall_nil].
    all: split; [reflexivity|]; split; [reflexivity|]; split; [done|];
      eexists; split; [reflexivity|vm_compute; reflexivity]. }
  rewrite Forall_forall in Hall. exact (Hall (u, k)).
Qed.

Lemma parse_decimal_whole n ds :
  (0 ≤ n)%Z → decimal n ds → parse_decimal ds = Some (false, n, 0).
Proof.
  intros Hn Hd. pose proof Hd as (Hall & (c & r & -> & _) & _).
  destruct (digits_facts _ Hall) as (_ & Hno & Hrem & Hspan).
  unfold parse_decimal.
  assert (match String c r with
    | String "-" r => (true, r) | String "+" r => (false, r) | _ => (false, String c r)
    end = (false, String c r)) as ->.
  { cbn [all_digits] in Hall. apply andb_true_iff in Hall as [Hc _].
    by destruct c as [[] [] [] [] [] [] [] []]. }
  rewrite Hno. cbn [negb andb]. rewrite Hrem, Hspan. cbn [mbind option_bind]. rewrite app_nil_r.
  by rewrite (atoi_decimal _ _ Hd).
Qed.

(** A whole number of units is read exactly. *)
Lemma ToBytes_whole wide n u k :
  (0 ≤ n < 2 ^ 53)%Z → (u, k) ∈ unit_names → (n * 2 ^ (10 * k) < 2 ^ 64)%Z →
  bytefmt_ToBytes wide (Itoa n +:+ u) = Ok (n * 2 ^ (10 * k))%Z.
Proof.
  intros Hn Hu Hlt. destruct (unit_facts u k Hu) as (Hhead & Hmul & Hk & d & Hrev & Hsp).
  pose proof (Itoa_decimal n ltac:(lia)) as Hd. pose proof Hd as (Hall & (c & r & Heq & _) & _).
  destruct (digits_facts _ Hall) as (Hsplit & _). unfold bytefmt_ToBytes.
  assert (TrimSpace (Itoa n +:+ u) = Itoa n +:+ u) as ->.
  { rewrite Heq in *. apply (TrimSpace_id c r d u); [|done..].
    cbn [all_digits] in Hall. by apply andb_true_iff in Hall as [? _]. }
  rewrite (Hsplit u Hhead). unfold ParseFloat. rewrite (parse_decimal_whole n) by (lia || done).
  cbn [mbind option_bind]. change (10 ^ Z.of_nat 0)%Z with 1%Z.
  destruct (round_float_whole n Hn) as (e & He & ->).
  destruct (Z.leb_spec 0 e).
  - assert (e = 0)%Z as -> by lia. change (- 0)%Z with 0%Z. change (2 ^ 0)%Z with 1%Z.
    rewrite !Z.mul_1_r. destruct (Z.leb_spec (2 ^ 1024) n); [lia|]. cbn [andb].
    rewrite Hmul. f_equal. replace n with (n * 2 ^ (- 0))%Z at 1 by (rewrite Z.opp_0, Z.pow_0_r; lia).
    apply uint64_of_whole; lia.
  - cbn [andb]. rewrite Hmul. f_equal. apply uint64_of_whole; lia.
Qed.

(** ** Property *)

(** C24: memory limits are read to the byte within bounds: a limit written as a whole
    number below 2^53 of units (any spelling of a unit) whose total is below 2^64 bytes
    becomes that number of bytes in the specification, as the limit of memory and, where
    the kernel limits swap, of swap; but from 8 EiB (2^63 bytes) on it becomes that number
    minus 2^64, a negative one.  Nothing is said of larger numbers, which float64 rounds,
    and of totals from 16 EiB on. *)
Theorem memory_limit_bytes `{MapRange, SortSlice} wide a bpmCfg procCfg user tr spec l n u k
  (Htr : exec_trace (BuildSpec (bytefmt_ToBytes wide) a bpmCfg procCfg user) tr (FVal (Ok spec)))
  (Hl : pc_limits procCfg = Some l) (Hm : l_memory l = Some (Itoa n +:+ u))
  (Hn : (0 ≤ n < 2 ^ 53)%Z) (Hu : (u, k) ∈ unit_names) (Hlt : (n * 2 ^ (10 * k) < 2 ^ 64)%Z) :
  ∃ v, res_memory (li_resources (s_linux spec))
      = Some (mkMemory (Some v) (if SwapLimitSupported (a_features a) then Some v else None))
    ∧ ((n * 2 ^ (10 * k) < 2 ^ 63)%Z → v = (n * 2 ^ (10 * k))%Z)
    ∧ ((2 ^ 63 ≤ n * 2 ^ (10 * k))%Z → v = (n * 2 ^ (10 * k) - 2 ^ 64)%Z ∧ (v < 0)%Z).
Proof.
  apply BuildSpec_shape in Htr as (extra & vols & s1 & cgroup & mem & _ & _ & _ & Hlim & Hmem & ->).
  specialize (Hmem l _ Hl Hm). rewrite (ToBytes_whole wide n u k Hn Hu Hlt) in Hmem.
  injection Hmem as <-. exists (int64_of_uint64 (n * 2 ^ (10 * k))). split.
  - destruct (apply_unsafe_limits (a_features a) procCfg s1) as [Hs _].
    unfold wanted_limits in Hlim. rewrite Hl, Hm in Hlim. rewrite Hlim in Hs.
    injection Hs as Hs _ _. exact Hs.
  - unfold int64_of_uint64, two64. case_decide; lia.
Qed.

Lemma memory_limit_bytes_witness : ∃ tr spec,
  exec_trace (@BuildSpec map_range_list sort_slice_merge (bytefmt_ToBytes (λ _ _, 0%Z))
    sample_adapter sample_bpmCfg (sample_procCfg false) sample_user) tr (FVal (Ok spec))
  ∧ res_memory (li_resources (s_linux spec))
    = Some (mkMemory (Some (2 ^ 30)%Z) (Some (2 ^ 30)%Z)).
Proof.
  destruct (run_exec_trace idle_handler (@BuildSpec map_range_list sort_slice_merge
    (bytefmt_ToBytes (λ _ _, 0%Z)) sample_adapter sample_bpmCfg (sample_procCfg false) sample_user)
    tt) as [tr Htr].
  assert (∃ spec, exec_trace (@BuildSpec map_range_list sort_slice_merge
    (bytefmt_ToBytes (λ _ _, 0%Z)) sample_adapter sample_bpmCfg (sample_procCfg false) sample_user)
    tr (FVal (Ok spec))) as [spec Hs] by (eexists; exact Htr).
  exists tr, spec. split; [exact Hs|].
  destruct (@memory_limit_bytes map_range_list sort_slice_merge _ _ _ _ _ tr spec sample_limits 1%Z "G" 3%Z
    Hs eq_refl eq_refl) as (v & Hv & Hsmall & _).
  - lia.
  - apply (bool_decide_unpack _). vm_compute. exact I.
  - lia.
  - rewrite (Hsmall ltac:(lia)) in Hv. exact Hv.
Defined.
