(* ===== verification/YamlScalar.v ===== *)
(** * gopkg.in/yaml.v3: scalars
    (src/bpm/vendor/gopkg.in/yaml.v3/resolve.go)

    What a scalar of a YAML document stands for.  [resolve] looks at the text of a
    scalar, and at its tag, and answers null, a boolean, an integer, a floating-point
    number, a timestamp or a string.  [time.Parse] is a parameter: whether a text is a
    timestamp of one of four layouts. *)

From S2P Require Import Prelude GoStrings Json Cobra Bytefmt.
From Stdlib Require Import Ascii.

(** ** Values *)

(** A float64: a sign, a significand and an exponent of two, or a special value. *)
Inductive float64 :=
| FNum (neg : bool) (q e : Z)
| FInf (neg : bool)
| FNaN.

(** The [interface{}] that [resolve] returns.  The package distinguishes int, int64 and
    uint64; on 64 bits an integer is an int when it fits one and a uint64 otherwise.  A
    timestamp keeps its text. *)
Inductive resolved :=
| RNil
| RBool (b : bool)
| RInt (z : Z)
| RFloat (f : float64)
| RTime (text : string)
| RStr (s : string).

#[export] Instance float64_eq_dec : EqDecision float64.
Proof. solve_decision. Defined.
#[export] Instance resolved_eq_dec : EqDecision resolved.
Proof. solve_decision. Defined.

(** ** Tags *)

Definition nullTag : string := "!!null".
Definition boolTag : string := "!!bool".
Definition strTag : string := "!!str".
Definition intTag : string := "!!int".
Definition floatTag : string := "!!float".
Definition timestampTag : string := "!!timestamp".
Definition seqTag : string := "!!seq".
Definition mapTag : string := "!!map".
Definition binaryTag : string := "!!binary".
Definition mergeTag : string := "!!merge".

Definition longTagPrefix : string := "tag:yaml.org,2002:".

(** The table [shortTags] has what the general rule gives for its entries. *)
Definition shortTag (tag : string) : string :=
  if HasPrefix tag longTagPrefix then "!!" +:+ drop (String.length longTagPrefix) tag else tag.

Definition resolvableTag (tag : string) : bool :=
  slices_Contains [""; strTag; boolTag; intTag; floatTag; nullTag; timestampTag] tag.

(** ** Numbers *)

(** [strconv.ParseUint(s, 0, 64)]. *)
Definition ParseUint0 (s : string) : option Z :=
  v ← parse_uint0 s; if (v <? two64)%Z then Some v else None.

(** [strconv.ParseUint(s, base, 64)] and [strconv.ParseInt(s, base, 64)] for a base
    other than 0, which allows no underscores. *)
Definition parse_uint_base (base : Z) (s : string) : option Z :=
  match s with
  | EmptyString => None
  | _ => if no_byte "_" s then parse_digits base 0 s else None
  end.
Definition ParseUintBase (base : Z) (s : string) : option Z :=
  v ← parse_uint_base base s; if (v <? two64)%Z then Some v else None.
Definition ParseIntBase (base : Z) (s : string) : option Z :=
  match s with
  | String "-" r => v ← parse_uint_base base r; if (v <=? 2 ^ 63)%Z then Some (- v)%Z else None
  | String "+" r => v ← parse_uint_base base r; if (v <? 2 ^ 63)%Z then Some v else None
  | _ => v ← parse_uint_base base s; if (v <? 2 ^ 63)%Z then Some v else None
  end.

(** What precedes the first [e] or [E], and what follows it if there is one. *)
Fixpoint split_exponent (s : string) : string * option string :=
  match s with
  | EmptyString => ("", None)
  | String c r =>
      if Ascii.eqb c "e" || Ascii.eqb c "E" then ("", Some r)
      else let '(a, b) := split_exponent r in (String c a, b)
  end.

Definition sign_of (s : string) : bool * string :=
  match s with
  | String "-" r => (true, r) | String "+" r => (false, r) | _ => (false, s)
  end.

(** The digits of an exponent, which strconv stops accumulating at five digits. *)
Fixpoint exponent_digits (acc : Z) (s : string) : option Z :=
  match s with
  | EmptyString => Some acc
  | String c r =>
      if in_range "0" "9" c then
        exponent_digits (if (acc <? 10000)%Z then acc * 10 + Z.of_nat (byte_val c - 48) else acc)%Z r
      else None
  end.
Definition parse_exponent (s : string) : option Z :=
  match sign_of s with
  | (_, EmptyString) => None
  | (neg, ds) => e ← exponent_digits 0 ds; Some (if neg then - e else e)%Z
  end.

(** [strconv.ParseFloat] of a decimal with an optional exponent (the strings it is
    given here start with a digit, a sign or a point); [None] for a syntax error or a
    number out of range. *)
Definition parse_float (s : string) : option float64 :=
  if negb (no_byte "_" s) && negb (underscoreOK (sign_of s).2) then None
  else
    let '(mantissa, exponent) := split_exponent (remove_underscores s) in
    '(neg, m, k) ← parse_decimal mantissa;
    e10 ← match exponent with None => Some 0%Z | Some x => parse_exponent x end;
    let p := (e10 - Z.of_nat k)%Z in
    let '(q, e) := if (0 <=? p)%Z then round_float (m * 10 ^ p) 1 else round_float m (10 ^ (- p)) in
    if (0 <=? e)%Z && (2 ^ 1024 <=? q * 2 ^ e)%Z then None else Some (FNum neg q e).

(** The regular expression [yamlStyleFloat]: an optional sign, digits with an optional
    point among or after them or a point and digits, an optional exponent. *)
Definition is_digits (s : string) : bool :=
  match s with EmptyString => false | _ => all_digits s end.
Definition yamlStyleFloat (s : string) : bool :=
  let '(mantissa, exponent) := split_exponent (sign_of s).2 in
  (match span_digits mantissa with
   | (EmptyString, String "." f) => is_digits f
   | (EmptyString, _) => false
   | (_, EmptyString) => true
   | (_, String "." f) => all_digits f
   | _ => false
   end)
  && match exponent with None => true | Some x => is_digits (sign_of x).2 end.

(** [float64(v)] of an integer. *)
Definition float_of_int (v : Z) : float64 :=
  let '(q, e) := round_float (Z.abs v) 1 in FNum (v <? 0)%Z q e.

(** ** resolve *)

Inductive hint := HintNone | HintMap | HintPoint | HintNumber.

(** [resolveTable]; the empty text is looked up in the map. *)
Definition hint_of (s : string) : hint :=
  match s with
  | EmptyString => HintMap
  | String c _ =>
      if Ascii.eqb c "+" || Ascii.eqb c "-" || in_range "0" "9" c then HintNumber
      else if negb (no_byte c "yYnNtTfFoO~") then HintMap
      else if Ascii.eqb c "." then HintPoint
      else HintNone
  end.

Definition resolveMap (s : string) : option (string * resolved) :=
  if slices_Contains ["true"; "True"; "TRUE"] s then Some (boolTag, RBool true)
  else if slices_Contains ["false"; "False"; "FALSE"] s then Some (boolTag, RBool false)
  else if slices_Contains [""; "~"; "null"; "Null"; "NULL"] s then Some (nullTag, RNil)
  else if slices_Contains [".nan"; ".NaN"; ".NAN"] s then Some (floatTag, RFloat FNaN)
  else if slices_Contains [".inf"; ".Inf"; ".INF"; "+.inf"; "+.Inf"; "+.INF"] s
  then Some (floatTag, RFloat (FInf false))
  else if slices_Contains ["-.inf"; "-.Inf"; "-.INF"] s then Some (floatTag, RFloat (FInf true))
  else if bool_decide (s = "<<") then Some (mergeTag, RStr "<<")
  else None.

Section resolve.
(** [time.Parse(layout, s)] succeeds. *)
Context (time_Parse : string → string → bool).

Definition allowedTimestampFormats : list string :=
  ["2006-1-2T15:4:5.999999999Z07:00"; "2006-1-2t15:4:5.999999999Z07:00";
   "2006-1-2 15:4:5.999999999"; "2006-1-2"].

Definition parseTimestamp (s : string) : bool :=
  match span_digits s with
  | (ds, String "-" _) =>
      (String.length ds =? 4) && existsb (λ layout, time_Parse layout s) allowedTimestampFormats
  | _ => false
  end.

(** The cases of the hints [D] and [S], tried in turn. *)
Definition resolve_number (tag s : string) : string * resolved :=
  let plain := remove_underscores s in
  let int (z : Z) := (intTag, RInt z) in
  if bool_decide (tag = "" ∨ tag = timestampTag) && parseTimestamp s then (timestampTag, RTime s) else
  match ParseInt0 plain, ParseUint0 plain with
  | Some z, _ | None, Some z => int z
  | None, None =>
      match (if yamlStyleFloat plain then parse_float plain else None) with
      | Some f => (floatTag, RFloat f)
      | None =>
          let based :=
            if HasPrefix plain "0b" then
              match ParseIntBase 2 (drop 2 plain) with
              | Some z => Some z | None => ParseUintBase 2 (drop 2 plain)
              end
            else if HasPrefix plain "-0b" then ParseIntBase 2 ("-" +:+ drop 3 plain)
            else None in
          match based with
          | Some z => int z
          | None =>
              let octal :=
                if HasPrefix plain "0o" then
                  match ParseIntBase 8 (drop 2 plain) with
                  | Some z => Some z | None => ParseUintBase 8 (drop 2 plain)
                  end
                else if HasPrefix plain "-0o" then ParseIntBase 8 ("-" +:+ drop 3 plain)
                else None in
              match octal with
              | Some z => int z
              | None => (strTag, RStr s)
              end
          end
      end
  end.

(** The value before the deferred check of an explicit tag. *)
Definition resolve_value (tag s : string) : string * resolved :=
  if decide (tag = strTag) then (strTag, RStr s) else
  match hint_of s with
  | HintNone => (strTag, RStr s)
  | h =>
      match resolveMap s with
      | Some r => r
      | None =>
          match h with
          | HintPoint => match parse_float s with
                         | Some f => (floatTag, RFloat f)
                         | None => (strTag, RStr s)
                         end
          | HintNumber => resolve_number tag s
          | _ => (strTag, RStr s)
          end
      end
  end.

Definition resolve (tag s : string) : result (string * resolved) :=
  let tag := shortTag tag in
  if negb (resolvableTag tag) then Ok (tag, RStr s)
  else
    let '(rtag, out) := resolve_value tag s in
    if bool_decide (tag = "" ∨ tag = rtag ∨ tag = strTag) then Ok (rtag, out)
    else
      let mismatch := Err (Errorf "yaml: cannot decode %s `%s` as a %s" [shortTag rtag; s; tag]) in
      match out with
      | RInt v => if bool_decide (tag = floatTag) && (v <? 2 ^ 63)%Z
                  then Ok (floatTag, RFloat (float_of_int v)) else mismatch
      | _ => mismatch
      end.
End resolve.

(** ** base64.StdEncoding *)

Definition base64_digit (c : ascii) : option Z :=
  let n := Z.of_nat (byte_val c) in
  if in_range "A" "Z" c then Some (n - 65)%Z
  else if in_range "a" "z" c then Some (n - 71)%Z
  else if in_range "0" "9" c then Some (n + 4)%Z
  else if Ascii.eqb c "+" then Some 62%Z
  else if Ascii.eqb c "/" then Some 63%Z
  else None.

Fixpoint remove_line_breaks (s : string) : string :=
  match s with
  | EmptyString => ""
  | String c r =>
      if Ascii.eqb c "013" || Ascii.eqb c "010" then remove_line_breaks r
      else String c (remove_line_breaks r)
  end.

Definition byte_at (v shift : Z) : ascii := byte_of (Z.to_nat (Z.land (Z.shiftr v shift) 255)).

(** Groups of four characters give three bytes; the last may end in one or two [=]. *)
Fixpoint base64_groups (s : string) : option string :=
  match s with
  | EmptyString => Some ""
  | String a (String b (String c (String d r))) =>
      x ← base64_digit a; y ← base64_digit b;
      match base64_digit c, base64_digit d with
      | Some z, Some w =>
          let v := (x * 262144 + y * 4096 + z * 64 + w)%Z in
          rest ← base64_groups r;
          Some (String (byte_at v 16) (String (byte_at v 8) (String (byte_at v 0) rest)))
      | Some z, None =>
          if Ascii.eqb d "=" && bool_decide (r = "") then
            let v := (x * 262144 + y * 4096 + z * 64)%Z in
            Some (String (byte_at v 16) (String (byte_at v 8) ""))
          else None
      | None, _ =>
          if Ascii.eqb c "=" && Ascii.eqb d "=" && bool_decide (r = "") then
            Some (String (byte_at (x * 262144 + y * 4096) 16) "")
          else None
      end
  | _ => None
  end.
Definition base64_DecodeString (s : string) : option string := base64_groups (remove_line_breaks s).

Definition no_times : string → string → bool := λ _ _, false.
Example resolve1 : resolve no_times "" "0o17" = Ok (intTag, RInt 15). Proof. reflexivity. Qed.
Example resolve2 : resolve no_times "" "1_000" = Ok (intTag, RInt 1000). Proof. reflexivity. Qed.
Example resolve3 : resolve no_times "" "100G" = Ok (strTag, RStr "100G"). Proof. reflexivity. Qed.
Example resolve4 : resolve no_times "" "1.5e3" = Ok (floatTag, RFloat (FNum false (1500 * 2 ^ 42) (-42))).
Proof. vm_compute. reflexivity. Qed.
Example resolve5 : resolve no_times "!!int" "yes" = Err (Errorf "yaml: cannot decode %s `%s` as a %s" ["!!str"; "yes"; "!!int"]).
Proof. reflexivity. Qed.
Example base64_1 : base64_DecodeString "YnBtIQ==" = Some "bpm!". Proof. reflexivity. Qed.
