(* ===== verification/Yaml.v ===== *)
(** * gopkg.in/yaml.v3: decoding a document into a job configuration
    (src/bpm/vendor/gopkg.in/yaml.v3/decode.go)

    [yaml.Unmarshal] has two halves: a parser that turns the text into a tree of nodes,
    and a decoder that walks the tree with the Go type it has to fill.  The decoder is
    modelled here in full for the types of a job configuration: the types are codes
    [gotype] with an interpretation, the struct tags of config/job_config.go are lists
    of fields, and the state of the decoder (type errors, counters, merged keys) is
    threaded through a monad whose computations may also fail or panic.  The parser is
    in the file YamlParser. *)

From S2P Require Import Prelude GoStrings Specs Config YamlScalar.
From Stdlib Require Import Ascii.

(** ** Nodes *)

(** A node as the parser builds it, with its line.  The tag of a scalar is the explicit
    one or the resolved one; [quoted] is any style other than plain.  An alias holds the
    node of its anchor; where that node contains the alias itself, the inner occurrence
    holds nothing: the decoder has marked it in [aliases] when it gets there. *)
Unset Elimination Schemes.
Inductive node :=
| Scalar (line : Z) (tag : string) (quoted : bool) (value : string)
| Sequence (line : Z) (tag : string) (content : list node)
| Mapping (line : Z) (tag : string) (content : list (node * node))
| Alias (line : Z) (name : string) (target : option node)
| Document (content : node).
Set Elimination Schemes.

Section node_ind.
Context (P : node → Prop).
Context (P_scalar : ∀ line tag quoted value, P (Scalar line tag quoted value)).
Context (P_sequence : ∀ line tag content, Forall P content → P (Sequence line tag content)).
Context (P_mapping : ∀ line tag content,
  Forall (λ kv, P kv.1 ∧ P kv.2) content → P (Mapping line tag content)).
Context (P_alias : ∀ line name target, from_option P True target → P (Alias line name target)).
Context (P_document : ∀ content, P content → P (Document content)).

Fixpoint node_ind (n : node) : P n.
Proof.
  destruct n as [line tag quoted value|line tag content|line tag content|line name [target|]|content].
  - apply P_scalar.
  - apply P_sequence. induction content as [|x l IH]; constructor; auto.
  - apply P_mapping. induction content as [|[k v] l IH]; constructor; auto.
  - apply P_alias. apply node_ind.
  - apply P_alias. exact I.
  - apply P_document, node_ind.
Defined.
End node_ind.

Definition n_line (n : node) : Z :=
  match n with
  | Scalar l _ _ _ | Sequence l _ _ | Mapping l _ _ | Alias l _ _ => l
  | Document _ => 0%Z
  end.
Definition n_tag (n : node) : string :=
  match n with
  | Scalar _ t _ _ | Sequence _ t _ | Mapping _ t _ => t
  | Alias _ _ _ | Document _ => ""
  end.
Definition n_value (n : node) : string :=
  match n with Scalar _ _ _ v => v | Alias _ name _ => name | _ => "" end.
Definition n_kind (n : node) : nat :=
  match n with Scalar _ _ _ _ => 0 | Sequence _ _ _ => 1 | Mapping _ _ _ => 2 | Alias _ _ _ => 3
  | Document _ => 4 end.

Definition indicatedString (n : node) : bool :=
  match n with
  | Scalar _ tag quoted _ =>
      bool_decide (shortTag tag = strTag) || (bool_decide (tag = "" ∨ tag = "!") && quoted)
  | _ => false
  end.

Definition isMerge (n : node) : bool :=
  match n with
  | Scalar _ tag _ v => bool_decide (v = "<<" ∧ (tag = "" ∨ tag = "!" ∨ shortTag tag = mergeTag))
  | _ => false
  end.

(** ** Types *)

Inductive sname := SJob | SProcess | SLimits | SHooks | SVolume | SUnsafe.

(** [TMap] is [map[string]string], [TIface] is [interface{}]; [TAnyMap] is the map an
    [interface{}] gets for a mapping, with string keys or keys of any type. *)
Inductive gotype :=
| TString
| TBool
| TInt64
| TUint64
| TMap
| TIface
| TAnyMap (string_keys : bool)
| TPtr (t : gotype)
| TSlice (t : gotype)
| TStruct (s : sname).

(** A value decoded without a type: a scalar, or a map or slice. *)
Inductive iface := IVal (r : resolved) | IComposite.

Definition struct_type (s : sname) : Type :=
  match s with
  | SJob => JobConfig | SProcess => ProcessConfig | SLimits => Limits
  | SHooks => Hooks | SVolume => Volume | SUnsafe => Unsafe
  end.

Fixpoint interp (t : gotype) : Type :=
  match t with
  | TString => string
  | TBool => bool
  | TInt64 | TUint64 => Z
  | TMap => option (gmap string string)
  | TIface => iface
  | TAnyMap _ => unit
  | TPtr t => option (interp t)
  | TSlice t => list (interp t)
  | TStruct s => struct_type s
  end.

Definition zero_struct (s : sname) : struct_type s :=
  match s with
  | SJob => mkJobConfig []
  | SProcess => mkProcessConfig "" "" [] None [] [] false None None false "" None ""
  | SLimits => mkLimits None None None None
  | SHooks => mkHooks ""
  | SVolume => mkVolume "" false false false false
  | SUnsafe => mkUnsafe false [] false
  end.

(** [reflect.Zero]. *)
Definition zero (t : gotype) : interp t :=
  match t with
  | TString => ""
  | TBool => false
  | TInt64 | TUint64 => 0%Z
  | TMap => None
  | TIface => IVal RNil
  | TAnyMap _ => ()
  | TPtr _ => None
  | TSlice _ => []
  | TStruct s => zero_struct s
  end.

Definition struct_name (s : sname) : string :=
  match s with
  | SJob => "JobConfig" | SProcess => "ProcessConfig" | SLimits => "Limits"
  | SHooks => "Hooks" | SVolume => "Volume" | SUnsafe => "Unsafe"
  end.

Fixpoint type_name (t : gotype) : string :=
  match t with
  | TString => "string" | TBool => "bool" | TInt64 => "int64" | TUint64 => "uint64"
  | TMap => "map[string]string" | TIface => "interface {}"
  | TAnyMap true => "map[string]interface {}"
  | TAnyMap false => "map[interface {}]interface {}"
  | TPtr t => "*" +:+ type_name t
  | TSlice t => "[]" +:+ type_name t
  | TStruct s => "config." +:+ struct_name s
  end.

(** A field with the key of its struct tag. *)
Record field (S : Type) := mkField {
  f_key : string;
  f_type : gotype;
  f_get : S → interp f_type;
  f_set : interp f_type → S → S
}.
Arguments mkField {S} f_key f_type f_get f_set.
Arguments f_key {S} f.
Arguments f_type {S} f.
Arguments f_get {S} f s.
Arguments f_set {S} f x s.

Definition JobConfig_fields : list (field JobConfig) := [
  mkField "processes" (TSlice (TPtr (TStruct SProcess))) Processes (λ x _, mkJobConfig x)].

Definition ProcessConfig_fields : list (field ProcessConfig) := [
  mkField "name" (TString) pc_name (λ x c, mkProcessConfig
    x (pc_executable c) (pc_args c) (pc_env c) (pc_additionalVolumes c) (pc_capabilities c)
    (pc_ephemeralDisk c) (pc_hooks c) (pc_limits c) (pc_persistentDisk c) (pc_workDir c)
    (pc_unsafe c) (pc_shutdownSignal c));
  mkField "executable" (TString) pc_executable (λ x c, mkProcessConfig
    (pc_name c) x (pc_args c) (pc_env c) (pc_additionalVolumes c) (pc_capabilities c)
    (pc_ephemeralDisk c) (pc_hooks c) (pc_limits c) (pc_persistentDisk c) (pc_workDir c)
    (pc_unsafe c) (pc_shutdownSignal c));
  mkField "args" (TSlice TString) pc_args (λ x c, mkProcessConfig
    (pc_name c) (pc_executable c) x (pc_env c) (pc_additionalVolumes c) (pc_capabilities c)
    (pc_ephemeralDisk c) (pc_hooks c) (pc_limits c) (pc_persistentDisk c) (pc_workDir c)
    (pc_unsafe c) (pc_shutdownSignal c));
  mkField "env" (TMap) pc_env (λ x c, mkProcessConfig
    (pc_name c) (pc_executable c) (pc_args c) x (pc_additionalVolumes c) (pc_capabilities c)
    (pc_ephemeralDisk c) (pc_hooks c) (pc_limits c) (pc_persistentDisk c) (pc_workDir c)
    (pc_unsafe c) (pc_shutdownSignal c));
  mkField "additional_volumes" (TSlice (TStruct SVolume)) pc_additionalVolumes (λ x c, mkProcessConfig
    (pc_name c) (pc_executable c) (pc_args c) (pc_env c) x (pc_capabilities c)
    (pc_ephemeralDisk c) (pc_hooks c) (pc_limits c) (pc_persistentDisk c) (pc_workDir c)
    (pc_unsafe c) (pc_shutdownSignal c));
  mkField "capabilities" (TSlice TString) pc_capabilities (λ x c, mkProcessConfig
    (pc_name c) (pc_executable c) (pc_args c) (pc_env c) (pc_additionalVolumes c) x
    (pc_ephemeralDisk c) (pc_hooks c) (pc_limits c) (pc_persistentDisk c) (pc_workDir c)
    (pc_unsafe c) (pc_shutdownSignal c));
  mkField "ephemeral_disk" (TBool) pc_ephemeralDisk (λ x c, mkProcessConfig
    (pc_name c) (pc_executable c) (pc_args c) (pc_env c) (pc_additionalVolumes c)
    (pc_capabilities c) x (pc_hooks c) (pc_limits c) (pc_persistentDisk c) (pc_workDir c)
    (pc_unsafe c) (pc_shutdownSignal c));
  mkField "hooks" (TPtr (TStruct SHooks)) pc_hooks (λ x c, mkProcessConfig
    (pc_name c) (pc_executable c) (pc_args c) (pc_env c) (pc_additionalVolumes c)
    (pc_capabilities c) (pc_ephemeralDisk c) x (pc_limits c) (pc_persistentDisk c)
    (pc_workDir c) (pc_unsafe c) (pc_shutdownSignal c));
  mkField "limits" (TPtr (TStruct SLimits)) pc_limits (λ x c, mkProcessConfig
    (pc_name c) (pc_executable c) (pc_args c) (pc_env c) (pc_additionalVolumes c)
    (pc_capabilities c) (pc_ephemeralDisk c) (pc_hooks c) x (pc_persistentDisk c) (pc_workDir c)
    (pc_unsafe c) (pc_shutdownSignal c));
  mkField "persistent_disk" (TBool) pc_persistentDisk (λ x c, mkProcessConfig
    (pc_name c) (pc_executable c) (pc_args c) (pc_env c) (pc_additionalVolumes c)
    (pc_capabilities c) (pc_ephemeralDisk c) (pc_hooks c) (pc_limits c) x (pc_workDir c)
    (pc_unsafe c) (pc_shutdownSignal c));
  mkField "workdir" (TString) pc_workDir (λ x c, mkProcessConfig
    (pc_name c) (pc_executable c) (pc_args c) (pc_env c) (pc_additionalVolumes c)
    (pc_capabilities c) (pc_ephemeralDisk c) (pc_hooks c) (pc_limits c) (pc_persistentDisk c) x
    (pc_unsafe c) (pc_shutdownSignal c));
  mkField "unsafe" (TPtr (TStruct SUnsafe)) pc_unsafe (λ x c, mkProcessConfig
    (pc_name c) (pc_executable c) (pc_args c) (pc_env c) (pc_additionalVolumes c)
    (pc_capabilities c) (pc_ephemeralDisk c) (pc_hooks c) (pc_limits c) (pc_persistentDisk c)
    (pc_workDir c) x (pc_shutdownSignal c));
  mkField "shutdown_signal" (TString) pc_shutdownSignal (λ x c, mkProcessConfig
    (pc_name c) (pc_executable c) (pc_args c) (pc_env c) (pc_additionalVolumes c)
    (pc_capabilities c) (pc_ephemeralDisk c) (pc_hooks c) (pc_limits c) (pc_persistentDisk c)
    (pc_workDir c) (pc_unsafe c) x)].

Definition Limits_fields : list (field Limits) := [
  mkField "memory" (TPtr TString) l_memory (λ x c, mkLimits
    x (l_openFiles c) (l_processes c) (l_coreFileSize c));
  mkField "open_files" (TPtr TUint64) l_openFiles (λ x c, mkLimits
    (l_memory c) x (l_processes c) (l_coreFileSize c));
  mkField "processes" (TPtr TInt64) l_processes (λ x c, mkLimits
    (l_memory c) (l_openFiles c) x (l_coreFileSize c));
  mkField "core_file_size" (TPtr TUint64) l_coreFileSize (λ x c, mkLimits
    (l_memory c) (l_openFiles c) (l_processes c) x)].

Definition Hooks_fields : list (field Hooks) := [
  mkField "pre_start" (TString) PreStart (λ x _, mkHooks x)].

Definition Volume_fields : list (field Volume) := [
  mkField "path" (TString) v_path (λ x c, mkVolume
    x (v_writable c) (v_allowExecutions c) (v_mountOnly c) (v_shared c));
  mkField "writable" (TBool) v_writable (λ x c, mkVolume
    (v_path c) x (v_allowExecutions c) (v_mountOnly c) (v_shared c));
  mkField "allow_executions" (TBool) v_allowExecutions (λ x c, mkVolume
    (v_path c) (v_writable c) x (v_mountOnly c) (v_shared c));
  mkField "mount_only" (TBool) v_mountOnly (λ x c, mkVolume
    (v_path c) (v_writable c) (v_allowExecutions c) x (v_shared c));
  mkField "shared" (TBool) v_shared (λ x c, mkVolume
    (v_path c) (v_writable c) (v_allowExecutions c) (v_mountOnly c) x)].

Definition Unsafe_fields : list (field Unsafe) := [
  mkField "privileged" (TBool) Privileged (λ x c, mkUnsafe
    x (UnrestrictedVolumes c) (HostPidNamespace c));
  mkField "unrestricted_volumes" (TSlice (TStruct SVolume)) UnrestrictedVolumes (λ x c, mkUnsafe
    (Privileged c) x (HostPidNamespace c));
  mkField "host_pid_namespace" (TBool) HostPidNamespace (λ x c, mkUnsafe
    (Privileged c) (UnrestrictedVolumes c) x)].

Definition fields (s : sname) : list (field (struct_type s)) :=
  match s with
  | SJob => JobConfig_fields | SProcess => ProcessConfig_fields | SLimits => Limits_fields
  | SHooks => Hooks_fields | SVolume => Volume_fields | SUnsafe => Unsafe_fields
  end.

Definition find_field (s : sname) (key : string) : option (field (struct_type s)) :=
  List.find (λ f, bool_decide (f_key f = key)) (fields s).

(** ** The decoder's state *)

Record decoder := mkDecoder {
  d_terrors : list (string * list string);
  d_decodeCount : Z;
  d_aliasCount : Z;
  d_aliasDepth : Z;
  d_mergedFields : option (list resolved)
}.

Definition newDecoder : decoder := mkDecoder [] 0 0 0 None.

(** A computation returns, fails (the panics of [failf] that [handleErr] turns into an
    error), or panics. *)
Inductive dres (A : Type) :=
| DOk (a : A) (d : decoder)
| DFail (err : error)
| DPanic (p : panic).
Arguments DOk {A} a d.
Arguments DFail {A} err.
Arguments DPanic {A} p.

Definition dec (A : Type) : Type := decoder → dres A.

Definition dec_bind {A B} (m : dec A) (k : A → dec B) : dec B := λ d,
  match m d with DOk a d' => k a d' | DFail err => DFail err | DPanic p => DPanic p end.
#[export] Instance dec_mret : MRet dec := λ A a d, DOk a d.
#[export] Instance dec_mbind : MBind dec := λ A B k m, dec_bind m k.

Definition failf {A} (format : string) (args : list string) : dec A := λ _,
  DFail (Errorf ("yaml: " +:+ format) args).
Definition dec_result {A} (r : result A) : dec A := λ d,
  match r with Ok a => DOk a d | Err e => DFail e end.
Definition dec_panic {A} (p : panic) : dec A := λ _, DPanic p.
Definition get_merged : dec (option (list resolved)) := λ d, DOk (d_mergedFields d) d.
Definition set_merged (m : option (list resolved)) : dec unit := λ d,
  DOk () (mkDecoder (d_terrors d) (d_decodeCount d) (d_aliasCount d) (d_aliasDepth d) m).
Definition add_terror (format : string) (args : list string) : dec unit := λ d,
  DOk () (mkDecoder (d_terrors d ++ [(format, args)]) (d_decodeCount d) (d_aliasCount d)
            (d_aliasDepth d) (d_mergedFields d)).
Definition alias_depth (by_ : Z) : dec unit := λ d,
  DOk () (mkDecoder (d_terrors d) (d_decodeCount d) (d_aliasCount d) (d_aliasDepth d + by_)
            (d_mergedFields d)).

(** [terror]: the value is shown unless the tag is that of a sequence or mapping. *)
Definition terror (n : node) (tag : string) (t : gotype) : dec unit :=
  let tag := if decide (n_tag n = "") then tag else n_tag n in
  let value :=
    if decide (tag = seqTag ∨ tag = mapTag) then n_value n
    else if (10 <? String.length (n_value n)) then " `" +:+ String.substring 0 7 (n_value n) +:+ "...`"
    else " `" +:+ n_value n +:+ "`" in
  add_terror "line %d: cannot unmarshal %s%s into %s"
    [Itoa (n_line n); shortTag tag; value; type_name t].

(** [float64(aliasCount)/float64(decodeCount) > allowedAliasRatio(decodeCount)], compared
    exactly. *)
Definition excessive_aliasing (d : decoder) : bool :=
  let a := d_aliasCount d in
  let c := d_decodeCount d in
  (100 <? a)%Z && (1000 <? c)%Z &&
  (if (c <=? 400000)%Z then (99 * c <? 100 * a)%Z
   else if (4000000 <=? c)%Z then (c <? 10 * a)%Z
   else ((99 * 3600000 - 89 * (c - 400000)) * c <? 100 * 3600000 * a)%Z).

(** The head of [unmarshal]. *)
Definition count_decode : dec unit := λ d,
  let d := mkDecoder (d_terrors d) (d_decodeCount d + 1)
             (if (0 <? d_aliasDepth d)%Z then d_aliasCount d + 1 else d_aliasCount d)
             (d_aliasDepth d) (d_mergedFields d) in
  if excessive_aliasing d
  then DFail (Errorf "yaml: document contains excessive aliasing" []) else DOk () d.

(** ** Scalars *)

Section decode.
Context (time_Parse : string → string → bool).
(** What converting a float64 out of range to int64 or uint64 gives: left open by Go. *)
Context (wide_int wide_uint : float64 → Z).

Abbreviation resolve := (resolve time_Parse).

(** [ShortTag]. *)
Fixpoint ShortTag (n : node) : result string :=
  if indicatedString n then Ok strTag else
  match n with
  | Scalar _ tag _ v =>
      if decide (tag = "" ∨ tag = "!") then r ←? resolve "" v; Ok r.1 else Ok (shortTag tag)
  | Sequence _ tag _ => Ok (if decide (tag = "" ∨ tag = "!") then seqTag else shortTag tag)
  | Mapping _ tag _ => Ok (if decide (tag = "" ∨ tag = "!") then mapTag else shortTag tag)
  | Alias _ _ (Some n') => ShortTag n'
  | Alias _ _ None | Document _ => Ok ""
  end.

Definition is_null (n : node) : dec bool :=
  tag ← dec_result (ShortTag n); mret (bool_decide (tag = nullTag)).

(** [null]: pointers, maps, slices and interfaces are set to nil.  The map made for an
    [interface{}] is not addressable, and stays. *)
Definition null (t : gotype) : interp t → interp t * bool :=
  match t with
  | TMap | TIface | TPtr _ | TSlice _ => λ _, (zero _, true)
  | _ => λ out, (out, false)
  end.

(** The magnitude of a number, truncated, with its sign. *)
Definition truncate (neg : bool) (q e : Z) : Z :=
  let v := if (0 <=? e)%Z then (q * 2 ^ e)%Z else (q / 2 ^ (- e))%Z in
  if neg then (- v)%Z else v.
(** [f <= bound] for [bound] a power of two. *)
Definition float_le (f : float64) (bound : Z) : bool :=
  match f with
  | FNum false q e => if (0 <=? e)%Z then (q * 2 ^ e <=? bound)%Z else (q <=? bound * 2 ^ (- e))%Z
  | FNum true _ _ | FInf true => true
  | FInf false | FNaN => false
  end.
(** [int64(f)] and [uint64(f)]. *)
Definition int64_of (f : float64) : Z :=
  match f with
  | FNum neg q e =>
      let v := truncate neg q e in
      if ((- 2 ^ 63 <=? v) && (v <? 2 ^ 63))%Z then v else wide_int f
  | _ => wide_int f
  end.
Definition uint64_of (f : float64) : Z :=
  match f with
  | FNum neg q e =>
      let v := truncate neg q e in if ((0 <=? v) && (v <? 2 ^ 64))%Z then v else wide_uint f
  | _ => wide_uint f
  end.

Definition bool_word (s : string) : option bool :=
  if slices_Contains ["y"; "Y"; "yes"; "Yes"; "YES"; "on"; "On"; "ON"] s then Some true
  else if slices_Contains ["n"; "N"; "no"; "No"; "NO"; "off"; "Off"; "OFF"] s then Some false
  else None.

(** The tag and value of a scalar node. *)
Definition scalar_value (n : node) : result (string * resolved) :=
  if indicatedString n then Ok (strTag, RStr (n_value n)) else
  r ←? resolve (n_tag n) (n_value n);
  if decide (r.1 = binaryTag) then
    match base64_DecodeString (n_value n) with
    | Some data => Ok (binaryTag, RStr data)
    | None => Err (Errorf "yaml: !!binary value contains invalid base64 data" [])
    end
  else Ok r.

(** What a value that is not null is in a type; [None] is a type error. *)
Definition convert (t : gotype) (n : node) (r : resolved) : option (interp t) :=
  match t with
  | TString => Some match r with RStr s => s | _ => n_value n end
  | TBool => match r with RBool b => Some b | RStr s => bool_word s | _ => None end
  | TInt64 =>
      match r with
      | RInt z => if (z <? 2 ^ 63)%Z then Some z else None
      | RFloat f => if float_le f (2 ^ 63) then Some (int64_of f) else None
      | _ => None
      end
  | TUint64 =>
      match r with
      | RInt z => if (0 <=? z)%Z then Some z else None
      | RFloat f => if float_le f (2 ^ 64) then Some (uint64_of f) else None
      | _ => None
      end
  | TIface => Some (IVal r)
  | _ => None
  end.

Definition scalar (n : node) (t : gotype) (out : interp t) : dec (interp t * bool) :=
  r ← dec_result (scalar_value n);
  match r.2, t with
  | RNil, _ => mret (null t out)
  | _, TPtr _ => dec_panic (PanicMsg "yaml internal error: please report the issue")
  | _, _ =>
      match convert t n r.2 with
      | Some v => mret (v, true)
      | None => _ ← terror n r.1 t; mret (out, false)
      end
  end.

(** ** Mappings and sequences *)

(** [prepare]: decoding into a pointer fills what it points to, allocated if need be,
    unless the node is null. *)
Fixpoint dereference (k : ∀ t, interp t → dec (interp t * bool)) (t : gotype)
    : interp t → dec (interp t * bool) :=
  match t with
  | TPtr t' => λ out, r ← dereference k t' (default (zero t') out); mret (Some r.1, r.2)
  | t' => λ out, k t' out
  end.
Definition prepare (n : node) (t : gotype) (out : interp t)
    (k : ∀ t, interp t → dec (interp t * bool)) : dec (interp t * bool) :=
  null ← is_null n;
  if (null : bool) then k t out else dereference k t out.

(** The check of [mapping] for keys given twice. *)
Fixpoint later_duplicates (ni : node) (l : list (node * node)) : dec bool :=
  match l with
  | [] => mret false
  | (nj, _) :: l' =>
      if decide (n_kind ni = n_kind nj ∧ n_value ni = n_value nj) then
        _ ← add_terror "line %d: mapping key %#v already defined at line %d"
              [Itoa (n_line nj); n_value nj; Itoa (n_line ni)];
        _ ← later_duplicates ni l'; mret true
      else later_duplicates ni l'
  end.
Fixpoint duplicate_keys (l : list (node * node)) : dec bool :=
  match l with
  | [] => mret false
  | (ni, _) :: l' => a ← later_duplicates ni l'; b ← duplicate_keys l'; mret (a || b)
  end.

(** Equality of keys as [==] compares them: a NaN equals nothing, and the zeros are
    equal.  Timestamps are compared by their texts. *)
Definition float_eqb (f g : float64) : bool :=
  match f, g with
  | FNum n1 q1 e1, FNum n2 q2 e2 =>
      let e := Z.min e1 e2 in
      (q1 * 2 ^ (e1 - e) =? q2 * 2 ^ (e2 - e))%Z && ((q1 =? 0)%Z || Bool.eqb n1 n2)
  | FInf n1, FInf n2 => Bool.eqb n1 n2
  | _, _ => false
  end.
Definition same_key (a b : resolved) : bool :=
  match a, b with
  | RFloat f, RFloat g => float_eqb f g
  | _, _ => bool_decide (a = b)
  end.

(** [mergedFields[k]] is set already; otherwise it is set now. *)
Definition already_merged (k : resolved) (merged : option (list resolved))
    : bool * option (list resolved) :=
  match merged with
  | None => (false, None)
  | Some m => if existsb (same_key k) m then (true, merged) else (false, Some (k :: m))
  end.

Fixpoint isStringMap (l : list (node * node)) : dec bool :=
  match l with
  | [] => mret true
  | (k, _) :: l' =>
      tag ← dec_result (ShortTag k);
      if decide (tag = strTag ∨ tag = mergeTag) then isStringMap l' else mret false
  end.

(** What can be merged into a mapping. *)
Definition is_mapping (n : node) : bool := n_kind n =? 2.
Definition mergeable (n : node) : bool :=
  match n with Mapping _ _ _ => true | Alias _ _ (Some n') => is_mapping n' | Alias _ _ None => true
             | _ => false end.
Definition failWantMap {A} : dec A :=
  failf "map merge requires map or sequence of maps as the value" [].

(** The loops of the decoder, for the function that decodes a node of their content. *)
Section loops.
Context (U : node → ∀ t, interp t → dec (interp t * bool)).

(** [sequence]: elements that are not decoded are dropped. *)
Fixpoint elements (et : gotype) (l : list node) : dec (list (interp et)) :=
  match l with
  | [] => mret []
  | x :: l' =>
      r ← U x et (zero et);
      rest ← elements et l';
      mret (if (r.2 : bool) then r.1 :: rest else rest)
  end.

(** [mappingStruct]: [done] are the keys set so far. *)
Fixpoint struct_loop (s : sname) (l : list (node * node)) (out : struct_type s)
    (done : list string) (merged : option (list resolved))
    : dec (struct_type s * option (list resolved)) :=
  match l with
  | [] => mret (out, merged)
  | (ni, v) :: l' =>
      if isMerge ni then struct_loop s l' out done merged else
      r ← U ni TString "";
      if negb r.2 then struct_loop s l' out done merged else
      let sname := r.1 in
      let '(skip, merged) := already_merged (RStr sname) merged in
      if skip : bool then struct_loop s l' out done merged else
      match find_field s sname with
      | None => struct_loop s l' out done merged
      | Some f =>
          if decide (sname ∈ done) then
            _ ← add_terror "line %d: field %s already set in type %s"
                  [Itoa (n_line ni); sname; type_name (TStruct s)];
            struct_loop s l' out done merged
          else
            r ← U v (f_type f) (f_get f out);
            struct_loop s l' (f_set f r.1 out) (sname :: done) merged
      end
  end.

(** [mapping] into a [map[string]string]; a null value is the empty string of a new key. *)
Fixpoint map_loop (mapIsNew : bool) (l : list (node * node)) (out : gmap string string)
    (merged : option (list resolved)) : dec (gmap string string * option (list resolved)) :=
  match l with
  | [] => mret (out, merged)
  | (ni, v) :: l' =>
      if isMerge ni then map_loop mapIsNew l' out merged else
      r ← U ni TString "";
      if negb r.2 then map_loop mapIsNew l' out merged else
      let k := r.1 in
      let '(skip, merged) := already_merged (RStr k) merged in
      if skip : bool then map_loop mapIsNew l' out merged else
      e ← U v TString "";
      if (e.2 : bool) then map_loop mapIsNew l' (<[k := e.1]> out) merged else
      null ← is_null v;
      if null && (mapIsNew || bool_decide (out !! k = None))
      then map_loop mapIsNew l' (<[k := e.1]> out) merged
      else map_loop mapIsNew l' out merged
  end.

(** [mapping] into the map of an [interface{}]: a composite key is no key of a Go map. *)
Definition any_key (string_keys : bool) (ni : node) : dec (iface * bool) :=
  if string_keys then r ← U ni TString ""; mret (IVal (RStr r.1), r.2)
  else U ni TIface (IVal RNil).
Fixpoint iface_loop (string_keys : bool) (l : list (node * node)) (merged : option (list resolved))
    : dec (option (list resolved)) :=
  match l with
  | [] => mret merged
  | (ni, v) :: l' =>
      if isMerge ni then iface_loop string_keys l' merged else
      r ← any_key string_keys ni;
      if negb r.2 then iface_loop string_keys l' merged else
      match r.1, merged with
      | IComposite, Some _ => dec_panic (PanicMsg "hash of unhashable type")
      | IComposite, None => failf "invalid map key: %#v" []
      | IVal k, _ =>
          let '(skip, merged) := already_merged k merged in
          if skip : bool then iface_loop string_keys l' merged else
          _ ← U v TIface (IVal RNil); iface_loop string_keys l' merged
      end
  end.

(** [merge]: the keys of the mapping itself win over merged ones. *)
Fixpoint record_keys (l : list (node * node)) : dec unit :=
  match l with
  | [] => mret ()
  | (k, _) :: l' =>
      r ← U k TIface (IVal RNil);
      _ ← (if (r.2 : bool) then
             match r.1 with
             | IVal x => m ← get_merged; set_merged (Some (x :: default [] m))
             | IComposite => dec_panic (PanicMsg "hash of unhashable type")
             end
           else mret ());
      record_keys l'
  end.

Fixpoint merge_each (t : gotype) (items : list node) (out : interp t) : dec (interp t) :=
  match items with
  | [] => mret out
  | ni :: items' =>
      if mergeable ni then r ← U ni t out; merge_each t items' r.1 else failWantMap
  end.

Definition merge_value (parent : list (node * node)) (t : gotype) (out : interp t)
    (each : interp t → dec (interp t)) : dec (interp t) :=
  mergedFields ← get_merged;
  _ ← match mergedFields with
      | Some _ => mret ()
      | None => _ ← set_merged (Some []); record_keys parent
      end;
  out ← each out;
  current ← get_merged;
  _ ← set_merged (match mergedFields with None => None | Some _ => current end);
  mret out.

(** The value of the merge key, of which a mapping has at most one. *)
Fixpoint merge_key (parent l : list (node * node)) (t : gotype) (out : interp t) : dec (interp t) :=
  match l with
  | [] => mret out
  | (k, v) :: l' =>
      if isMerge k then
        merge_value parent t out (λ out,
          match v with
          | Sequence _ _ items => merge_each t items out
          | _ => if mergeable v then r ← U v t out; mret r.1 else failWantMap
          end)
      else merge_key parent l' t out
  end.

Definition any_map (string_keys : bool) (content : list (node * node)) : dec unit :=
  merged ← get_merged;
  _ ← set_merged None;
  merged ← iface_loop string_keys content merged;
  _ ← set_merged merged;
  merge_key content content (TAnyMap string_keys) ().

Definition mapping_into (n : node) (content : list (node * node)) (t : gotype) (out : interp t)
    : dec (interp t * bool) :=
  twice ← duplicate_keys content;
  if (twice : bool) then mret (out, false) else
  match t return interp t → dec (interp t * bool) with
  | TStruct s => λ out,
      merged ← get_merged;
      _ ← set_merged None;
      r ← struct_loop s content out [] merged;
      _ ← set_merged r.2;
      out ← merge_key content content (TStruct s) r.1;
      mret (out, true)
  | TMap => λ out,
      merged ← get_merged;
      _ ← set_merged None;
      r ← map_loop (bool_decide (out = None)) content (default ∅ out) merged;
      _ ← set_merged r.2;
      out ← merge_key content content TMap (Some r.1);
      mret (out, true)
  | TIface => λ _,
      string_keys ← isStringMap content;
      _ ← any_map string_keys content;
      mret (IComposite, true)
  | TAnyMap string_keys => λ _,
      _ ← any_map string_keys content;
      mret ((), true)
  | t' => λ out, _ ← terror n mapTag t'; mret (out, false)
  end out.

Definition sequence_into (n : node) (content : list node) (t : gotype) (out : interp t)
    : dec (interp t * bool) :=
  match t return interp t → dec (interp t * bool) with
  | TSlice et => λ _, vs ← elements et content; mret (vs, true)
  | TIface => λ _, _ ← elements TIface content; mret (IComposite, true)
  | t' => λ out, _ ← terror n seqTag t'; mret (out, false)
  end out.
End loops.

(** [unmarshal]. *)
Fixpoint unmarshal (n : node) (t : gotype) (out : interp t) {struct n} : dec (interp t * bool) :=
  _ ← count_decode;
  match n with
  | Alias _ name None => failf "anchor '%s' value contains itself" [name]
  | Alias _ _ (Some target) =>
      _ ← alias_depth 1;
      r ← unmarshal target t out;
      _ ← alias_depth (-1);
      mret r
  | Scalar _ _ _ _ => prepare n t out (scalar n)
  | Sequence _ _ content => prepare n t out (sequence_into unmarshal n content)
  | Mapping _ _ content => prepare n t out (mapping_into unmarshal n content)
  | Document content => r ← unmarshal content t out; mret (r.1, true)
  end.

(** The errors of [terror], as [Error] of the type joins them. *)
Definition TypeError (terrors : list (string * list string)) : error :=
  Errorf (Join (newline +:+ "  ") ("yaml: unmarshal errors:" :: terrors.*1)) (concat terrors.*2).

(** Decoding a document into a configuration, as [yaml.Unmarshal] does. *)
Definition decode_config (doc : node) : outcome (result JobConfig) :=
  match unmarshal doc (TStruct SJob) (zero_struct SJob) newDecoder with
  | DPanic p => Panics p
  | DFail err => Val (Err err)
  | DOk r d => Val (if decide (d_terrors d = []) then Ok r.1 else Err (TypeError (d_terrors d)))
  end.
End decode.
