(* ===== verification/YamlConfig.v ===== *)
(** * What a bpm.yml means

    A relation [written] says which nodes write which value of a type, without reference
    to how the decoder works: fields in any order, each at most once, absent ones zero,
    unknown ones allowed, strings plain or quoted, booleans and integers in the
    notations of YAML.  Decoding a node gives the value it writes ([written_config]),
    and without merge keys decoding does not panic ([decode_safe]). *)

From S2P Require Import Prelude GoStrings Bosh Specs Sys Config YamlScalar Yaml.

(** ** Struct tags *)

Ltac each_field :=
  unfold fields, JobConfig_fields, ProcessConfig_fields, Limits_fields, Hooks_fields,
    Volume_fields, Unsafe_fields in *;
  repeat match goal with
  | H : _ ∈ _ :: _ |- _ => apply elem_of_cons in H as [->|H]
  | H : _ ∈ [] |- _ => by apply not_elem_of_nil in H
  end.

Lemma find_field_key s f : f ∈ fields s → find_field s (f_key f) = Some f.
Proof. destruct s; intros H; each_field; reflexivity. Qed.

Lemma find_field_Some s key f : find_field s key = Some f → f ∈ fields s ∧ f_key f = key.
Proof.
  unfold find_field. intros H. apply List.find_some in H as [Hin Hk].
  split; [by apply list_elem_of_In|by apply bool_decide_eq_true_1 in Hk].
Qed.

Lemma field_get_set s f x (c : struct_type s) : f ∈ fields s → f_get f (f_set f x c) = x.
Proof. destruct s; intros H; each_field; reflexivity. Qed.

Lemma field_get_other s f g x (c : struct_type s) :
  f ∈ fields s → g ∈ fields s → f_key g ≠ f_key f → f_get g (f_set f x c) = f_get g c.
Proof. destruct s; intros Hf Hg Hne; each_field; simpl in *; done. Qed.

Lemma field_zero s f : f ∈ fields s → f_get f (zero_struct s) = zero (f_type f).
Proof. destruct s; intros H; each_field; reflexivity. Qed.

Lemma field_ext s (a b : struct_type s) :
  (∀ f, f ∈ fields s → f_get f a = f_get f b) → a = b.
Proof.
  intros H. assert (Forall (λ f, f_get f a = f_get f b) (fields s)) as HF by by apply Forall_forall.
  clear H. destruct s, a, b; simpl in *;
    repeat match goal with H : Forall _ _ |- _ => inversion H; subst; clear H end; simpl in *;
    congruence.
Qed.

(** ** Nodes of the parser *)

Section meaning.
Context (time_Parse : string → string → bool) (wide_int wide_uint : float64 → Z).
Abbreviation resolve_plain := (resolve_value time_Parse "").
Abbreviation unmarshal := (unmarshal time_Parse wide_int wide_uint).
Abbreviation decode_config := (decode_config time_Parse wide_int wide_uint).

(** The scalars without an explicit tag ([scalar] and [node] of the parser). *)
Definition plain_scalar (line : Z) (s : string) : node :=
  Scalar line (if decide (s = "<<") then mergeTag else (resolve_plain s).1) false s.
Definition quoted_scalar (line : Z) (s : string) : node := Scalar line strTag true s.

Definition null_words : list string := [""; "~"; "null"; "Null"; "NULL"].
Definition null_node (n : node) : Prop := ∃ line s, n = plain_scalar line s ∧ s ∈ null_words.

(** A scalar that is not null, with what it stands for. *)
Inductive stands_for : node → resolved → Prop :=
| Stands_quoted line s : stands_for (quoted_scalar line s) (RStr s)
| Stands_plain line s : s ∉ null_words → stands_for (plain_scalar line s) (resolve_plain s).2.

(** The scalars that write a value of a basic type. *)
Definition basic_written (t : gotype) (n : node) (r : resolved) : interp t → Prop :=
  match t with
  | TString => λ s, s = n_value n
  | TBool => λ b, r = RBool b ∨ ∃ w, r = RStr w ∧ bool_word w = Some b
  | TInt64 => λ z, r = RInt z ∧ (z < 2 ^ 63)%Z
  | TUint64 => λ z, r = RInt z ∧ (0 ≤ z)%Z
  | _ => λ _, False
  end.

(** A scalar with a text, and one that is a key. *)
Definition text_node (n : node) : Prop := ∃ r, stands_for n r.
Definition is_key (k : node) : Prop := text_node k ∧ isMerge k = false.

Definition entry (name : string) (entries : list (node * node)) : option node :=
  snd <$> List.find (λ e, bool_decide (n_value e.1 = name)) entries.

Definition key_names (entries : list (node * node)) : list string :=
  map (λ e, n_value e.1) entries.
Definition keys_ok (entries : list (node * node)) : Prop :=
  Forall (λ e, is_key e.1) entries ∧ NoDup (key_names entries).

Inductive written : ∀ t, interp t → node → Prop :=
| W_basic t v n r : stands_for n r → basic_written t n r v → written t v n
| W_null t n : null_node n → written (TPtr t) None n
| W_pointer t v n : (∀ t', t ≠ TPtr t') → ¬ null_node n → written t v n → written (TPtr t) (Some v) n
| W_null_slice et n : null_node n → written (TSlice et) [] n
| W_slice et vs line ns :
    length vs = length ns →
    (∀ i v n, vs !! i = Some v → ns !! i = Some n → written et v n) →
    written (TSlice et) vs (Sequence line seqTag ns)
| W_null_map n : null_node n → written TMap None n
| W_map m line entries :
    keys_ok entries → Forall (λ e, text_node e.2 ∨ null_node e.2) entries →
    (∀ k v, m !! k = Some v ↔ ∃ n, entry k entries = Some n ∧
       (text_node n ∧ v = n_value n ∨ null_node n ∧ v = "")) →
    written TMap (Some m) (Mapping line mapTag entries)
| W_struct s v line entries :
    keys_ok entries →
    (∀ f n, f ∈ fields s → entry (f_key f) entries = Some n → written (f_type f) (f_get f v) n) →
    (∀ f, f ∈ fields s → entry (f_key f) entries = None → f_get f v = zero (f_type f)) →
    written (TStruct s) v (Mapping line mapTag entries).

(** ** Scalars *)

(** The tag matters to [resolve_value] only for strings and timestamps. *)
Lemma resolve_value_tag s tag :
  tag ≠ strTag → (tag = timestampTag ∨ (resolve_plain s).1 ≠ timestampTag) →
  resolve_value time_Parse tag s = resolve_plain s.
Proof.
  intros Hstr Htime. unfold resolve_value in *. rewrite decide_False by done.
  rewrite decide_False in * by done.
  destruct (hint_of s); try done; destruct (resolveMap s); try done.
  unfold resolve_number in *.
  destruct (parseTimestamp time_Parse s); [|by rewrite !andb_false_r].
  rewrite !andb_true_r in *. rewrite bool_decide_eq_true_2 in * by auto. simpl in Htime.
  destruct Htime as [->|Htime]; [|done]. by rewrite bool_decide_eq_true_2 by auto.
Qed.

Definition tag_of (r : resolved) : string :=
  match r with
  | RNil => nullTag | RBool _ => boolTag | RInt _ => intTag | RFloat _ => floatTag
  | RTime _ => timestampTag | RStr _ => strTag
  end.

Lemma resolve_number_shape tag s :
  (resolve_number time_Parse tag s).1 = tag_of (resolve_number time_Parse tag s).2
  ∧ (resolve_number time_Parse tag s).2 ≠ RNil
  ∧ ∀ x, (resolve_number time_Parse tag s).2 = RStr x → x = s.
Proof. unfold resolve_number. repeat case_match; simpl; split_and!; done || congruence. Qed.

Lemma resolve_map_shape s tag r :
  resolveMap s = Some (tag, r) → s ≠ "<<" →
  tag = tag_of r ∧ (r = RNil → s ∈ null_words) ∧ ∀ x, r ≠ RStr x.
Proof.
  unfold resolveMap. intros H Hne.
  destruct (slices_Contains ["true"; "True"; "TRUE"] s); [by simplify_eq|].
  destruct (slices_Contains ["false"; "False"; "FALSE"] s); [by simplify_eq|].
  destruct (slices_Contains [""; "~"; "null"; "Null"; "NULL"] s) eqn:Hn.
  { simplify_eq. split_and!; [done| |done]. intros _. unfold slices_Contains in Hn.
    apply existsb_exists in Hn as (w & Hw & ->%String.eqb_eq). by apply list_elem_of_In. }
  repeat case_match; simplify_eq; try done. by rewrite bool_decide_eq_true in *.
Qed.

(** What a scalar resolves to: the tag fits the value, a string is the text. *)
Lemma resolve_value_shape tag s :
  (resolve_value time_Parse tag s).1 = tag_of (resolve_value time_Parse tag s).2
  ∧ ((resolve_value time_Parse tag s).2 = RNil → s ∈ null_words)
  ∧ ∀ x, (resolve_value time_Parse tag s).2 = RStr x → x = s.
Proof.
  unfold resolve_value. case_decide; [by split_and!; simpl; congruence|].
  destruct (decide (s = "<<")) as [->|Hne]; [by split_and!; simpl; congruence|].
  pose proof (resolve_number_shape tag s) as (Htag & Hnil & Hstr).
  destruct (hint_of s); simpl; try by (split_and!; congruence).
  all: destruct (resolveMap s) as [[rtag r]|] eqn:Hmap;
    [apply resolve_map_shape in Hmap as (? & ? & ?); [simpl; split_and!; naive_solver|done]|].
  - simpl. split_and!; congruence.
  - destruct (parse_float s); simpl; split_and!; congruence.
  - done.
Qed.

Lemma resolve_null s : s ∈ null_words → resolve_plain s = (nullTag, RNil).
Proof. intros H. unfold null_words in H. each_field; reflexivity. Qed.

Lemma plain_tag_str s : shortTag (resolve_plain s).1 = (resolve_plain s).1.
Proof. rewrite (proj1 (resolve_value_shape "" s)). by destruct (resolve_plain s).2. Qed.

Lemma resolve_own_tag s :
  (resolve_plain s).1 ≠ strTag → resolve time_Parse (resolve_plain s).1 s = Ok (resolve_plain s).
Proof.
  intros Hne. unfold resolve. rewrite plain_tag_str.
  pose proof (resolve_value_shape "" s) as (Htag & _ & _).
  assert (resolvableTag (resolve_plain s).1 = true) as -> by (rewrite Htag; by destruct (resolve_plain s).2).
  cbn [negb]. rewrite resolve_value_tag; [|done|].
  - destruct (resolve_plain s) as [tag r]. simpl. by rewrite bool_decide_eq_true_2 by auto.
  - destruct (decide ((resolve_plain s).1 = timestampTag)); auto.
Qed.

Lemma plain_value line s :
  scalar_value time_Parse (plain_scalar line s) = Ok (if decide (s = "<<") then (mergeTag, RStr "<<")
                                                      else resolve_plain s).
Proof.
  unfold plain_scalar. case_decide as Hm; [by subst|].
  unfold scalar_value. cbn [indicatedString n_tag n_value]. rewrite andb_false_r, orb_false_r.
  rewrite plain_tag_str. pose proof (resolve_value_shape "" s) as (Htag & _ & Hstr).
  case_bool_decide as Hs.
  - destruct (resolve_plain s) as [tag r] eqn:E. simpl in *. subst tag.
    destruct r; try done. by rewrite (Hstr s0).
  - rewrite resolve_own_tag by done. simpl. rewrite decide_False; [done|].
    rewrite Htag. by destruct (resolve_plain s).2.
Qed.

Lemma plain_ShortTag line s :
  ShortTag time_Parse (plain_scalar line s) = Ok (if decide (s = "<<") then mergeTag
                                                  else (resolve_plain s).1).
Proof.
  unfold plain_scalar. case_decide as Hm; [by subst|].
  cbn [ShortTag indicatedString]. rewrite andb_false_r, orb_false_r, plain_tag_str.
  case_bool_decide as Hs; [by rewrite Hs|]. rewrite decide_False; [done|].
  pose proof (resolve_value_shape "" s) as (Htag & _ & _). rewrite Htag in *.
  destruct (resolve_plain s).2; intros [|]; done.
Qed.

Lemma null_node_facts n :
  null_node n → ShortTag time_Parse n = Ok nullTag ∧ scalar_value time_Parse n = Ok (nullTag, RNil).
Proof.
  intros (line & s & -> & Hs). rewrite plain_ShortTag, plain_value.
  assert (s ≠ "<<") by (intros ->; revert Hs; apply (bool_decide_unpack _); reflexivity).
  by rewrite !decide_False, resolve_null by done.
Qed.

Lemma stands_for_facts n r :
  stands_for n r →
  (∃ tag, ShortTag time_Parse n = Ok tag ∧ tag ≠ nullTag)
  ∧ (∃ tag, scalar_value time_Parse n = Ok (tag, r))
  ∧ r ≠ RNil ∧ (∀ x, r = RStr x → x = n_value n).
Proof.
  intros [line s|line s Hs]; [split_and!; naive_solver|].
  pose proof (resolve_value_shape "" s) as (Htag & Hnil & Hstr).
  rewrite plain_ShortTag, plain_value. cbn [plain_scalar n_value].
  assert ((resolve_plain s).2 ≠ RNil) as Hne by auto.
  split_and!; [| |done|done].
  - eexists. split; [done|]. case_decide; [done|]. rewrite Htag. by destruct (resolve_plain s).2.
  - case_decide; [subst; eauto|]. destruct (resolve_plain s); eauto.
Qed.

Lemma stands_for_Scalar n r : stands_for n r → ∃ l tag q v, n = Scalar l tag q v.
Proof. intros []; unfold quoted_scalar, plain_scalar; eauto. Qed.

Lemma stands_for_not_null n r : stands_for n r → ¬ null_node n.
Proof.
  intros H%stands_for_facts [Hn _]%null_node_facts. destruct H as ((tag & H & Hne) & _). congruence.
Qed.

(** Decoding without aliases and merges only counts. *)
Definition calm (d : decoder) : Prop :=
  d_aliasCount d = 0%Z ∧ d_aliasDepth d = 0%Z ∧ d_mergedFields d = None.
Definition same (d d' : decoder) : Prop := calm d' ∧ d_terrors d' = d_terrors d.

Lemma count_decode_calm d : calm d → ∃ d', count_decode d = DOk () d' ∧ same d d'.
Proof.
  intros (Ha & Hd & Hm). unfold count_decode, excessive_aliasing. simpl. rewrite Ha, Hd, Hm. simpl.
  eexists. split; [reflexivity|]. done.
Qed.

Lemma same_trans d1 d2 d3 : same d1 d2 → same d2 d3 → same d1 d3.
Proof. intros [_ H1] [H2 H3]. split; [done|congruence]. Qed.

(** [n] decodes to [v] into a zero value of type [t]. *)
Definition decodes (t : gotype) (v : interp t) (n : node) : Prop :=
  ∀ d, calm d → ∃ d', unmarshal n t (zero t) d = DOk (v, true) d' ∧ same d d'.

Lemma scalar_basic t n r v d :
  stands_for n r → basic_written t n r v →
  scalar time_Parse wide_int wide_uint n t (zero t) d = DOk (v, true) d.
Proof.
  intros (_ & (tag & Hv) & Hnil & Hstr)%stands_for_facts Hb. unfold scalar, mbind, dec_mbind, dec_bind.
  rewrite Hv. cbn [dec_result snd fst].
  assert (convert wide_int wide_uint t n r = Some v) as Hc.
  { destruct t; simpl in Hb; try done; simpl.
    - subst v. f_equal. destruct r; try done. auto.
    - destruct Hb as [->|(w & -> & ?)]; done.
    - destruct Hb as [-> ?]. by rewrite (proj2 (Z.ltb_lt _ _)).
    - destruct Hb as [-> ?]. by rewrite (proj2 (Z.leb_le _ _)). }
  rewrite Hc. destruct r, t; done.
Qed.

(** ** Unfolding the decoder *)

Definition node_body (n : node) : ∀ t, interp t → dec (interp t * bool) :=
  match n with
  | Scalar _ _ _ _ => scalar time_Parse wide_int wide_uint n
  | Sequence _ _ content => sequence_into unmarshal n content
  | Mapping _ _ content => mapping_into time_Parse unmarshal n content
  | Alias _ _ _ | Document _ => λ t out, mret (out, false)
  end.
Definition not_alias (n : node) : Prop := (n_kind n <? 3) = true.
Definition not_pointer (t : gotype) : Prop := ∀ t', t ≠ TPtr t'.

Lemma unmarshal_unfold n t out :
  not_alias n →
  unmarshal n t out = (_ ← count_decode; prepare time_Parse n t out (node_body n)).
Proof. intros Ha. by destruct n. Qed.

Lemma dereference_other k t out : not_pointer t → dereference k t out = k t out.
Proof. intros Hp. destruct t; try done. by destruct (Hp t). Qed.

Lemma prepare_not_null n t out tag k d :
  ShortTag time_Parse n = Ok tag → tag ≠ nullTag → not_pointer t →
  prepare time_Parse n t out k d = k t out d.
Proof.
  intros Ht Hne Hp. unfold prepare, is_null, mbind, dec_mbind, dec_bind. rewrite Ht.
  cbn [dec_result]. unfold mret, dec_mret. rewrite bool_decide_eq_false_2 by done.
  by rewrite dereference_other.
Qed.

Lemma prepare_null n t out k d :
  null_node n → prepare time_Parse n t out k d = k t out d.
Proof.
  intros [Ht _]%null_node_facts. unfold prepare, is_null, mbind, dec_mbind, dec_bind. by rewrite Ht.
Qed.

Lemma decodes_intro t v n tag :
  not_alias n → ShortTag time_Parse n = Ok tag → tag ≠ nullTag → not_pointer t →
  (∀ d, calm d → ∃ d', node_body n t (zero t) d = DOk (v, true) d' ∧ same d d') →
  decodes t v n.
Proof.
  intros Ha Ht Hne Hp Hbody d Hd. destruct (count_decode_calm d Hd) as (d1 & Hc & Hs).
  rewrite unmarshal_unfold by done. unfold mbind, dec_mbind, dec_bind. rewrite Hc.
  rewrite (prepare_not_null _ _ _ tag) by done.
  destruct (Hbody d1) as (d2 & Hb & Hs2); [apply Hs|]. eauto using same_trans.
Qed.

(** A null decodes to nil in the types that have one. *)
Lemma decodes_null t n : null_node n → null t (zero t) = (zero t, true) → decodes t (zero t) n.
Proof.
  intros Hn Hz d Hd. destruct (count_decode_calm d Hd) as (d1 & Hc & Hs).
  assert (∃ l tag q v, n = Scalar l tag q v) as (l & tag & q & v & En)
    by (destruct Hn as (? & ? & -> & _); unfold plain_scalar; eauto).
  rewrite unmarshal_unfold by (by subst n). unfold mbind, dec_mbind, dec_bind. rewrite Hc.
  rewrite prepare_null by done. destruct (null_node_facts n Hn) as [_ Hv].
  subst n. cbn [node_body]. unfold scalar, mbind, dec_mbind, dec_bind. rewrite Hv.
  cbn [dec_result snd]. rewrite Hz. eauto.
Qed.

(** Decoding into a nil pointer is decoding into what it is made to point to. *)
Lemma decodes_pointer t v n tag :
  not_alias n → ShortTag time_Parse n = Ok tag → tag ≠ nullTag → not_pointer t →
  decodes t v n → decodes (TPtr t) (Some v) n.
Proof.
  intros Ha Ht Hne Hp Hn d Hd. destruct (Hn d Hd) as (d' & Hu & Hs). exists d'. split; [|done].
  rewrite unmarshal_unfold in * by done. unfold mbind, dec_mbind, dec_bind in *.
  destruct (count_decode d) as [[] d1| |]; [|done..].
  rewrite (prepare_not_null _ _ _ tag) in Hu by done.
  unfold prepare, is_null, mbind, dec_mbind, dec_bind. rewrite Ht. cbn [dec_result].
  unfold mret, dec_mret. rewrite bool_decide_eq_false_2 by done.
  cbn [dereference]. unfold mbind, dec_mbind, dec_bind. rewrite dereference_other by done.
  change (default (zero t) (zero (TPtr t))) with (zero t). by rewrite Hu.
Qed.

Lemma decodes_basic t v n r : stands_for n r → basic_written t n r v → decodes t v n.
Proof.
  intros Hn Hb. destruct (stands_for_facts n r Hn) as ((tag & Ht & Hne) & _).
  destruct (stands_for_Scalar n r Hn) as (l & tg & q & x & En).
  apply (decodes_intro _ _ _ tag); [by subst n|done..|by destruct t|].
  intros d Hd. exists d. split; [|done]. subst n. by apply scalar_basic with (r := r).
Qed.

Lemma decodes_text n : text_node n → decodes TString (n_value n) n.
Proof. intros [r Hr]. by apply (decodes_basic TString _ _ r). Qed.

Lemma decodes_slice et vs line ns :
  length vs = length ns →
  (∀ i v n, vs !! i = Some v → ns !! i = Some n → decodes et v n) →
  decodes (TSlice et) vs (Sequence line seqTag ns).
Proof.
  intros Hlen Hel. apply (decodes_intro _ _ _ seqTag); [done..|]. intros d Hd.
  assert (∃ d', elements unmarshal et ns d = DOk vs d' ∧ same d d') as (d' & He & Hs).
  { revert vs Hlen Hel d Hd. induction ns as [|n ns IH]; intros [|v vs] Hlen Hel d Hd; try done.
    - eexists. split; [reflexivity|]. done.
    - destruct (Hel 0 v n eq_refl eq_refl d Hd) as (d1 & H1 & Hs1).
      destruct (IH vs ltac:(simpl in *; lia) (λ i, Hel (S i)) d1) as (d2 & H2 & Hs2); [apply Hs1|].
      cbn [elements]. unfold mbind, dec_mbind, dec_bind. rewrite H1, H2. eauto using same_trans. }
  exists d'. split; [|done]. cbn [node_body sequence_into]. unfold mbind, dec_mbind, dec_bind.
  by rewrite He.
Qed.

(** ** Mappings *)

Lemma key_Scalar k : is_key k → n_kind k = 0.
Proof. intros [[r Hr] _]. by destruct (stands_for_Scalar k r Hr) as (? & ? & ? & ? & ->). Qed.

Lemma no_duplicates entries d : keys_ok entries → duplicate_keys entries d = DOk false d.
Proof.
  intros [Hk Hnd]. induction entries as [|[k v] l IH]; [done|].
  apply Forall_cons in Hk as [Hk Hkl]. apply NoDup_cons in Hnd as [Hnin Hnd].
  cbn [duplicate_keys]. unfold mbind, dec_mbind, dec_bind.
  assert (later_duplicates k l d = DOk false d) as ->; [|by rewrite IH].
  clear IH Hnd. induction l as [|[k' v'] l IH]; [done|]. cbn [later_duplicates].
  apply Forall_cons in Hkl as [_ Hkl]. apply not_elem_of_cons in Hnin as [Hne Hnin].
  rewrite decide_False by naive_solver. by apply IH.
Qed.

Lemma no_merge_key parent entries t out d :
  Forall (λ e, is_key e.1) entries → merge_key unmarshal parent entries t out d = DOk out d.
Proof.
  induction 1 as [|[k v] l [_ Hk] _ IH]; [done|]. cbn [merge_key]. simpl in Hk. by rewrite Hk.
Qed.

Lemma entry_cons k v l name :
  entry name ((k, v) :: l) = if decide (n_value k = name) then Some v else entry name l.
Proof. unfold entry. simpl. case_bool_decide; by case_decide. Qed.

Lemma entry_fresh name l : name ∉ key_names l → entry name l = None.
Proof.
  induction l as [|[k v] l IH]; [done|]. intros [Hne Hn]%not_elem_of_cons.
  rewrite entry_cons, decide_False by (simpl in *; congruence). auto.
Qed.

Lemma struct_loop_written s v l out seen d :
  keys_ok l → calm d →
  (∀ f n, f ∈ fields s → entry (f_key f) l = Some n → decodes (f_type f) (f_get f v) n) →
  (∀ name, name ∈ key_names l → name ∉ seen) →
  (∀ f, f ∈ fields s → f_key f ∉ seen → f_get f out = zero (f_type f)) →
  ∃ out' d', struct_loop unmarshal s l out seen None d = DOk (out', None) d' ∧ same d d'
  ∧ ∀ f, f ∈ fields s →
      f_get f out' = if entry (f_key f) l is Some _ then f_get f v else f_get f out.
Proof.
  revert out seen d. induction l as [|[k n] l IH]; intros out seen d [Hk Hnd] Hd Hdec Hdone Hzero.
  { exists out, d. done. }
  apply Forall_cons in Hk as [[Hkey Hm] Hk]. apply NoDup_cons in Hnd as [Hnin Hnd].
  simpl in Hkey, Hm, Hnin.
  destruct (decodes_text k Hkey d Hd) as (d1 & H1 & Hs1).
  cbn [struct_loop]. rewrite Hm. unfold mbind, dec_mbind, dec_bind.
  change (unmarshal k TString "") with (unmarshal k TString (zero TString)). rewrite H1.
  cbn [negb fst snd already_merged].
  assert (∀ f : field (struct_type s), f_key f ≠ n_value k → entry (f_key f) ((k, n) :: l) = entry (f_key f) l) as Hother.
  { intros f Hf. rewrite entry_cons, decide_False by done. done. }
  destruct (find_field s (n_value k)) as [f|] eqn:Hf.
  - apply find_field_Some in Hf as [Hin Hkf].
    assert (n_value k ∉ seen) as Hnot by (apply Hdone; simpl; left).
    rewrite decide_False by done. rewrite Hzero by (done || by rewrite Hkf).
    assert (entry (f_key f) ((k, n) :: l) = Some n) as He.
    { rewrite entry_cons, decide_True by done. done. }
    destruct (Hdec f n Hin He d1) as (d2 & H2 & Hs2); [apply Hs1|]. rewrite H2. cbn [fst].
    destruct (IH (f_set f (f_get f v) out) (n_value k :: seen) d2) as (out' & d' & Hl & Hs & Hout).
    + done.
    + apply Hs2.
    + intros g m Hg Hgm. destruct (decide (f_key g = n_value k)) as [Hgk|Hgk].
      * rewrite entry_fresh in Hgm by (by rewrite Hgk). done.
      * apply (Hdec g m Hg). by rewrite Hother.
    + intros name Hname. apply not_elem_of_cons. split; [by intros ->|].
      apply Hdone. simpl. by right.
    + intros g Hg [Hne Hgd]%not_elem_of_cons. rewrite field_get_other by (done || congruence). auto.
    + exists out', d'. split; [done|]. split; [eauto using same_trans|]. intros g Hg.
      rewrite Hout by done. destruct (decide (f_key g = n_value k)) as [Hgk|Hgk].
      * assert (g = f) as -> by (apply find_field_key in Hg, Hin; congruence).
        rewrite He, entry_fresh by (by rewrite Hkf). by apply field_get_set.
      * rewrite Hother by done. by rewrite field_get_other by (done || congruence).
  - assert (∀ g, g ∈ fields s → f_key g ≠ n_value k) as Hne.
    { intros g Hg E. apply find_field_key in Hg. congruence. }
    destruct (IH out seen d1) as (out' & d' & Hl & Hs & Hout); [done|apply Hs1|..].
    + intros g m Hg Hgm. apply (Hdec g m Hg). by rewrite Hother by auto.
    + intros name Hname. apply Hdone. simpl. by right.
    + done.
    + exists out', d'. split; [done|]. split; [eauto using same_trans|]. intros g Hg.
      by rewrite Hout, Hother by auto.
Qed.

Lemma decodes_struct s v line entries :
  keys_ok entries →
  (∀ f n, f ∈ fields s → entry (f_key f) entries = Some n → decodes (f_type f) (f_get f v) n) →
  (∀ f, f ∈ fields s → entry (f_key f) entries = None → f_get f v = zero (f_type f)) →
  decodes (TStruct s) v (Mapping line mapTag entries).
Proof.
  intros Hk Hdec Hzero. apply (decodes_intro _ _ _ mapTag); [done..|]. intros d Hd.
  destruct (struct_loop_written s v entries (zero_struct s) [] d) as (out' & d' & Hl & Hs & Hout);
    [done|done|done|intros name _; apply not_elem_of_nil|intros f Hf _; by apply field_zero|].
  assert (out' = v) as ->.
  { apply field_ext. intros f Hf. rewrite Hout by done.
    destruct (entry (f_key f) entries) eqn:He; [done|].
    rewrite field_zero by done. symmetry. auto. }
  exists d'. split; [|done]. cbn [node_body]. unfold mapping_into, mbind, dec_mbind, dec_bind.
  rewrite no_duplicates by done. cbn [get_merged set_merged zero].
  destruct Hd as (Ha & Hdep & Hm). destruct d as [te dc ac ad mf]. simpl in Ha, Hdep, Hm. subst.
  unfold set_merged, get_merged. simpl d_mergedFields. cbn [d_terrors d_decodeCount d_aliasCount d_aliasDepth].
  rewrite Hl. cbn [snd fst]. destruct Hs as [(Ha' & Hdep' & Hm') Ht].
  destruct d' as [te' dc' ac' ad' mf']. simpl in *. subst. rewrite no_merge_key by apply Hk. done.
Qed.

Lemma null_into_string n d :
  null_node n → calm d → ∃ d', unmarshal n TString "" d = DOk ("", false) d' ∧ same d d'.
Proof.
  intros Hn Hd. destruct (count_decode_calm d Hd) as (d1 & Hc & Hs).
  assert (∃ l tag q v, n = Scalar l tag q v) as (l & tag & q & v & En)
    by (destruct Hn as (? & ? & -> & _); unfold plain_scalar; eauto).
  rewrite unmarshal_unfold by (by subst n). unfold mbind, dec_mbind, dec_bind. rewrite Hc.
  rewrite prepare_null by done. destruct (null_node_facts n Hn) as [_ Hv].
  subst n. cbn [node_body]. unfold scalar, mbind, dec_mbind, dec_bind. rewrite Hv. eauto.
Qed.

(** The text a value of a [map[string]string] is set to. *)
Definition map_text (n : node) (x : string) : Prop :=
  text_node n ∧ x = n_value n ∨ null_node n ∧ x = "".

Lemma map_loop_written l out d :
  keys_ok l → Forall (λ e, text_node e.2 ∨ null_node e.2) l → calm d →
  ∃ m d', map_loop time_Parse unmarshal true l out None d = DOk (m, None) d' ∧ same d d'
  ∧ ∀ k, match entry k l with
         | Some n => ∃ x, m !! k = Some x ∧ map_text n x
         | None => m !! k = out !! k
         end.
Proof.
  revert out d. induction l as [|[k n] l IH]; intros out d [Hk Hnd] Hv Hd.
  { exists out, d. done. }
  apply Forall_cons in Hk as [[Hkey Hm] Hk]. apply NoDup_cons in Hnd as [Hnin Hnd].
  apply Forall_cons in Hv as [Hval Hv]. simpl in Hkey, Hm, Hnin, Hval.
  destruct (decodes_text k Hkey d Hd) as (d1 & H1 & Hs1).
  cbn [map_loop]. rewrite Hm. unfold mbind, dec_mbind, dec_bind.
  change (unmarshal k TString "") with (unmarshal k TString (zero TString)). rewrite H1.
  cbn [negb fst snd already_merged].
  assert (∀ x d2, map_text n x → same d1 d2 →
    ∃ m d', map_loop time_Parse unmarshal true l (<[n_value k:=x]> out) None d2 = DOk (m, None) d'
    ∧ same d d' ∧ ∀ k0, match entry k0 ((k, n) :: l) with
         | Some n0 => ∃ x0, m !! k0 = Some x0 ∧ map_text n0 x0
         | None => m !! k0 = out !! k0
         end) as Hrest.
  { intros x d2 Hx Hs2. destruct (IH (<[n_value k:=x]> out) d2) as (m & d' & Hl & Hs & Hout);
      [done|done|apply Hs2|]. exists m, d'. split; [done|]. split; [eauto using same_trans|].
    intros k0. specialize (Hout k0). rewrite entry_cons. case_decide as Hk0.
    - subst k0. rewrite entry_fresh in Hout by done. rewrite lookup_insert_eq in Hout. eauto.
    - destruct (entry k0 l); [done|]. by rewrite lookup_insert_ne in Hout. }
  destruct Hval as [Htext|Hnull].
  - destruct (decodes_text n Htext d1) as (d2 & H2 & Hs2); [apply Hs1|].
    change (unmarshal n TString "") with (unmarshal n TString (zero TString)). rewrite H2.
    apply Hrest; [|done]. left. done.
  - destruct (null_into_string n d1 Hnull) as (d2 & H2 & Hs2); [apply Hs1|]. rewrite H2. cbn [fst snd].
    unfold is_null, mbind, dec_mbind, dec_bind. rewrite (proj1 (null_node_facts n Hnull)).
    cbn. apply Hrest; [|done]. right. done.
Qed.

Lemma text_not_null n : text_node n → ¬ null_node n.
Proof. intros [r Hr]. by apply (stands_for_not_null n r). Qed.

Lemma decodes_map m line entries :
  keys_ok entries → Forall (λ e, text_node e.2 ∨ null_node e.2) entries →
  (∀ k v, m !! k = Some v ↔ ∃ n, entry k entries = Some n ∧ map_text n v) →
  decodes TMap (Some m) (Mapping line mapTag entries).
Proof.
  intros Hk Hv Hm. apply (decodes_intro _ _ _ mapTag); [done..|]. intros d Hd.
  destruct (map_loop_written entries ∅ d) as (m' & d' & Hl & Hs & Hout); [done..|].
  assert (m' = m) as ->.
  { apply map_eq. intros k. specialize (Hout k). destruct (entry k entries) as [n|] eqn:He.
    - destruct Hout as (x & -> & Hx). symmetry. apply Hm. eauto.
    - rewrite Hout, lookup_empty. symmetry. apply eq_None_not_Some. intros [x Hx].
      apply Hm in Hx as (n & Hn & _). congruence. }
  exists d'. split; [|done]. cbn [node_body]. unfold mapping_into, mbind, dec_mbind, dec_bind.
  rewrite no_duplicates by done. cbn [zero].
  destruct Hd as (Ha & Hdep & Hmf). destruct d as [te dc ac ad mf]. simpl in Ha, Hdep, Hmf. subst.
  unfold set_merged, get_merged. cbn [d_terrors d_decodeCount d_aliasCount d_aliasDepth d_mergedFields].
  rewrite bool_decide_eq_true_2 by done. cbn [default]. rewrite Hl. cbn [snd fst].
  destruct Hs as [(Ha' & Hdep' & Hm') Ht].
  destruct d' as [te' dc' ac' ad' mf']. simpl in *. subst. rewrite no_merge_key by apply Hk. done.
Qed.

Lemma written_node t v n :
  written t v n →
  not_alias n ∧ (null_node n ∨ ∃ tag, ShortTag time_Parse n = Ok tag ∧ tag ≠ nullTag).
Proof.
  assert (∀ n, null_node n → not_alias n ∧ (null_node n ∨ ∃ tag,
    ShortTag time_Parse n = Ok tag ∧ tag ≠ nullTag)) as Hnull.
  { intros n' Hn. split; [|auto]. by destruct Hn as (? & ? & -> & _). }
  induction 1 as [? ? n r Hr| | | |et vs line ns| |m line entries|s v line entries]; auto.
  - destruct (stands_for_Scalar n r Hr) as (? & ? & ? & ? & En).
    split; [by subst n|]. right. by apply (stands_for_facts n r).
  - split; [done|]. right. by exists seqTag.
  - split; [done|]. right. by exists mapTag.
  - split; [done|]. right. by exists mapTag.
Qed.

(** Decoding a node gives the value it writes. *)
Lemma written_decodes t v n : written t v n → decodes t v n.
Proof.
  induction 1 as [? ? n r Hr Hb|t n Hn|t v n Hp Hn Hw IH|et n Hn|et vs line ns Hlen _ IH|n Hn
                 |m line entries Hk Hv Hm|s v line entries Hk _ IH Hz].
  - by apply (decodes_basic _ _ _ r).
  - by apply (decodes_null (TPtr t)).
  - destruct (written_node t v n Hw) as [Ha [?|(tag & Ht & Hne)]]; [done|].
    by apply (decodes_pointer _ _ _ tag).
  - by apply (decodes_null (TSlice et)).
  - by apply decodes_slice.
  - by apply (decodes_null TMap).
  - by apply decodes_map.
  - by apply decodes_struct.
Qed.

Lemma written_config cfg root :
  written (TStruct SJob) cfg root → decode_config (Document root) = Val (Ok cfg).
Proof.
  intros Hw. unfold decode_config. cbn [Yaml.unmarshal]. unfold mbind, dec_mbind, dec_bind.
  destruct (count_decode_calm newDecoder) as (d1 & -> & Hs); [done|].
  destruct (written_decodes _ _ _ Hw d1) as (d2 & Hu & Hs2); [apply Hs|].
  change (zero_struct SJob) with (zero (TStruct SJob)). rewrite Hu.
  destruct Hs as [_ Hs], Hs2 as [_ Hs2]. cbn. rewrite Hs2, Hs. done.
Qed.

(** ** Panics *)

(** Scalars carry a tag, as the parser leaves them, and no mapping has a merge key. *)
Fixpoint parsed (n : node) : Prop :=
  match n with
  | Scalar _ tag _ _ => tag ≠ "" ∧ tag ≠ "!"
  | Sequence _ _ content => foldr (λ x P, parsed x ∧ P) True content
  | Mapping _ _ content => foldr (λ e P, (parsed e.1 ∧ parsed e.2) ∧ P) True content
  | Alias _ _ target => from_option parsed True target
  | Document content => parsed content
  end.
Fixpoint no_merge (n : node) : Prop :=
  match n with
  | Scalar _ _ _ _ => True
  | Sequence _ _ content => foldr (λ x P, no_merge x ∧ P) True content
  | Mapping _ _ content =>
      foldr (λ e P, (isMerge e.1 = false ∧ no_merge e.1 ∧ no_merge e.2) ∧ P) True content
  | Alias _ _ target => from_option no_merge True target
  | Document content => no_merge content
  end.

(** A computation that does not panic and merges nothing, with a postcondition. *)
Definition ensures {A} (Q : A → Prop) (m : dec A) : Prop := ∀ d, d_mergedFields d = None →
  match m d with
  | DOk a d' => Q a ∧ d_mergedFields d' = None | DFail _ => True | DPanic _ => False
  end.
Abbreviation safe := (ensures (λ _, True)).

Lemma ensures_ret {A} (Q : A → Prop) (a : A) : Q a → ensures Q (mret a).
Proof. by intros HQ d Hd. Qed.
Lemma ensures_bind {A B} P (Q : B → Prop) (m : dec A) (k : A → dec B) :
  ensures P m → (∀ a, P a → ensures Q (k a)) → ensures Q (m ≫= k).
Proof.
  intros Hm Hk d Hd. specialize (Hm d Hd). unfold mbind, dec_mbind, dec_bind.
  destruct (m d) as [a d'| |]; [|done..]. destruct Hm. by apply Hk.
Qed.
Lemma ensures_safe {A} (Q : A → Prop) (m : dec A) : ensures Q m → safe m.
Proof. intros Hm d Hd. specialize (Hm d Hd). destruct (m d); naive_solver. Qed.
Lemma ensures_failf {A} (Q : A → Prop) format args : ensures Q (failf format args).
Proof. by intros d Hd. Qed.
Lemma safe_result {A} (r : result A) : safe (dec_result r).
Proof. intros d Hd. destruct r; simpl; auto. Qed.
Lemma safe_add_terror format args : safe (add_terror format args).
Proof. by intros d Hd. Qed.
Lemma safe_alias_depth z : safe (alias_depth z).
Proof. by intros d Hd. Qed.
Lemma safe_count : safe count_decode.
Proof. intros d Hd. unfold count_decode. destruct (excessive_aliasing _); simpl; auto. Qed.
Lemma safe_set_merged : safe (set_merged None).
Proof. by intros d Hd. Qed.
(** The merged keys are none. *)
Lemma ensures_get_merged {B} Q (k : option (list resolved) → dec B) :
  ensures Q (k None) → ensures Q (get_merged ≫= k).
Proof. intros Hk d Hd. unfold mbind, dec_mbind, dec_bind, get_merged. rewrite Hd. by apply Hk. Qed.

Create HintDb yaml.
#[local] Hint Resolve ensures_failf safe_result safe_add_terror safe_alias_depth safe_count
  safe_set_merged : yaml.
#[local] Hint Extern 1 (ensures _ (mret _)) => apply ensures_ret; done : yaml.
Ltac safe_step :=
  match goal with
  | H : context [ensures _ (?U ?n _ _)] |- safe (?U ?n ?t ?out) => exact (H t out)
  | |- ensures _ (get_merged ≫= _) => apply ensures_get_merged
  | |- ensures _ (_ ≫= _) => apply (ensures_bind (λ _, True)); [|intros ? _]
  | |- ensures _ (match ?x with _ => _ end) => destruct x
  | |- ensures _ (let '_ := ?x in _) => destruct x
  | |- ensures _ (if ?x then _ else _) => destruct x
  end.
Ltac safe_all := repeat (safe_step || auto with yaml).

Lemma safe_terror n tag t : safe (terror n tag t).
Proof. apply safe_add_terror. Qed.
Lemma safe_is_null n : safe (is_null time_Parse n).
Proof. unfold is_null. safe_all. Qed.
#[local] Hint Resolve safe_terror safe_is_null : yaml.

Lemma safe_duplicates l : safe (duplicate_keys l).
Proof.
  induction l as [|[k v] l IH]; simpl; [auto with yaml|].
  apply (ensures_bind (λ _, True)); [|intros; safe_all]. clear IH. induction l as [|[k' v'] l IH]; simpl; [auto with yaml|]. case_decide; safe_all.
Qed.
#[local] Hint Resolve safe_duplicates : yaml.

(** A scalar that is null has a null value, so a nil pointer is never written through. *)
Lemma null_tag_value n :
  parsed n → n_kind n = 0 → ShortTag time_Parse n = Ok nullTag →
  match scalar_value time_Parse n with Ok (_, r) => r = RNil | Err _ => True end.
Proof.
  destruct n as [line tag q v| | | |]; intros Hp Hk; try done.
  destruct Hp as [Hne Hne']. unfold ShortTag, scalar_value.
  destruct (indicatedString _); [done|]. rewrite decide_False by naive_solver.
  cbn [n_tag n_value]. intros [= Htag]. unfold resolve. rewrite Htag.
  change (resolvableTag nullTag) with true. cbn [negb].
  destruct (resolve_value_shape nullTag v) as (Hshape & _ & _).
  destruct (resolve_value time_Parse nullTag v) as [rtag out]. simpl in Hshape. subst rtag.
  case_bool_decide as Hcase.
  - destruct Hcase as [?|[Hcase|?]]; [done| |done]. destruct out; done.
  - by destruct out.
Qed.

Lemma safe_dereference k t out :
  (∀ t out, not_pointer t → safe (k t out)) → safe (dereference k t out).
Proof.
  intros Hk. revert out. induction t as [| | | | | | |t IH|t IH|s]; intros out; try (by apply Hk).
  simpl. apply (ensures_bind (λ _, True)); [apply IH|]. intros r _. by apply ensures_ret.
Qed.

Lemma safe_scalar n t out :
  parsed n → n_kind n = 0 →
  safe (prepare time_Parse n t out (scalar time_Parse wide_int wide_uint n)).
Proof.
  intros Hp Hk d Hd. unfold prepare, is_null, mbind, dec_mbind, dec_bind.
  pose proof (null_tag_value n Hp Hk) as Hnull.
  destruct (ShortTag time_Parse n) as [tag|]; [|done]. cbn [dec_result]. unfold mret, dec_mret.
  case_bool_decide as Ht.
  - subst tag. specialize (Hnull eq_refl). unfold scalar, mbind, dec_mbind, dec_bind.
    destruct (scalar_value time_Parse n) as [[tag r]|]; [|done]. subst r. done.
  - apply safe_dereference; [|done]. intros t' out' Hnp. unfold scalar.
    apply (ensures_bind (λ _, True)); [auto with yaml|]. intros [tag' r] _.
    cbn [fst snd]. destruct r; [auto with yaml|..]; destruct t'; try (by destruct (Hnp t'));
      destruct (convert _ _ _ _ _); safe_all.
Qed.

Lemma safe_prepare n t out k : (∀ t out, safe (k t out)) → safe (prepare time_Parse n t out k).
Proof.
  intros Hk. unfold prepare. apply (ensures_bind (λ _, True)); [auto with yaml|]. intros [] _.
  - apply Hk.
  - apply safe_dereference. auto.
Qed.

(** The loops, when the nodes they decode are safe to decode. *)
Section safe_loops.
Context (U : node → ∀ t, interp t → dec (interp t * bool)).
Definition safe_node (n : node) : Prop := ∀ t out, safe (U n t out).

Lemma safe_elements et l : Forall safe_node l → safe (elements U et l).
Proof. induction 1 as [|x l Hx _ IH]; simpl; unfold safe_node in *; safe_all. Qed.

Definition safe_entry (e : node * node) : Prop :=
  isMerge e.1 = false ∧ safe_node e.1 ∧ safe_node e.2.

Lemma safe_struct_loop s l out seen :
  Forall safe_entry l → ensures (λ r, r.2 = None) (struct_loop U s l out seen None).
Proof.
  intros Hl. revert out seen. induction Hl as [|[k v] l (Hm & Hk & Hv) _ IH]; intros out seen; simpl.
  - safe_all.
  - unfold safe_node in *. simpl in *. rewrite Hm. safe_all.
Qed.

Lemma safe_map_loop new l out :
  Forall safe_entry l → ensures (λ r, r.2 = None) (map_loop time_Parse U new l out None).
Proof.
  intros Hl. revert out. induction Hl as [|[k v] l (Hm & Hk & Hv) _ IH]; intros out; simpl.
  - safe_all.
  - unfold safe_node in *. simpl in *. rewrite Hm. safe_all.
Qed.

Lemma safe_iface_loop b l : Forall safe_entry l → ensures (λ r, r = None) (iface_loop U b l None).
Proof.
  induction 1 as [|[k v] l (Hm & Hk & Hv) _ IH]; simpl; [safe_all|].
  unfold any_key, safe_node in *. simpl in *. rewrite Hm. safe_all.
Qed.

Lemma safe_merge_key parent l t out : Forall safe_entry l → safe (merge_key U parent l t out).
Proof.
  induction 1 as [|[k v] l (Hm & _) _ IH]; simpl; [safe_all|]. simpl in Hm. by rewrite Hm.
Qed.

Lemma safe_any_map b content : Forall safe_entry content → safe (any_map U b content).
Proof.
  intros Hc. apply ensures_get_merged, (ensures_bind (λ _, True)); [auto with yaml|intros _ _].
  eapply ensures_bind; [by apply safe_iface_loop|]. intros r ->.
  apply (ensures_bind (λ _, True)); [auto with yaml|intros _ _].
  exact (safe_merge_key content content (TAnyMap b) () Hc).
Qed.
End safe_loops.

Lemma safe_string_map l : safe (isStringMap time_Parse l).
Proof. induction l as [|[k v] l IH]; simpl; safe_all. Qed.
#[local] Hint Resolve safe_string_map safe_any_map : yaml.

Lemma safe_mapping n content t out :
  Forall (safe_entry unmarshal) content → safe (mapping_into time_Parse unmarshal n content t out).
Proof.
  intros Hc. unfold mapping_into. apply (ensures_bind (λ _, True)); [auto with yaml|].
  intros [|] _; [auto with yaml|].
  assert (∀ parent t (out : interp t), safe (merge_key unmarshal parent content t out)) as Hmerge
    by (intros; by apply safe_merge_key).
  destruct t; try (by safe_all);
    (apply ensures_get_merged, (ensures_bind (λ _, True)); [auto with yaml|intros _ _]).
  - eapply ensures_bind; [by apply safe_map_loop|]. intros [m merged] Hr.
    simpl in Hr. subst merged. safe_all.
  - eapply ensures_bind; [by apply safe_struct_loop|]. intros [m merged] Hr.
    simpl in Hr. subst merged. safe_all.
Qed.

(** Decoding a parsed node without merge keys does not panic. *)
Lemma unmarshal_safe n : parsed n → no_merge n → safe_node unmarshal n.
Proof.
  induction n as [line tag q v|line tag content IH|line tag content IH|line name target IH|content IH]
    using node_ind; intros Hp Hm t out; cbn [Yaml.unmarshal]; (apply (ensures_bind (λ _, True)); [auto with yaml|intros _ _]).
  - by apply safe_scalar.
  - apply safe_prepare. clear t out. intros t out.
    assert (Forall (safe_node unmarshal) content) as Hc.
    { simpl in Hp, Hm. induction IH as [|x l Hx _ IHl]; constructor; naive_solver. }
    unfold sequence_into. destruct t; safe_all; by apply safe_elements.
  - apply safe_prepare. clear t out. intros t out. apply safe_mapping.
    simpl in Hp, Hm. induction IH as [|[k v] l [Hk Hv] _ IHl]; constructor; [|naive_solver].
    unfold safe_entry. simpl in *. naive_solver.
  - destruct target as [target|]; [|auto with yaml]. simpl in *.
    specialize (IH Hp Hm). unfold safe_node in IH. safe_all.
  - specialize (IH Hp Hm). unfold safe_node in IH. safe_all.
Qed.

(** A null in a list of strings is dropped: it is no empty string. *)
Lemma null_argument_dropped line n ns vs d :
  null_node n → calm d →
  (∀ d, calm d → ∃ d', elements unmarshal TString ns d = DOk vs d' ∧ same d d') →
  ∃ d', unmarshal (Sequence line seqTag (n :: ns)) (TSlice TString) [] d = DOk (vs, true) d'
        ∧ same d d'.
Proof.
  intros Hn Hd Hns. apply (decodes_intro (TSlice TString) _ _ seqTag); [done..| |done].
  clear d Hd. intros d Hd. destruct (null_into_string n d Hn Hd) as (d1 & H1 & Hs1).
  destruct (Hns d1) as (d2 & H2 & Hs2); [apply Hs1|]. exists d2. split; [|eauto using same_trans].
  cbn [node_body sequence_into]. unfold mbind, dec_mbind, dec_bind. cbn [elements].
  unfold mbind, dec_mbind, dec_bind. cbn [zero]. by rewrite H1, H2.
Qed.

Lemma decode_safe root : parsed root → no_merge root → ∃ r, decode_config root = Val r.
Proof.
  intros Hp Hm. unfold decode_config.
  pose proof (unmarshal_safe root Hp Hm (TStruct SJob) (zero_struct SJob) newDecoder eq_refl) as Hu.
  destruct (unmarshal root _ _ newDecoder) as [r d'| |]; [eauto|eauto|done].
Qed.
End meaning.
