(* ===== verification/YamlParser.v ===== *)
(** * gopkg.in/yaml.v3: from events to a configuration
    (src/bpm/vendor/gopkg.in/yaml.v3/decode.go, yaml.go)

    The package reads a text in three steps: libyaml's scanner and parser turn it into a
    stream of events, [parser] turns the events into nodes, [decoder] fills a Go value.
    This file models the second step and composes it with the third: [yaml_Unmarshal] has
    the stream of events as its only parameter.

    Nodes are Go pointers, and an anchor can be referred to from inside the node it
    names.  The parser therefore works on a store of the anchored nodes; an alias holds
    the address of its node.  [unroll] gives the tree the decoder walks. *)

From S2P Require Import Prelude GoStrings Bosh Specs Config YamlScalar Yaml YamlConfig.

(** ** Events *)

Inductive yevent :=
| StreamStart
| StreamEnd
| DocumentStart
| DocumentEnd
| TailComment
| AliasEvent (line : Z) (anchor : string)
| ScalarEvent (line : Z) (anchor : option string) (tag value : string) (quoted : bool)
| SequenceStart (line : Z) (anchor : option string) (tag : string)
| SequenceEnd
| MappingStart (line : Z) (anchor : option string) (tag : string)
| MappingEnd.

Definition event_type (e : yevent) : string :=
  match e with
  | StreamStart => "stream start" | StreamEnd => "stream end"
  | DocumentStart => "document start" | DocumentEnd => "document end"
  | TailComment => "tail comment" | AliasEvent _ _ => "alias"
  | ScalarEvent _ _ _ _ _ => "scalar"
  | SequenceStart _ _ _ => "sequence start" | SequenceEnd => "sequence end"
  | MappingStart _ _ _ => "mapping start" | MappingEnd => "mapping end"
  end.

(** ** Nodes in the store *)

Unset Elimination Schemes.
Inductive raw :=
| RawScalar (line : Z) (tag : string) (quoted : bool) (value : string)
| RawSequence (line : Z) (tag : string) (content : list raw)
| RawMapping (line : Z) (tag : string) (content : list (raw * raw))
| RawAlias (id : nat) (line : Z) (name : string) (target : nat)
| RawDocument (content : raw).
Set Elimination Schemes.

Section raw_ind.
Context (P : raw → Prop).
Context (P_scalar : ∀ line tag quoted value, P (RawScalar line tag quoted value)).
Context (P_sequence : ∀ line tag content, Forall P content → P (RawSequence line tag content)).
Context (P_mapping : ∀ line tag content,
  Forall (λ kv, P kv.1 ∧ P kv.2) content → P (RawMapping line tag content)).
Context (P_alias : ∀ id line name target, P (RawAlias id line name target)).
Context (P_document : ∀ content, P content → P (RawDocument content)).

Fixpoint raw_ind (r : raw) : P r.
Proof.
  destruct r as [line tag quoted value|line tag content|line tag content|id line name target|content].
  - apply P_scalar.
  - apply P_sequence. induction content as [|x l IH]; constructor; auto.
  - apply P_mapping. induction content as [|[k v] l IH]; constructor; auto.
  - apply P_alias.
  - apply P_document, raw_ind.
Defined.
End raw_ind.

(** The tree of a node.  The aliases being expanded are [active]: the decoder finds them
    in its map [aliases].  An alias is expanded only while it is not, so as many
    expansions as there are aliases are enough. *)
Fixpoint unroll (store : gmap nat raw) (k : nat) : list nat → raw → node :=
  fix go (active : list nat) (r : raw) {struct r} : node :=
    match r with
    | RawScalar line tag quoted value => Scalar line tag quoted value
    | RawSequence line tag content => Sequence line tag (List.map (go active) content)
    | RawMapping line tag content =>
        Mapping line tag (List.map (λ kv, let '(x, y) := kv in (go active x, go active y)) content)
    | RawAlias id line name target =>
        Alias line name
          (if decide (id ∈ active) then None
           else match k with
                | O => None
                | S k' => unroll store k' (id :: active) <$> store !! target
                end)
    | RawDocument content => Document (go active content)
    end.

(** ** The parser's state *)

(** The events to come, the address of each anchor, the anchored nodes that are
    complete, and the next address. *)
Record parser := mkParser {
  p_events : list yevent;
  p_anchors : gmap string nat;
  p_nodes : gmap nat raw;
  p_next : nat
}.

(** A computation returns, fails, panics, or does not return. *)
Inductive pres (A : Type) :=
| POk (a : A) (p : parser)
| PFail (err : error)
| PPanic (x : panic)
| PDiverges.
Arguments POk {A} a p.
Arguments PFail {A} err.
Arguments PPanic {A} x.
Arguments PDiverges {A}.

Definition par (A : Type) : Type := parser → pres A.
Definition par_bind {A B} (m : par A) (k : A → par B) : par B := λ p,
  match m p with
  | POk a p' => k a p' | PFail err => PFail err | PPanic x => PPanic x | PDiverges => PDiverges
  end.
#[export] Instance par_mret : MRet par := λ A a p, POk a p.
#[export] Instance par_mbind : MBind par := λ A B k m, par_bind m k.

Definition par_fail {A} (format : string) (args : list string) : par A := λ _,
  PFail (Errorf ("yaml: " +:+ format) args).
Definition par_panic {A} (x : panic) : par A := λ _, PPanic x.

Definition fresh : par nat := λ p,
  POk (p_next p) (mkParser (p_events p) (p_anchors p) (p_nodes p) (S (p_next p))).
(** [anchor]: the node gets an address; [complete]: it has its content. *)
Definition anchor (name : option string) : par (option nat) := λ p,
  match name with
  | None => POk None p
  | Some a => POk (Some (p_next p))
      (mkParser (p_events p) (<[a := p_next p]> (p_anchors p)) (p_nodes p) (S (p_next p)))
  end.
Definition complete (id : option nat) (r : raw) : par (option raw) := λ p,
  POk (Some r) (match id with
                | None => p
                | Some i => mkParser (p_events p) (p_anchors p) (<[i := r]> (p_nodes p)) (p_next p)
                end).
Definition find_anchor (name : string) : par nat := λ p,
  match p_anchors p !! name with
  | Some id => POk id p
  | None => PFail (Errorf "yaml: unknown anchor '%s' referenced" [name])
  end.

(** ** The parser *)

Section parse.
Context (time_Parse : string → string → bool).
(** How libyaml fails when there are no more events. *)
Context (problem : error).

Definition peek : par yevent := λ p,
  match p_events p with [] => PFail problem | e :: _ => POk e p end.

Definition expect (typ : string) : par unit := λ p,
  match p_events p with
  | [] => PFail problem
  | e :: es =>
      if decide (event_type e = "stream end")
      then PFail (Errorf "yaml: attempted to go past the end of stream; corrupted value?" [])
      else if decide (event_type e = typ)
      then POk () (mkParser es (p_anchors p) (p_nodes p) (p_next p))
      else PFail (Errorf "yaml: expected %s event but got %s" [typ; event_type e])
  end.

(** The tag [node] gives: the explicit one, the default, or that of the scalar's value. *)
Definition node_tag (defaultTag tag : string) (value : option string) : string :=
  if decide (tag ≠ "" ∧ tag ≠ "!") then shortTag tag
  else if decide (defaultTag ≠ "") then defaultTag
  else match value with
       | Some v => match resolve time_Parse "" v with Ok r => r.1 | Err _ => "" end
       | None => tag
       end.

Definition parse_scalar (line : Z) (a : option string) (tag value : string) (quoted : bool)
    : par (option raw) :=
  let defaultTag := if quoted then strTag else if decide (value = "<<") then mergeTag else "" in
  let n := RawScalar line (node_tag defaultTag tag (Some value)) quoted value in
  id ← anchor a;
  _ ← expect "scalar";
  complete id n.

Definition parse_alias (line : Z) (name : string) : par (option raw) :=
  target ← find_anchor name;
  _ ← expect "alias";
  id ← fresh;
  mret (Some (RawAlias id line name target)).

(** The loops over the content of a node; [child] parses one.  A child is nil only at the
    end of the stream, where a sequence would go on for ever. *)
Section content.
Context (child : par (option raw)).

Fixpoint sequence_loop (fuel : nat) : par (list raw) :=
  match fuel with
  | O => λ _, PDiverges
  | S fuel' =>
      e ← peek;
      if decide (event_type e = "sequence end") then mret [] else
      x ← child;
      rest ← sequence_loop fuel';
      mret (match x with Some x => x :: rest | None => rest end)
  end.

Fixpoint mapping_loop (fuel : nat) : par (list (raw * raw)) :=
  match fuel with
  | O => λ _, PDiverges
  | S fuel' =>
      e ← peek;
      if decide (event_type e = "mapping end") then mret [] else
      k ← child;
      match k with
      | None => par_panic NilDereference
      | Some k =>
          v ← child;
          match v with
          | None => par_panic NilDereference
          | Some v =>
              e ← peek;
              _ ← (if decide (event_type e = "tail comment") then expect "tail comment" else mret ());
              rest ← mapping_loop fuel';
              mret ((k, v) :: rest)
          end
      end
  end.
End content.

(** [parse]: nil at the end of the stream. *)
Fixpoint parse (fuel : nat) : par (option raw) :=
  match fuel with
  | O => λ _, PDiverges
  | S fuel' =>
      e ← peek;
      match e with
      | ScalarEvent line a tag value quoted => parse_scalar line a tag value quoted
      | AliasEvent line name => parse_alias line name
      | MappingStart line a tag =>
          id ← anchor a;
          _ ← expect "mapping start";
          content ← mapping_loop (parse fuel') fuel';
          _ ← expect "mapping end";
          complete id (RawMapping line (node_tag mapTag tag None) content)
      | SequenceStart line a tag =>
          id ← anchor a;
          _ ← expect "sequence start";
          content ← sequence_loop (parse fuel') fuel';
          _ ← expect "sequence end";
          complete id (RawSequence line (node_tag seqTag tag None) content)
      | DocumentStart =>
          _ ← expect "document start";
          content ← parse fuel';
          _ ← peek;
          _ ← expect "document end";
          match content with
          | Some content => mret (Some (RawDocument content))
          | None => par_panic NilDereference
          end
      | StreamEnd => mret None
      | TailComment =>
          par_panic (PanicMsg "internal error: unexpected tail comment event (please report)")
      | e => par_panic (PanicMsg ("internal error: attempted to parse unknown event (please report): "
                                  +:+ event_type e))
      end
  end.

(** [init] and the first document. *)
Definition parse_stream (fuel : nat) : par (option raw) :=
  _ ← expect "stream start"; parse fuel.
End parse.

(** [yaml.Unmarshal(data, &cfg)], for the events libyaml finds in the text and the way it
    fails after them.  A parser that appends to a sequence without end exhausts memory. *)
Definition yaml_Unmarshal (time_Parse : string → string → bool) (wide_int wide_uint : float64 → Z)
    (events : string → list yevent * error) (data : string) : outcome (result JobConfig) :=
  let '(es, problem) := events (if decide (data = "") then newline else data) in
  match parse_stream time_Parse problem (length es) (mkParser es ∅ ∅ 0) with
  | PDiverges => Panics (PanicMsg "out of memory")
  | PPanic x => Panics x
  | PFail err => Val (Err err)
  | POk None _ => Val (Ok (zero_struct SJob))
  | POk (Some r) p =>
      decode_config time_Parse wide_int wide_uint (unroll (p_nodes p) (p_next p) [] r)
  end.

(** ** Documents *)

(** [emits env es n env']: the events [es] write the node [n], where [env] has the node
    of every anchor in scope, and [env'] those after it.  Inside a node its own anchor
    has no node yet. *)
Definition unbind (a : option string) (env : gmap string node) : gmap string node :=
  match a with Some a => delete a env | None => env end.
Definition anchored (a : option string) (n : node) (env : gmap string node) : gmap string node :=
  match a with
  | Some a => match env !! a with Some _ => env | None => <[a := n]> env end
  | None => env
  end.

Section emits.
Context (time_Parse : string → string → bool).

Definition scalar_node (line : Z) (tag value : string) (quoted : bool) : node :=
  Scalar line (node_tag time_Parse
    (if quoted then strTag else if decide (value = "<<") then mergeTag else "") tag (Some value))
    quoted value.

Inductive emits : gmap string node → list yevent → node → gmap string node → Prop :=
| Emits_scalar env line a tag value quoted :
    emits env [ScalarEvent line a tag value quoted] (scalar_node line tag value quoted)
      (anchored a (scalar_node line tag value quoted) (unbind a env))
| Emits_alias env line name n :
    env !! name = Some n → emits env [AliasEvent line name] (Alias line name (Some n)) env
| Emits_sequence env line a tag es ns env' n :
    emits_list (unbind a env) es ns env' →
    n = Sequence line (node_tag time_Parse seqTag tag None) ns →
    emits env (SequenceStart line a tag :: es ++ [SequenceEnd]) n (anchored a n env')
| Emits_mapping env line a tag es kvs env' n :
    emits_entries (unbind a env) es kvs env' →
    n = Mapping line (node_tag time_Parse mapTag tag None) kvs →
    emits env (MappingStart line a tag :: es ++ [MappingEnd]) n (anchored a n env')
with emits_list : gmap string node → list yevent → list node → gmap string node → Prop :=
| Emits_nil env : emits_list env [] [] env
| Emits_cons env es n env1 es' ns env2 :
    emits env es n env1 → emits_list env1 es' ns env2 → emits_list env (es ++ es') (n :: ns) env2
with emits_entries : gmap string node → list yevent → list (node * node) → gmap string node → Prop :=
| Emits_no_entry env : emits_entries env [] [] env
| Emits_entry env kes k env1 ves v env2 comments es kvs env3 :
    emits env kes k env1 → emits env1 ves v env2 →
    comments = [] ∨ comments = [TailComment] →
    emits_entries env2 es kvs env3 →
    emits_entries env (kes ++ ves ++ comments ++ es) ((k, v) :: kvs) env3.

Scheme emits_mut := Minimality for emits Sort Prop
  with emits_list_mut := Minimality for emits_list Sort Prop
  with emits_entries_mut := Minimality for emits_entries Sort Prop.
Combined Scheme emits_all from emits_mut, emits_list_mut, emits_entries_mut.
End emits.

(** ** The parser reads what is written *)

(** [good store b r n]: the node at hand in the store has the tree [n]; the aliases in it
    are older than [b], so that expanding them never meets an active one. *)
Definition good (store : gmap nat raw) (b : nat) (r : raw) (n : node) : Prop :=
  ∀ store' k active, store ⊆ store' → b ≤ k → (∀ a, a ∈ active → b ≤ a) →
  unroll store' k active r = n.

Lemma good_mono store store' b b' r n :
  good store b r n → store ⊆ store' → b ≤ b' → good store' b' r n.
Proof.
  intros Hg Hs Hb st k active Hst Hk Ha. apply Hg; [by etrans|lia|]. intros a Hin.
  specialize (Ha a Hin). lia.
Qed.

Lemma good_alias store b id line name t r n :
  id < b → store !! t = Some r → good store id r n →
  good store b (RawAlias id line name t) (Alias line name (Some n)).
Proof.
  intros Hid Ht Hg st k active Hst Hk Ha.
  assert (id ∉ active) as Hna by (intros Hin; specialize (Ha id Hin); lia).
  destruct k as [|k]; [lia|]. cbn [unroll]. rewrite decide_False by done.
  rewrite (lookup_weaken _ _ _ _ Ht Hst). cbn. do 2 f_equal. apply Hg; [done|lia|].
  intros a [->|Hin]%elem_of_cons; [lia|]. specialize (Ha a Hin). lia.
Qed.

Lemma unroll_eq store k active r : unroll store k active r = 
  match r with
  | RawScalar line tag quoted value => Scalar line tag quoted value
  | RawSequence line tag content => Sequence line tag (List.map (unroll store k active) content)
  | RawMapping line tag content =>
      Mapping line tag (List.map (λ kv, let '(x, y) := kv in (unroll store k active x, unroll store k active y)) content)
  | RawAlias id line name target =>
      Alias line name
        (if decide (id ∈ active) then None
         else match k with
              | O => None
              | S k' => unroll store k' (id :: active) <$> store !! target
              end)
  | RawDocument content => Document (unroll store k active content)
  end.
Proof. by destruct k, r. Qed.

Lemma good_sequence store b line tag rs ns :
  Forall2 (good store b) rs ns → good store b (RawSequence line tag rs) (Sequence line tag ns).
Proof.
  intros Hg st k active Hst Hk Ha. rewrite unroll_eq. f_equal.
  induction Hg as [|r n rs ns Hr _ IH]; [done|]. cbn. by rewrite Hr, IH.
Qed.

Lemma good_mapping store b line tag rs ns :
  Forall2 (λ x y, good store b x.1 y.1 ∧ good store b x.2 y.2) rs ns →
  good store b (RawMapping line tag rs) (Mapping line tag ns).
Proof.
  intros Hg st k active Hst Hk Ha. rewrite unroll_eq. f_equal.
  induction Hg as [|[r1 r2] [n1 n2] rs ns [H1 H2] _ IH]; [done|]. cbn in *. by rewrite H1, H2, IH.
Qed.

(** Addresses are handed out in order. *)
Definition fresh_ok (p : parser) : Prop := ∀ i, is_Some (p_nodes p !! i) → i < p_next p.
(** The anchors in scope have their nodes. *)
Definition agrees (p : parser) (env : gmap string node) : Prop :=
  ∀ name n, env !! name = Some n → ∃ id r,
    p_anchors p !! name = Some id ∧ p_nodes p !! id = Some r
    ∧ good (p_nodes p) (p_next p) r n.
(** What parsing does to the state. *)
Record advances (p p' : parser) (env env' : gmap string node) : Prop := {
  adv_nodes : p_nodes p ⊆ p_nodes p';
  adv_next : p_next p ≤ p_next p';
  adv_fresh : ∀ i, is_Some (p_nodes p' !! i) →
    is_Some (p_nodes p !! i) ∨ p_next p ≤ i < p_next p';
  adv_agrees : agrees p' env';
  adv_anchors : ∀ name, env' !! name = None →
    env !! name = None ∧ p_anchors p' !! name = p_anchors p !! name
}.

Definition with_events (es : list yevent) (p : parser) : parser :=
  mkParser es (p_anchors p) (p_nodes p) (p_next p).

Lemma advances_refl p es env : agrees p env → advances p (with_events es p) env env.
Proof. intros Ha. split; [done|done|by left|done|done]. Qed.

Lemma advances_trans p p1 p2 env env1 env2 :
  advances p p1 env env1 → advances p1 p2 env1 env2 → advances p p2 env env2.
Proof.
  intros [Hn Hx Hf Ha Hb] [Hn' Hx' Hf' Ha' Hb']. split; [by etrans|lia| |done|].
  - intros i [Hi|Hi]%Hf'; [|right; lia]. apply Hf in Hi as [Hi|Hi]; [by left|right; lia].
  - intros name [E1 E2]%Hb'. destruct (Hb name E1) as [E3 E4]. split; [done|]. by rewrite E2.
Qed.

Lemma advances_fresh p p' env env' : advances p p' env env' → fresh_ok p → fresh_ok p'.
Proof. intros [Hn Hx Hf Ha Hb] Hp i [Hi|Hi]%Hf; [|lia]. specialize (Hp i Hi). lia. Qed.

(** The state inside an anchored node. *)
Lemma anchor_inside a env p id p1 :
  fresh_ok p → agrees p env → anchor a p = POk id p1 →
  fresh_ok p1 ∧ agrees p1 (unbind a env) ∧ p_events p1 = p_events p.
Proof.
  intros Hf Ha. destruct a as [a|]; cbn; intros [= <- <-]; [|done].
  split_and!; [intros i Hi; specialize (Hf i Hi); cbn; lia| |done].
  intros name n Hn. apply lookup_delete_Some in Hn as [Hne Hn].
  destruct (Ha name n Hn) as (id & r & H1 & H2 & H3). exists id, r. split_and!; [|done|].
  - by cbn; rewrite lookup_insert_ne.
  - by apply (good_mono _ _ _ _ _ _ H3); [|cbn; lia].
Qed.

Lemma anchor_complete a env env' n r p id p1 p2 :
  fresh_ok p → anchor a p = POk id p1 → advances p1 p2 (unbind a env) env' →
  good (p_nodes p2) (p_next p2) r n →
  ∃ p3, complete id r p2 = POk (Some r) p3 ∧ p_events p3 = p_events p2
    ∧ advances p p3 env (anchored a n env') ∧ good (p_nodes p3) (p_next p3) r n.
Proof.
  intros Hf. destruct a as [a|]; cbn; intros [= <- <-] [Hn Hx Hfr Ha Hb] Hg; cbn in *; [|by eexists].
  set (i := p_next p) in *.
  assert (p_nodes p2 !! i = None) as Hi.
  { apply eq_None_not_Some. intros [Hi|Hi]%Hfr; [|lia]. apply Hf in Hi. lia. }
  assert (p_nodes p2 ⊆ <[i := r]> (p_nodes p2)) as Hsub by by apply insert_subseteq.
  eexists. split; [done|]. split; [done|]. split.
  - split; cbn; [by etrans|lia| | |].
    + intros j Hj. destruct (decide (i = j)) as [<-|Hne]; [right; lia|].
      rewrite lookup_insert_ne in Hj by done. apply Hfr in Hj as [Hj|Hj]; [by left|right; lia].
    + assert (agrees (mkParser (p_events p2) (p_anchors p2) (<[i := r]> (p_nodes p2)) (p_next p2)) env')
        as Ha'.
      { intros name m Hm. destruct (Ha name m Hm) as (id & r' & H1 & H2 & H3).
        exists id, r'. split_and!; [done|by eapply lookup_weaken|].
        by apply (good_mono _ _ _ _ _ _ H3). }
      destruct (env' !! a) eqn:Ea; [done|]. intros name m Hm.
      apply lookup_insert_Some in Hm as [[<- <-]|[Hne Hm]]; [|by apply Ha'].
      exists i, r. cbn. split_and!.
      * destruct (Hb a Ea) as [_ ->]. by rewrite lookup_insert_eq.
      * by rewrite lookup_insert_eq.
      * by apply (good_mono _ _ _ _ _ _ Hg).
    + intros name Hname. assert (name ≠ a ∧ env' !! name = None) as [Hne Hname'].
      { destruct (env' !! a) eqn:Ea; [split; [congruence|done]|].
        by apply lookup_insert_None in Hname as [? ?]. }
      destruct (Hb name Hname') as [E1 E2]. rewrite lookup_delete_ne in E1 by done.
      split; [done|]. rewrite E2. by rewrite lookup_insert_ne.
  - by apply (good_mono _ _ _ _ _ _ Hg).
Qed.

(** A node begins with one of four events. *)
Definition starts (e : yevent) : Prop :=
  event_type e ∈ ["scalar"; "alias"; "sequence start"; "mapping start"].
Lemma starts_other e typ :
  starts e → typ ∈ ["sequence end"; "mapping end"; "tail comment"] → event_type e ≠ typ.
Proof. intros Hs Ht Heq. destruct e; unfold starts in Hs; cbn in *; set_solver. Qed.

Section reads.
Context (time_Parse : string → string → bool) (problem : error).
Abbreviation parse := (parse time_Parse problem).
Abbreviation emits := (emits time_Parse).

Lemma peek_at p e es : p_events p = e :: es → peek problem p = POk e p.
Proof. intros He. unfold peek. by rewrite He. Qed.
Lemma expect_at p e es typ :
  p_events p = e :: es → event_type e = typ → typ ≠ "stream end" →
  expect problem typ p = POk () (with_events es p).
Proof.
  intros He Ht Hne. unfold expect. rewrite He. rewrite decide_False by congruence.
  by rewrite decide_True.
Qed.

Lemma emits_head env es n env' : emits env es n env' → ∃ e es', es = e :: es' ∧ starts e.
Proof. unfold starts. destruct 1; eexists _, _; (split; [done|]); cbn; set_solver. Qed.

Definition reads env es n env' : Prop := ∀ fuel p rest,
  length es < fuel → p_events p = es ++ rest → fresh_ok p → agrees p env → ∃ r p',
    parse fuel p = POk (Some r) p' ∧ p_events p' = rest ∧ advances p p' env env'
    ∧ good (p_nodes p') (p_next p') r n.
Definition reads_list env es ns env' : Prop := ∀ F fuel p rest,
  length es < F → length es < fuel → p_events p = es ++ SequenceEnd :: rest →
  fresh_ok p → agrees p env → ∃ rs p',
    sequence_loop problem (parse F) fuel p = POk rs p' ∧ p_events p' = SequenceEnd :: rest
    ∧ advances p p' env env' ∧ Forall2 (good (p_nodes p') (p_next p')) rs ns.
Definition reads_entries env es kvs env' : Prop := ∀ F fuel p rest,
  length es < F → length es < fuel → p_events p = es ++ MappingEnd :: rest →
  fresh_ok p → agrees p env → ∃ rs p',
    mapping_loop problem (parse F) fuel p = POk rs p' ∧ p_events p' = MappingEnd :: rest
    ∧ advances p p' env env'
    ∧ Forall2 (λ x y, good (p_nodes p') (p_next p') x.1 y.1
                      ∧ good (p_nodes p') (p_next p') x.2 y.2) rs kvs.

Ltac par_unfold := unfold mbind, par_mbind, par_bind, mret, par_mret.

Lemma reads_scalar env line a tag value quoted :
  reads env [ScalarEvent line a tag value quoted] (scalar_node time_Parse line tag value quoted)
    (anchored a (scalar_node time_Parse line tag value quoted) (unbind a env)).
Proof.
  intros [|fuel] p rest Hfuel He Hf Ha; [lia|]. cbn [YamlParser.parse]. par_unfold.
  rewrite (peek_at _ _ _ He). unfold parse_scalar. par_unfold.
  destruct (anchor a p) as [id p1| | |] eqn:Hanchor; [|by destruct a..].
  destruct (anchor_inside a env p id p1 Hf Ha Hanchor) as (Hf1 & Ha1 & He1).
  rewrite (expect_at p1 _ rest "scalar") by (by rewrite ?He1).
  destruct (anchor_complete a env (unbind a env) (scalar_node time_Parse line tag value quoted)
    (RawScalar line (node_tag time_Parse (if quoted then strTag else if decide (value = "<<")
       then mergeTag else "") tag (Some value)) quoted value) p id p1 (with_events rest p1))
    as (p3 & Hc & He3 & Hadv & Hg); [done|done|by apply advances_refl|by intros ? [] ?|].
  eexists _, p3. split_and!; [exact Hc|exact He3|done|done].
Qed.

Lemma reads_alias env line name n :
  env !! name = Some n → reads env [AliasEvent line name] (Alias line name (Some n)) env.
Proof.
  intros Hn [|fuel] p rest Hfuel He Hf Ha; [lia|]. cbn [YamlParser.parse]. par_unfold.
  rewrite (peek_at _ _ _ He). unfold parse_alias, find_anchor. par_unfold.
  destruct (Ha name n Hn) as (id & r & H1 & H2 & H3). rewrite H1.
  rewrite (expect_at p _ rest "alias") by done. eexists _, _. split; [done|]. split; [done|].
  split; [split; cbn; [done|lia|by left| |done]|].
  - intros name' n' Hn'. destruct (Ha name' n' Hn') as (id' & r' & H1' & H2' & H3').
    exists id', r'. split_and!; [done..|]. apply (good_mono _ _ _ _ _ _ H3'); cbn; [done|lia].
  - apply (good_alias _ _ _ _ _ _ r); cbn; [lia|done..].
Qed.

Lemma reads_sequence env line a tag es ns env' n :
  reads_list (unbind a env) es ns env' →
  n = Sequence line (node_tag time_Parse seqTag tag None) ns →
  reads env (SequenceStart line a tag :: es ++ [SequenceEnd]) n (anchored a n env').
Proof.
  intros Hlist -> [|fuel] p rest Hfuel He Hf Ha; [lia|]. cbn [YamlParser.parse]. par_unfold.
  rewrite (peek_at _ _ _ He).
  destruct (anchor a p) as [id p1| | |] eqn:Hanchor; [|by destruct a..].
  destruct (anchor_inside a env p id p1 Hf Ha Hanchor) as (Hf1 & Ha1 & He1).
  rewrite (expect_at p1 _ ((es ++ [SequenceEnd]) ++ rest) "sequence start") by (by rewrite ?He1).
  cbn [length] in Hfuel. rewrite length_app in Hfuel. cbn in Hfuel.
  destruct (Hlist fuel fuel (with_events ((es ++ [SequenceEnd]) ++ rest) p1) rest)
    as (rs & p2 & Hloop & He2 & Hadv & Hgs); [lia|lia|by cbn; rewrite <- (assoc_L (++))|done|done|].
  rewrite Hloop. rewrite (expect_at p2 _ rest "sequence end") by done.
  destruct (anchor_complete a env env' (Sequence line (node_tag time_Parse seqTag tag None) ns)
    (RawSequence line (node_tag time_Parse seqTag tag None) rs) p id p1 (with_events rest p2))
    as (p3 & Hc & He3 & Hadv3 & Hg); [done|done|by destruct Hadv|by apply good_sequence|].
  eexists _, p3. split_and!; [exact Hc|exact He3|done|done].
Qed.

Lemma reads_mapping env line a tag es kvs env' n :
  reads_entries (unbind a env) es kvs env' →
  n = Mapping line (node_tag time_Parse mapTag tag None) kvs →
  reads env (MappingStart line a tag :: es ++ [MappingEnd]) n (anchored a n env').
Proof.
  intros Hlist -> [|fuel] p rest Hfuel He Hf Ha; [lia|]. cbn [YamlParser.parse]. par_unfold.
  rewrite (peek_at _ _ _ He).
  destruct (anchor a p) as [id p1| | |] eqn:Hanchor; [|by destruct a..].
  destruct (anchor_inside a env p id p1 Hf Ha Hanchor) as (Hf1 & Ha1 & He1).
  rewrite (expect_at p1 _ ((es ++ [MappingEnd]) ++ rest) "mapping start") by (by rewrite ?He1).
  cbn [length] in Hfuel. rewrite length_app in Hfuel. cbn in Hfuel.
  destruct (Hlist fuel fuel (with_events ((es ++ [MappingEnd]) ++ rest) p1) rest)
    as (rs & p2 & Hloop & He2 & Hadv & Hgs); [lia|lia|by cbn; rewrite <- (assoc_L (++))|done|done|].
  rewrite Hloop. rewrite (expect_at p2 _ rest "mapping end") by done.
  destruct (anchor_complete a env env' (Mapping line (node_tag time_Parse mapTag tag None) kvs)
    (RawMapping line (node_tag time_Parse mapTag tag None) rs) p id p1 (with_events rest p2))
    as (p3 & Hc & He3 & Hadv3 & Hg); [done|done|by destruct Hadv|by apply good_mapping|].
  eexists _, p3. split_and!; [exact Hc|exact He3|done|done].
Qed.

Lemma reads_nil env : reads_list env [] [] env.
Proof.
  intros F [|fuel] p rest _ Hfuel He Hf Ha; [lia|]. cbn [sequence_loop]. par_unfold.
  rewrite (peek_at _ _ _ He). eexists _, (with_events (SequenceEnd :: rest) p). cbn.
  split_and!; [by destruct p; cbn in *; subst|done|by apply advances_refl|constructor].
Qed.

Lemma reads_cons env es n env1 es' ns env2 :
  emits env es n env1 → reads env es n env1 → reads_list env1 es' ns env2 →
  reads_list env (es ++ es') (n :: ns) env2.
Proof.
  intros (e & es1 & -> & He1)%emits_head Hn Hns F [|fuel] p rest HF Hfuel He Hf Ha; [lia|].
  rewrite length_app in HF, Hfuel. cbn in HF, Hfuel. rewrite <- (assoc_L (++)) in He.
  cbn [sequence_loop]. par_unfold. rewrite (peek_at _ _ _ He).
  rewrite decide_False by (apply starts_other; [done|set_solver]).
  destruct (Hn F p (es' ++ SequenceEnd :: rest)) as (r & p1 & -> & He2 & Hadv & Hg);
    [cbn; lia|done..|].
  destruct (Hns F fuel p1 rest) as (rs & p2 & -> & He3 & Hadv2 & Hgs);
    [lia|lia|done|by eapply advances_fresh|by destruct Hadv|].
  eexists _, p2. split; [done|]. split; [done|]. split; [by eapply advances_trans|].
  constructor; [|done]. by apply (good_mono _ _ _ _ _ _ Hg); destruct Hadv2.
Qed.

Lemma reads_no_entry env : reads_entries env [] [] env.
Proof.
  intros F [|fuel] p rest _ Hfuel He Hf Ha; [lia|]. cbn [mapping_loop]. par_unfold.
  rewrite (peek_at _ _ _ He). eexists _, (with_events (MappingEnd :: rest) p). cbn.
  split_and!; [by destruct p; cbn in *; subst|done|by apply advances_refl|constructor].
Qed.

(** A comment after an entry is skipped; nothing else looks like one. *)
Lemma skip_comment p comments es rest env kvs env' :
  comments = [] ∨ comments = [TailComment] → emits_entries time_Parse env es kvs env' →
  p_events p = comments ++ es ++ MappingEnd :: rest →
  ∃ e, peek problem p = POk e p ∧
    (if decide (event_type e = "tail comment") then expect problem "tail comment" else mret ()) p
    = POk () (with_events (es ++ MappingEnd :: rest) p).
Proof.
  intros [->| ->] Hes He; cbn in He.
  - assert (∃ e es1, es ++ MappingEnd :: rest = e :: es1 ∧ event_type e ≠ "tail comment")
      as (e & es1 & Heq & Hne).
    { destruct Hes as [|? kes ? ? ? ? ? ? ? ? ? Hk]; [by eexists _, _|].
      apply emits_head in Hk as (e & es1 & -> & Hs). eexists e, _. split; [done|].
      apply starts_other; [done|set_solver]. }
    rewrite Heq in *. exists e. split; [by apply (peek_at _ _ es1)|]. rewrite decide_False by done.
    unfold mret, par_mret. f_equal. destruct p. cbn in *. by subst.
  - exists TailComment. split; [by eapply peek_at|]. cbn. by apply (expect_at _ TailComment).
Qed.

Lemma reads_entry env kes k env1 ves v env2 comments es kvs env3 :
  emits env kes k env1 → reads env kes k env1 → reads env1 ves v env2 →
  comments = [] ∨ comments = [TailComment] →
  emits_entries time_Parse env2 es kvs env3 → reads_entries env2 es kvs env3 →
  reads_entries env (kes ++ ves ++ comments ++ es) ((k, v) :: kvs) env3.
Proof.
  intros (e & kes1 & -> & He1)%emits_head Hk Hv Hc Hes Hkvs F [|fuel] p rest HF Hfuel He Hf Ha; [lia|].
  rewrite !length_app in HF, Hfuel. cbn in HF, Hfuel. rewrite <- !(assoc_L (++)) in He.
  cbn [mapping_loop]. par_unfold. rewrite (peek_at _ _ _ He).
  rewrite decide_False by (apply starts_other; [done|set_solver]).
  destruct (Hk F p (ves ++ comments ++ es ++ MappingEnd :: rest)) as (rk & p1 & -> & He2 & Hadv & Hgk);
    [cbn; lia|done..|].
  assert (fresh_ok p1) as Hf1 by by eapply advances_fresh.
  destruct (Hv F p1 (comments ++ es ++ MappingEnd :: rest)) as (rv & p2 & -> & He3 & Hadv2 & Hgv);
    [cbn; lia|done|done|by destruct Hadv|].
  destruct (skip_comment p2 comments es rest env2 kvs env3 Hc Hes He3) as (e' & -> & Hskip).
  unfold mret, par_mret in Hskip. rewrite Hskip.
  destruct (Hkvs F fuel (with_events (es ++ MappingEnd :: rest) p2) rest)
    as (rs & p3 & -> & He4 & Hadv3 & Hgs);
    [lia|lia|done|by eapply (advances_fresh p1 p2)|by destruct Hadv2|].
  assert (advances p2 p3 env2 env3) as Hadv3' by by destruct Hadv3.
  eexists _, p3. split; [done|]. split; [done|]. split.
  { eapply advances_trans; [done|]. by eapply advances_trans. }
  constructor; [|done]. cbn. split.
  - apply (good_mono _ _ _ _ _ _ Hgk); destruct Hadv2, Hadv3'; [by etrans|lia].
  - by apply (good_mono _ _ _ _ _ _ Hgv); destruct Hadv3'.
Qed.

Lemma emits_reads env es n env' : emits env es n env' → reads env es n env'.
Proof.
  revert env es n env'.
  assert ((∀ env es n env', emits env es n env' → emits env es n env' ∧ reads env es n env')
    ∧ (∀ env es ns env', emits_list time_Parse env es ns env' → reads_list env es ns env')
    ∧ (∀ env es kvs env', emits_entries time_Parse env es kvs env' →
         emits_entries time_Parse env es kvs env' ∧ reads_entries env es kvs env')) as (Hn & _ & _);
    [|naive_solver].
  apply emits_all.
  - split; [constructor|apply reads_scalar].
  - split; [by constructor|by apply reads_alias].
  - intros env line a tag es ns env' n Hes Hns ->. split; [by eapply Emits_sequence|by eapply reads_sequence].
  - intros env line a tag es kvs env' n Hes [Hw Hr] ->. split; [by eapply Emits_mapping|by eapply reads_mapping].
  - apply reads_nil.
  - intros env es n env1 es' ns env2 Hn [Hn1 Hn2] _ Hns. by eapply reads_cons.
  - split; [constructor|apply reads_no_entry].
  - intros env kes k env1 ves v env2 comments es kvs env3 _ [Hk1 Hk2] _ [Hv1 Hv2] Hc _ [He1 He2].
    split; [by eapply Emits_entry|by eapply reads_entry].
Qed.
End reads.

(** ** Totality *)

(** The events of a node, as the grammar of libyaml has them; aliases may refer to
    anything. *)
Inductive wf_node : list yevent → Prop :=
| Wf_scalar line a tag value quoted : wf_node [ScalarEvent line a tag value quoted]
| Wf_alias line name : wf_node [AliasEvent line name]
| Wf_sequence line a tag es : wf_nodes es → wf_node (SequenceStart line a tag :: es ++ [SequenceEnd])
| Wf_mapping line a tag es : wf_entries es → wf_node (MappingStart line a tag :: es ++ [MappingEnd])
with wf_nodes : list yevent → Prop :=
| Wf_nil : wf_nodes []
| Wf_cons es es' : wf_node es → wf_nodes es' → wf_nodes (es ++ es')
with wf_entries : list yevent → Prop :=
| Wf_no_entry : wf_entries []
| Wf_entry kes ves comments es :
    wf_node kes → wf_node ves → comments = [] ∨ comments = [TailComment] → wf_entries es →
    wf_entries (kes ++ ves ++ comments ++ es).

Scheme wf_node_mut := Minimality for wf_node Sort Prop
  with wf_nodes_mut := Minimality for wf_nodes Sort Prop
  with wf_entries_mut := Minimality for wf_entries Sort Prop.
Combined Scheme wf_all from wf_node_mut, wf_nodes_mut, wf_entries_mut.

Definition no_merge_event (e : yevent) : Prop :=
  match e with ScalarEvent _ _ _ value _ => value ≠ "<<" | _ => True end.

(** Scalars as the parser leaves them, without merge keys. *)
Fixpoint clean (r : raw) : Prop :=
  match r with
  | RawScalar _ tag _ value => (tag ≠ "" ∧ tag ≠ "!") ∧ value ≠ "<<"
  | RawSequence _ _ content => foldr (λ x P, clean x ∧ P) True content
  | RawMapping _ _ content => foldr (λ e P, (clean e.1 ∧ clean e.2) ∧ P) True content
  | RawAlias _ _ _ _ => True
  | RawDocument content => clean content
  end.
Definition clean_store (store : gmap nat raw) : Prop := map_Forall (λ _ r, clean r) store.

Lemma unroll_isMerge store k active r : clean r → isMerge (unroll store k active r) = false.
Proof.
  rewrite unroll_eq. destruct r; cbn; [|done..]. intros [_ Hv].
  apply bool_decide_eq_false_2. naive_solver.
Qed.

Lemma unroll_clean store k active r :
  clean_store store → clean r →
  parsed (unroll store k active r) ∧ no_merge (unroll store k active r).
Proof.
  intros Hstore. revert active r. induction k as [|k IHk]; intros active r;
    (induction r as [line tag q v|line tag content IH|line tag content IH|id line name t|content IH]
       using raw_ind; rewrite unroll_eq; cbn [parsed no_merge clean]; intros Hc;
     [naive_solver| | | |naive_solver]).
  1, 4: induction IH as [|x l Hx _ IHl]; cbn [List.map foldr] in *; naive_solver.
  1, 3: induction IH as [|[x y] l [Hx Hy] _ IHl]; cbn [List.map foldr fst snd] in *; [done|];
    rewrite unroll_isMerge by tauto; naive_solver.
  - by case_decide.
  - case_decide; [done|]. destruct (store !! t) as [r'|] eqn:Ht; [|done].
    apply IHk. exact (Hstore t r' Ht).
Qed.

Lemma resolve_untagged time_Parse v : resolve time_Parse "" v = Ok (resolve_value time_Parse "" v).
Proof.
  unfold resolve. change (shortTag "") with "". cbn [resolvableTag slices_Contains].
  change (resolvableTag "") with true. cbn [negb]. destruct (resolve_value time_Parse "" v).
  by rewrite bool_decide_eq_true_2 by auto.
Qed.

(** The tag of a scalar is never empty. *)
Lemma node_tag_scalar time_Parse value quoted tag :
  let d := if (quoted : bool) then strTag else if decide (value = "<<") then mergeTag else "" in
  node_tag time_Parse d tag (Some value) ≠ "" ∧ node_tag time_Parse d tag (Some value) ≠ "!".
Proof.
  intros d. unfold node_tag. destruct (decide (tag ≠ "" ∧ tag ≠ "!")) as [[H1 H2]|_].
  - unfold shortTag. destruct (HasPrefix _ _); [|done]. by split.
  - case_decide as Hd; [by subst d; destruct quoted; [|case_decide]|].
    rewrite resolve_untagged. cbn. rewrite (proj1 (resolve_value_shape time_Parse "" value)).
    by destruct (resolve_value time_Parse "" value).2.
Qed.

(** A result that is no panic and does return, with a postcondition. *)
Definition returns {A} (Q : A → parser → Prop) (m : pres A) : Prop :=
  match m with POk a p => Q a p | PFail _ => True | PPanic _ | PDiverges => False end.

Lemma returns_bind {A B} Q (R : B → parser → Prop) (m : par A) (k : A → par B) p :
  returns Q (m p) → (∀ a p', Q a p' → returns R (k a p')) → returns R ((m ≫= k) p).
Proof. intros Hm Hk. unfold mbind, par_mbind, par_bind. destruct (m p); try done. by apply Hk. Qed.

(** The state between nodes, with the events to come. *)
Definition at_events (es : list yevent) (p : parser) : Prop :=
  p_events p = es ∧ clean_store (p_nodes p).

Lemma peek_returns problem e es p : at_events (e :: es) p →
  returns (λ e' p', e' = e ∧ at_events (e :: es) p') (peek problem p).
Proof. intros [He Hc]. rewrite (peek_at _ _ _ _ He). done. Qed.
Lemma expect_returns problem e es typ p :
  at_events (e :: es) p → event_type e = typ → typ ≠ "stream end" →
  returns (λ _, at_events es) (expect problem typ p).
Proof. intros [He Hc] Ht Hne. rewrite (expect_at _ _ _ _ _ He) by done. done. Qed.
Lemma anchor_returns a es p : at_events es p → returns (λ _, at_events es) (anchor a p).
Proof. intros [He Hc]. by destruct a. Qed.
Lemma complete_returns id r es p :
  at_events es p → clean r →
  returns (λ r p', (∃ n, r = Some n ∧ clean n) ∧ at_events es p') (complete id r p).
Proof.
  intros [He Hc] Hr. destruct id; cbn; (split; [by eauto|]); [|done].
  split; [done|]. cbn. by apply map_Forall_insert_2.
Qed.

Ltac expect_event := eapply returns_bind; [eapply expect_returns;
  [match goal with H : _ |- at_events _ _ => exact H end|reflexivity|done]|].

Section total.
Context (time_Parse : string → string → bool) (problem : error).
Abbreviation parse := (parse time_Parse problem).

Definition child_returns es : Prop := ∀ fuel p rest,
  length es < fuel → at_events (es ++ rest) p →
  returns (λ r p', (∃ n, r = Some n ∧ clean n) ∧ at_events rest p') (parse fuel p).
Definition children_return es : Prop := ∀ F fuel p rest,
  length es < F → length es < fuel → at_events (es ++ SequenceEnd :: rest) p →
  returns (λ rs p', foldr (λ x P, clean x ∧ P) True rs ∧ at_events (SequenceEnd :: rest) p')
    (sequence_loop problem (parse F) fuel p).
Definition entries_return es : Prop := ∀ F fuel p rest,
  length es < F → length es < fuel → at_events (es ++ MappingEnd :: rest) p →
  returns (λ rs p', foldr (λ e P, (clean e.1 ∧ clean e.2) ∧ P) True rs
                    ∧ at_events (MappingEnd :: rest) p')
    (mapping_loop problem (parse F) fuel p).

Lemma wf_head es : wf_node es → ∃ e es', es = e :: es' ∧ starts e.
Proof. unfold starts. destruct 1; eexists _, _; (split; [done|]); cbn; set_solver. Qed.

Lemma scalar_returns line a tag value quoted :
  value ≠ "<<" → child_returns [ScalarEvent line a tag value quoted].
Proof.
  intros Hv [|fuel] p rest Hfuel He; [lia|]. cbn [YamlParser.parse]. cbn [app] in He.
  eapply returns_bind; [by apply peek_returns|]. intros e p1 [-> He1].
  eapply returns_bind; [by apply anchor_returns|]. intros id p2 He2.
  expect_event. intros [] p3 He3.
  apply complete_returns; [done|]. split; [apply node_tag_scalar|done].
Qed.

Lemma alias_returns line name : child_returns [AliasEvent line name].
Proof.
  intros [|fuel] p rest Hfuel He; [lia|]. cbn [YamlParser.parse]. cbn [app] in He.
  eapply returns_bind; [by apply peek_returns|]. intros e p1 [-> He1].
  eapply (returns_bind (λ _, at_events (AliasEvent line name :: rest))).
  { unfold find_anchor. by destruct (p_anchors p1 !! name). }
  intros target p2 He2. expect_event. intros [] p3 He3.
  split; [by eexists|by destruct He3].
Qed.

Lemma sequence_returns line a tag es :
  children_return es → child_returns (SequenceStart line a tag :: es ++ [SequenceEnd]).
Proof.
  intros Hes [|fuel] p rest Hfuel He; [lia|]. cbn [YamlParser.parse]. cbn [app] in He.
  cbn [length] in Hfuel. rewrite length_app in Hfuel. cbn in Hfuel.
  eapply returns_bind; [by apply peek_returns|]. intros e p1 [-> He1].
  eapply returns_bind; [by apply anchor_returns|]. intros id p2 He2.
  expect_event. intros [] p3 He3.
  eapply returns_bind; [apply (Hes fuel fuel p3 rest); [lia|lia|by rewrite <- (assoc_L (++)) in He3]|].
  intros rs p4 [Hrs He4]. expect_event. intros [] p5 He5.
  by apply complete_returns.
Qed.

Lemma mapping_returns line a tag es :
  entries_return es → child_returns (MappingStart line a tag :: es ++ [MappingEnd]).
Proof.
  intros Hes [|fuel] p rest Hfuel He; [lia|]. cbn [YamlParser.parse]. cbn [app] in He.
  cbn [length] in Hfuel. rewrite length_app in Hfuel. cbn in Hfuel.
  eapply returns_bind; [by apply peek_returns|]. intros e p1 [-> He1].
  eapply returns_bind; [by apply anchor_returns|]. intros id p2 He2.
  expect_event. intros [] p3 He3.
  eapply returns_bind; [apply (Hes fuel fuel p3 rest); [lia|lia|by rewrite <- (assoc_L (++)) in He3]|].
  intros rs p4 [Hrs He4]. expect_event. intros [] p5 He5.
  by apply complete_returns.
Qed.

Lemma no_children_return : children_return [].
Proof.
  intros F [|fuel] p rest _ Hfuel He; [lia|]. cbn [sequence_loop]. cbn [app] in He.
  eapply returns_bind; [by apply peek_returns|]. intros e p1 [-> He1]. by cbn.
Qed.

Lemma next_child_returns es es' :
  wf_node es → child_returns es → children_return es' → children_return (es ++ es').
Proof.
  intros (e & es1 & -> & Hs)%wf_head Hn Hns F [|fuel] p rest HF Hfuel He; [lia|].
  rewrite length_app in HF, Hfuel. cbn in HF, Hfuel. rewrite <- (assoc_L (++)) in He. cbn [app] in He.
  cbn [sequence_loop]. eapply returns_bind; [by apply peek_returns|]. intros e' p1 [-> He1].
  rewrite decide_False by (apply starts_other; [done|set_solver]).
  eapply returns_bind; [by apply (Hn F); [cbn; lia|]|]. intros r p2 [(n & -> & Hn2) He2].
  eapply returns_bind; [apply (Hns F fuel); [lia|lia|exact He2]|]. intros rs p3 [Hrs He3]. done.
Qed.

Lemma no_entry_returns : entries_return [].
Proof.
  intros F [|fuel] p rest _ Hfuel He; [lia|]. cbn [mapping_loop]. cbn [app] in He.
  eapply returns_bind; [by apply peek_returns|]. intros e p1 [-> He1]. by cbn.
Qed.

Lemma next_entry_returns kes ves comments es :
  wf_node kes → child_returns kes → child_returns ves →
  comments = [] ∨ comments = [TailComment] → wf_entries es → entries_return es →
  entries_return (kes ++ ves ++ comments ++ es).
Proof.
  intros (e & kes1 & -> & Hs)%wf_head Hk Hv Hc Hwf Hes F [|fuel] p rest HF Hfuel He; [lia|].
  rewrite !length_app in HF, Hfuel. cbn in HF, Hfuel. rewrite <- !(assoc_L (++)) in He. cbn [app] in He.
  cbn [mapping_loop]. eapply returns_bind; [by apply peek_returns|]. intros e' p1 [-> He1].
  rewrite decide_False by (apply starts_other; [done|set_solver]).
  eapply returns_bind; [by apply (Hk F); [cbn; lia|]|]. intros k p2 [(kn & -> & Hkn) He2].
  eapply returns_bind; [apply (Hv F); [cbn; lia|exact He2]|]. intros v p3 [(vn & -> & Hvn) He3].
  assert (∃ e0 es0, comments ++ es ++ MappingEnd :: rest = e0 :: es0
    ∧ ((comments = [] ∧ event_type e0 ≠ "tail comment")
       ∨ (comments = [TailComment] ∧ e0 = TailComment ∧ es0 = es ++ MappingEnd :: rest)))
    as (e0 & es0 & Heq & Hcase).
  { destruct Hc as [->| ->]; [|by eexists _, _; split; [done|right]].
    destruct Hwf as [|kes' ? ? ? Hk']; [by eexists _, _; split; [done|left]|].
    apply wf_head in Hk' as (e0 & es0 & -> & Hs0). eexists e0, _. split; [done|]. left.
    split; [done|]. apply starts_other; [done|set_solver]. }
  rewrite Heq in He3. eapply returns_bind; [by apply peek_returns|]. intros e1 p4 [-> He4].
  eapply (returns_bind (λ _, at_events (es ++ MappingEnd :: rest))).
  { destruct Hcase as [[-> Hne]|(-> & -> & ->)].
    - rewrite decide_False by done. cbn in *. by rewrite Heq.
    - cbn. eapply expect_returns; [exact He4|done|done]. }
  intros [] p5 He5. eapply returns_bind; [apply (Hes F fuel p5 rest); [lia|lia|exact He5]|].
  intros rs p6 [Hrs He6]. done.
Qed.

Lemma wf_returns es : wf_node es → Forall no_merge_event es → child_returns es.
Proof.
  revert es.
  assert ((∀ es, wf_node es → wf_node es ∧ (Forall no_merge_event es → child_returns es))
    ∧ (∀ es, wf_nodes es → Forall no_merge_event es → children_return es)
    ∧ (∀ es, wf_entries es → wf_entries es ∧ (Forall no_merge_event es → entries_return es)))
    as (Hn & _ & _); [|intros es Hes; by apply Hn].
  apply wf_all.
  - intros. split; [constructor|]. intros [Hv _]%Forall_cons. by apply scalar_returns.
  - intros. split; [constructor|]. intros _. apply alias_returns.
  - intros line a tag es Hwf Hes. split; [by constructor|].
    intros [_ [He _]%Forall_app]%Forall_cons. apply sequence_returns. auto.
  - intros line a tag es _ [Hwf Hes]. split; [by constructor|].
    intros [_ [He _]%Forall_app]%Forall_cons. apply mapping_returns. auto.
  - intros _. apply no_children_return.
  - intros es es' _ [Hwf Hes] _ Hes' [H1 H2]%Forall_app. apply next_child_returns; auto.
  - split; [constructor|]. intros _. apply no_entry_returns.
  - intros kes ves comments es _ [Hk1 Hk2] _ [Hv1 Hv2] Hc _ [He1 He2].
    split; [by constructor|]. intros H. rewrite !Forall_app in H.
    destruct H as (H1 & H2 & _ & H3). apply next_entry_returns; auto.
Qed.
End total.

(** A stream whose first document has the given content. *)
Definition document (es rest : list yevent) : list yevent :=
  StreamStart :: DocumentStart :: es ++ DocumentEnd :: rest.

Section streams.
Context (time_Parse : string → string → bool) (wide_int wide_uint : float64 → Z).
Abbreviation unmarshal_events := (yaml_Unmarshal time_Parse wide_int wide_uint).

Lemma stream_reads problem es rest root env :
  emits time_Parse ∅ es root env → ∃ r p,
  parse_stream time_Parse problem (length (document es rest)) (mkParser (document es rest) ∅ ∅ 0)
  = POk (Some r) p ∧ unroll (p_nodes p) (p_next p) [] r = Document root.
Proof.
  intros Hes%(emits_reads _ problem). unfold parse_stream, mbind, par_mbind, par_bind.
  erewrite expect_at by done. cbn [length document].
  remember (S (length (es ++ DocumentEnd :: rest))) as fuel eqn:Hfuel.
  cbn [parse]. unfold mbind, par_mbind, par_bind.
  rewrite (peek_at _ _ DocumentStart (es ++ DocumentEnd :: rest)) by done.
  erewrite expect_at by done.
  destruct (Hes fuel (mkParser (es ++ DocumentEnd :: rest) ∅ ∅ 0) (DocumentEnd :: rest))
    as (r & p & Hp & He & Hadv & Hg).
  { subst fuel. rewrite length_app. lia. }
  { done. }
  { intros i [x Hx]. cbn in Hx. by rewrite lookup_empty in Hx. }
  { intros name n Hn. by rewrite lookup_empty in Hn. }
  unfold with_events. cbn. rewrite Hp. rewrite (peek_at _ _ _ _ He).
  erewrite expect_at by done. eexists _, _. split; [done|]. rewrite unroll_eq. f_equal.
  apply Hg; [done|done|]. intros a Ha. by apply elem_of_nil in Ha.
Qed.

(** C15: the meaning of a configuration file: when the events libyaml finds in it begin a
    document that writes a job configuration (the keys of the struct tags in any order and
    at most once, absent fields zero, unknown keys with any values, strings plain or
    quoted, null for nil, anchors and comments anywhere), [yaml.Unmarshal] gives exactly
    that configuration. *)
Theorem job_config_decodes events data es rest problem root env cfg
  (Hdata : data ≠ "") (Hevents : events data = (document es rest, problem))
  (Hes : emits time_Parse ∅ es root env) (Hw : written time_Parse (TStruct SJob) cfg root) :
  unmarshal_events events data = Val (Ok cfg).
Proof.
  unfold yaml_Unmarshal. rewrite decide_False by done. rewrite Hevents.
  destruct (stream_reads problem es rest root env Hes) as (r & p & -> & ->).
  by apply written_config.
Qed.

Lemma wf_stream_returns problem es rest :
  wf_node es → Forall no_merge_event es →
  returns (λ r p, (∃ n, r = Some n ∧ clean n) ∧ clean_store (p_nodes p))
    (parse_stream time_Parse problem (length (document es rest)) (mkParser (document es rest) ∅ ∅ 0)).
Proof.
  intros Hwf Hm. pose proof (wf_returns time_Parse problem es Hwf Hm) as Hes.
  unfold parse_stream. cbn [length document].
  remember (S (length (es ++ DocumentEnd :: rest))) as fuel eqn:Hfuel.
  eapply returns_bind; [eapply expect_returns; [by split; [done|apply map_Forall_empty]|done|done]|].
  intros [] p1 He1. cbn [parse]. eapply returns_bind; [by apply peek_returns|]. intros e p2 [-> He2].
  expect_event. intros [] p3 He3.
  eapply returns_bind; [apply (Hes fuel p3 (DocumentEnd :: rest)); [|exact He3]|].
  { subst fuel. rewrite length_app. lia. }
  intros r p4 [(n & -> & Hn) He4]. eapply returns_bind; [by apply peek_returns|].
  intros e p5 [-> He5]. expect_event. intros [] p6 [_ He6]. split; [by eexists|done].
Qed.

(** A mapping with a merge key beside a key that is a list. *)
Definition unhashable_merge : list yevent :=
  [MappingStart 1 None ""; SequenceStart 1 None ""; ScalarEvent 1 None "" "a" false; SequenceEnd;
   ScalarEvent 1 None "" "b" false; ScalarEvent 2 None "" "<<" false; MappingStart 2 None "";
   MappingEnd; MappingEnd].

Lemma wf_unhashable_merge : wf_node unhashable_merge.
Proof.
  apply (Wf_mapping 1 None "" [SequenceStart 1 None ""; ScalarEvent 1 None "" "a" false; SequenceEnd;
    ScalarEvent 1 None "" "b" false; ScalarEvent 2 None "" "<<" false; MappingStart 2 None "";
    MappingEnd]).
  apply (Wf_entry [SequenceStart 1 None ""; ScalarEvent 1 None "" "a" false; SequenceEnd]
    [ScalarEvent 1 None "" "b" false] [] [ScalarEvent 2 None "" "<<" false; MappingStart 2 None "";
    MappingEnd]); [|constructor|by left|].
  - apply (Wf_sequence 1 None "" [ScalarEvent 1 None "" "a" false]).
    apply (Wf_cons [ScalarEvent 1 None "" "a" false] []); constructor.
  - apply (Wf_entry [ScalarEvent 2 None "" "<<" false] [MappingStart 2 None ""; MappingEnd] [] []);
      [constructor| |by left|constructor]. apply (Wf_mapping 2 None "" []). constructor.
Qed.

(** C20: decoding is total: for every document libyaml can find in a file, whatever its
    anchors, aliases and tags, [yaml.Unmarshal] returns a configuration or an error unless
    the document has a scalar [<<], the merge key; a merge key beside a key that is a list
    makes it panic, which nothing recovers from.  An empty file gives the empty
    configuration. *)
Theorem decode_panics_only_on_merge :
  (∀ events data es rest problem,
     data ≠ "" → events data = (document es rest, problem) →
     wf_node es → Forall no_merge_event es → ∃ r, unmarshal_events events data = Val r)
  ∧ wf_node unhashable_merge
  ∧ (∀ rest problem data, unmarshal_events (λ _, (document unhashable_merge rest, problem)) data
       = Panics (PanicMsg "hash of unhashable type"))
  ∧ (∀ problem data, unmarshal_events (λ _, ([StreamStart; StreamEnd], problem)) data
       = Val (Ok (mkJobConfig []))).
Proof.
  split_and!.
  - intros events data es rest problem Hdata Hevents Hwf Hm. unfold yaml_Unmarshal.
    rewrite decide_False by done. rewrite Hevents.
    pose proof (wf_stream_returns problem es rest Hwf Hm) as Hr.
    destruct (parse_stream _ _ _ _) as [r p|err|x|]; [|by eexists|done|done].
    destruct Hr as [(n & -> & Hn) Hs]. apply decode_safe; by apply unroll_clean.
  - apply wf_unhashable_merge.
  - intros rest problem data. unfold yaml_Unmarshal. reflexivity.
  - intros problem data. reflexivity.
Qed.
End streams.

(** ** The events of a tree *)

(** A tree without explicit tags and aliases is written by its events. *)
Fixpoint node_events (n : node) : list yevent :=
  match n with
  | Scalar line _ quoted value => [ScalarEvent line None "" value quoted]
  | Sequence line _ content =>
      SequenceStart line None "" :: foldr (λ x es, node_events x ++ es) [] content ++ [SequenceEnd]
  | Mapping line _ content =>
      MappingStart line None ""
      :: foldr (λ e es, node_events e.1 ++ node_events e.2 ++ [] ++ es) [] content ++ [MappingEnd]
  | Alias line name _ => [AliasEvent line name]
  | Document content => node_events content
  end.

Section node_events.
Context (time_Parse : string → string → bool).

Fixpoint untagged (n : node) : Prop :=
  match n with
  | Scalar line _ quoted value => n = scalar_node time_Parse line "" value quoted
  | Sequence _ tag content => tag = seqTag ∧ foldr (λ x P, untagged x ∧ P) True content
  | Mapping _ tag content =>
      tag = mapTag ∧ foldr (λ e P, (untagged e.1 ∧ untagged e.2) ∧ P) True content
  | Alias _ _ _ | Document _ => False
  end.

Lemma emits_node_events n env : untagged n → emits time_Parse env (node_events n) n env.
Proof.
  induction n as [line tag q v|line tag content IH|line tag content IH|line name target IH|content IH]
    using node_ind; cbn [untagged node_events]; try done.
  - intros ->. apply (Emits_scalar time_Parse env line None).
  - intros [-> Hc]. eapply (Emits_sequence time_Parse env line None); [|done].
    induction IH as [|x l Hx _ IHl]; cbn in *; [constructor|]. eapply Emits_cons; naive_solver.
  - intros [-> Hc]. eapply (Emits_mapping time_Parse env line None); [|done].
    induction IH as [|[k v] l [Hk Hv] _ IHl]; cbn in *; [constructor|].
    eapply (Emits_entry _ env _ k env _ v env []); naive_solver.
Qed.
End node_events.

(** ** A sample *)

Section sample.
Abbreviation plain := (plain_scalar no_times 0).
Abbreviation quoted := (quoted_scalar 0).
Abbreviation mapping := (Mapping 0 mapTag).
Abbreviation sequence := (Sequence 0 seqTag).

Definition sample_document : node := mapping
  [(plain "processes", sequence
     [mapping
       [(plain "executable", plain "/var/vcap/packages/server/bin/server");
        (plain "name", plain "server");
        (plain "args", sequence [plain "--port"; plain "2424"; quoted ""]);
        (plain "env", mapping [(plain "DEBUG", plain "yes"); (plain "EMPTY", plain "~")]);
        (plain "limits", mapping [(plain "memory", plain "3G"); (plain "open_files", plain "1_024");
                                  (plain "processes", plain "0x10")]);
        (quoted "ephemeral_disk", plain "on");
        (plain "additional_volumes", sequence
          [mapping [(plain "path", plain "/var/vcap/data/sockets"); (plain "writable", plain "true")]]);
        (plain "comment", sequence []);
        (plain "unsafe", plain "~")];
      plain "~"])].

Definition sample_job : JobConfig := mkJobConfig
  [Some (mkProcessConfig "server" "/var/vcap/packages/server/bin/server" ["--port"; "2424"; ""]
     (Some (<["DEBUG" := "yes"]> (<["EMPTY" := ""]> ∅)))
     [mkVolume "/var/vcap/data/sockets" true false false false] [] true None
     (Some (mkLimits (Some "3G") (Some 1024%Z) (Some 16%Z) None)) false "" None "");
   None].

(** Proves [written] for a document that is given. *)
Ltac computed := apply (bool_decide_unpack _); vm_compute; exact I.
Ltac stands := apply Stands_quoted || (apply Stands_plain; computed).
Ltac null_here := eexists _, _; split; [reflexivity|computed].
Ltac not_null_here :=
  (intros (? & ? & E & _); discriminate E) || (eapply stands_for_not_null; stands).
Ltac keys :=
  split; [repeat (apply Forall_cons_2; [split; [eexists; stands|reflexivity]|]); apply Forall_nil_2|
          computed].
Ltac look_up He :=
  repeat (rewrite entry_cons in He;
    (rewrite decide_False in He by (let E := fresh in intros E; discriminate E)) || (rewrite decide_True in He by reflexivity));
  (injection He as <-) || discriminate He.
Ltac write_struct :=
  apply W_struct; [keys|intros f n Hf He; each_field; look_up He; simpl|
    intros f Hf He; each_field; reflexivity || look_up He].
Ltac write_slice :=
  apply W_slice; [reflexivity|];
  let i := fresh "i" in
  intros i v n Hv Hn; repeat (destruct i as [|i]; [injection Hv as <-; injection Hn as <-|]);
  try discriminate Hv.
Ltac write_basic :=
  eapply W_basic; [stands|]; simpl;
  reflexivity || (left; vm_compute; reflexivity) || (right; eexists; split; vm_compute; reflexivity)
  || (split; vm_compute; reflexivity || discriminate).

Lemma sample_env_written :
  written no_times TMap (Some (<["DEBUG" := "yes"]> (<["EMPTY" := ""]> ∅)))
    (mapping [(plain "DEBUG", plain "yes"); (plain "EMPTY", plain "~")]).
Proof.
  apply W_map; [keys|..].
  - constructor; [left; eexists; stands|]. constructor; [right; null_here|constructor].
  - intros k v. rewrite lookup_insert, lookup_insert, lookup_empty.
    split.
    + case_decide as H1; [intros [= <-]; subst k|case_decide as H2; [intros [= <-]; subst k|done]].
      * exists (plain "yes"). split; [reflexivity|]. left. split; [eexists; stands|reflexivity].
      * exists (plain "~"). split; [reflexivity|]. right. split; [null_here|reflexivity].
    + intros (n & He & Hn). rewrite entry_cons in He.
      case_decide as H1; [injection He as <-|rewrite entry_cons in He; case_decide as H2; [injection He as <-|done]].
      * rewrite decide_True by done. destruct Hn as [[_ ->]|[Hn _]]; [done|].
        exfalso. revert Hn. not_null_here.
      * rewrite decide_False, decide_True by done. destruct Hn as [[Hn _]|[_ ->]]; [|done].
        exfalso. apply (text_not_null _ _ Hn). null_here.
Qed.

Lemma sample_written : written no_times (TStruct SJob) sample_job sample_document.
Proof.
  unfold sample_document, sample_job.
  write_struct. write_slice; [|by apply W_null; null_here].
  apply W_pointer; [discriminate|not_null_here|]. write_struct; try write_basic.
  - write_slice; write_basic.
  - exact sample_env_written.
  - write_slice. write_struct; write_basic.
  - apply W_pointer; [discriminate|not_null_here|].
    write_struct; (apply W_pointer; [discriminate|not_null_here|write_basic]).
  - apply W_null. null_here.
Qed.

(** The text itself stands for its events. *)
Lemma job_config_decodes_witness :
  yaml_Unmarshal no_times (λ _, 0%Z) (λ _, 0%Z)
    (λ _, (document (node_events sample_document) [StreamEnd], NewError "end")) "processes: ..."
  = Val (Ok sample_job)
  ∧ JobConfig_Validate (mkJobConfig (reverse (Processes sample_job))) (NewEnv "") []
    = Panics NilDereference.
Proof.
  split; [|vm_compute; reflexivity].
  apply (job_config_decodes no_times (λ _, 0%Z) (λ _, 0%Z) _ _ (node_events sample_document)
    [StreamEnd] (NewError "end") sample_document ∅ sample_job).
  - discriminate.
  - reflexivity.
  - apply emits_node_events. vm_compute. tauto.
  - exact sample_written.
Defined.
End sample.

(** An alias inside the node it refers to: the first process, read as its own limits, has
    none; the document is accepted. *)
Example self_reference :
  yaml_Unmarshal no_times (λ _, 0%Z) (λ _, 0%Z) (λ _, (document
    [MappingStart 1 None ""; ScalarEvent 1 None "" "processes" false; SequenceStart 1 None "";
     MappingStart 1 (Some "x") ""; ScalarEvent 1 None "" "name" false; ScalarEvent 1 None "" "a" false;
     ScalarEvent 1 None "" "limits" false; AliasEvent 1 "x"; MappingEnd; SequenceEnd; MappingEnd]
    [StreamEnd], NewError "end")) "processes: [&x {name: a, limits: *x}]"
  = Val (Ok (mkJobConfig [Some (mkProcessConfig "a" "" [] None [] [] false None
      (Some (mkLimits None None None None)) false "" None "")])).
Proof. reflexivity. Qed.
