(* ===== verification/CommandLine.v ===== *)
(** * The command line of bpm (src/bpm/commands, src/bpm/cmd/bpm/main.go)

    The commands with their names, flags and hooks, as the [init] functions of
    package commands register them with cobra, and [main]: from the arguments of
    the process to its exit status.  The commands cobra adds itself (help,
    completion and __complete) are in the tree; what they print is a parameter,
    as are help texts. *)

From S2P Require Import Prelude GoStrings GoPath JobID Bosh Specs Sys Config Locks Adapter Client Containers Lifecycle Presenters Cobra Commands.
From Stdlib Require Import Ascii.

(** ** Variables set by flags *)

(** The package variables, the value of the help flag, and that of cobra's flag
    [--no-descriptions]. *)
Record Vars := mkVars { v_globals : Globals; v_help : bool; v_noDesc : bool }.

Definition on_globals (f : Globals → Globals) (v : Vars) : Vars :=
  mkVars (f (v_globals v)) (v_help v) (v_noDesc v).

Definition set_showVersion (b : bool) (g : Globals) : Globals :=
  mkGlobals (g_boshEnv g) b (g_procName g) (g_volumes g) (g_env g) (g_errLogs g) (g_allLogs g)
    (g_follow g) (g_quiet g) (g_numLines g) (g_Version g) (g_bpmCfg g) (g_locks g)
    (g_lifecycleLock g).
Definition set_procName (p : string) (g : Globals) : Globals :=
  mkGlobals (g_boshEnv g) (g_showVersion g) p (g_volumes g) (g_env g) (g_errLogs g) (g_allLogs g)
    (g_follow g) (g_quiet g) (g_numLines g) (g_Version g) (g_bpmCfg g) (g_locks g)
    (g_lifecycleLock g).
Definition set_volumes (l : list string) (g : Globals) : Globals :=
  mkGlobals (g_boshEnv g) (g_showVersion g) (g_procName g) l (g_env g) (g_errLogs g) (g_allLogs g)
    (g_follow g) (g_quiet g) (g_numLines g) (g_Version g) (g_bpmCfg g) (g_locks g)
    (g_lifecycleLock g).
Definition set_env (l : list string) (g : Globals) : Globals :=
  mkGlobals (g_boshEnv g) (g_showVersion g) (g_procName g) (g_volumes g) l (g_errLogs g)
    (g_allLogs g) (g_follow g) (g_quiet g) (g_numLines g) (g_Version g) (g_bpmCfg g) (g_locks g)
    (g_lifecycleLock g).
Definition set_log_flags (err all follow quiet : bool) (lines : Z) (g : Globals) : Globals :=
  mkGlobals (g_boshEnv g) (g_showVersion g) (g_procName g) (g_volumes g) (g_env g) err all
    follow quiet lines (g_Version g) (g_bpmCfg g) (g_locks g) (g_lifecycleLock g).

Definition set_errLogs (b : bool) (g : Globals) : Globals :=
  set_log_flags b (g_allLogs g) (g_follow g) (g_quiet g) (g_numLines g) g.
Definition set_allLogs (b : bool) (g : Globals) : Globals :=
  set_log_flags (g_errLogs g) b (g_follow g) (g_quiet g) (g_numLines g) g.
Definition set_follow (b : bool) (g : Globals) : Globals :=
  set_log_flags (g_errLogs g) (g_allLogs g) b (g_quiet g) (g_numLines g) g.
Definition set_quiet (b : bool) (g : Globals) : Globals :=
  set_log_flags (g_errLogs g) (g_allLogs g) (g_follow g) b (g_numLines g) g.
Definition set_numLines (n : Z) (g : Globals) : Globals :=
  set_log_flags (g_errLogs g) (g_allLogs g) (g_follow g) (g_quiet g) n g.

(** ** Flags *)

Definition versionFlag : Flag Vars :=
  BoolVarP (λ b, on_globals (set_showVersion b)) "version" None.
Definition processFlag : Flag Vars :=
  StringVarP (λ p, on_globals (set_procName p)) "process" (Some "p"%char).
(** Added by cobra to every command when it is executed. *)
Definition helpFlag : Flag Vars :=
  BoolVarP (λ b v, mkVars (v_globals v) b (v_noDesc v)) "help" (Some "h"%char).
Definition noDescFlag : Flag Vars :=
  BoolVarP (λ b v, mkVars (v_globals v) (v_help v) b) "no-descriptions" None.

Definition runFlags : FlagSet Vars :=
  [processFlag;
   StringArrayVarP (λ v, g_volumes (v_globals v)) (λ l, on_globals (set_volumes l))
     "volume" (Some "v"%char);
   StringArrayVarP (λ v, g_env (v_globals v)) (λ l, on_globals (set_env l))
     "env" (Some "e"%char)].

Definition logsFlags : FlagSet Vars :=
  [BoolVarP (λ b, on_globals (set_allLogs b)) "all" (Some "a"%char);
   BoolVarP (λ b, on_globals (set_errLogs b)) "err" (Some "e"%char);
   BoolVarP (λ b, on_globals (set_follow b)) "follow" (Some "f"%char);
   IntVarP (λ n, on_globals (set_numLines n)) "lines" (Some "n"%char);
   processFlag;
   BoolVarP (λ b, on_globals (set_quiet b)) "quiet" (Some "q"%char)].

(** The package variables before the flags are parsed. *)
Definition default_globals (env : Env) (linkedVersion : string) : Globals :=
  mkGlobals env false "" [] [] false false false false 25 linkedVersion None None None.

(** ** The tree of commands *)

(** The hooks of a command; [ho_run] is nil for cobra's [completion]. *)
Record Hooks_ := mkHooks_ {
  ho_persistentPre : option hook;
  ho_pre : hook;
  ho_run : bool → option hook;
  ho_post : hook
}.

Definition hooks (pre run post : hook) : Hooks_ := mkHooks_ None pre (λ _, Some run) post.

(** A command of package commands: no aliases, no persistent flags, no check of
    its arguments. *)
Definition simple_command (use : string) (flags : FlagSet Vars) (hs : Hooks_)
    : Command Vars Hooks_ :=
  mkCommand use [] flags [] None false hs [].

Definition NoArgs (path : string) (args : list string) : option error :=
  match args with
  | [] => None
  | a :: _ => Some (Errorf "unknown command %q for %q" [a; path])
  end.
Definition MinimumNArgs1 (args : list string) : option error :=
  match args with
  | [] => Some (Errorf "requires at least %d arg(s), only received %d" ["1"; "0"])
  | _ => None
  end.

Section commands.
Context `{MapRange, SortSlice, JSON}.
Context (ToBytes : string → result Z).
Context (yaml_Unmarshal : string → outcome (result JobConfig)).
Context (ErrorText : error → string).
(* what cobra's own commands do, given the flag [--no-descriptions] and their
   arguments, and the help text of a command *)
Context (cobra_builtin : string → bool → list string → prog unit).
Context (HelpText : string → string).
Context (fuel : nat).

Definition startCommand := simple_command "start <job-name>" [processFlag]
  (hooks startPre (start ToBytes yaml_Unmarshal) startPost).
Definition stopCommand := simple_command "stop <job-name>" [processFlag]
  (hooks stopPre (stop ToBytes yaml_Unmarshal fuel) stopPost).
Definition runCommand := simple_command "run <job-name>" runFlags
  (hooks runPre (run_command ToBytes yaml_Unmarshal) runPost).
Definition listCommand := simple_command "list" []
  (hooks no_hook (listContainers ToBytes yaml_Unmarshal ErrorText) no_hook).
Definition pidCommand := simple_command "pid <job-name>" [processFlag]
  (hooks pidPre (pidForJob ToBytes) no_hook).
Definition shellCommand := simple_command "shell <job-name>" [processFlag]
  (hooks shellPre (shell ToBytes) no_hook).
Definition traceCommand := simple_command "trace <job-name>" [processFlag]
  (hooks tracePre (trace_command ToBytes fuel) no_hook).
Definition logsCommand := simple_command "logs <job-name>" logsFlags
  (hooks logsPre (logsForJob fuel) no_hook).
Definition versionCommand := simple_command "version" [] (hooks no_hook version no_hook).

Definition builtin_hooks (name : string) : Hooks_ :=
  mkHooks_ None no_hook
    (λ noDesc, Some (λ g args, _ ← cobra_builtin name noDesc args; Ret (Next g))) no_hook.

Definition helpCommand := simple_command "help [command]" [] (builtin_hooks "help").
Definition completionFor (sh : string) : Command Vars Hooks_ :=
  mkCommand sh [] [noDescFlag] [] (Some (NoArgs ("bpm completion " +:+ sh))) false
    (builtin_hooks sh) [].
Definition completionCommand : Command Vars Hooks_ :=
  mkCommand "completion" [] [] [] (Some (NoArgs "bpm completion")) false
    (mkHooks_ None no_hook (λ _, None) no_hook)
    (completionFor <$> ["bash"; "zsh"; "fish"; "powershell"]).
(** Only added when it is called, which makes no difference to [Find]. *)
Definition completeCommand : Command Vars Hooks_ :=
  mkCommand "__complete [command-line]" ["__completeNoDesc"] [] [] (Some MinimumNArgs1) true
    (builtin_hooks "__complete") [].

(** The commands of the program in the order of their files, then cobra's. *)
Definition RootCmd : Command Vars Hooks_ :=
  mkCommand "bpm" [] [] [versionFlag] None false
    (mkHooks_ (Some rootPre) no_hook (λ _, Some root) no_hook)
    [listCommand; logsCommand; pidCommand; runCommand; shellCommand; startCommand; stopCommand;
     traceCommand; versionCommand; helpCommand; completeCommand; completionCommand].

(** ** Execution *)

(** The persistent hook of the nearest command that has one. *)
Definition persistent_hook (cmds : list (Command Vars Hooks_)) : hook :=
  default no_hook (head (omap (λ c, ho_persistentPre (c_hooks c)) cmds)).

(** [ParseFlags], and [c.Flags().Args()] unless flag parsing is disabled. *)
Definition parse_flags (f : found Vars Hooks_) (g : Globals) : ParseState Vars * option error :=
  if c_DisableFlagParsing (fd_cmd f) then (mkParse (mkVars g false false) [] (fd_args f), None)
  else Parse (all_flags (fd_cmd f) (fd_parents f) ++ [helpFlag]) (fd_args f)
         (mkVars g false false).

(** [Command.execute]: [None] is the error [flag.ErrHelp]. *)
Definition Command_execute (f : found Vars Hooks_) (g : Globals) : prog (option flow) :=
  match parse_flags f g with
  | (ps, Some err) =>
      if decide (err = ErrHelp) then Ret None else Ret (Some (Fails (v_globals (ps_vars ps)) err))
  | (ps, None) =>
      let vars := ps_vars ps in
      let hs := c_hooks (fd_cmd f) in
      if v_help vars then Ret None
      else match ho_run hs (v_noDesc vars) with
      | None => Ret None
      | Some runE =>
          match (validate ← c_Args (fd_cmd f); validate (ps_args ps)) with
          | Some err => Ret (Some (Fails (v_globals vars) err))
          | None =>
              fl ← execute (persistent_hook (fd_cmd f :: fd_parents f)) (ho_pre hs) runE
                     (ho_post hs) (v_globals vars) (ps_args ps);
              Ret (Some fl)
          end
      end
  end.

(** [ExecuteC]: a request for help is not an error. *)
Definition ExecuteC (args : list string) (g : Globals) : prog flow :=
  match Find RootCmd args with
  | (f, Some err) => Ret (Fails g err)
  | (f, None) =>
      r ← Command_execute f g;
      match r with
      | Some fl => Ret fl
      | None => _ ← call (Print Stdout (HelpText (Command_Name (fd_cmd f)))); Ret (Next g)
      end
  end.

(** The exit status of the process. *)
Definition main (linkedVersion : string) (args : list string) : prog Z :=
  boshRoot ← call (Getenv "BPM_BOSH_ROOT");
  f ← ExecuteC args (default_globals (NewEnv boshRoot) linkedVersion);
  match f with
  | Exits code => Ret code
  | Fails _ err =>
      _ ← call (Print Stderr ("Error: " +:+ ErrorText err +:+ newline));
      Ret (FromError (Some err))
  | Next _ => Ret 0%Z
  end.
End commands.

(** ** Writing command lines

    What a user can say on a command line of bpm, apart from asking for help. *)

(** A number and a boolean value come with the text they are written as. *)
Inductive setting :=
| SetProcess (p : string)
| AddVolume (v : string)
| AddEnv (e : string)
| SetAll (text : string) (b : bool)
| SetErr (text : string) (b : bool)
| SetFollow (text : string) (b : bool)
| SetQuiet (text : string) (b : bool)
| SetLines (text : string) (n : Z)
| SetVersion (text : string) (b : bool).

Definition volumeFlag : Flag Vars :=
  StringArrayVarP (λ v, g_volumes (v_globals v)) (λ l, on_globals (set_volumes l))
    "volume" (Some "v"%char).
Definition envFlag : Flag Vars :=
  StringArrayVarP (λ v, g_env (v_globals v)) (λ l, on_globals (set_env l)) "env" (Some "e"%char).

Definition setting_flag (s : setting) : Flag Vars :=
  match s with
  | SetProcess _ => processFlag
  | AddVolume _ => volumeFlag
  | AddEnv _ => envFlag
  | SetAll _ _ => BoolVarP (λ b, on_globals (set_allLogs b)) "all" (Some "a"%char)
  | SetErr _ _ => BoolVarP (λ b, on_globals (set_errLogs b)) "err" (Some "e"%char)
  | SetFollow _ _ => BoolVarP (λ b, on_globals (set_follow b)) "follow" (Some "f"%char)
  | SetQuiet _ _ => BoolVarP (λ b, on_globals (set_quiet b)) "quiet" (Some "q"%char)
  | SetLines _ _ => IntVarP (λ n, on_globals (set_numLines n)) "lines" (Some "n"%char)
  | SetVersion _ _ => versionFlag
  end.

Definition setting_value (s : setting) : string :=
  match s with
  | SetProcess p => p | AddVolume v => v | AddEnv e => e | SetLines text _ => text
  | SetAll text _ | SetErr text _ | SetFollow text _ | SetQuiet text _ | SetVersion text _ => text
  end.

(** What the user means by it. *)
Definition setting_effect (s : setting) (g : Globals) : Globals :=
  match s with
  | SetProcess p => set_procName p g
  | AddVolume v => set_volumes (g_volumes g ++ [v]) g
  | AddEnv e => set_env (g_env g ++ [e]) g
  | SetAll _ b => set_allLogs b g
  | SetErr _ b => set_errLogs b g
  | SetFollow _ b => set_follow b g
  | SetQuiet _ b => set_quiet b g
  | SetLines _ n => set_numLines n g
  | SetVersion _ b => set_showVersion b g
  end.

(** The settings the documentation of a command lists. *)
Definition accepts (c : command) (s : setting) : Prop :=
  match c, s with
  | _, SetVersion text b => ParseBool text = Some b
  | (CmdStart | CmdStop | CmdPid | CmdShell | CmdTrace | CmdRun | CmdLogs), SetProcess _ => True
  | CmdRun, (AddVolume _ | AddEnv _) => True
  | CmdLogs, (SetAll text b | SetErr text b | SetFollow text b | SetQuiet text b) =>
      ParseBool text = Some b
  | CmdLogs, SetLines text n => ParseInt0 text = Some n
  | _, _ => False
  end.

(** An argument, a setting, or settings whose letters are grouped in front of another. *)
Inductive word :=
| Positional_ (s : string)
| Option_ (s : setting) (st : flag_style)
| Group_ (pre : list setting) (s : setting) (st : flag_style).

Definition word_item (w : word) : item Vars :=
  match w with
  | Positional_ s => Arg s
  | Option_ s st => Give (setting_flag s) st (setting_value s)
  | Group_ pre s st => Grouped (setting_flag <$> pre) (setting_flag s) st (setting_value s)
  end.

(** A setting the command accepts, in one of the ways its flag can be written: a flag
    with a letter can be written short, one of a boolean without its value if that is
    [true], and the value of another one can be the next argument or attached to the
    letter. *)
Definition option_ok (c : command) (s : setting) (st : flag_style) : Prop :=
  accepts c s ∧
  (is_short st = true → is_Some (fg_shorthand (setting_flag s))) ∧
  match st with
  | ShortAlone | LongAlone =>
      fg_NoOptDefVal (setting_flag s) ≠ "" ∧ setting_value s = fg_NoOptDefVal (setting_flag s)
  | ShortSeparate | LongSeparate => fg_NoOptDefVal (setting_flag s) = ""
  | ShortAttached => fg_NoOptDefVal (setting_flag s) = "" ∧
      match setting_value s with EmptyString | String "=" _ => False | _ => True end
  | ShortEquals => setting_value s ≠ ""
  | LongEquals => True
  end.

(** An argument that does not look like a flag; a setting; settings in one word, all but
    the last without a value. *)
Definition word_ok (c : command) (w : word) : Prop :=
  match w with
  | Positional_ s => match s with String "-" (String _ _) => False | _ => True end
  | Option_ s st => option_ok c s st
  | Group_ pre s st =>
      Forall (λ s, option_ok c s ShortAlone) pre ∧ is_short st = true ∧ option_ok c s st
  end.

Definition arguments (ws : list word) : list string :=
  omap (λ w, match w with Positional_ s => Some s | _ => None end) ws.
Definition word_settings (w : word) : list setting :=
  match w with Positional_ _ => [] | Option_ s _ => [s] | Group_ pre s _ => pre ++ [s] end.
Definition settings (ws : list word) : list setting := ws ≫= word_settings.

Definition command_name (c : command) : string :=
  match c with
  | CmdRoot => "bpm" | CmdStart => "start" | CmdStop => "stop" | CmdRun => "run"
  | CmdList => "list" | CmdPid => "pid" | CmdShell => "shell" | CmdTrace => "trace"
  | CmdLogs => "logs" | CmdVersion => "version"
  end.

Definition command_line (c : command) (ws : list word) : list string :=
  command_name c :: concat (render ∘ word_item <$> ws).

Definition command_flags (c : command) : FlagSet Vars :=
  match c with
  | CmdStart | CmdStop | CmdPid | CmdShell | CmdTrace => [processFlag]
  | CmdRun => runFlags
  | CmdLogs => logsFlags
  | _ => []
  end ++ [versionFlag; helpFlag].

(** After the words nothing, or the terminator [--] and arguments of any form. *)
Definition ending (final : option (list string)) : list string :=
  match final with Some rest => "--" :: rest | None => [] end.

Lemma option_flag_ok c s st :
  option_ok c s st → flag_ok (command_flags c) (setting_flag s) st (setting_value s).
Proof.
  intros (Ha & Hshort & Hst). split_and!; [by destruct c, s; try done; repeat split|done|].
  destruct st; try done; by destruct Hst.
Qed.

Lemma word_item_ok c w : word_ok c w → item_ok (command_flags c) (word_item w).
Proof.
  destruct w as [s|s st|pre s st]; [done|apply option_flag_ok|].
  intros (Hpre & Hst & Hok). split_and!; [|done|by apply option_flag_ok].
  apply Forall_fmap. eapply Forall_impl; [done|]. intros s' Hs'.
  by apply option_flag_ok in Hs' as (? & ? & ?).
Qed.

(** Setting a flag has its effect; lists start empty. *)
Definition vars_inv (ps : ParseState Vars) (g : Globals) : Prop :=
  ps_vars ps = mkVars g false false
  ∧ (slices_Contains (ps_changed ps) "volume" = false → g_volumes g = [])
  ∧ (slices_Contains (ps_changed ps) "env" = false → g_env g = []).

Lemma apply_setting c s ps g :
  accepts c s → vars_inv ps g →
  ∃ ps', set_flag (setting_flag s) (setting_value s) ps = (ps', None)
    ∧ vars_inv ps' (setting_effect s g) ∧ ps_args ps' = ps_args ps.
Proof.
  intros Ha (Hv & Hvol & Henv). destruct ps as [vars changed args]. simpl in *. subst vars.
  unfold set_flag, vars_inv.
  destruct s as [p|v|e|text b|text b|text b|text b|text n|text b]; simpl;
    try (assert (ParseBool text = Some b) as -> by (by destruct c));
    try (eexists; split; [reflexivity|]; simpl; by repeat split).
  - destruct (slices_Contains changed "volume") eqn:E;
      (eexists; split; [reflexivity|]); simpl; repeat split; try done; try by (rewrite E || auto).
    rewrite (Hvol eq_refl). done.
  - destruct (slices_Contains changed "env") eqn:E;
      (eexists; split; [reflexivity|]); simpl; repeat split; try done.
    rewrite (Henv eq_refl). done.
  - assert (ParseInt0 text = Some n) as Hn by (by destruct c). rewrite Hn.
    eexists; split; [reflexivity|]; simpl; by repeat split.
Qed.

Lemma apply_option c s st ps g :
  option_ok c s st → vars_inv ps g →
  ∃ ps', apply_flag (setting_flag s) st (setting_value s) ps = (ps', None)
    ∧ vars_inv ps' (setting_effect s g) ∧ ps_args ps' = ps_args ps.
Proof.
  intros (Ha & _ & Hst) Hinv. destruct (apply_setting c s ps g Ha Hinv) as (ps' & Hs & Hi & Harg).
  exists ps'. split; [|done]. destruct st; cbn [apply_flag]; try exact Hs; destruct Hst as [_ <-]; exact Hs.
Qed.

Lemma apply_group_settings c pre ps g :
  Forall (λ s, option_ok c s ShortAlone) pre → vars_inv ps g →
  ∃ ps', apply_group (setting_flag <$> pre) ps = (ps', None)
    ∧ vars_inv ps' (foldl (λ g s, setting_effect s g) g pre) ∧ ps_args ps' = ps_args ps.
Proof.
  intros Hpre. revert ps g. induction Hpre as [|s pre Hs Hpre IH]; intros ps g Hinv; [by exists ps|].
  destruct (apply_option c s ShortAlone ps g Hs Hinv) as (ps1 & H1 & Hi1 & Ha1).
  destruct (IH _ _ Hi1) as (ps2 & H2 & Hi2 & Ha2). exists ps2.
  rewrite fmap_cons. cbn [apply_group]. cbn [apply_flag] in H1. rewrite H1.
  split; [done|]. split; [done|]. by rewrite Ha2.
Qed.

Lemma apply_word c w ps g :
  word_ok c w → vars_inv ps g →
  ∃ ps', apply_item (word_item w) ps = (ps', None)
    ∧ vars_inv ps' (foldl (λ g s, setting_effect s g) g (word_settings w))
    ∧ ps_args ps' = ps_args ps ++ arguments [w].
Proof.
  destruct w as [s|s st|pre s st]; intros Hok Hinv; [by eexists|..];
    cbn [arguments omap list_omap]; rewrite (right_id_L [] (++)).
  - by apply (apply_option c).
  - destruct Hok as (Hpre & _ & Hok).
    destruct (apply_group_settings c pre ps g Hpre Hinv) as (ps1 & H1 & Hi1 & Ha1).
    destruct (apply_option c s st ps1 _ Hok Hi1) as (ps2 & H2 & Hi2 & Ha2). exists ps2.
    cbn [word_item apply_item word_settings]. rewrite H1, foldl_app. split; [done|].
    split; [done|]. by rewrite Ha2.
Qed.

Lemma apply_words c ws ps g :
  Forall (word_ok c) ws → vars_inv ps g →
  ∃ ps', apply_items (word_item <$> ws) ps = (ps', None)
    ∧ vars_inv ps' (foldl (λ g s, setting_effect s g) g (settings ws))
    ∧ ps_args ps' = ps_args ps ++ arguments ws.
Proof.
  intros Hok. revert ps g. induction Hok as [|w ws Hw Hok IH]; intros ps g Hinv.
  { exists ps. split; [done|]. split; [done|]. simpl; by rewrite (right_id_L [] (++)). }
  destruct (apply_word c w ps g Hw Hinv) as (ps1 & H1 & Hi1 & Ha1).
  destruct (IH _ _ Hi1) as (ps2 & H2 & Hi2 & Ha2). exists ps2.
  rewrite fmap_cons. cbn [apply_items]. rewrite H1. split; [done|]. split.
  - unfold settings. cbn [mbind list_bind]. rewrite foldl_app. exact Hi2.
  - rewrite Ha2, Ha1, <- (assoc_L (++)). by destruct w.
Qed.

Lemma Parse_words c ws args env v :
  Forall (word_ok c) ws →
  ∃ ps n, vars_inv ps (foldl (λ g s, setting_effect s g) (default_globals env v) (settings ws))
    ∧ ps_args ps = arguments ws
    ∧ Parse (command_flags c) (concat (render ∘ word_item <$> ws) ++ args)
        (mkVars (default_globals env v) false false)
      = parse_args_loop (n + length args) (command_flags c) args ps.
Proof.
  intros Hws. rewrite list_fmap_compose.
  destruct (apply_words c ws (mkParse (mkVars (default_globals env v) false false) [] [])
    (default_globals env v) Hws) as (ps & Hps & Hv & Ha); [by repeat split|].
  pose proof (length_render (word_item <$> ws)) as Hlen.
  exists ps, (length (concat (render <$> (word_item <$> ws))) - length (word_item <$> ws)).
  split; [done|]. split; [done|]. rewrite Parse_render, Hps.
  2:{ apply Forall_fmap. eapply Forall_impl; [done|]. intros w. apply word_item_ok. }
  unfold then_parse. f_equal. rewrite length_app. lia.
Qed.

Lemma parse_ending n fs final (ps : ParseState Vars) :
  parse_args_loop (n + length (ending final)) fs (ending final) ps
  = (add_args (default [] final) ps, None).
Proof.
  destruct final as [rest|]; cbn [ending default from_option id].
  - by rewrite Nat.add_comm.
  - destruct ps as [vars changed args]. unfold add_args. cbn. rewrite (right_id_L [] (++)).
    by destruct n.
Qed.

Section roundtrip.
Context `{MapRange, SortSlice, JSON}.
Context (ToBytes : string → result Z).
Context (yaml_Unmarshal : string → outcome (result JobConfig)).
Context (ErrorText : error → string) (cobra_builtin : string → bool → list string → prog unit).
Context (HelpText : string → string) (fuel : nat).
Abbreviation tree := (RootCmd ToBytes yaml_Unmarshal ErrorText
  cobra_builtin fuel).
Abbreviation exec := (ExecuteC ToBytes yaml_Unmarshal ErrorText
  cobra_builtin HelpText fuel).
Abbreviation hooks_of := (RootCmd_Execute ToBytes yaml_Unmarshal ErrorText
  fuel).

Definition command_node (c : command) : Command Vars Hooks_ :=
  match c with
  | CmdRoot => tree
  | CmdStart => startCommand ToBytes yaml_Unmarshal
  | CmdStop => stopCommand ToBytes yaml_Unmarshal fuel
  | CmdRun => runCommand ToBytes yaml_Unmarshal
  | CmdList => listCommand ToBytes yaml_Unmarshal ErrorText
  | CmdPid => pidCommand ToBytes
  | CmdShell => shellCommand ToBytes
  | CmdTrace => traceCommand ToBytes fuel
  | CmdLogs => logsCommand fuel
  | CmdVersion => versionCommand
  end.

(** A leaf command is found whatever follows its name. *)
Lemma innerfind_leaf n (c : Command Vars Hooks_) parents args :
  c_commands c = [] → innerfind n c parents args = mkFound c parents args.
Proof.
  intros Hc. destruct n; [done|]. simpl. destruct (stripFlags _ args); [done|].
  unfold findNext. by rewrite Hc.
Qed.

Lemma Find_command c args :
  c ≠ CmdRoot → Find tree (command_name c :: args) = (mkFound (command_node c) [tree] args, None).
Proof.
  intros Hc. unfold Find.
  assert (innerfind (S (length (command_name c :: args))) tree [] (command_name c :: args)
    = mkFound (command_node c) [tree] args) as ->
    by (by destruct c; [done|..]; (etrans; [|by apply (innerfind_leaf (S (length args)))])).
  by destruct c.
Qed.

(** C16: command lines mean what they say: for every command of bpm and every list of
    arguments and options it accepts after its name, in any order, the options written as
    -p x, -px, -p=x, --process x or --process=x, the boolean ones as -f, --follow, -f=b or
    --follow=b with any text b for true or false that strconv knows, letters of boolean
    options grouped in front of another one (-afn 10), and the line ended by nothing or by
    -- and arguments of any form: executing it runs exactly the hooks of that command, on
    the package variables with the options applied from left to right and with the
    other arguments in order.  Not covered are options before the name of the command and
    the help option. *)
Theorem command_line_roundtrip c ws final env v tr f
  (Hc : c ≠ CmdRoot) (Hws : Forall (word_ok c) ws) :
  exec_trace (exec (command_line c ws ++ ending final) (default_globals env v)) tr f ↔
  exec_trace (hooks_of c (foldl (λ g s, setting_effect s g) (default_globals env v) (settings ws))
    (arguments ws ++ default [] final)) tr f.
Proof.
  unfold ExecuteC, command_line. rewrite <- app_comm_cons, Find_command by done.
  unfold Command_execute, parse_flags. cbn [fd_cmd fd_parents fd_args].
  assert (c_DisableFlagParsing (command_node c) = false
    ∧ all_flags (command_node c) [tree] ++ [helpFlag] = command_flags c
    ∧ c_Args (command_node c) = None) as (-> & -> & ->) by by destruct c.
  destruct (Parse_words c ws (ending final) env v Hws) as (ps & n & (Hv & _) & Ha & Hp).
  rewrite Hp, parse_ending. cbn [ps_vars ps_args add_args].
  rewrite Hv, Ha. cbn [v_help v_noDesc v_globals].
  set (g := foldl _ _ _). clearbody g. set (args := arguments ws ++ _). clearbody args.
  assert (∃ runE, ho_run (c_hooks (command_node c)) false = Some runE ∧
    ∀ tr f, exec_trace (execute (persistent_hook [command_node c; tree])
      (ho_pre (c_hooks (command_node c))) runE (ho_post (c_hooks (command_node c)))
      g args) tr f ↔ exec_trace (hooks_of c g args) tr f) as (runE & -> & Hr)
    by (destruct c; [done|by eexists..]).
  etrans; [apply prog_bind_assoc_trace|]. etrans; [apply exec_trace_bind_Ret|]. apply Hr.
Qed.

(** Unknown flags are refused: a command line that is well-formed up to a long
    flag the command does not have makes bpm print that error and exit with status
    1; it runs no hook and does nothing else, whatever follows the flag. *)
Lemma unknown_flag_refused c ws ver tr f n0 name rest
  (Hc : c ≠ CmdRoot) (Hws : Forall (word_ok c) ws)
  (Hname : n0 ≠ "-"%char ∧ no_byte "=" (String n0 name) = true)
  (Hunknown : lookup_flag (command_flags c) (String n0 name) = None)
  (Htr : exec_trace (main ToBytes yaml_Unmarshal ErrorText cobra_builtin
    HelpText fuel ver (command_line c ws ++ ("--" +:+ String n0 name) :: rest)) tr f) :
  f = FVal 1%Z ∧ ∃ boshRoot werr, tr = [Ev (Getenv "BPM_BOSH_ROOT") boshRoot;
    Ev (Print Stderr ("Error: " +:+ ErrorText (Errorf "unknown flag: --%s" [String n0 name])
                      +:+ newline)) werr].
Proof.
  apply exec_trace_Call in Htr as (boshRoot & t1 & -> & Htr).
  unfold ExecuteC, command_line in Htr. rewrite <- app_comm_cons, Find_command in Htr by done.
  unfold Command_execute, parse_flags in Htr. cbn [fd_cmd fd_parents fd_args] in Htr.
  assert (c_DisableFlagParsing (command_node c) = false
    ∧ all_flags (command_node c) [tree] ++ [helpFlag] = command_flags c) as [Hd Hall] by by destruct c.
  rewrite Hd, Hall in Htr.
  destruct (Parse_words c ws (("--" +:+ String n0 name) :: rest) (NewEnv boshRoot) ver Hws)
    as (ps & n & _ & _ & Hp).
  rewrite Hp, Nat.add_comm in Htr. cbn [length Nat.add] in Htr. rewrite parse_long in Htr.
  assert (parseLongArg (command_flags c) (String n0 name) rest ps
    = (rest, ps, Some (Errorf "unknown flag: --%s" [String n0 name]))) as Hlong.
  { destruct Hname as [Hn0 Hno]. unfold parseLongArg. rewrite Cut_no_sep, Hunknown by done.
    assert (String.eqb (String n0 name) "help" = false) as ->.
    { apply String.eqb_neq. intros [= -> ->]. by destruct c. }
    simpl in Hno. destruct n0 as [[] [] [] [] [] [] [] []]; done. }
  rewrite Hlong in Htr. cbn in Htr.
  apply exec_trace_Call in Htr as (werr & t2 & -> & Htr). destruct Htr as [-> ->]. eauto.
Qed.
End roundtrip.

(** A sample: an unusual but correct way to follow the logs of a process. *)
Definition sample_words : list word :=
  [Group_ [SetAll "true" true; SetFollow "true" true] (SetLines "0x10" 16) ShortSeparate;
   Positional_ "server"; Option_ (SetProcess "worker") ShortAttached;
   Option_ (SetFollow "F" false) LongEquals].

Lemma sample_words_ok : Forall (word_ok CmdLogs) sample_words.
Proof. by repeat (constructor; try done). Qed.

Definition sample_line : list string :=
  ["logs"; "-afn"; "0x10"; "server"; "-pworker"; "--follow=F"; "--"; "-q"].

Definition no_bytes : string → result Z := λ _, Err (NewError "no size").
Definition no_yaml : string → outcome (result JobConfig) :=
  λ _, Val (Err (NewError "no configuration")).

Definition sample_exec (args : list string) : prog flow :=
  @ExecuteC map_range_list sort_slice_merge go_JSON no_bytes no_yaml (λ _, "")
    (λ _ _ _, Ret tt) id 1 args (default_globals (NewEnv "") "").

Definition sample_vars : Globals :=
  foldl (λ g s, setting_effect s g) (default_globals (NewEnv "") "") (settings sample_words).

Lemma command_line_roundtrip_witness : ∃ tr f,
  exec_trace (sample_exec sample_line) tr f
  ∧ exec_trace (@RootCmd_Execute map_range_list sort_slice_merge go_JSON no_bytes no_yaml
      (λ _, "") 1 CmdLogs sample_vars ["server"; "-q"]) tr f
  ∧ sample_line = command_line CmdLogs sample_words ++ ending (Some ["-q"])
  ∧ (g_procName sample_vars = "worker" ∧ g_numLines sample_vars = 16%Z)
  ∧ g_allLogs sample_vars = true ∧ g_follow sample_vars = false ∧ g_quiet sample_vars = false.
Proof.
  destruct (run_exec_trace idle_handler (sample_exec sample_line) tt) as [tr Htr].
  pose proof (@command_line_roundtrip map_range_list sort_slice_merge go_JSON no_bytes no_yaml
    (λ _, "") (λ _ _ _, Ret tt) id 1 CmdLogs sample_words (Some ["-q"]) (NewEnv "") "" tr
    (run idle_handler (sample_exec sample_line) tt).1
    ltac:(discriminate) sample_words_ok) as Hiff.
  exists tr. eexists. split; [exact Htr|]. split; [exact (proj1 Hiff Htr)|].
  split_and!; reflexivity.
Defined.

Lemma unknown_flag_refused_witness : ∃ tr f, length tr = 2 ∧ f = FVal 1%Z ∧
  exec_trace (@main map_range_list sort_slice_merge go_JSON no_bytes no_yaml (λ _, "")
    (λ _ _ _, Ret tt) id 1 "1.0" ["stop"; "server"; "--force"; "--process"]) tr f.
Proof.
  set (p := @main map_range_list sort_slice_merge go_JSON no_bytes no_yaml (λ _, "")
    (λ _ _ _, Ret tt) id 1 "1.0" ["stop"; "server"; "--force"; "--process"]).
  destruct (run_exec_trace idle_handler p tt) as [tr Htr].
  destruct (@unknown_flag_refused map_range_list sort_slice_merge go_JSON no_bytes no_yaml
    (λ _, "") (λ _ _ _, Ret tt) id 1 CmdStop [Positional_ "server"] "1.0" tr
    (run idle_handler p tt).1 "f" "orce" ["--process"]) as [Hf (root & werr & Heq)].
  - discriminate.
  - repeat constructor.
  - split; [discriminate|reflexivity].
  - reflexivity.
  - exact Htr.
  - exists tr. eexists. split; [|split; [exact Hf|exact Htr]]. rewrite Heq. reflexivity.
Defined.
