(* ===== verification/Program.v ===== *)
(** * The assembled program

    The lifecycle that [newRuncLifecycle] assembles from packages client,
    adapter, usertools and hostlock fulfils the contracts package lifecycle is
    verified against, on every host where runc behaves as documented
    ([RuncHost]); and, from there, what the commands do to the containers of the
    host. *)

From S2P Require Import Prelude GoStrings GoPath JobID Bosh Specs Sys Config SpecBuilder SafeIO Locks Host Cgroups Adapter Client Containers Lifecycle Presenters Commands.

(** ** The adapter makes ordinary calls only *)

Section ordinary.
Context (c : RuncClient) `{MapRange, SortSlice} (ToBytes : string → result Z).
Context (features : Features) (locks : Handle).
Abbreviation ordinary := (all_calls (ordinary_call c)).
Abbreviation a := (newAdapter features locks).

Lemma Lookup_ordinary name : ordinary (Lookup name).
Proof. unfold Lookup. all_calls_tac. Qed.

Lemma makeShared_ordinary v : ordinary (makeShared a v).
Proof.
  unfold makeShared. apply all_calls_bind.
  { cbn [newAdapter a_locker]. unfold LockVolume, lock_file, Flock_New, Flock_Lock. all_calls_tac. }
  intros [held|e]; [|done]. apply all_calls_defer.
  - cbn [newAdapter a_shareMount]. unfold MakeShared. all_calls_tac.
  - unfold Flock_Unlock. all_calls_tac.
Qed.

Lemma createDirs_ordinary dirs user : ordinary (createDirs dirs user).
Proof.
  induction dirs as [|d dirs IH]; cbn [createDirs]; [done|]. unfold createDirFor.
  all_calls_tac. exact IH.
Qed.

Lemma chownPaths_ordinary paths user : ordinary (chownPaths paths user).
Proof.
  induction paths as [|p paths IH]; cbn [chownPaths]; [done|]. all_calls_tac. exact IH.
Qed.

Lemma close_all_ordinary fds : ordinary (close_all fds).
Proof.
  induction fds as [|fd fds IH]; cbn [close_all]; [done|]. all_calls_tac. exact IH.
Qed.

Lemma OpenAppendChown_ordinary path uid gid perm : ordinary (OpenAppendChown path uid gid perm).
Proof. unfold OpenAppendChown. all_calls_tac. Qed.

Lemma createLogFiles_ordinary cfg user : ordinary (createLogFiles cfg user).
Proof.
  unfold createLogFiles. apply all_calls_bind; [|intros; all_calls_tac].
  generalize (@nil nat) as files.
  generalize [External (Config_Stdout cfg); External (Config_Stderr cfg)] as paths.
  induction paths as [|p paths IH]; intros files; cbn [open_log_files]; [done|].
  apply all_calls_bind; [apply OpenAppendChown_ordinary|]. intros [fd|e]; [apply IH|].
  apply all_calls_bind; [apply close_all_ordinary|]. done.
Qed.

Lemma prepare_volumes_ordinary vols dirs chowns : ordinary (prepare_volumes a vols dirs chowns).
Proof.
  revert dirs chowns. induction vols as [|v vols IH]; intros dirs chowns;
    cbn [prepare_volumes]; [done|].
  apply all_calls_bind; [destruct (v_shared v); [apply makeShared_ordinary|done]|].
  intros [e|]; [done|]. destruct (v_mountOnly v); [apply IH|].
  apply all_calls_bind; [by apply all_calls_call|].
  intros [fi|e]; [|destruct (os_IsNotExist e); [apply IH|done]].
  apply all_calls_bind; [destruct (_ && _); [by apply all_calls_call|done]|].
  intros [e|]; [done|apply IH].
Qed.

Lemma checkDirExists_ordinary dir : ordinary (checkDirExists dir).
Proof. unfold checkDirExists. all_calls_tac. Qed.

Lemma CreateJobPrerequisites_ordinary cfg procCfg user :
  ordinary (CreateJobPrerequisites a cfg procCfg user).
Proof.
  unfold CreateJobPrerequisites. apply all_calls_bind; [by apply all_calls_call|].
  intros [e|]; [done|]. apply all_calls_bind; [apply prepare_volumes_ordinary|].
  intros [[dirs chowns]|e]; [|done]. apply all_calls_bind.
  { destruct (pc_persistentDisk procCfg); [|done].
    apply all_calls_bind; [apply checkDirExists_ordinary|]. intros [[|]|e]; done. }
  intros [ds|e]; [|done]. apply all_calls_bind; [apply createDirs_ordinary|].
  intros [e|]; [done|]. apply all_calls_bind; [apply chownPaths_ordinary|].
  intros [e|]; [done|]. apply createLogFiles_ordinary.
Qed.

Lemma cgroupsPath_ordinary id : ordinary (cgroupsPathForContainer id).
Proof. unfold cgroupsPathForContainer, SelfCgroupPath, isRunningSystemd. all_calls_tac. Qed.

Lemma glob_expand_ordinary vols acc : ordinary (glob_expand a vols acc).
Proof.
  revert acc. induction vols as [|v vols IH]; intros acc; cbn [glob_expand]; [done|].
  apply all_calls_bind; [done|]. intros [ms|e]; [apply IH|done].
Qed.

Lemma BuildSpec_ordinary cfg procCfg user : ordinary (BuildSpec ToBytes a cfg procCfg user).
Proof.
  unfold BuildSpec. apply all_calls_bind; [apply checkDirExists_ordinary|].
  intros [b1|e]; [|done]. apply all_calls_bind; [apply checkDirExists_ordinary|].
  intros [b2|e]; [|done]. apply all_calls_bind.
  { unfold add_unrestricted. destruct (pc_unsafe procCfg) as [u|]; [|done].
    destruct (0 <? _); [|done]. apply all_calls_bind; [apply glob_expand_ordinary|].
    intros [vs|e]; done. }
  intros [ms|e]; [|done]. apply all_calls_bind; [done|]. intros [spec|e]; [|done].
  unfold add_cgroups_path. cbn [newAdapter a_cgroupsPathFor].
  apply all_calls_bind; [apply cgroupsPath_ordinary|]. intros [p|e]; done.
Qed.
End ordinary.

(** ** bpm's directories are apart from runc's state *)

Lemma prefix_apart {A} (rs l1 l2 : list A) i x y :
  l1 !! i = Some x → l2 !! i = Some y → x ≠ y →
  ∀ rest, rs ++ l1 ≠ (rs ++ l2) ++ rest ∧ rs ++ l2 ≠ (rs ++ l1) ++ rest.
Proof.
  intros H1 H2 Hne rest. split; intros Heq; rewrite <- (assoc_L (++)) in Heq;
    apply (inj (rs ++.)) in Heq; apply (f_equal (.!! i)) in Heq;
    erewrite lookup_app_l_Some in Heq by done; naive_solver.
Qed.

Lemma abs_path_apart rs l1 l2 i x y :
  Forall normal_elem (rs ++ l1) → Forall normal_elem (rs ++ l2) →
  l1 !! i = Some x → l2 !! i = Some y → x ≠ y →
  path_apart (abs_path (rs ++ l1)) (abs_path (rs ++ l2)).
Proof.
  intros Hn1 Hn2 H1 H2 Hne rest.
  rewrite !Split_abs_path; [|by destruct rs, l1, l2..].
  destruct (prefix_apart rs l1 l2 i x y H1 H2 Hne rest) as [Ha Hb].
  split; intros [= Heq]; auto.
Qed.

(** A configuration whose names are ordinary path elements. *)
Definition names_wf (cfg : BPMConfig) (rs : list string) : Prop :=
  env_wf (boshEnv cfg) rs ∧ normal_elem (jobName cfg) ∧ normal_elem (procName cfg).

Lemma names_config_wf cfg rs : names_wf cfg rs → config_wf cfg rs.
Proof. intros (He & Hj & Hp). split_and!; [done..|apply Hp]. Qed.

Lemma RuncRoot_path env rs :
  env_wf env rs → RuncRoot env = abs_path (rs ++ ["sys"; "run"; "bpm-runc"]).
Proof.
  intros He. apply External_wf. apply (Path_Join_wf _ rs []); [by apply Env_Root_wf|].
  normal_elems.
Qed.

Lemma BundlePath_path cfg rs :
  names_wf cfg rs →
  BundlePath cfg = abs_path (rs ++ ["data"; "bpm"; "bundles"; jobName cfg; procName cfg]).
Proof.
  intros (He & Hj & Hp). unfold BundlePath, BundlesRoot.
  rewrite (External_wf _ rs ["data"; "bpm"; "bundles"]).
  2:{ apply (Path_Join_wf _ rs []); [by apply Env_Root_wf|]. normal_elems. }
  change (path_Join [abs_path (rs ++ ["data"; "bpm"; "bundles"]); jobName cfg; procName cfg])
    with (path_Join [abs_path (rs ++ ["data"; "bpm"; "bundles"]);
                     Join "/" [jobName cfg; procName cfg]]).
  destruct He as [Hr _]. rewrite path_Join_abs_rel; [|normal_elems..].
  by rewrite <- (assoc_L (++)).
Qed.

Lemma bundle_apart cfg rs :
  names_wf cfg rs → path_apart (BundlePath cfg) (RuncRoot (boshEnv cfg)).
Proof.
  intros Hwf. pose proof Hwf as ([Hr _] & Hj & Hp).
  rewrite (BundlePath_path cfg rs Hwf), (RuncRoot_path _ rs) by apply Hwf.
  eapply (abs_path_apart _ _ _ 0); [normal_elems..|done|done|done].
Qed.

Lemma pidfile_apart cfg rs :
  names_wf cfg rs → path_apart (External (PidFile cfg)) (RuncRoot (boshEnv cfg)).
Proof.
  intros Hwf. pose proof Hwf as ([Hr _] & Hj & Hp).
  assert (normal_elem (procName cfg +:+ ".pid")) as Hn.
  { apply (proc_file_normal cfg rs); [by apply names_config_wf|done|simpl; lia]. }
  rewrite (PidFile_path cfg rs) by by apply names_config_wf.
  rewrite (RuncRoot_path _ rs) by apply Hwf.
  eapply (abs_path_apart _ _ _ 2); [normal_elems..|done|done|done].
Qed.

(** ** The contracts, for the assembled lifecycle *)

Section contracts.
Context {W : Type} (h : handler W) (c : RuncClient) `{JSON} `{!RuncHost h c}.
Context `{MapRange, SortSlice} (ToBytes : string → result Z).
Context (features : Features) (locks : Handle).
Abbreviation j := (new_lifecycle ToBytes c features locks).

Lemma ordinary_quiet {A} (p : prog A) : all_calls (ordinary_call c) p →
  @quiet W h (runc_client c) _ A p.
Proof.
  intros Hp w r w' Hr. pose proof (ordinary_run h c p w Hp) as He. by rewrite Hr in He.
Qed.

(** The hook of a process does not run runc. *)
Definition hook_ordinary (procCfg : ProcessConfig) : Prop :=
  ∀ hooks, pc_hooks procCfg = Some hooks → PreStart hooks ≠ runcPath c.

Lemma assembled_QuietSetup cfg procCfg :
  hook_ordinary procCfg →
  QuietSetup (ContainerService0 := runc_client_service h c) h j cfg procCfg.
Proof.
  intros Hhook. split.
  - apply ordinary_quiet, Lookup_ordinary.
  - intros user. apply ordinary_quiet, CreateJobPrerequisites_ordinary.
  - intros user. apply ordinary_quiet, BuildSpec_ordinary.
  - intros hooks env out err Hh. apply ordinary_quiet.
    apply all_calls_bind; [|done]. apply all_calls_call. simpl. by apply Hhook.
Qed.

Lemma assembled_QuietRemoval cfg rs :
  names_wf cfg rs → runcRoot c = RuncRoot (boshEnv cfg) →
  QuietRemoval (ContainerService0 := runc_client_service h c) h j cfg.
Proof.
  intros Hwf Hroot. split.
  - apply ordinary_quiet, all_calls_call. simpl. rewrite Hroot. by eapply bundle_apart.
  - apply ordinary_quiet, all_calls_call. simpl. rewrite Hroot. by eapply pidfile_apart.
Qed.
End contracts.

(** ** The commands against the contracts *)

Section commands.
Context {W : Type} (h : handler W) (j : RuncLifecycle).
Context `{HS : !ContainerService h (j_runcClient j)}.
Context (env : Env) (cfg : BPMConfig) (procCfg : ProcessConfig).
Context `{!QuietSetup h j cfg procCfg, !QuietRemoval h j cfg}.
Context (Hstate : ∀ w, evolves_except (ContainerID cfg) (view h w)
  (view h (h _ (RemoveAll (path_Join [RuncRoot env; ContainerID cfg; "state.json"])) w).2)).
Abbreviation id := (ContainerID cfg).
Abbreviation except := (evolves_except (ContainerID cfg)).

Lemma forceCleanup_run w r w' :
  run h (forceCleanupBrokenRuncState env cfg j) w = (r, w') → except (view h w) (view h w').
Proof.
  unfold forceCleanupBrokenRuncState, check_err. intros (f & w1 & H1 & H2)%run_bind_inv.
  simpl in H1. pose proof (Hstate w) as He.
  destruct (h _ (RemoveAll _) w) as [e w2]. injection H1 as <- <-. simpl in He.
  destruct e as [e|]; [by injection H2 as <- <-|].
  apply run_bind_inv in H2 as (f & w3 & H2 & H3).
  apply (RemoveProcess_run h j cfg) in H2 as [He2 _].
  transitivity (view h w2); [done|].
  destruct f as [[e|]|x|]; [by injection H3 as <- <-|by injection H3 as <- <-|by destruct H3 as [_ ->]..].
Qed.

Lemma toString_running st : containerStateToString st = ProcessStateRunning → st = "running".
Proof. unfold containerStateToString. by repeat case_decide. Qed.

Lemma stat_or_cleanup_run w r w' :
  run h (stat_or_cleanup env cfg j) w = (r, w') →
  except (view h w) (view h w')
  ∧ (r = FVal (Ok ProcessStateRunning) →
     view h w !! id = Some "running" ∧ evolves (view h w) (view h w')).
Proof.
  unfold stat_or_cleanup. intros (f & w1 & H1 & H2)%run_bind_inv.
  apply (StatProcess_run h j cfg) in H1 as [He1 Hs].
  destruct f as [[p|e]|x|]; [| |done|done].
  - injection H2 as <- <-. split; [by auto with bpm|]. intros [= Hp].
    destruct Hs as (st & Hst & Hps). rewrite Hp in Hps. symmetry in Hps.
    apply toString_running in Hps as ->. done.
  - destruct (negb (IsNotExist (Some e))).
    + apply run_bind_inv in H2 as (f & w2 & H2 & H3). apply forceCleanup_run in H2.
      split; [transitivity (view h w1); [by auto with bpm|]|];
        destruct f as [[e'|]|x|]; try (injection H3 as <- <-);
        try (destruct H3 as [-> ->]); done.
    + injection H2 as <- <-. split; [by auto with bpm|done].
Qed.

Lemma unless_running_run state go w r w' :
  run h (unless_running cfg j state go) w = (r, w') →
  (state = ProcessStateRunning ∧ r = FVal None ∧ w' = w)
  ∨ (∃ w1, except (view h w) (view h w1) ∧
       (run h go w1 = (r, w')
        ∨ (except (view h w1) (view h w') ∧ r ≠ FVal None))).
Proof.
  unfold unless_running. destruct (decide (state = ProcessStateRunning)).
  { intros [= <- <-]. by left. }
  destruct (decide (state = ProcessStateFailed)).
  - intros (f & w1 & H1 & H2)%run_bind_inv.
    apply (RemoveProcess_run h j cfg) in H1 as [He1 _]. right. exists w1.
    split; [done|]. destruct f as [[err|]|x|]; [|by left| |].
    + injection H2 as <- <-. by right.
    + destruct H2 as [-> ->]. by right.
    + destruct H2 as [-> ->]. by right.
  - intros Hgo. right. exists w. split; [done|]. by left.
Qed.

(** After the state is known, [go] runs or nothing happens: the shape shared by
    [start] and [run]. *)
Lemma guarded_run go w r w' :
  (∀ w1 r1 w2, run h go w1 = (r1, w2) → except (view h w1) (view h w2)) →
  run h (try_err (stat_or_cleanup env cfg j) (λ e, e)
    (λ state, unless_running cfg j state go)) w = (r, w') →
  except (view h w) (view h w')
  ∧ (r = FVal None →
       (view h w !! id = Some "running" ∧ evolves (view h w) (view h w'))
       ∨ ∃ w1, run h go w1 = (FVal None, w')).
Proof.
  intros Hgo (f & w1 & H1 & H2)%run_bind_inv.
  apply stat_or_cleanup_run in H1 as [He1 Hrun].
  destruct f as [[state|e]|x|];
    [|injection H2 as <- <-; done|destruct H2 as [-> ->]; done..].
  apply unless_running_run in H2 as [(-> & -> & ->)|(w2 & He2 & [Hg|[He3 Hr]])].
  - split; [done|]. intros _. left. by apply Hrun.
  - apply Hgo in Hg as He3. split.
    + transitivity (view h w1); [done|]. by transitivity (view h w2).
    + intros ->. right. eauto.
  - split; [|done]. transitivity (view h w1); [done|]. by transitivity (view h w2).
Qed.

Lemma check_none_run p g w r w' :
  run h (check_err p g (Ret None)) w = (r, w') →
  ∃ f, run h p w = (f, w') ∧ (r = FVal None → f = FVal None).
Proof.
  intros (f & w1 & H1 & H2)%run_bind_inv. exists f.
  destruct f as [[e|]|x|]; [injection H2 as <- <-; done|injection H2 as <- <-; done|
    destruct H2 as [-> ->]; done..].
Qed.

Lemma start_process_run w r w' :
  run h (start_process env cfg procCfg j) w = (r, w') →
  except (view h w) (view h w') ∧ (r = FVal None → is_Some (view h w' !! id)).
Proof.
  intros Hr. apply guarded_run in Hr as [He Hok].
  - split; [done|]. intros Hn. destruct (Hok Hn) as [[Hv Hev]|[w1 Hgo]].
    + apply (evolves_is_Some _ _ _ Hev). eauto.
    + apply check_none_run in Hgo as (f & Hs & Hf).
      apply (StartProcess_run h j cfg procCfg) in Hs as [_ Hs]. auto.
  - intros w1 r1 w2 (f & Hs & _)%check_none_run.
    by apply (StartProcess_run h j cfg procCfg) in Hs as [? _].
Qed.

Lemma run_process_run w r w' :
  run h (run_process env cfg procCfg j) w = (r, w') →
  except (view h w) (view h w')
  ∧ (r = FVal None →
       (view h w !! id = Some "running" ∧ evolves (view h w) (view h w'))
       ∨ view h w' !! id = None).
Proof.
  assert (∀ w1 r1 w2, run h (r ← RunProcess j cfg procCfg;
    match r with
    | (status, Some err) =>
        Ret (Some (StatusError status (ErrorfErr "failed to run job-process: %s" [] err)))
    | (_, None) => Ret None
    end) w1 = (r1, w2) →
    except (view h w1) (view h w2) ∧ (r1 = FVal None → view h w2 !! id = None)) as Hgo.
  { intros w1 r1 w2 (f & w3 & H1 & H2)%run_bind_inv.
    apply (RunProcess_run h j cfg procCfg) in H1 as [He Hn].
    destruct f as [[status [e|]]|x|];
      [injection H2 as <- <-; done| |destruct H2 as [-> ->]; done..].
    injection H2 as <- <-. split; [done|]. intros _. by apply (Hn status). }
  intros Hr. apply guarded_run in Hr as [He Hok].
  - split; [done|]. intros Hn. destruct (Hok Hn) as [?|[w1 Hg]]; [by left|].
    right. by apply Hgo in Hg as [_ Hg]; auto.
  - intros w1 r1 w2 Hg. by apply Hgo in Hg as [? _].
Qed.

Context (yaml_Unmarshal : string → outcome (result JobConfig)).

Lemma load_process_quiet name : quiet h (load_process yaml_Unmarshal cfg name).
Proof.
  assert (∀ A (o : outcome A), quiet h (lift_outcome o)) as Hlift.
  { intros A [a|p] w r w' [= <- <-]; reflexivity. }
  apply quiet_try_or.
  - apply quiet_try_or.
    + apply quiet_try_or; [by apply quiet_call|]. intros data. apply Hlift.
    + intros jobCfg. apply quiet_check_or; [apply Hlift|apply quiet_ret].
  - intros jobCfg. apply quiet_try_or; [apply Hlift|]. intros p. apply quiet_ret.
Qed.

Lemma stop_process_run fuel name w r w' :
  run h (stop_process yaml_Unmarshal fuel cfg name j) w = (r, w') →
  except (view h w) (view h w') ∧ (r = FVal None → view h w' !! id = None).
Proof.
  intros (f & w1 & H1 & H2)%run_bind_inv.
  apply (StatProcess_run h j cfg) in H1 as [He1 Hs].
  destruct f as [[p|e]|x|]; [| |done|done].
  - apply run_bind_inv in H2 as (f & w2 & H2 & H3). apply load_process_quiet in H2.
    assert (except (view h w) (view h w2)) as He2
      by (transitivity (view h w1); auto with bpm).
    destruct f as [[pc|e]|x|];
      [|injection H3 as <- <-; done|destruct H3 as [-> ->]; done..].
    apply run_bind_inv in H3 as (f & w3 & H3 & H4).
    apply (StopProcess_quiet h j cfg pc) in H3.
    assert (except (view h w) (view h w3)) as He3
      by (transitivity (view h w2); auto with bpm).
    destruct f as [err|x|]; [|destruct H4 as [-> ->]; done..].
    apply check_none_run in H4 as (f & H4 & Hf).
    apply (RemoveProcess_run h j cfg) in H4 as [He4 Hn]. split; [|by auto].
    by transitivity (view h w3).
  - destruct (IsNotExist (Some e)) eqn:Hne; injection H2 as <- <-; (split; [by auto with bpm|]).
    + intros _. by apply (evolves_None _ _ _ He1).
    + done.
Qed.
End commands.

(** ** Properties: what the commands do to the containers *)

Section properties.
Context {W : Type} (h : handler W) (c : RuncClient) `{JSON} `{!RuncHost h c}.
Context `{MapRange, SortSlice} (ToBytes : string → result Z).
Context (features : Features) (locks : Handle).
Abbreviation j := (new_lifecycle ToBytes c features locks).

Lemma state_file_removal env cfg :
  runcRoot c = RuncRoot env →
  ∀ w, evolves_except (ContainerID cfg) (containers w)
    (containers (h _ (RemoveAll (path_Join [RuncRoot env; ContainerID cfg; "state.json"])) w).2).
Proof. intros <- w. apply (host_remove_state (ContainerID cfg)). Qed.

(** C6: starting: on a host where runc behaves as documented, whatever else
    fails, [bpm start] of a process leaves the containers of all other processes
    as they are (they may exit on their own), and if it reports success there is
    a container for the process. *)
Theorem start_creates_container cfg procCfg rs w r w'
  (Hwf : names_wf cfg rs) (Hroot : runcRoot c = RuncRoot (boshEnv cfg))
  (Hhook : hook_ordinary c procCfg)
  (Hrun : run h (start_process (boshEnv cfg) cfg procCfg j) w = (r, w')) :
  evolves_except (ContainerID cfg) (containers w) (containers w')
  ∧ (r = FVal None → is_Some (containers w' !! ContainerID cfg)).
Proof.
  exact (start_process_run h j (boshEnv cfg) cfg procCfg
    (QuietSetup0 := assembled_QuietSetup h c ToBytes features locks cfg procCfg Hhook)
    (QuietRemoval0 := assembled_QuietRemoval h c ToBytes features locks cfg rs Hwf Hroot)
    (state_file_removal (boshEnv cfg) cfg Hroot) w r w' Hrun).
Qed.

(** C7: stopping: on a host where runc behaves as documented, whatever the
    process and the clock do, [bpm stop] of a process leaves the containers of
    all other processes as they are, and if it reports success there is no
    container for the process. *)
Theorem stop_removes_container yaml_Unmarshal fuel cfg name rs w r w'
  (Hwf : names_wf cfg rs) (Hroot : runcRoot c = RuncRoot (boshEnv cfg))
  (Hrun : run h (stop_process yaml_Unmarshal fuel cfg name j) w = (r, w')) :
  evolves_except (ContainerID cfg) (containers w) (containers w')
  ∧ (r = FVal None → containers w' !! ContainerID cfg = None).
Proof.
  exact (stop_process_run h j cfg
    (QuietRemoval0 := assembled_QuietRemoval h c ToBytes features locks cfg rs Hwf Hroot)
    yaml_Unmarshal fuel name w r w' Hrun).
Qed.

(** C27: running synchronously: [bpm run] of a process leaves the containers of
    all other processes as they are, and if it reports success then either the
    process was already running, and nothing was done to it, or its container is
    gone again. *)
Theorem run_leaves_no_container cfg procCfg rs w r w'
  (Hwf : names_wf cfg rs) (Hroot : runcRoot c = RuncRoot (boshEnv cfg))
  (Hhook : hook_ordinary c procCfg)
  (Hrun : run h (run_process (boshEnv cfg) cfg procCfg j) w = (r, w')) :
  evolves_except (ContainerID cfg) (containers w) (containers w')
  ∧ (r = FVal None →
       (containers w !! ContainerID cfg = Some "running"
        ∧ evolves (containers w) (containers w'))
       ∨ containers w' !! ContainerID cfg = None).
Proof.
  exact (run_process_run h j (boshEnv cfg) cfg procCfg
    (QuietSetup0 := assembled_QuietSetup h c ToBytes features locks cfg procCfg Hhook)
    (QuietRemoval0 := assembled_QuietRemoval h c ToBytes features locks cfg rs Hwf Hroot)
    (state_file_removal (boshEnv cfg) cfg Hroot) w r w' Hrun).
Qed.
End properties.

(** *** Witnesses on the simulated host *)

Definition sim_assembled : RuncLifecycle :=
  @new_lifecycle map_range_list sort_slice_merge go_JSON sample_ToBytes sim_client
    (mkFeatures true true) (NewHandle "/var/vcap/data/bpm/locks").
Definition sim_yaml (data : string) : outcome (result JobConfig) :=
  Val (Ok (mkJobConfig [Some (sample_procCfg false)])).

Lemma sample_names_wf : names_wf sample_bpmCfg default_elems.
Proof. split_and!; [apply NewEnv_default_wf|simpl; normal_elems..]. Qed.

Lemma start_creates_container_witness : ∃ w',
  run sim_handler (start_process (NewEnv "") sample_bpmCfg (sample_procCfg false)
    sim_assembled) ∅ = (FVal None, w')
  ∧ is_Some (w' !! ContainerID sample_bpmCfg).
Proof.
  assert (∃ w', run sim_handler (start_process (NewEnv "") sample_bpmCfg
    (sample_procCfg false) sim_assembled) ∅ = (FVal None, w')) as [w' Hr]
    by (eexists; reflexivity).
  exists w'. split; [exact Hr|].
  apply (@start_creates_container _ sim_handler sim_client go_JSON sim_host map_range_list
    sort_slice_merge sample_ToBytes (mkFeatures true true)
    (NewHandle "/var/vcap/data/bpm/locks") sample_bpmCfg (sample_procCfg false) default_elems
    ∅ (FVal None) w' sample_names_wf eq_refl); [|exact Hr|reflexivity].
  intros hooks Hh. discriminate Hh.
Defined.

Lemma stop_removes_container_witness : ∃ w',
  run sim_handler (stop_process sim_yaml 3 sample_bpmCfg "worker" sim_assembled)
    {[ContainerID sample_bpmCfg := "running"]} = (FVal None, w')
  ∧ w' !! ContainerID sample_bpmCfg = None.
Proof.
  assert (∃ w', run sim_handler (stop_process sim_yaml 3 sample_bpmCfg "worker" sim_assembled)
    {[ContainerID sample_bpmCfg := "running"]} = (FVal None, w')) as [w' Hr]
    by (eexists; reflexivity).
  exists w'. split; [exact Hr|].
  apply (@stop_removes_container _ sim_handler sim_client go_JSON sim_host map_range_list
    sort_slice_merge sample_ToBytes (mkFeatures true true)
    (NewHandle "/var/vcap/data/bpm/locks") sim_yaml 3 sample_bpmCfg "worker" default_elems
    _ (FVal None) w' sample_names_wf eq_refl Hr). reflexivity.
Defined.

Lemma run_leaves_no_container_witness : ∃ w',
  run sim_handler (run_process (NewEnv "") sample_bpmCfg (sample_procCfg false)
    sim_assembled) {[ContainerID sample_bpmCfg := "stopped"]} = (FVal None, w')
  ∧ w' !! ContainerID sample_bpmCfg = None.
Proof.
  assert (∃ w', run sim_handler (run_process (NewEnv "") sample_bpmCfg
    (sample_procCfg false) sim_assembled) {[ContainerID sample_bpmCfg := "stopped"]}
    = (FVal None, w')) as [w' Hr] by (eexists; reflexivity).
  exists w'. split; [exact Hr|].
  destruct (@run_leaves_no_container _ sim_handler sim_client go_JSON sim_host map_range_list
    sort_slice_merge sample_ToBytes (mkFeatures true true)
    (NewHandle "/var/vcap/data/bpm/locks") sample_bpmCfg (sample_procCfg false) default_elems
    {[ContainerID sample_bpmCfg := "stopped"]} (FVal None) w' sample_names_wf eq_refl)
    as [_ Hn]; [intros hooks Hh; discriminate Hh|exact Hr|].
  destruct (Hn eq_refl) as [[Hs _]|Hs]; [|exact Hs].
  vm_compute in Hs. discriminate Hs.
Defined.

(** ** The lifecycle lock *)

(** The call does not run a program. *)
Definition no_program (B : Type) (k : sys B) : Prop :=
  match k with
  | RunCmd _ | CombinedOutput _ | Output _ | StartCmd _ => False
  | _ => True
  end.
Definition ev_no_program (e : event) : Prop := match e with Ev c _ => no_program _ c end.

Section lock.
Context `{MapRange, SortSlice, JSON} (ToBytes : string → result Z).
Context (yaml_Unmarshal : string → outcome (result JobConfig)).
Context (ErrorText : error → string).
Abbreviation Execute := (RootCmd_Execute ToBytes yaml_Unmarshal ErrorText).

(** The [RunE] hook of the commands that hold the lock. *)
Definition lifecycle_body (fuel : nat) (cmd : command) : option hook :=
  match cmd with
  | CmdStart => Some (start ToBytes yaml_Unmarshal)
  | CmdStop => Some (stop ToBytes yaml_Unmarshal fuel)
  | CmdRun => Some (run_command ToBytes yaml_Unmarshal)
  | _ => None
  end.

Lemma mount_subsystems_no_program l : all_calls no_program (mount_subsystems l).
Proof.
  induction l as [|s l IH]; cbn [mount_subsystems]; [done|].
  unfold mountCgroupSubsystem, subsystemGrouping, lift_outcome.
  all_calls_tac; exact IH.
Qed.

Lemma rootPre_no_program g args : all_calls no_program (rootPre g args).
Proof.
  unfold rootPre, version, isRunningSystemd, Setup, mountCgroupTmpfsIfNotPresent, returns.
  all_calls_tac. all: apply mount_subsystems_no_program.
Qed.

Lemma rootPre_Next g args tr g' :
  exec_trace (rootPre g args) tr (FVal (Next g')) →
  g' = set_locks (NewHandle (LocksPath (g_boshEnv g))) g.
Proof.
  unfold rootPre. destruct (g_showVersion g); intros Htr.
  { apply trace_bind_FVal in Htr as (f & t1 & t2 & -> & _ & Htr).
    destruct f; by apply exec_trace_Ret in Htr as [_ ?]. }
  apply exec_trace_Call in Htr as ([u|e] & tr' & -> & Htr);
    [|by apply exec_trace_Ret in Htr as [_ ?]].
  case_decide; [by apply exec_trace_Ret in Htr as [_ ?]|].
  apply exec_trace_Call in Htr as ([e|] & t2 & -> & Htr);
    [by apply exec_trace_Ret in Htr as [_ ?]|].
  apply trace_bind_FVal in Htr as (systemd & t3 & t4 & -> & _ & Htr).
  destruct (negb systemd).
  - apply trace_bind_FVal in Htr as ([e|] & t5 & t6 & -> & _ & Htr);
      apply exec_trace_Ret in Htr as [_ Heq]; by simplify_eq.
  - apply exec_trace_Ret in Htr as [_ Heq]. by simplify_eq.
Qed.

(** The calls that take the lock of a process, with their answers. *)
Definition lock_events (g : Globals) (job : string) (fd : nat) : list event :=
  let proc := if decide (g_procName g = "") then job else g_procName g in
  [Ev (OpenFile (job_lock_path (NewHandle (LocksPath (g_boshEnv g))) job proc)
         O_CREATE_RDWR mode_0600) (Ok fd);
   Ev (Flock fd LOCK_EX) None].

Lemma setupBpmLogs_no_program g : all_calls no_program (setupBpmLogs g).
Proof. unfold setupBpmLogs, deref, Lookup, OpenAppendChown. all_calls_tac. Qed.

Lemma acquire_no_program g : all_calls no_program (acquireLifecycleLock g).
Proof.
  unfold acquireLifecycleLock, deref, LockJob, lock_file, Flock_New, Flock_Lock. all_calls_tac.
Qed.

Lemma lifecyclePre_no_program g args : all_calls no_program (lifecyclePre g args).
Proof.
  unfold lifecyclePre. destruct (validateInput g args); [|done].
  apply all_calls_bind; [apply setupBpmLogs_no_program|].
  intros [e|]; [done|apply acquire_no_program].
Qed.

Lemma acquire_Next g cfg h tr g' :
  g_locks g = Some h → g_bpmCfg g = Some cfg →
  exec_trace (acquireLifecycleLock g) tr (FVal (Next g')) →
  ∃ fd, g' = set_lock (mkFlock fd true) g
    ∧ tr = [Ev (OpenFile (job_lock_path h (jobName cfg) (procName cfg))
                  O_CREATE_RDWR mode_0600) (Ok fd);
            Ev (Flock fd LOCK_EX) None].
Proof.
  intros Hl Hc. unfold acquireLifecycleLock. rewrite Hl, Hc. simpl. intros Htr.
  apply exec_trace_Call in Htr as ([fd|e] & t1 & -> & Htr); simpl in Htr; [|by destruct Htr].
  apply exec_trace_Call in Htr as ([e|] & t2 & -> & Htr); simpl in Htr; [by destruct Htr|].
  destruct Htr as [-> Heq]. simplify_eq. by exists fd.
Qed.

Lemma lifecyclePre_Next g args tr g' :
  g_locks g = Some (NewHandle (LocksPath (g_boshEnv g))) →
  exec_trace (lifecyclePre g args) tr (FVal (Next g')) →
  ∃ job rest fd t0, args = job :: rest ∧ g_lifecycleLock g' = Some (mkFlock fd true)
    ∧ tr = t0 ++ lock_events g job fd.
Proof.
  intros Hl. unfold lifecyclePre, validateInput. destruct args as [|job rest].
  { intros [_ ?]%exec_trace_Ret. done. }
  intros Htr. apply trace_bind_FVal in Htr as ([e|] & t1 & t2 & -> & _ & Htr).
  { by apply exec_trace_Ret in Htr as [_ ?]. }
  eapply acquire_Next in Htr as (fd & -> & ->); [|exact Hl|reflexivity].
  by exists job, rest, fd, t1.
Qed.

Lemma body_Next fuel cmd body g args tr g' :
  lifecycle_body fuel cmd = Some body →
  exec_trace (body g args) tr (FVal (Next g')) → g' = g.
Proof.
  assert (∀ (p : prog (option error)),
    exec_trace (err ← p; returns g err) tr (FVal (Next g')) → g' = g) as Hret.
  { intros p Htr. apply trace_bind_FVal in Htr as ([e|] & t1 & t2 & -> & _ & Htr);
      apply exec_trace_Ret in Htr as [_ Heq]; by simplify_eq. }
  destruct cmd; intros [= <-]; unfold start, stop, run_command, deref;
    (destruct (g_bpmCfg g); [|by intros [_ ?]]);
    (destruct (g_locks g); [|by intros [_ ?]]); apply Hret.
Qed.

Lemma release_trace g fd tr f :
  g_lifecycleLock g = Some (mkFlock fd true) →
  exec_trace (releaseLifecycleLock g) tr f → ∃ r, tr = [Ev (Flock fd LOCK_UN) r].
Proof.
  intros Hl. unfold releaseLifecycleLock. rewrite Hl. simpl. intros Htr.
  apply exec_trace_Call in Htr as ([e|] & t1 & -> & Htr); simpl in Htr;
    destruct Htr as [-> _]; eauto.
Qed.

(** How far an execution of the hooks got. *)
Lemma execute_cases p1 p2 b q g args tr f :
  exec_trace (execute p1 p2 b q g args) tr f →
  (∃ f1, exec_trace (p1 g args) tr f1)
  ∨ ∃ g1 t1 tr2, tr = t1 ++ tr2 ∧ exec_trace (p1 g args) t1 (FVal (Next g1)) ∧
    ((∃ f2, exec_trace (p2 g1 args) tr2 f2)
     ∨ ∃ g2 t2 tr3, tr2 = t2 ++ tr3 ∧ exec_trace (p2 g1 args) t2 (FVal (Next g2)) ∧
       ((exec_trace (b g2 args) tr3 f ∧ ∀ g3, f ≠ FVal (Next g3))
        ∨ ∃ g3 t3 t4, tr3 = t3 ++ t4 ∧ exec_trace (b g2 args) t3 (FVal (Next g3))
          ∧ exec_trace (q g3 args) t4 f)).
Proof.
  unfold execute. intros E1.
  apply exec_trace_bind in E1 as [(f1 & t1 & tr2 & -> & E1 & E2)|[(x & E1 & _)|[E1 _]]];
    [|by eauto..].
  destruct f1 as [g1| |]; [|apply exec_trace_Ret in E2 as [-> _];
    rewrite List.app_nil_r; by eauto..].
  right. exists g1, t1, tr2. split; [done|]. split; [done|].
  apply exec_trace_bind in E2 as [(f2 & t2 & tr3 & -> & E2 & E3)|[(x & E2 & _)|[E2 _]]];
    [|by eauto..].
  destruct f2 as [g2| |]; [|apply exec_trace_Ret in E3 as [-> _];
    rewrite List.app_nil_r; by eauto..].
  right. exists g2, t2, tr3. split; [done|]. split; [done|].
  apply exec_trace_bind in E3 as [(f3 & t3 & t4 & -> & E3 & E4)|[(x & E3 & ->)|[E3 ->]]];
    [|by left..].
  destruct f3 as [g3| |]; [right; by eauto 10|..]; left;
    apply exec_trace_Ret in E4 as [-> ->]; by rewrite List.app_nil_r.
Qed.

(** C8: the lifecycle lock: whatever the system answers, [bpm start], [bpm
    stop] and [bpm run] run no program at all (runc, hooks) unless they have
    taken the lock of the process named on the command line; what they then do
    lies between taking that lock and releasing it, the lock is released when
    they succeed, and nothing follows the release. *)
Theorem lifecycle_commands_hold_lock fuel cmd body g args tr f
  (Hcmd : lifecycle_body fuel cmd = Some body)
  (Htr : exec_trace (Execute fuel cmd g args) tr f) :
  Forall ev_no_program tr
  ∨ ∃ job rest fd t0 g2 t2 f2 t3, args = job :: rest
    ∧ tr = (t0 ++ lock_events g job fd) ++ t2 ++ t3
    ∧ Forall ev_no_program t0
    ∧ exec_trace (body g2 args) t2 f2
    ∧ ((t3 = [] ∧ f = f2 ∧ ∀ g3, f ≠ FVal (Next g3))
       ∨ ∃ r, t3 = [Ev (Flock fd LOCK_UN) r]).
Proof.
  assert (Execute fuel cmd = execute rootPre lifecyclePre body
    (λ g _, releaseLifecycleLock g)) as Hex
    by (destruct cmd; try discriminate Hcmd; by injection Hcmd as <-).
  rewrite Hex in Htr.
  apply execute_cases in Htr as [[f1 E1]|(g1 & t1 & tr2 & -> & E1 & Htr)].
  { left. eapply all_calls_trace; [|exact E1]. apply rootPre_no_program. }
  assert (Forall ev_no_program t1) as Hn1.
  { eapply all_calls_trace; [|exact E1]. apply rootPre_no_program. }
  apply rootPre_Next in E1 as ->.
  destruct Htr as [[f2 E2]|(g2 & t2 & tr3 & -> & E2 & Htr)].
  { left. apply Forall_app. split; [done|]. eapply all_calls_trace; [|exact E2].
    apply lifecyclePre_no_program. }
  assert (Forall ev_no_program t2) as Hn2.
  { eapply all_calls_trace; [|exact E2]. apply lifecyclePre_no_program. }
  apply lifecyclePre_Next in E2 as (job & rest & fd & t0 & -> & Hlock & ->); [|done].
  apply Forall_app in Hn2 as [Hn0 _]. right. exists job, rest, fd, (t1 ++ t0), g2.
  destruct Htr as [[Hb Hf]|(g3 & t3 & t4 & -> & Hb & Hq)].
  - exists tr3, f, []. rewrite List.app_nil_r. split; [done|]. split.
    { by rewrite !(assoc_L (++)). }
    split; [by apply Forall_app|]. split; [done|]. by left.
  - apply (body_Next fuel cmd body) in Hb as Heq; [|done]. subst g3.
    exists t3, (FVal (Next g2)), t4. split; [done|]. split.
    { by rewrite !(assoc_L (++)). }
    split; [by apply Forall_app|]. split; [done|]. right. by eapply release_trace.
Qed.
End lock.

Definition sample_globals : Globals :=
  mkGlobals (NewEnv "") false "worker" [] [] false false false false 25 "" None None None.

Lemma lifecycle_commands_hold_lock_witness : ∃ tr g',
  exec_trace (@RootCmd_Execute map_range_list sort_slice_merge go_JSON sample_ToBytes
    sim_yaml (λ _, "") 3 CmdStart sample_globals ["server"]) tr
    (FVal (Next g'))
  ∧ (Forall ev_no_program tr ∨ ∃ t0 fd t2 r, tr =
      (t0 ++ lock_events sample_globals "server" fd) ++ t2 ++ [Ev (Flock fd LOCK_UN) r]).
Proof.
  destruct (run_exec_trace sim_handler (@RootCmd_Execute map_range_list sort_slice_merge
    go_JSON sample_ToBytes sim_yaml (λ _, "") 3 CmdStart sample_globals
    ["server"]) ∅) as [tr Htr].
  assert (∃ g', (run sim_handler (@RootCmd_Execute map_range_list sort_slice_merge
    go_JSON sample_ToBytes sim_yaml (λ _, "") 3 CmdStart sample_globals
    ["server"]) ∅).1 = FVal (Next g')) as [g' Hg] by (eexists; reflexivity).
  rewrite Hg in Htr. exists tr, g'. split; [exact Htr|].
  destruct (@lifecycle_commands_hold_lock map_range_list sort_slice_merge go_JSON
    sample_ToBytes sim_yaml (λ _, "") 3 CmdStart _ sample_globals
    ["server"] tr _ eq_refl Htr)
    as [Hno|(job & rest & fd & t0 & g2 & t2 & f2 & t3 & Ha & Htr' & _ & _ & [(_ & _ & Hf)|[r Hr]])].
  - left. exact Hno.
  - exfalso. exact (Hf g' eq_refl).
  - right. injection Ha as <- <-. exists t0, fd, t2, r. rewrite Htr', Hr. reflexivity.
Defined.

(** ** Exit status of [bpm run] *)

(** The invocation of runc by [bpm run]. *)
Definition is_foreground_run (c : RuncClient) (cfg : BPMConfig) (cmd : Cmd) : Prop :=
  is_runc c "run" (RunContainer_args (External (PidFile cfg)) (BundlePath cfg)
    (ContainerID cfg) false) cmd.

Lemma forceCleanup_status env cfg j tr e :
  exec_trace (forceCleanupBrokenRuncState env cfg j) tr (FVal (Some e)) → FromError (Some e) = 1%Z.
Proof.
  intros Hc. apply trace_bind_FVal in Hc as ([e2|] & t5 & t6 & -> & _ & Hc).
  { apply exec_trace_Ret in Hc as [_ Heq]. by simplify_eq. }
  apply trace_bind_FVal in Hc as ([e2|] & t7 & t8 & -> & _ & Hc);
    apply exec_trace_Ret in Hc as [_ Heq]; by simplify_eq.
Qed.

Lemma stat_or_cleanup_error env cfg j tr e :
  exec_trace (stat_or_cleanup env cfg j) tr (FVal (Err e)) →
  ∃ t1 t2, tr = t1 ++ t2
    ∧ exec_trace (forceCleanupBrokenRuncState env cfg j) t2 (FVal (Some e)).
Proof.
  unfold stat_or_cleanup. intros Htr.
  apply trace_bind_FVal in Htr as ([p|e0] & t1 & t2 & -> & _ & Htr).
  { by apply exec_trace_Ret in Htr as [_ ?]. }
  destruct (negb _); [|by apply exec_trace_Ret in Htr as [_ ?]].
  apply trace_bind_FVal in Htr as ([e1|] & t3 & t4 & -> & Hc & Htr);
    apply exec_trace_Ret in Htr as [-> Heq]; simplify_eq.
  exists t1, t3. by rewrite (right_id_L [] (++)).
Qed.

Lemma RunContainer_trace c pidfile bundle id detach out err tr f :
  exec_trace (RunContainer c pidfile bundle id detach out err) tr f →
  ∃ cmd r, tr = [Ev (RunCmd cmd) r] ∧ is_runc c "run" (RunContainer_args pidfile bundle id detach) cmd
    ∧ f = match cr_err r, cr_state r with
          | None, _ => FVal (0%Z, None)
          | Some e, Some status => FVal (status, Some e)
          | Some _, None => FPanic NilDereference
          end.
Proof.
  unfold RunContainer. intros Htr. apply exec_trace_Call in Htr as (r & t1 & -> & Htr).
  eexists _, r. cbv beta in Htr.
  destruct (cr_err r) as [e|]; [destruct (cr_state r)|]; destruct Htr as [-> ->];
    (split; [reflexivity|]); by split_and!.
Qed.

(** Closing the two log files leaves the outcome as it is. *)
Lemma close_both_trace {A} (p : prog A) out err tr f :
  exec_trace (deferring p (close_both out err)) tr f → f ≠ FFuel →
  ∃ t r1 r2, tr = t ++ [Ev (FileClose err) r1; Ev (FileClose out) r2] ∧ exec_trace p t f.
Proof.
  intros Htr Hf. apply exec_trace_defer in Htr as [(f0 & t1 & t2 & -> & Hp & Hf0 & Htr)|[_ ->]];
    [|done].
  apply exec_trace_Call in Htr as (r1 & t3 & -> & Htr).
  apply exec_trace_Call in Htr as (r2 & t4 & -> & Htr).
  exists t1, r1, r2. destruct f0; [|..|done]; by destruct Htr as [-> ->].
Qed.

(** A failed cleanup before the process is run. *)
Definition cleanup_failed (env : Env) (cfg : BPMConfig) (j : RuncLifecycle) (e : error)
    (tr : list event) : Prop :=
  exec_trace (forceCleanupBrokenRuncState env cfg j) tr (FVal (Some e))
  ∨ ∃ err, exec_trace (RemoveProcess j cfg) tr (FVal (Some err))
      ∧ e = ErrorfErr "failed to clean up stale job-process: %s" [] err.


(** The pre-start hook of a process fails: [bpm run] exits with status 0. *)
Definition failing_hook_lifecycle : RuncLifecycle :=
  NewRuncLifecycle (runc_client sim_client)
    (mkRuncAdapterI (λ _ _ _, Ret (Ok (3, 4))) (λ _ _ _, Ret (Ok DefaultSpec)))
    Lookup (λ _, Ret (Some (ExitError 7))) (λ p, call (RemoveAll p)).
Definition hook_procCfg : ProcessConfig :=
  mkProcessConfig "worker" "/bin/worker" [] None [] [] false (Some (mkHooks "/bin/false"))
    None false "" None "".


(** ** Starting twice *)

(** runc's first answer along a trace is that the container is running. *)
Definition reported_running `{JSON} (tr : list event) : Prop :=
  ∃ s, head (observed tr) = Some (Ok (Some s)) ∧ st_status s = "running".

(** [bpm start] and [bpm run] are idempotent: if runc reports the process
    as running, they return nil after that one query, whatever else holds. *)
Lemma start_idempotent `{JSON} c j env cfg procCfg tr f (synchronous : bool)
  (Hclient : j_runcClient j = runc_client c) (Hrunning : reported_running tr)
  (Htr : exec_trace (if synchronous then run_process env cfg procCfg j
                     else start_process env cfg procCfg j) tr f) :
  f = FVal None ∧ length tr = 1.
Proof.
  destruct Hrunning as (s & Hs & Hstatus).
  assert (∀ go, exec_trace (try_err (stat_or_cleanup env cfg j) id
    (λ state, unless_running cfg j state go)) tr f → f = FVal None ∧ length tr = 1) as Hgo.
  2:{ destruct synchronous; by apply Hgo in Htr. }
  clear Htr. intros go Htr. unfold try_err, stat_or_cleanup, StatProcess, try_or in Htr.
  rewrite Hclient in Htr. cbn [runc_client rc_ContainerState] in Htr.
  apply exec_trace_bind in Htr as [(st & t1 & t2 & -> & H1 & Htr)|[(x & H1 & ->)|[H1 ->]]];
    apply exec_trace_bind in H1 as [(p & u1 & u2 & -> & H2 & H1)|[(y & H2 & Hx)|[H2 Hx]]];
    apply exec_trace_bind in H2 as [(q & v1 & v2 & -> & H3 & H2)|[(z & H3 & Hz)|[H3 Hz]]];
    apply ContainerState_trace in H3 as (r & -> & Hq); try discriminate Hq;
    injection Hq as ->; simpl in Hs; injection Hs as Hd; rewrite Hd in H2;
    destruct H2 as [-> Hp]; try discriminate Hp; injection Hp as ->;
    destruct H1 as [-> Hst]; try discriminate Hst; injection Hst as ->.
  unfold newProcessFromContainerState in Htr. cbn [pr_status] in Htr.
  rewrite Hstatus in Htr. by destruct Htr as [-> ->].
Qed.

Lemma start_idempotent_witness : ∃ tr,
  exec_trace (start_process (NewEnv "") sim_bpmCfg sim_procCfg sim_lifecycle) tr (FVal None)
  ∧ length tr = 1.
Proof.
  set (cmd := buildCmd sim_client "--log-format" ["json"; "state"; ContainerID sim_bpmCfg]).
  assert (exec_trace (start_process (NewEnv "") sim_bpmCfg sim_procCfg sim_lifecycle)
    [Ev (CombinedOutput cmd) (sim_state_document (ContainerID sim_bpmCfg) "running", None)] (FVal None)) as Htr.
  { exists (sim_state_document (ContainerID sim_bpmCfg) "running", None), []. split; [reflexivity|]. split; reflexivity. }
  exists [Ev (CombinedOutput cmd) (sim_state_document (ContainerID sim_bpmCfg) "running", None)]. split; [exact Htr|].
  apply (start_idempotent sim_client sim_lifecycle (NewEnv "") sim_bpmCfg sim_procCfg
    [Ev (CombinedOutput cmd) (sim_state_document (ContainerID sim_bpmCfg) "running", None)] (FVal None) false eq_refl); [|exact Htr].
  exists (mkState (ContainerID sim_bpmCfg) "running" 42). split; reflexivity.
Defined.

(** ** The root check *)

(** Neither the user nor the group ID is 0. *)
Definition unprivileged_user (usr : OSUser) : Prop := ou_uid usr ≠ "0" ∧ ou_gid usr ≠ "0".
#[export] Instance unprivileged_user_dec usr : Decision (unprivileged_user usr).
Proof. unfold unprivileged_user. apply _. Defined.

(** C35: who may run bpm: unless only the version is asked for, every command
    first asks for the current user, and if neither the user nor the group ID is
    0 it fails at once and touches nothing; it goes on when one of the two is 0,
    so a user in group 0 is let through. *)
Theorem root_check g args tr f
  (Hv : g_showVersion g = false) (Htr : exec_trace (rootPre g args) tr f) :
  ∃ u t, tr = Ev user_Current u :: t ∧
    match u with
    | Err e => t = [] ∧ f = FVal (Fails g (Wrapf "unable to get current user: %w" [] e))
    | Ok usr =>
        if decide (unprivileged_user usr)
        then t = [] ∧ f = FVal (Fails g notRoot)
        else ∃ r t', t = Ev (MkdirAll (LocksPath (g_boshEnv g)) mode_0700) r :: t'
    end.
Proof.
  unfold rootPre in Htr. rewrite Hv in Htr.
  apply exec_trace_Call in Htr as (u & t & -> & Htr). exists u, t. split; [done|].
  destruct u as [usr|e]; [|by apply exec_trace_Ret in Htr].
  cbv beta iota in Htr.
  destruct (decide (unprivileged_user usr)) as [Hu|Hu];
    [rewrite decide_True in Htr by exact Hu; by apply exec_trace_Ret in Htr|].
  rewrite decide_False in Htr by exact Hu.
  apply exec_trace_Call in Htr as (r & t' & -> & _). eauto.
Qed.

Lemma root_check_witness : ∃ tr f, exec_trace (rootPre sample_globals []) tr f ∧
  length tr = 2 ∧ ∃ u t, tr = Ev user_Current u :: t.
Proof.
  set (tr := [Ev user_Current (Ok (mkOSUser "1000" "0" "operator"));
    Ev (MkdirAll (LocksPath (NewEnv "")) mode_0700) (Some (NewError "read-only"))]).
  assert (exec_trace (rootPre sample_globals []) tr
    (FVal (Fails sample_globals (NewError "read-only")))) as Htr.
  { exists (Ok (mkOSUser "1000" "0" "operator")). eexists. split; [reflexivity|].
    exists (Some (NewError "read-only")). eexists. split; [reflexivity|].
    split; reflexivity. }
  exists tr. eexists. split; [exact Htr|]. split; [reflexivity|].
  destruct (root_check sample_globals [] tr _ eq_refl Htr) as (u & t & Heq & _).
  exists u, t. exact Heq.
Defined.

(** ** bpm list *)

Lemma replace_process_Some ps q ps' :
  NoDup (pr_name <$> ps) → replace_process ps q = Some ps' →
  ps' = (λ p, if decide (pr_name p = pr_name q) then q else p) <$> ps
  ∧ pr_name q ∈ pr_name <$> ps.
Proof.
  revert ps'. induction ps as [|p ps IH]; intros ps' Hnd Hr; simpl in *; [done|].
  apply NoDup_cons in Hnd as [Hp Hnd].
  destruct (decide (pr_name p = pr_name q)) as [Heq|Hne].
  - injection Hr as <-. split; [|rewrite Heq; left]. f_equal.
    symmetry. rewrite <- (list_fmap_id ps) at 2. apply list_fmap_ext.
    intros i x Hx. rewrite decide_False; [done|]. intros Hxq. apply Hp. rewrite Heq, <- Hxq.
    apply list_elem_of_fmap. exists x. split; [done|]. by eapply list_elem_of_lookup_2.
  - destruct (replace_process ps q) as [ps1|] eqn:Hrp; [|done]. injection Hr as <-.
    destruct (IH ps1 Hnd eq_refl) as [-> Hin]. split; [done|]. by right.
Qed.

Lemma replace_process_None ps q :
  replace_process ps q = None → pr_name q ∉ pr_name <$> ps.
Proof.
  induction ps as [|p ps IH]; simpl; [set_solver|].
  destruct (decide (pr_name p = pr_name q)); [done|].
  destruct (replace_process ps q); [done|]. set_solver.
Qed.

(** What [bpm list] shows for a declared process: its entry in runc's list. *)
Definition shown (running : list Process) (p : Process) : Process :=
  default p (List.find (λ q, bool_decide (pr_name q = pr_name p)) running).

Definition ev_printed (e : event) : option string :=
  match e with
  | Ev c _ => match c with Print Stderr text => Some text | _ => None end
  end.

Lemma shown_cons q running p :
  pr_name q ∉ pr_name <$> running →
  shown running (if decide (pr_name p = pr_name q) then q else p) = shown (q :: running) p.
Proof.
  intros Hq. unfold shown. simpl. destruct (decide (pr_name p = pr_name q)) as [Heq|Hne].
  - rewrite bool_decide_eq_true_2 by done. simpl.
    destruct (List.find _ running) as [x|] eqn:Hf; [|done].
    apply List.find_some in Hf as [Hin Hx]. apply bool_decide_eq_true in Hx.
    destruct Hq. rewrite <- Hx. apply list_elem_of_fmap. exists x. by rewrite list_elem_of_In.
  - by rewrite bool_decide_eq_false_2 by done.
Qed.

(** [bpm list] merges what runc reports into what the jobs declare: with
    distinct names on both sides, the processes shown are exactly the declared
    ones in their order, each replaced by runc's entry of that name if there is
    one (and otherwise shown as declared, stopped); every other container is
    reported on standard error, once each, and never shown. *)
Lemma list_merges_running ErrorText running declared tr res
  (Hd : NoDup (pr_name <$> declared)) (Hr : NoDup (pr_name <$> running))
  (Htr : exec_trace (merge_running ErrorText running declared) tr (FVal res)) :
  res = shown running <$> declared
  ∧ length (omap ev_printed tr)
    = length (filter (λ q, pr_name q ∉ pr_name <$> declared) running).
Proof.
  revert declared tr Hd Htr. induction running as [|q running IH]; intros declared tr Hd Htr;
    cbn [merge_running] in Htr.
  { apply exec_trace_Ret in Htr as [-> Heq]. simplify_eq. split; [|done].
    unfold shown. simpl. by rewrite list_fmap_id. }
  apply NoDup_cons in Hr as [Hq Hr]. unfold updateProcess in Htr.
  destruct (replace_process declared q) as [ps|] eqn:Hrp.
  - destruct (replace_process_Some _ _ _ Hd Hrp) as [Hps Hin].
    apply trace_bind_FVal in Htr as (x & t1 & t2 & -> & Hx & Htr).
    apply exec_trace_Ret in Hx as [-> Heq]. simplify_eq.
    assert (pr_name <$> ((λ p, if decide (pr_name p = pr_name q) then q else p) <$> declared)
      = pr_name <$> declared) as Hnames.
    { rewrite <- list_fmap_compose. apply list_fmap_ext. intros i p _. simpl.
      by case_decide. }
    apply IH in Htr as [-> Hlen]; [|done|by rewrite Hnames]. split.
    + rewrite <- list_fmap_compose. apply list_fmap_ext. intros i p _. simpl.
      by apply shown_cons.
    + rewrite filter_cons_False by (by intros ?). simpl. rewrite Hlen, Hnames. done.
  - apply replace_process_None in Hrp as Hnin.
    destruct (Decode (pr_name q)) as [name|x]; simpl in Htr; [|by destruct Htr].
    apply exec_trace_Call in Htr as (werr & t1 & -> & Htr).
    apply IH in Htr as [-> Hlen]; [|done|done]. split.
    + apply list_fmap_ext. intros i p Hp. unfold shown. simpl.
      rewrite bool_decide_eq_false_2; [done|]. intros Heq. apply Hnin. rewrite Heq.
      apply list_elem_of_fmap. exists p. split; [done|]. by eapply list_elem_of_lookup_2.
    + rewrite filter_cons_True by done. cbn [length]. rewrite <- Hlen. reflexivity.
Qed.

Lemma list_merges_running_witness : ∃ tr res,
  exec_trace (merge_running (λ _, "undeclared")
    [mkProcess "bpm-b" 7 "running"; mkProcess "bpm-x" 8 "running"]
    [mkProcess "bpm-a" 0 "stopped"; mkProcess "bpm-b" 0 "stopped"]) tr (FVal res)
  ∧ res = [mkProcess "bpm-a" 0 "stopped"; mkProcess "bpm-b" 7 "running"].
Proof.
  destruct (run_exec_trace idle_handler (merge_running (λ _, "undeclared")
    [mkProcess "bpm-b" 7 "running"; mkProcess "bpm-x" 8 "running"]
    [mkProcess "bpm-a" 0 "stopped"; mkProcess "bpm-b" 0 "stopped"]) tt) as [tr Htr].
  eexists tr, _. split; [exact Htr|].
  destruct (list_merges_running (λ _, "undeclared")
    [mkProcess "bpm-b" 7 "running"; mkProcess "bpm-x" 8 "running"]
    [mkProcess "bpm-a" 0 "stopped"; mkProcess "bpm-b" 0 "stopped"] tr _
    ltac:(apply (bool_decide_unpack _); vm_compute; exact I)
    ltac:(apply (bool_decide_unpack _); vm_compute; exact I) Htr) as [Hres _].
  rewrite Hres. reflexivity.
Defined.

(** ** Outcomes of starting a container *)

(** The invocation of runc by [bpm start], writing to the given files. *)
Definition is_detached_run (c : RuncClient) (cfg : BPMConfig) (out err : nat) (cmd : Cmd) : Prop :=
  is_runc c "run" (RunContainer_args (External (PidFile cfg)) (BundlePath cfg)
    (ContainerID cfg) true) cmd
  ∧ cmd_stdout cmd = ToFile out ∧ cmd_stderr cmd = ToFile err.

(** C29: the outcomes of [StartProcess]: it runs setup; if that fails, its error
    is returned and runc is not run; otherwise runc is run exactly once, detached,
    on the bundle and container of the process with the two log files as output,
    and then both files are closed, and runc's error, if any, is returned, or, when
    runc could not even be started, the missing process state is dereferenced (the
    deferred calls close the files then too). *)
Theorem start_process_outcomes `{JSON} c j cfg procCfg tr f
  (Hclient : j_runcClient j = runc_client c)
  (Htr : exec_trace (StartProcess j cfg procCfg) tr f) :
  (∃ fs, exec_trace (setupProcess j cfg procCfg) tr fs
     ∧ match fs with
       | FVal (Err e) => f = FVal (Some e)
       | FVal (Ok _) => False
       | FPanic p => f = FPanic p
       | FFuel => f = FFuel
       end)
  ∨ ∃ t0 out err cmd r rest, tr = t0 ++ Ev (RunCmd cmd) r :: rest
     ∧ exec_trace (setupProcess j cfg procCfg) t0 (FVal (Ok (out, err)))
     ∧ is_detached_run c cfg out err cmd
     ∧ (∃ r1 r2, rest = [Ev (FileClose err) r1; Ev (FileClose out) r2])
     ∧ f = match cr_err r, cr_state r with
           | Some _, None => FPanic NilDereference
           | e, _ => FVal e
           end.
Proof.
  unfold StartProcess, try_err in Htr. rewrite Hclient in Htr.
  apply exec_trace_bind in Htr as [(s & t0 & t1 & -> & Hs & Htr)|[(x & Hs & ->)|[Hs ->]]].
  2:{ left. by exists (FPanic x). }
  2:{ left. by exists FFuel. }
  destruct s as [[out err]|e].
  2:{ left. exists (FVal (Err e)). apply exec_trace_Ret in Htr as [-> ->].
      by rewrite List.app_nil_r. }
  right. unfold RunContainer in Htr. cbn [runc_client rc_RunContainer] in Htr.
  apply exec_trace_Call in Htr as (r & t2 & -> & Htr). cbv beta in Htr.
  eexists t0, out, err, _, r, t2. split; [reflexivity|]. split; [done|].
  split; [by split_and!|].
  destruct (cr_err r) as [e|]; [destruct (cr_state r) as [status|]|];
    apply exec_trace_Call in Htr as (r1 & t3 & -> & Htr);
    apply exec_trace_Call in Htr as (r2 & t4 & -> & Htr);
    destruct Htr as [-> ->]; eauto.
Qed.

Lemma start_process_outcomes_witness : ∃ tr out err cmd r,
  exec_trace (StartProcess sim_assembled sample_bpmCfg (sample_procCfg false)) tr (FVal None)
  ∧ Ev (RunCmd cmd) r ∈ tr ∧ is_detached_run sim_client sample_bpmCfg out err cmd.
Proof.
  destruct (run_exec_trace sim_handler (StartProcess sim_assembled sample_bpmCfg
    (sample_procCfg false)) ∅) as [tr Htr].
  assert ((run sim_handler (StartProcess sim_assembled sample_bpmCfg
    (sample_procCfg false)) ∅).1 = FVal None) as Hf by reflexivity.
  rewrite Hf in Htr.
  destruct (start_process_outcomes sim_client sim_assembled sample_bpmCfg
    (sample_procCfg false) tr (FVal None) eq_refl Htr)
    as [([[s|e]|x|] & _ & Hx)|(t0 & out & err & cmd & r & rest & Htr' & _ & Hc & _)];
    [destruct Hx|discriminate Hx..|].
  exists tr, out, err, cmd, r. split; [exact Htr|]. split; [|exact Hc].
  rewrite Htr'. apply elem_of_app. right. left.
Defined.

(** ** Log files of a setup that fails late *)

(** When the specification cannot be built (here because the memory limit does not
    parse) [setupProcess] returns an error and leaves both log files open. *)
Lemma setup_leaks_log_files : ∃ tr e out err,
  exec_trace (setupProcess (@new_lifecycle map_range_list sort_slice_merge go_JSON
      (λ m, Err (Errorf "invalid limit %s" [m])) sim_client (mkFeatures true true)
      (NewHandle "/var/vcap/data/bpm/locks")) sample_bpmCfg (sample_procCfg false))
    tr (FVal (Err e))
  ∧ open_fds [] tr = [err; out].
Proof.
  set (p := setupProcess _ _ _).
  exists (trace_of idle_handler p tt), (Errorf "invalid limit %s" ["1G"]), 3, 3.
  split; [exact (trace_of_exec idle_handler p tt)|]. vm_compute. reflexivity.
Qed.
