(* ===== verification/Liveness.v ===== *)
(** * Starting and stopping succeed

    The other theorems about the commands say what holds if they succeed.  Here it
    is shown that they do succeed on a working host: one that lets bpm make and own the
    directories of the process and open its files, where runc carries out what it is
    asked to, and where the stop timer fires.  Files and directories may be there or
    not; what a call may rely on is what the program has made or found before.
    [wins K p Q] is the total-correctness reading of a program: whenever every call is
    answered as on a working host where at least [K] is there, [p] returns, and what it
    returns satisfies [Q]. *)

From S2P Require Import Prelude GoStrings GoPath JobID Bosh Specs Json SpecJson Sys Config SpecBuilder SafeIO Locks Host Cgroups Adapter Client Containers Lifecycle Presenters Commands Program.

Definition gives_ok {A} (r : result A) : Prop := ∃ a, r = Ok a.

(** What the program knows of the host: a path is there, a descriptor is open. *)
Inductive thing := Exists (path : string) | Open (fd : nat).
Definition knowledge : Type := thing → Prop.
Definition nothing : knowledge := λ _, False.

(** What is known after a call with its answer: removing files and running programs
    may change anything. *)
Definition learned (K : knowledge) {B} (k : sys B) : B → knowledge :=
  match k in sys B return B → knowledge with
  | MkdirAll d _ => λ r x, K x ∨ r = None ∧ x = Exists d
  | Stat p => λ r x, K x ∨ gives_ok r ∧ x = Exists p
  | OpenFile _ _ _ => λ r x, K x ∨ ∃ fd, r = Ok fd ∧ x = Open fd
  | FileClose fd => λ _ x, K x ∧ x ≠ Open fd
  | RemoveAll _ | RunCmd _ => λ _ _, False
  | _ => λ _, K
  end.

Section wins.
Context (cfg : BPMConfig) (procCfg : ProcessConfig) (locks : Handle).

(** The directories of the process: bpm's own and its volumes. *)
Definition process_dir (d : string) : Prop :=
  d ∈ External <$> [PidDir cfg; BPMConfig_LogDir cfg; SocketDir cfg; TempDir cfg;
                    BPMConfig_DataDir cfg; BPMConfig_StoreDir cfg]
  ∨ d ∈ [BundlePath cfg; RootFSPath cfg]
  ∨ d ∈ v_path <$> pc_additionalVolumes procCfg.

Definition shared_volume (p : string) : Prop :=
  ∃ v, v ∈ pc_additionalVolumes procCfg ∧ v_shared v = true ∧ v_path v = p.

(** The files of the process, each with the directory it is made in; the directory of
    the locks is made before any command runs. *)
Definition process_file (K : knowledge) (p : string) : Prop :=
  p ∈ External <$> [Config_Stdout cfg; Config_Stderr cfg]
    ∧ K (Exists (External (BPMConfig_LogDir cfg)))
  ∨ p = path_Join [BundlePath cfg; "config.json"] ∧ K (Exists (BundlePath cfg))
  ∨ ∃ v, shared_volume v ∧ p = volume_lock_path locks v.

(** The answers of a working host.  A path may be there or not, but the persistent disk
    of a process that wants one is. *)
Definition answer_ok (K : knowledge) {B} (k : sys B) : B → Prop :=
  match k in sys B return B → Prop with
  | Stat p => λ r,
      (K (Exists p) ∨ pc_persistentDisk procCfg = true
         ∧ p = Dir (External (BPMConfig_StoreDir cfg)) → gives_ok r)
      ∧ match r with Ok _ => True | Err e => os_IsNotExist e = true end
  | MkdirAll d _ => λ r, process_dir d → r = None
  | Chmod p _ => λ r, K (Exists p) → r = None
  | Chown p _ _ => λ r, K (Exists p) → r = None
  | OpenFile p _ _ => λ r, process_file K p → gives_ok r
  | FileChown fd _ _ => λ r, K (Open fd) → r = None
  | FileWrite fd _ => λ r, K (Open fd) → r = None
  | Flock fd _ => λ r, K (Open fd) → r = None
  | Mounted p => λ r, shared_volume p → gives_ok r
  | MountCall _ p _ _ _ => λ r, shared_volume p → r = None
  | Glob p => λ r, (∃ u v, pc_unsafe procCfg = Some u ∧ v ∈ UnrestrictedVolumes u ∧ v_path v = p)
      → gives_ok r
  | user_Lookup name => λ r, name = VcapUser →
      ∃ u uid gid, r = Ok u ∧ Atoi (ou_uid u) = Some uid
        ∧ Atoi (ou_gid u) = Some gid ∧ (0 ≤ uid)%Z ∧ (0 ≤ gid)%Z
  | RunCmd cmd => λ r, (∃ hooks, pc_hooks procCfg = Some hooks ∧ cmd_path cmd = PreStart hooks)
      → cr_err r = None
  | _ => λ _, True
  end.

Fixpoint wins {A} (K : knowledge) (p : prog A) (Q : knowledge → A → Prop) : Prop :=
  match p with
  | Ret a => Q K a
  | Crash _ | OutOfFuel => False
  | Call k f => ∀ r, answer_ok K k r → wins (learned K k r) (f r) Q
  end.

Lemma wins_bind {A B} K (p : prog A) (f : A → prog B) Q R :
  wins K p Q → (∀ K a, Q K a → wins K (f a) R) → wins K (prog_bind p f) R.
Proof. intros Hp Hf. revert K Hp. induction p as [a|x| |C k g IH]; simpl in *; auto. Qed.

Lemma wins_mono {A} K (p : prog A) (Q R : knowledge → A → Prop) :
  wins K p Q → (∀ K a, Q K a → R K a) → wins K p R.
Proof. intros Hp HQ. revert K Hp. induction p as [a|x| |C k g IH]; simpl in *; auto. Qed.

(** More knowledge does no harm. *)
Lemma answer_ok_mono (K K' : knowledge) B (k : sys B) r :
  (∀ x, K x → K' x) → answer_ok K' k r → answer_ok K k r.
Proof. intros HK. destruct k; simpl; try done; unfold process_file; naive_solver. Qed.
Lemma learned_mono (K K' : knowledge) B (k : sys B) r x :
  (∀ x, K x → K' x) → learned K k r x → learned K' k r x.
Proof. intros HK. destruct k; simpl; naive_solver. Qed.

(** A program that wins returns on every host that answers like this: [there] is what
    really is there. *)
Lemma wins_run {W A} (h : handler W) (there : W → knowledge) (p : prog A) K Q w :
  (∀ B (k : sys B) w, answer_ok (there w) k (h B k w).1) →
  (∀ B (k : sys B) w x, learned (there w) k (h B k w).1 x → there (h B k w).2 x) →
  (∀ x, K x → there w x) → wins K p Q → ∃ a w' K', run h p w = (FVal a, w') ∧ Q K' a.
Proof.
  intros Hok Hlearn. revert K w. induction p as [a|x| |C k f IH]; intros K w HK Hp; simpl in *;
    [eauto|done..|].
  specialize (Hok C k w). specialize (Hlearn C k w). destruct (h C k w) as [r w1]. simpl in *.
  eapply IH; [|apply Hp; by eapply answer_ok_mono]. intros x Hx. eapply Hlearn, learned_mono; done.
Qed.

(** A check that passes, an [Ok] that is unpacked. *)
Lemma wins_check {B} K (p : prog (option error)) g (k : prog (result B)) R :
  wins K p (λ K' r, r = None ∧ wins K' k R) → wins K (check_or p g k) R.
Proof. intros Hp. eapply wins_bind; [exact Hp|]. by intros K' ? [-> ?]. Qed.
Lemma wins_check_err K (p : prog (option error)) g (k : prog (option error)) R :
  wins K p (λ K' r, r = None ∧ wins K' k R) → wins K (check_err p g k) R.
Proof. intros Hp. eapply wins_bind; [exact Hp|]. by intros K' ? [-> ?]. Qed.
Lemma wins_try {A B} K (p : prog (result A)) g (k : A → prog (result B)) R :
  wins K p (λ K' r, ∃ a, r = Ok a ∧ wins K' (k a) R) → wins K (try_or p g k) R.
Proof. intros Hp. eapply wins_bind; [exact Hp|]. by intros K' ? (a & -> & ?). Qed.

Lemma wins_defer {A B} K (p : prog A) (d : prog B) R :
  wins K p (λ K' a, wins K' d (λ K'' _, R K'' a)) → wins K (deferring p d) R.
Proof.
  revert K. induction p as [a|x| |C k g IH]; intros K Hp; simpl in *; [|done..|auto].
  by eapply wins_bind.
Qed.

(** A program that keeps what is known and returns something that satisfies [P]. *)
Definition keeps {A} (P : A → Prop) (p : prog A) : Prop :=
  ∀ K, wins K p (λ K' a, (∀ x, K x → K' x) ∧ P a).
End wins.

(** ** Preparing the host *)

Section setup.
Context `{MapRange, SortSlice, JSON} (ToBytes : string → result Z).
Context (c : RuncClient) (features : Features) (locks : Handle).
Context (cfg : BPMConfig) (procCfg : ProcessConfig).
Abbreviation a := (newAdapter features locks).
Abbreviation j := (new_lifecycle ToBytes c features locks).
Abbreviation wins := (wins cfg procCfg locks).
Abbreviation keeps := (keeps cfg procCfg locks).

Lemma wins_Lookup : keeps gives_ok (Lookup VcapUser).
Proof.
  intros K r Hr. destruct (Hr eq_refl) as (u & uid & gid & -> & Hu & Hg & Hu0 & Hg0). simpl.
  rewrite Hu, Hg. rewrite (proj2 (Z.ltb_ge uid 0)), (proj2 (Z.ltb_ge gid 0)) by done.
  by split; [|eexists].
Qed.

Lemma wins_MakeShared p : shared_volume procCfg p → keeps (λ r, r = None) (MakeShared p).
Proof.
  intros Hp K r Hm. destruct (Hm Hp) as [b ->]. destruct b; simpl.
  - intros ? Hr. by rewrite (Hr Hp).
  - intros ? Hb. rewrite (Hb Hp). simpl. intros ? Hr. by rewrite (Hr Hp).
Qed.

Lemma wins_LockVolume p :
  shared_volume procCfg p → keeps (λ r, ∃ fd, r = Ok (mkFlock fd true)) (LockVolume locks p).
Proof.
  intros Hp K r Hr. destruct (Hr ltac:(right; right; eauto)) as [fd ->].
  intros ? Hl. rewrite (Hl ltac:(right; eauto)). split; [by left|eauto].
Qed.

Lemma wins_makeShared v :
  v ∈ pc_additionalVolumes procCfg → v_shared v = true → keeps (λ r, r = None) (makeShared a v).
Proof.
  intros Hv Hs K. assert (shared_volume procCfg (v_path v)) as Hsv by (by exists v).
  eapply wins_bind; [by apply wins_LockVolume|]. intros K1 ? [HK1 [fd ->]].
  apply wins_defer. eapply wins_mono; [by apply wins_MakeShared|]. intros K2 ? [HK2 ->].
  intros [e|] _; cbn; (split; [|done]); intros x Hx; by apply HK2, HK1.
Qed.

(** The paths to be owned were found, or will be made. *)
Definition chowns_fine (K : knowledge) (dirs chowns : list string) : Prop :=
  Forall (process_dir cfg procCfg) dirs ∧ Forall (λ p, K (Exists p) ∨ p ∈ dirs) chowns.

Lemma wins_prepare_volumes K vols dirs chowns :
  vols ⊆ pc_additionalVolumes procCfg → chowns_fine K dirs chowns →
  wins K (prepare_volumes a vols dirs chowns)
    (λ K' r, ∃ dirs chowns, r = Ok (dirs, chowns) ∧ chowns_fine K' dirs chowns).
Proof.
  revert K dirs chowns. induction vols as [|v vols IH]; intros K dirs chowns Hvols [Hd Hc];
    cbn [prepare_volumes]; [by eexists _, _; split; [|split]|].
  assert (v ∈ pc_additionalVolumes procCfg) as Hv by set_solver.
  assert (process_dir cfg procCfg (v_path v)) as Hdir
    by (right; right; by apply list_elem_of_fmap_2).
  apply wins_check. eapply (wins_mono _ _ _ _ _ (λ K' r, (∀ x, K x → K' x) ∧ r = None)).
  { destruct (v_shared v) eqn:Hs; [by apply wins_makeShared|by split]. }
  intros K' ? [HK ->]. split; [done|].
  assert (Forall (λ p, K' (Exists p) ∨ p ∈ dirs) chowns) as Hc'
    by (eapply Forall_impl; [exact Hc|]; naive_solver).
  destruct (v_mountOnly v); [apply IH; [set_solver|by split]|].
  intros r [_ Hr]. destruct r as [fi|e]; cbn [prog_bind].
  - apply wins_check.
    eapply (wins_mono _ _ _ _ _ (λ K2 r, K2 = learned K' (Stat (v_path v)) (Ok fi) ∧ r = None)).
    { destruct (_ && _); [|done]. intros r Hm. split; [done|]. apply Hm. right. split; [by eexists|done]. }
    intros K2 ? [-> ->]. split; [done|]. apply IH; [set_solver|]. split; [done|].
    apply Forall_app. split; [eapply Forall_impl; [exact Hc'|]; simpl; naive_solver|].
    apply Forall_singleton. left. right. split; [by eexists|done].
  - cbn [prog_mbind prog_bind]. rewrite Hr. apply IH; [set_solver|]. split; [apply Forall_app; by split; [|apply Forall_singleton]|].
    apply Forall_app. split; [|apply Forall_singleton; right; set_solver].
    eapply Forall_impl; [exact Hc'|]. simpl. set_solver.
Qed.

Lemma wins_createDirs K dirs user :
  Forall (process_dir cfg procCfg) dirs →
  wins K (createDirs dirs user) (λ K' r, r = None ∧ (∀ x, K x → K' x)
    ∧ Forall (λ d, K' (Exists d)) dirs).
Proof.
  intros Hd. revert K. induction Hd as [|d dirs Hd Hds IH]; intros K; cbn [createDirs]; [done|].
  apply wins_check_err. intros r Hr. rewrite (Hr Hd). simpl.
  intros r' Hr'. split; [apply Hr'; by right|]. eapply wins_mono; [apply IH|].
  intros K' ? (-> & HK & Hall). split_and!; [done|intros x Hx; apply HK; by left|].
  constructor; [apply HK; by right|done].
Qed.

Lemma wins_chownPaths K paths user :
  Forall (λ p, K (Exists p)) paths →
  wins K (chownPaths paths user) (λ K' r, K' = K ∧ r = None).
Proof.
  induction 1 as [|p paths Hp Hps IH]; cbn [chownPaths]; [done|].
  apply wins_check_err. intros r Hr. split; [by apply Hr|exact IH].
Qed.

Lemma wins_createLogFiles K user :
  K (Exists (External (BPMConfig_LogDir cfg))) →
  wins K (createLogFiles cfg user) (λ _ r, gives_ok r).
Proof.
  intros Hlog r Hr. destruct (Hr ltac:(left; split; [set_solver|done])) as [f0 ->].
  intros ? H2. rewrite (H2 ltac:(right; eauto)).
  intros r3 H3. destruct (H3 ltac:(left; split; [set_solver|by left])) as [f1 ->].
  intros ? H4. rewrite (H4 ltac:(right; eauto)). by eexists.
Qed.

Lemma wins_checkDirExists d : keeps gives_ok (checkDirExists d).
Proof.
  intros K r [_ Hr]. destruct r as [fi|e]; cbn.
  - split; [by left|by eexists].
  - rewrite Hr. split; [by left|by eexists].
Qed.

Lemma wins_prerequisites K user :
  wins K (CreateJobPrerequisites a cfg procCfg user) (λ _ r, gives_ok r).
Proof.
  assert (∀ p, p ∈ [PidDir cfg; BPMConfig_LogDir cfg; SocketDir cfg; TempDir cfg;
    BPMConfig_DataDir cfg; BPMConfig_StoreDir cfg] → process_dir cfg procCfg (External p)) as Hown
    by (intros p Hp; left; by apply list_elem_of_fmap_2).
  apply wins_check. intros r Hr. split; [apply Hr, Hown; set_solver|].
  apply wins_try. eapply wins_mono; [apply wins_prepare_volumes; [done|by split]|].
  intros K1 ? (dirs & chowns & -> & Hd & Hc). eexists. split; [done|].
  apply wins_try. eapply (wins_mono _ _ _ _ _ (λ K2 r, (∀ x, K1 x → K2 x) ∧ ∃ ds, r = Ok ds
    ∧ Forall (process_dir cfg procCfg) ds ∧ dirs ⊆ ds ∧ External (BPMConfig_LogDir cfg) ∈ ds)).
  { set (base := dirs ++ [External (BPMConfig_LogDir cfg); External (SocketDir cfg);
      External (TempDir cfg)]).
    assert (∀ d, d ∈ base → process_dir cfg procCfg d) as Hb.
    { intros d [Hin|Hin]%elem_of_app; [by eapply Forall_forall in Hin|].
      rewrite !elem_of_cons, elem_of_nil in Hin.
      destruct Hin as [->|[->|[->|[]]]]; apply Hown; set_solver. }
    set (ds := if pc_ephemeralDisk procCfg then _ else base).
    assert ((∀ d, d ∈ ds → process_dir cfg procCfg d) ∧ base ⊆ ds) as [Hds Hbase].
    { unfold ds. destruct (pc_ephemeralDisk procCfg); [|done]. split; [|set_solver].
      intros d [Hin|Hin%list_elem_of_singleton]%elem_of_app; [by apply Hb|].
      subst d. apply Hown. set_solver. }
    assert (dirs ⊆ base ∧ External (BPMConfig_LogDir cfg) ∈ base) as [Hb1 Hb2]
      by (unfold base; set_solver).
    destruct (pc_persistentDisk procCfg) eqn:Hdisk.
    - apply wins_try. intros q [Hq _]. destruct (Hq ltac:(right; by split)) as [fi ->].
      exists true. split; [done|]. split; [by left|].
      exists (ds ++ [External (BPMConfig_StoreDir cfg)]). split_and!; [done| |set_solver..].
      apply Forall_forall. intros d [Hin|Hin%list_elem_of_singleton]%elem_of_app; [by apply Hds|].
      subst d. apply Hown. set_solver.
    - split; [done|]. exists ds. split_and!; [done|by apply Forall_forall|set_solver..]. }
  intros K2 ? [HK (ds & -> & Hds & Hsub & Hlog)]. eexists. split; [done|].
  apply wins_check. eapply wins_mono; [by apply wins_createDirs|].
  intros K3 ? (-> & HK3 & Hall). split; [done|]. rewrite Forall_forall in Hall.
  apply wins_check. eapply wins_mono; [apply wins_chownPaths|].
  { eapply Forall_impl; [exact Hc|]. intros p [Hp|Hp]; [by apply HK3, HK|by apply Hall, Hsub]. }
  intros K4 ? [-> ->]. split; [done|]. apply wins_createLogFiles. by apply Hall.
Qed.

(** The memory limit of the process, if it has one, can be parsed. *)
Definition limits_parse : Prop :=
  ∀ l m, pc_limits procCfg = Some l → l_memory l = Some m → gives_ok (ToBytes m).

Lemma wins_globs K vols acc :
  (∃ u, pc_unsafe procCfg = Some u ∧ vols ⊆ UnrestrictedVolumes u) →
  wins K (glob_expand a vols acc) (λ _ r, gives_ok r).
Proof.
  intros (u & Hu & Hv). revert acc. induction vols as [|v vols IH]; intros acc;
    cbn [glob_expand]; [by eexists|].
  apply wins_try. intros r Hr. destruct Hr as [ms ->].
  { exists u, v. split_and!; [done|set_solver|done]. }
  eexists. split; [done|]. apply IH. set_solver.
Qed.

Lemma wins_BuildSpec K user :
  limits_parse → wins K (BuildSpec ToBytes a cfg procCfg user) (λ _ r, gives_ok r).
Proof.
  intros Hl. do 2 (apply wins_try; eapply wins_mono; [apply wins_checkDirExists|];
    intros ? ? [_ [? ->]]; eexists; (split; [done|])).
  apply wins_try. eapply (wins_mono _ _ _ _ _ (λ _ r, gives_ok r)).
  { unfold add_unrestricted. destruct (pc_unsafe procCfg) as [u|] eqn:Hu; [|by eexists].
    destruct (0 <? _); [|by eexists]. apply wins_try.
    eapply wins_mono; [apply wins_globs; by eexists|].
    intros K' ? [vs ->]. eexists. split; [done|by eexists]. }
  intros K2 ? [ms ->]. eexists. split; [done|]. apply wins_try.
  assert (∀ spec, gives_ok (apply_limits ToBytes features (pc_limits procCfg) spec)) as Hlim.
  { intros spec. unfold apply_limits. destruct (pc_limits procCfg) as [l|] eqn:El; [|by eexists].
    destruct (l_memory l) as [m|] eqn:Em; [|by eexists].
    destruct (Hl l m El Em) as [n ->]. by eexists. }
  destruct (Hlim (base_spec cfg procCfg user ms)) as [spec Hspec]. exists spec. split; [exact Hspec|].
  unfold add_cgroups_path. cbn [newAdapter a_cgroupsPathFor].
  eapply (wins_bind _ _ _ _ _ _ (λ _ _, True)); [|intros ? [p|e] _; by eexists].
  intros [[data rerr]|e] _; [|done]. cbn. destruct (Scanner_lines data rerr) as [lines serr].
  destruct (selfCgroupPathFromReader lines serr); [|done].
  by intros [fi|e] _.
Qed.

Lemma wins_CreateBundle K spec user :
  wins K (CreateBundle (BundlePath cfg) spec user) (λ _ r, r = None).
Proof.
  intros r Hr. rewrite (Hr ltac:(right; left; set_solver)).
  intros r2 H2. rewrite (H2 ltac:(right; left; unfold RootFSPath; set_solver)).
  intros r3 H3. destruct (H3 ltac:(right; left; split; [done|simpl; auto])) as [fd ->].
  intros r4 H4 ? _. apply H4. right. by eexists.
Qed.

Lemma wins_setup K :
  limits_parse → wins K (setupProcess j cfg procCfg) (λ _ r, gives_ok r).
Proof.
  intros Hl. apply wins_try. eapply wins_mono; [apply wins_Lookup|].
  intros K1 ? [_ [user ->]]. eexists. split; [done|].
  apply wins_try. eapply wins_mono; [apply wins_prerequisites|].
  intros K2 ? [[out err] ->]. eexists. split; [done|].
  apply wins_try. eapply wins_mono; [by apply wins_BuildSpec|].
  intros K3 ? [spec ->]. eexists. split; [done|].
  apply wins_check. eapply wins_mono; [apply wins_CreateBundle|]. intros K4 ? ->. split; [done|].
  apply wins_check. destruct (pc_hooks procCfg) as [hooks|] eqn:Eh; [|split; [done|by eexists]].
  intros r Hr. cbn. split; [apply Hr; by exists hooks|by eexists].
Qed.
End setup.

(** ** Working hosts *)

(** The statuses runc documents. *)
Definition oci_status (st : string) : Prop :=
  st ∈ ["creating"; "created"; "running"; "paused"; "stopped"].

(** runc answers queries about the container of a process, deletes it, and runs it when
    it does not exist; the bundle and PID file of the process can be removed. *)
Class WorkingHost {W : Type} (h : handler W) (c : RuncClient) (cfg : BPMConfig) `{JSON}
    `{!RuncHost h c} : Prop := {
  works_remove : ∀ p w, p ∈ [BundlePath cfg; External (PidFile cfg)] →
    (h _ (RemoveAll p) w).1 = None;
  works_state : ∀ cmd w data err w',
    is_runc c "--log-format" ["json"; "state"; ContainerID cfg] cmd →
    h _ (CombinedOutput cmd) w = ((data, err), w') →
    match containers w !! ContainerID cfg with
    | Some st => oci_status st → err = None ∧ gives_ok (json_State data)
    | None => is_Some err ∧ ∃ msg, json_Msg data = Ok msg
                ∧ Contains msg "container does not exist" = true
    end;
  works_delete : ∀ cmd w, is_runc c "delete" ["--force"; ContainerID cfg] cmd →
    cr_err (h _ (RunCmd cmd) w).1 = None;
  works_run : ∀ pidfile bundle cmd w,
    is_runc c "run" (RunContainer_args pidfile bundle (ContainerID cfg) true) cmd →
    containers w !! ContainerID cfg = None → cr_err (h _ (RunCmd cmd) w).1 = None
}.

(** A host on which a process can be prepared: [there] is what is there, and calls are
    answered accordingly. *)
Class PreparableHost {W : Type} (h : handler W) (cfg : BPMConfig) (procCfg : ProcessConfig)
    (locks : Handle) : Type := {
  there : W → knowledge;
  works_call : ∀ B (k : sys B) w, answer_ok cfg procCfg locks (there w) k (h B k w).1;
  works_learn : ∀ B (k : sys B) w x, learned (there w) k (h B k w).1 x → there (h B k w).2 x
}.

Section commands.
Context {W : Type} (h : handler W) (c : RuncClient) (cfg : BPMConfig) `{JSON} `{!RuncHost h c}.
Context `{!WorkingHost h c cfg}.
Context `{MapRange, SortSlice} (ToBytes : string → result Z).
Context (features : Features) (locks : Handle).
Abbreviation j := (new_lifecycle ToBytes c features locks).
Abbreviation id := (ContainerID cfg).

Lemma ContainerState_works w :
  match containers w !! id with
  | Some st => oci_status st → ∃ s w', run h (ContainerState_ c id) w = (FVal (Ok (Some s)), w')
  | None => ∃ w', run h (ContainerState_ c id) w = (FVal (Ok None), w')
  end.
Proof.
  unfold ContainerState_. cbn [mbind prog_mbind call prog_bind run].
  destruct (h _ (CombinedOutput _) w) as [[data err] w1] eqn:Hc.
  apply works_state in Hc; [|apply buildCmd_is_runc].
  destruct (containers w !! id) as [st|].
  - intros Hst. destruct (Hc Hst) as [-> [s Hs]]. rewrite Hs. by eexists _, _.
  - destruct Hc as [[e ->] (msg & Hm & Hin)]. unfold decodeContainerStateErr. rewrite Hm, Hin.
    by eexists.
Qed.

Lemma StatProcess_works w :
  match containers w !! id with
  | Some st => oci_status st → ∃ p w', run h (StatProcess j cfg) w = (FVal (Ok p), w')
  | None => ∃ w', run h (StatProcess j cfg) w = (FVal (Err isNotExistError), w')
  end.
Proof.
  pose proof (ContainerState_works w) as Hs.
  assert (∀ s w', run h (ContainerState_ c id) w = (FVal (Ok s), w') →
    run h (StatProcess j cfg) w = (FVal (match s with
      | Some s => Ok (newProcessFromContainerState (st_id s) (st_status s) (st_pid s))
      | None => Err isNotExistError end), w')) as Hstat.
  { intros s w' Hr. unfold StatProcess, try_or. rewrite run_bind.
    cbn [j_runcClient new_lifecycle runc_client rc_ContainerState]. rewrite Hr. by destruct s. }
  destruct (containers w !! id) as [st|].
  - intros Hst. destruct (Hs Hst) as (s & w' & Hr). eexists _, w'. exact (Hstat _ _ Hr).
  - destruct Hs as [w' Hr]. exists w'. exact (Hstat _ _ Hr).
Qed.

Lemma RemoveProcess_works w : ∃ w', run h (RemoveProcess j cfg) w = (FVal None, w').
Proof.
  unfold RemoveProcess, check_err. rewrite run_bind.
  cbn [j_runcClient new_lifecycle runc_client rc_DeleteContainer rc_DestroyBundle j_deleteFile].
  unfold DeleteContainer, run_cmd, DestroyBundle. cbn [mbind prog_mbind call prog_bind run].
  pose proof (works_delete _ w (buildCmd_is_runc c "delete" ["--force"; id])) as Hd.
  destruct (h _ (RunCmd _) w) as [r w1]. simpl in Hd. rewrite Hd.
  cbn [prog_bind run]. pose proof (works_remove (BundlePath cfg) w1 ltac:(set_solver)) as He1.
  destruct (h _ (RemoveAll (BundlePath cfg)) w1) as [e1 w2]. simpl in He1. subst e1. cbn [call run].
  pose proof (works_remove (External (PidFile cfg)) w2 ltac:(set_solver)) as He2.
  destruct (h _ (RemoveAll (External (PidFile cfg))) w2) as [e2 w3]. simpl in He2. subst. by eexists.
Qed.

Lemma StartProcess_works procCfg `{!PreparableHost h cfg procCfg locks} w :
  limits_parse ToBytes procCfg → hook_ordinary c procCfg → containers w !! id = None →
  ∃ w', run h (StartProcess j cfg procCfg) w = (FVal None, w').
Proof.
  intros Hl Hh Hn. unfold StartProcess, try_err. rewrite run_bind.
  destruct (wins_run cfg procCfg locks h there (setupProcess j cfg procCfg) nothing
    (λ _, gives_ok) w works_call works_learn) as (r & w1 & K & Hr & [[out err] ->]); [done| |].
  { by apply wins_setup. }
  rewrite Hr.
  pose proof (@setupProcess_quiet _ h j (runc_client_service h c) cfg procCfg
    (assembled_QuietSetup h c ToBytes features locks cfg procCfg Hh) _ _ _ Hr) as Hev.
  apply (evolves_None _ _ id Hev) in Hn. cbn [j_runcClient new_lifecycle runc_client rc_RunContainer].
  unfold RunContainer, close_both. cbn [mbind prog_mbind call prog_bind deferring run].
  set (cmd := with_output _ _ _).
  pose proof (works_run (External (PidFile cfg)) (BundlePath cfg) cmd w1 ltac:(by split) Hn) as Hok.
  destruct (h _ (RunCmd cmd) w1) as [cr w2]. simpl in Hok. rewrite Hok.
  cbn [mbind prog_mbind call prog_bind deferring run]. destruct (h _ (FileClose err) w2) as [? w3].
  destruct (h _ (FileClose out) w3) as [? w4]. by eexists.
Qed.

(** The containers [bpm start] can deal with: it does not remove one that runc is
    still creating. *)
Definition startable (st : option string) : Prop :=
  match st with
  | None => True
  | Some st => oci_status st ∧ st ≠ "creating" ∧ st ≠ "created"
  end.

Lemma start_process_works procCfg `{!PreparableHost h cfg procCfg locks} rs w :
  names_wf cfg rs → runcRoot c = RuncRoot (boshEnv cfg) →
  limits_parse ToBytes procCfg → hook_ordinary c procCfg → startable (containers w !! id) →
  ∃ w', run h (start_process (boshEnv cfg) cfg procCfg j) w = (FVal None, w').
Proof.
  intros Hwf Hroot Hl Hh Hst.
  assert (∀ w, containers w !! id = None → ∃ w', run h (check_err (StartProcess j cfg procCfg)
    (λ err, ErrorfErr "failed to start job-process: %s" [] err) (Ret None)) w = (FVal None, w')) as Hgo.
  { intros w0 Hn. unfold check_err. rewrite run_bind.
    destruct (StartProcess_works procCfg w0 Hl Hh Hn) as [w' ->]. by eexists. }
  unfold start_process, stat_or_cleanup, try_err. rewrite !run_bind.
  pose proof (StatProcess_works w) as Hs.
  destruct (containers w !! id) as [st|] eqn:Hc.
  - destruct Hst as (Ho & Hst1 & Hst2). destruct (Hs Ho) as (p & w1 & Hr). unfold mbind, prog_mbind.
    rewrite ?run_bind, Hr.
    apply (StatProcess_run (HS := runc_client_service h c) h j cfg) in Hr as [_ (st' & Hst' & ->)].
    simpl in Hst'. rewrite Hc in Hst'. injection Hst' as <-. cbn [run].
    unfold containerStateToString. rewrite (decide_False (P := st = "creating")) by done.
    rewrite (decide_False (P := st = "created")) by done.
    destruct (decide (st = "running")) as [->|Hr]; [by eexists|].
    replace (if decide (st = "stopped") then ProcessStateFailed else ProcessStateFailed)
      with ProcessStateFailed by by case_decide.
    unfold unless_running. rewrite decide_False, decide_True by done.
    unfold check_err at 1. rewrite run_bind. destruct (RemoveProcess_works w1) as [w2 Hw2].
    rewrite Hw2. apply Hgo.
    by apply (RemoveProcess_run (HS := runc_client_service h c)
      (QuietRemoval0 := assembled_QuietRemoval h c ToBytes features locks cfg rs Hwf Hroot)
      h j cfg) in Hw2 as [_ Hn]; apply Hn.
  - destruct Hs as [w1 Hr]. unfold mbind, prog_mbind. rewrite ?run_bind, Hr. apply Hgo.
    apply (StatProcess_run (HS := runc_client_service h c) h j cfg) in Hr as [Hev _].
    by apply (evolves_None _ _ _ Hev).
Qed.

(** While its container exists, stopping a process never dereferences a nil state. *)
Lemma state_check_safe {A} (k : bool → prog A) x w :
  is_Some (containers w !! id) →
  (∀ b w1, is_Some (containers w1 !! id) → (run h (k b) w1).1 ≠ FPanic x) →
  (run h (state ← ContainerState_ c id; stopped ← lift_outcome (state_stopped state); k stopped) w).1
  ≠ FPanic x.
Proof.
  intros Hw Hk. unfold mbind, prog_mbind. rewrite run_bind.
  destruct (run h (ContainerState_ c id) w) as [r w1] eqn:Hr.
  apply (ContainerState_run h c id) in Hr as [Hev Hs].
  assert (is_Some (containers w1 !! id)) as Hw1 by by apply (evolves_is_Some _ _ _ Hev).
  destruct r as [[[s|]|e]|y|]; [by apply Hk| |by apply Hk|done..].
  rewrite Hs in Hw. by destruct Hw.
Qed.

Lemma stop_loop_safe fuel x w :
  is_Some (containers w !! id) → (run h (stop_loop j fuel cfg) w).1 ≠ FPanic x.
Proof.
  revert w. induction fuel as [|fuel IH]; intros w Hw; [done|]. cbn [stop_loop].
  unfold mbind at 1, prog_mbind. rewrite run_bind. cbn [call run].
  pose proof (host_ordinary _ SelectTick w I) as Hev.
  destruct (h _ SelectTick w) as [[|] w1]; simpl in Hev.
  - apply (state_check_safe (λ b : bool, if b then Ret None else stop_loop j fuel cfg)).
    + by apply (evolves_is_Some _ _ _ Hev).
    + intros [|] w2 Hw2; [done|by apply IH].
  - cbn [j_runcClient new_lifecycle runc_client rc_SignalContainer].
    unfold SignalContainer, run_cmd. cbn [mbind prog_mbind call prog_bind run].
    destruct (h _ (RunCmd _) w1) as [cr w2]. cbn [mbind prog_mbind call prog_bind run].
    by destruct (h _ (Sleep _) w2) as [[] w3].
Qed.

Lemma StopProcess_safe fuel procCfg t x w :
  is_Some (containers w !! id) → (run h (StopProcess j fuel cfg procCfg t) w).1 ≠ FPanic x.
Proof.
  intros Hw. unfold StopProcess, check_err. rewrite run_bind.
  destruct (run h (rc_SignalContainer _ _ _) w) as [r w1] eqn:Hr.
  apply (SignalContainer_run h c id) in Hr as Hev.
  apply (evolves_is_Some _ _ _ Hev) in Hw. destruct r as [[e|]|y|]; [done| |..].
  2,3: revert Hr; cbn; destruct (h _ _ w); done.
  eapply (state_check_safe (λ b : bool, if b then Ret None else _)); [done|].
  intros [|] w2 Hw2; [done|]. cbn [mbind prog_mbind call prog_bind run].
  pose proof (host_ordinary _ (NewTimer t) w2 I) as Hev2.
  destruct (h _ (NewTimer t) w2) as [[] w3].
  pose proof (host_ordinary _ (NewTicker ContainerStatePollInterval) w3 I) as Hev3.
  destruct (h _ (NewTicker _) w3) as [[] w4]. simpl in Hev2, Hev3. rewrite run_defer.
  pose proof (stop_loop_safe fuel x w4) as Hsafe.
  destruct (run h (stop_loop j fuel cfg) w4) as [[a'|p|] w5]; simpl in *; [| |done];
    destruct (h _ TickerStop w5); [done|].
  apply Hsafe. apply (evolves_is_Some _ _ _ Hev3), (evolves_is_Some _ _ _ Hev2), Hw2.
Qed.

Context (yaml_Unmarshal : string → outcome (result JobConfig)).

Lemma stop_process_works budget `{!TickBudget h budget} fuel name procCfg w :
  budget DefaultStopTimeout < fuel →
  (∀ w, ∃ w', run h (load_process yaml_Unmarshal cfg name) w = (FVal (Ok procCfg), w')) →
  (∀ st, containers w !! id = Some st → oci_status st) →
  ∃ w', run h (stop_process yaml_Unmarshal fuel cfg name j) w = (FVal None, w').
Proof.
  intros Hfuel Hload Hst. unfold stop_process, mbind, prog_mbind. rewrite run_bind.
  pose proof (StatProcess_works w) as Hs.
  destruct (containers w !! id) as [st|] eqn:Hc.
  - destruct (Hs (Hst st eq_refl)) as (p & w1 & Hr). rewrite Hr.
    apply (StatProcess_run (HS := runc_client_service h c) h j cfg) in Hr as [Hev _].
    destruct (Hload w1) as [w2 Hw2]. unfold try_err. rewrite run_bind, Hw2.
    apply (load_process_quiet (HS := runc_client_service h c) h j cfg) in Hw2.
    rewrite run_bind.
    assert (is_Some (containers w2 !! id)) as Hsome.
    { apply (evolves_is_Some _ _ _ Hw2), (evolves_is_Some _ _ _ Hev). simpl. rewrite Hc. by eexists. }
    pose proof (StopProcess_safe fuel procCfg DefaultStopTimeout) as Hsafe.
    pose proof (StopProcess_terminates c j eq_refl h budget fuel cfg procCfg DefaultStopTimeout w2
      Hfuel) as Hends.
    destruct (run h (StopProcess j fuel cfg procCfg DefaultStopTimeout) w2) as [[e|x|] w3] eqn:Hstop.
    + unfold check_err. rewrite run_bind. destruct (RemoveProcess_works w3) as [w4 ->]. by eexists.
    + exfalso. by apply (Hsafe x w2 Hsome); rewrite Hstop.
    + done.
  - destruct Hs as [w1 ->]. by eexists.
Qed.
End commands.

(** ** Properties *)

Section properties.
Context {W : Type} (h : handler W) (c : RuncClient) (cfg : BPMConfig) `{JSON} `{!RuncHost h c}.
Context `{!WorkingHost h c cfg}.
Context `{MapRange, SortSlice} (ToBytes : string → result Z).
Context (features : Features) (locks : Handle).
Abbreviation j := (new_lifecycle ToBytes c features locks).

(** C4: starting succeeds: on a working host, which lets bpm make and own the directories
    of the process and open its files (whether they were there or not), knows the user
    vcap and runs the pre-start hook without an error, [bpm start] of a process whose
    memory limit parses and whose hook is not runc itself returns without an error and
    leaves a container for it, whether there was none, it is running already, or a dead
    one (stopped or paused) is still there and has to be removed first; the other
    containers are left alone. *)
Theorem start_succeeds procCfg `{!PreparableHost h cfg procCfg locks} rs w
  (Hwf : names_wf cfg rs) (Hroot : runcRoot c = RuncRoot (boshEnv cfg))
  (Hlimits : limits_parse ToBytes procCfg) (Hhook : hook_ordinary c procCfg)
  (Hst : startable (containers w !! ContainerID cfg)) :
  ∃ w', run h (start_process (boshEnv cfg) cfg procCfg j) w = (FVal None, w')
    ∧ is_Some (containers w' !! ContainerID cfg)
    ∧ evolves_except (ContainerID cfg) (containers w) (containers w').
Proof.
  destruct (start_process_works h c cfg ToBytes features locks procCfg rs w) as [w' Hr];
    [done..|].
  exists w'. split; [done|].
  apply (start_process_run h j (boshEnv cfg) cfg procCfg
    (QuietSetup0 := assembled_QuietSetup h c ToBytes features locks cfg procCfg Hhook)
    (QuietRemoval0 := assembled_QuietRemoval h c ToBytes features locks cfg rs Hwf Hroot)
    (state_file_removal h c (boshEnv cfg) cfg Hroot)) in Hr as [He Hn].
  by split; [apply Hn|].
Qed.

(** C5: stopping succeeds: on a working host whose ticker fires at most [budget d]
    times before a timer of [d] does, [bpm stop] of a process that its job declares
    returns without an error and its container is gone, whether or not the process
    heeds the signals; the other containers are left alone. *)
Theorem stop_succeeds budget `{!TickBudget h budget} yaml_Unmarshal fuel name procCfg rs w
  (Hwf : names_wf cfg rs) (Hroot : runcRoot c = RuncRoot (boshEnv cfg))
  (Hfuel : budget DefaultStopTimeout < fuel)
  (Hload : ∀ w, ∃ w', run h (load_process yaml_Unmarshal cfg name) w = (FVal (Ok procCfg), w'))
  (Hst : ∀ st, containers w !! ContainerID cfg = Some st → oci_status st) :
  ∃ w', run h (stop_process yaml_Unmarshal fuel cfg name j) w = (FVal None, w')
    ∧ containers w' !! ContainerID cfg = None
    ∧ evolves_except (ContainerID cfg) (containers w) (containers w').
Proof.
  destruct (stop_process_works h c cfg ToBytes features locks yaml_Unmarshal budget fuel name
    procCfg w) as [w' Hr]; [done..|].
  exists w'. split; [done|].
  apply (stop_process_run h j cfg
    (QuietRemoval0 := assembled_QuietRemoval h c ToBytes features locks cfg rs Hwf Hroot))
    in Hr as [He Hn].
  by split; [apply Hn|].
Qed.
End properties.

(** *** Witnesses on the simulated host *)

Lemma sim_works cfg :
  utf8_valid (ContainerID cfg) = true → WorkingHost sim_handler sim_client cfg.
Proof.
  intros Hid. split; [done|..].
  - intros cmd m data err m' [Hp Ha]. unfold sim_handler. rewrite Ha.
    change (containers m) with m. cbn -[sim_state_document sim_error_document json_State json_Msg].
    destruct (m !! ContainerID cfg) as [st|].
    + intros Hr Hst. assert (sim_plain (ContainerID cfg) st = true) as Hpl.
      { unfold sim_plain. rewrite Hid. unfold oci_status in Hst. set_unfold in Hst.
        by destruct Hst as [->|[->|[->|[->|[->|[]]]]]]. }
      rewrite Hpl in Hr. injection Hr as <- <- <-. split; [done|].
      rewrite sim_state_decoded by done. by eexists.
    + intros [= <- <- <-]. split; [by eexists|]. eexists. split; vm_compute; reflexivity.
  - intros cmd m Hc. by rewrite (sim_RunCmd _ _ _ _ Hc).
  - intros pidfile bundle cmd m Hc Hn. rewrite (sim_RunCmd _ _ _ _ Hc). unfold sim_runc. simpl.
    simpl in Hn. by rewrite Hn.
Qed.
#[export] Instance sim_working : WorkingHost sim_handler sim_client sample_bpmCfg.
Proof. by apply sim_works. Qed.

#[export] Instance sim_clock : TickBudget sim_handler (λ _, 0).
Proof. refine {| timer_left w := 0 |}; [done|lia..]. Defined.

(** A host with directories and open files: at first nothing is there but the bundles
    and log directories bpm has to make. *)
Definition disk_world : Type := containers_map * gset string * gset nat.
Definition no_entry (op p : string) : error := SysError op p ENOENT.
Definition disk_handler : handler disk_world := λ B k w,
  let '(m, dirs, fds) := w in
  match k in sys B return B * disk_world with
  | MkdirAll d _ => (None, (m, {[d]} ∪ dirs, fds))
  | Stat p => (if decide (p ∈ dirs) then Ok (mkFileInfo 0) else Err (no_entry "stat" p), w)
  | Chmod p _ => (if decide (p ∈ dirs) then None else Some (no_entry "chmod" p), w)
  | Chown p _ _ => (if decide (p ∈ dirs) then None else Some (no_entry "chown" p), w)
  | RemoveAll p => (None, (m, dirs ∖ {[p]}, fds))
  | OpenFile p _ _ =>
      if decide (Dir p ∈ dirs) then (Ok (fresh fds), (m, dirs, {[fresh fds]} ∪ fds))
      else (Err (no_entry "open" p), w)
  | FileChown fd _ _ => (if decide (fd ∈ fds) then None else Some (NewError "bad file"), w)
  | FileWrite fd _ => (if decide (fd ∈ fds) then None else Some (NewError "bad file"), w)
  | Flock fd _ => (if decide (fd ∈ fds) then None else Some (NewError "bad file"), w)
  | FileClose fd => (None, (m, dirs, fds ∖ {[fd]}))
  | k' => let '(r, m') := sim_handler _ k' m in (r, (m', dirs, fds))
  end.

#[export] Instance disk_host : RuncHost disk_handler sim_client.
Proof.
  refine {| containers w := w.1.1 |}.
  - intros B k [[m dirs] fds] Hk. pose proof (host_ordinary (RuncHost := sim_host) B k m Hk) as Hev.
    destruct k; cbn -[sim_handler] in *; try reflexivity; try (by case_decide);
      by match goal with |- context [sim_handler ?B ?k ?m] => destruct (sim_handler B k m) end.
  - intros id cmd [[m dirs] fds] data err w' Hc Hr. cbn -[sim_handler] in Hr.
    destruct (sim_handler _ _ m) as [[data' err'] m'] eqn:E.
    injection Hr as <- <- <-. exact (host_state (RuncHost := sim_host) id cmd m _ _ _ Hc E).
  - intros cmd [[m dirs] fds] data err w' Hc Hr. cbn -[sim_handler] in Hr.
    destruct (sim_handler _ _ m) as [[data' err'] m'] eqn:E.
    injection Hr as <- <- <-. exact (host_list (RuncHost := sim_host) cmd m _ _ _ Hc E).
  - intros id sig cmd [[m dirs] fds] r w' Hc Hr. cbn -[sim_handler] in Hr.
    destruct (sim_handler _ _ m) as [r' m'] eqn:E. injection Hr as <- <-.
    exact (host_kill (RuncHost := sim_host) id sig cmd m _ _ Hc E).
  - intros args cmd [[m dirs] fds] r w' Hc Hr. cbn -[sim_handler] in Hr.
    destruct (sim_handler _ _ m) as [r' m'] eqn:E. injection Hr as <- <-.
    exact (host_exec (RuncHost := sim_host) args cmd m _ _ Hc E).
  - intros id cmd [[m dirs] fds] r w' Hc Hr. cbn -[sim_handler] in Hr.
    destruct (sim_handler _ _ m) as [r' m'] eqn:E. injection Hr as <- <-.
    exact (host_delete (RuncHost := sim_host) id cmd m _ _ Hc E).
  - intros pidfile bundle id detach cmd [[m dirs] fds] r w' Hc Hr. cbn -[sim_handler] in Hr.
    destruct (sim_handler _ _ m) as [r' m'] eqn:E. injection Hr as <- <-.
    exact (host_run (RuncHost := sim_host) pidfile bundle id detach cmd m _ _ Hc E).
  - intros id [[m dirs] fds]. reflexivity.
Defined.

#[export] Instance disk_working : WorkingHost disk_handler sim_client sample_bpmCfg.
Proof.
  split.
  - by intros p [[m dirs] fds] _.
  - intros cmd [[m dirs] fds] data err w' Hc Hr. cbn -[sim_handler] in Hr.
    destruct (sim_handler _ _ m) as [[data' err'] m'] eqn:E.
    injection Hr as <- <- <-. exact (works_state (WorkingHost := sim_working) cmd m _ _ _ Hc E).
  - intros cmd [[m dirs] fds] Hc. pose proof (works_delete (WorkingHost := sim_working) cmd m Hc) as Hd.
    cbn -[sim_handler] in *. by destruct (sim_handler _ _ m).
  - intros pidfile bundle cmd [[m dirs] fds] Hc Hn.
    pose proof (works_run (WorkingHost := sim_working) pidfile bundle cmd m Hc Hn) as Hd.
    cbn -[sim_handler] in *. by destruct (sim_handler _ _ m).
Qed.

Definition disk_locks : Handle := NewHandle "/var/vcap/data/bpm/locks".

Lemma sample_file_dirs p K :
  process_file sample_bpmCfg (sample_procCfg false) disk_locks K p → K (Exists (Dir p)).
Proof.
  intros [[Hp HK]|[[-> HK]|(v & (u & Hv & Hs & _) & _)]].
  - change (External <$> _) with [External (Config_Stdout sample_bpmCfg);
      External (Config_Stderr sample_bpmCfg)] in Hp.
    rewrite !elem_of_cons, elem_of_nil in Hp.
    assert (Dir p = External (BPMConfig_LogDir sample_bpmCfg)) as ->; [|done].
    destruct Hp as [->|[->|[]]]; vm_compute; reflexivity.
  - assert (Dir (path_Join [BundlePath sample_bpmCfg; "config.json"]) = BundlePath sample_bpmCfg)
      as ->; [vm_compute; reflexivity|done].
  - simpl in Hv. apply list_elem_of_singleton in Hv as ->. discriminate Hs.
Qed.

#[export] Instance disk_preparable :
  PreparableHost disk_handler sample_bpmCfg (sample_procCfg false) disk_locks.
Proof.
  refine {| there := λ '(m, dirs, fds) x,
              match x with Exists p => p ∈ dirs | Open fd => fd ∈ fds end |}.
  - intros B k [[m dirs] fds].
    destruct k; try done; cbn -[decide process_file process_dir sim_runc Dir]; try (by case_decide).
    + split; [|by case_decide]. intros [Hp|[Hf _]]; [|discriminate Hf].
      rewrite decide_True by done. by eexists.
    + intros Hp%sample_file_dirs. rewrite decide_True by exact Hp. by eexists.
    + intros _. by eexists _, 1000%Z, 1000%Z.
    + by intros (hooks & [=] & _).
    + intros _. by eexists.
    + intros _. by eexists.
  - intros B k [[m dirs] fds] x Hx.
    destruct k; cbn -[sim_handler decide Dir] in *; try done;
      try (by match goal with |- context [sim_handler ?B ?k ?m] => destruct (sim_handler B k m) end).
    + destruct Hx as [Hx|[_ ->]]; [|set_solver]. destruct x; set_solver.
    + destruct Hx as [Hx|[[fi Hx] ->]]; [done|]. by case_decide.
    + case_decide; destruct Hx as [Hx|(fd & Hx & ->)]; simpl in *; simplify_eq; try done;
        [destruct x|]; set_solver.
    + destruct Hx as [Hx Hne]. destruct x; [done|]. set_solver.
Qed.

Lemma start_succeeds_witness : ∃ w',
  run disk_handler (start_process (NewEnv "") sample_bpmCfg (sample_procCfg false) sim_assembled)
    ({[ContainerID sample_bpmCfg := "stopped"]}, ∅, ∅) = (FVal None, w')
  ∧ is_Some (w'.1.1 !! ContainerID sample_bpmCfg).
Proof.
  destruct (@start_succeeds _ disk_handler sim_client sample_bpmCfg go_JSON disk_host disk_working
    map_range_list sort_slice_merge sample_ToBytes
    (mkFeatures true true) disk_locks (sample_procCfg false) disk_preparable
    default_elems ({[ContainerID sample_bpmCfg := "stopped"]}, ∅, ∅)) as (w' & Hr & Hs & _).
  - exact sample_names_wf.
  - reflexivity.
  - intros l m [= <-] [= <-]. eexists. reflexivity.
  - intros hooks Hh. discriminate Hh.
  - change (startable (Some "stopped")). split; [|split; discriminate].
    unfold oci_status. set_solver.
  - exists w'. split; [exact Hr|exact Hs].
Defined.

Lemma stop_succeeds_witness : ∃ w',
  run sim_handler (stop_process sim_yaml 3 sample_bpmCfg "worker" sim_assembled)
    {[ContainerID sample_bpmCfg := "running"]} = (FVal None, w')
  ∧ w' !! ContainerID sample_bpmCfg = None.
Proof.
  destruct (@stop_succeeds _ sim_handler sim_client sample_bpmCfg go_JSON sim_host sim_working
    map_range_list sort_slice_merge sample_ToBytes
    (mkFeatures true true) (NewHandle "/var/vcap/data/bpm/locks") (λ _, 0) sim_clock sim_yaml 3 "worker"
    (sample_procCfg false) default_elems {[ContainerID sample_bpmCfg := "running"]})
    as (w' & Hr & Hs & _).
  - exact sample_names_wf.
  - reflexivity.
  - lia.
  - intros w. exists w. reflexivity.
  - change (∀ st, Some "running" = Some st → oci_status st). intros st [= <-].
    unfold oci_status. set_solver.
  - exists w'. split; [exact Hr|exact Hs].
Defined.
