(* ===== verification/Concurrent.v ===== *)
(** * Several invocations of bpm at once

    A pool of processes runs interleaved, one call at a time, on one kernel.  Each
    process has its own table of descriptors; [ProcKernel] states what open(2),
    flock(2), close(2) and the end of a process are documented to do to the tables
    and to the holders of locks.  The lifecycle commands are shown to serialise:
    two invocations for the same lock file never run programs at the same time. *)

From S2P Require Import Prelude GoStrings GoPath JobID Bosh Specs Sys Config SpecBuilder SafeIO Locks Host Cgroups Adapter Client Containers Lifecycle Presenters Commands Program.

(** ** Pools of processes *)

Section pool.
Context {W A : Type} (h : nat → handler W) (end_process : nat → W → W).

Definition pool : Type := W * gmap nat (prog A).

Definition ended (p : prog A) : Prop :=
  match p with Call _ _ => False | _ => True end.

(** One call of one process, or the end of a process. *)
Inductive pool_step : pool → list (nat * event) → pool → Prop :=
| pool_call i B (c : sys B) k r w w' ps :
    ps !! i = Some (Call c k) → h i B c w = (r, w') →
    pool_step (w, ps) [(i, Ev c r)] (w', <[i := k r]> ps)
| pool_exit i p w ps :
    ps !! i = Some p → ended p →
    pool_step (w, ps) [] (end_process i w, delete i ps).

(** Executions, with everything that was called and by which process. *)
Inductive pool_run : pool → list (nat * event) → pool → Prop :=
| pool_refl s : pool_run s [] s
| pool_cons s1 l s2 T s3 : pool_step s1 l s2 → pool_run s2 T s3 → pool_run s1 (l ++ T) s3.

Lemma pool_run_app T1 T2 s s' :
  pool_run s (T1 ++ T2) s' → ∃ s1, pool_run s T1 s1 ∧ pool_run s1 T2 s'.
Proof.
  remember (T1 ++ T2) as T eqn:HT. intros Hr. revert T1 HT.
  induction Hr as [s|s1 l s2 T s3 Hs Hr IH]; intros T1 HT.
  { symmetry in HT. apply app_nil in HT as [-> ->]. eauto using pool_refl. }
  destruct Hs as [i B c k r w w' ps Hi Hh|i p w ps Hi He].
  - destruct T1 as [|e T1]; simplify_eq/=.
    + eexists. split; [apply pool_refl|]. eapply (pool_cons _ [_]); eauto using pool_call.
    + destruct (IH T1 eq_refl) as (s1 & H1 & H2). exists s1. split; [|done].
      eapply (pool_cons _ [_]); eauto using pool_call.
  - destruct (IH T1 HT) as (s1 & H1 & H2). exists s1. split; [|done].
    eapply (pool_cons _ []); eauto using pool_exit.
Qed.

(** A call in an execution: the states around it. *)
Lemma pool_run_at T1 i e T2 s s' :
  pool_run s (T1 ++ (i, e) :: T2) s' →
  ∃ s1 s2, pool_run s T1 s1 ∧ pool_step s1 [(i, e)] s2 ∧ pool_run s2 T2 s'.
Proof.
  intros (s1 & H1 & H2)%pool_run_app. remember ((i, e) :: T2) as T eqn:HT.
  revert H1. induction H2 as [s1|s1 l s2 T s3 Hs Hr IH]; intros H1; [done|].
  destruct Hs as [i' B c k r w w' ps Hi Hh|i' p w ps Hi He]; simplify_eq/=.
  - eexists _, _. eauto using pool_call.
  - apply IH; [done|]. rewrite <- (right_id_L [] (++) T1). clear IH Hr.
    remember (w, ps) as s0. induction H1 as [s|x l y T z Hx Hy IHy]; subst.
    + eapply (pool_cons _ [] _ []); eauto using pool_exit, pool_refl.
    + rewrite <- (assoc_L (++)). eapply pool_cons; eauto.
Qed.
End pool.

(** ** The kernel *)

(** Calls on descriptors. *)
Definition on_descriptors {B} (c : sys B) : bool :=
  match c with OpenFile _ _ _ | Flock _ _ | FileClose _ => true | _ => false end.

Class ProcKernel {W : Type} (h : nat → handler W) (end_process : nat → W → W) : Type := {
  pfile : W → nat → nat → option string;
  pholder : W → string → option (nat * nat);
  pk_open : ∀ i p flags perm w fd w', h i _ (OpenFile p flags perm) w = (Ok fd, w') →
    pfile w i fd = None ∧ pfile w' i fd = Some p
    ∧ (∀ j fd', (j, fd') ≠ (i, fd) → pfile w' j fd' = pfile w j fd')
    ∧ (∀ q, pholder w' q = pholder w q);
  pk_open_err : ∀ i p flags perm w e w', h i _ (OpenFile p flags perm) w = (Err e, w') →
    (∀ j fd, pfile w' j fd = pfile w j fd) ∧ (∀ q, pholder w' q = pholder w q);
  pk_flock_files : ∀ i fd op w r w', h i _ (Flock fd op) w = (r, w') →
    ∀ j fd', pfile w' j fd' = pfile w j fd';
  pk_lock : ∀ i fd w w', h i _ (Flock fd LOCK_EX) w = (None, w') → ∃ p,
    pfile w i fd = Some p ∧ (pholder w p = None ∨ pholder w p = Some (i, fd))
    ∧ pholder w' p = Some (i, fd) ∧ (∀ q, q ≠ p → pholder w' q = pholder w q);
  pk_lock_err : ∀ i fd w e w', h i _ (Flock fd LOCK_EX) w = (Some e, w') →
    ∀ q, pholder w' q = pholder w q;
  pk_unlock : ∀ i fd w r w', h i _ (Flock fd LOCK_UN) w = (r, w') →
    ∀ q, pholder w q ≠ Some (i, fd) → pholder w' q = pholder w q;
  pk_close : ∀ i fd w r w', h i _ (FileClose fd) w = (r, w') →
    (∀ q, pholder w q ≠ Some (i, fd) → pholder w' q = pholder w q)
    ∧ (∀ j fd', (j, fd') ≠ (i, fd) → pfile w' j fd' = pfile w j fd');
  pk_other : ∀ i B (c : sys B) w r w', on_descriptors c = false → h i B c w = (r, w') →
    (∀ j fd, pfile w' j fd = pfile w j fd) ∧ (∀ q, pholder w' q = pholder w q);
  pk_exit : ∀ i w,
    (∀ j fd, j ≠ i → pfile (end_process i w) j fd = pfile w j fd)
    ∧ (∀ q j fd, j ≠ i → pholder w q = Some (j, fd) → pholder (end_process i w) q = Some (j, fd))
}.

(** ** Programs that only touch their own descriptors *)

(** The descriptors a trace opened. *)
Definition opened (tr : list event) : list nat := omap ev_opened tr.

Definition ev_uses (e : event) : option nat :=
  match e with
  | Ev c _ => match c with FileClose fd | Flock fd _ => Some fd | _ => None end
  end.

(** [owns O Q p]: every descriptor [p] locks, unlocks or closes is among [O] or was
    opened by [p] itself; [Q] holds of what it returns and the descriptors then
    owned. *)
Fixpoint owns {A} (O : list nat) (Q : A → list nat → Prop) (p : prog A) : Prop :=
  match p with
  | Ret a => Q a O
  | Crash _ | OutOfFuel => True
  | Call c k => ∀ r, (∀ fd, ev_uses (Ev c r) = Some fd → fd ∈ O)
                     ∧ owns (opened [Ev c r] ++ O) Q (k r)
  end.

Lemma owns_mono {A} O O' (Q Q' : A → list nat → Prop) p :
  O ⊆ O' → (∀ a X X', X ⊆ X' → Q a X → Q' a X') → owns O Q p → owns O' Q' p.
Proof.
  intros HO HQ. revert O O' HO. induction p as [a|x| |B c k IH]; intros O O' HO Hp; simpl in *; eauto.
  intros r. destruct (Hp r) as [Hu Hk]. split; [intros fd Hfd; by apply HO, Hu|].
  eapply IH; [|exact Hk]. set_solver.
Qed.

Lemma owns_bind {A B} O Q (R : B → list nat → Prop) (p : prog A) k :
  owns O Q p → (∀ a X, O ⊆ X → Q a X → owns X R (k a)) → owns O R (prog_bind p k).
Proof.
  revert O. induction p as [a|x| |C c k' IH]; intros O Hp Hk; simpl in *; auto.
  intros r. destruct (Hp r) as [Hu Hr]. split; [done|]. apply IH; [done|].
  intros a X HX. apply Hk. set_solver.
Qed.

(** Calls that neither open nor use descriptors. *)
Definition no_descriptors (B : Type) (c : sys B) : Prop := on_descriptors c = false.

Lemma owns_quiet {A} O (p : prog A) : all_calls no_descriptors p → owns O (λ _ X, X = O) p.
Proof.
  induction p as [a|x| |B c k IH]; [done..|]. intros [Hc Hr] r. cbn [owns].
  split; [destruct c; by try discriminate Hc|].
  assert (opened [Ev c r] = []) as -> by (destruct c; by try discriminate Hc). apply IH, Hr.
Qed.

(** ** The phases of a command that takes a lock *)

Section phases.
Context {A : Type}.

(** After the lock was taken: descriptors used are those opened since ([O]), until
    the command is done with running programs. *)
Fixpoint critical (O : list nat) (p : prog A) : Prop :=
  match p with
  | Call c k => ∀ r,
      (no_program _ c ∧ all_calls no_program (k r))
      ∨ ((∀ fd, ev_uses (Ev c r) = Some fd → fd ∈ O) ∧ critical (opened [Ev c r] ++ O) (k r))
  | _ => True
  end.

(** The lock file is open as [fd] and the next call takes its lock. *)
Definition locking (fd : nat) (p : prog A) : Prop :=
  match p with
  | Call c k =>
      match c in sys B return (B → prog A) → Prop with
      | Flock fd' LOCK_EX => λ k,
          fd' = fd ∧ critical [] (k None) ∧ ∀ e, all_calls no_program (k (Some e))
      | _ => λ _, False
      end k
  | _ => False
  end.

Definition opens_lock (L : string) {B} (c : sys B) : B → prog A → Prop :=
  match c in sys B return B → prog A → Prop with
  | OpenFile p _ _ => λ r q, p = L ∧ ∃ fd, r = Ok fd ∧ locking fd q
  | _ => λ _ _, False
  end.

(** Before the lock of [L] is taken no program is run. *)
Fixpoint entering (L : string) (p : prog A) : Prop :=
  match p with
  | Call c k => no_program _ c ∧ ∀ r, entering L (k r) ∨ opens_lock L c r (k r)
  | _ => True
  end.
End phases.

Lemma no_program_entering {A} L (p : prog A) : all_calls no_program p → entering L p.
Proof. induction p as [a|x| |B c k IH]; simpl; [done..|]. intros [Hc Hr]. auto. Qed.

Lemma entering_bind {A B} L (p : prog A) (k : A → prog B) :
  all_calls no_program p → (∀ a tr, exec_trace p tr (FVal a) → entering L (k a)) →
  entering L (prog_bind p k).
Proof.
  induction p as [a|x| |C c k' IH]; intros Hp Hk; cbn [prog_bind entering]; [|done..|].
  - by apply (Hk a []).
  - destruct Hp as [Hc Hr]. split; [done|]. intros r. left. apply IH; [done|].
    intros a tr Htr. apply (Hk a (Ev c r :: tr)). by exists r, tr.
Qed.

Lemma entering_bind_bind {A B C} L (p : prog A) (f : A → prog B) (k : B → prog C) :
  all_calls no_program p → (∀ a, entering L (prog_bind (f a) k)) →
  entering L (prog_bind (prog_bind p f) k).
Proof.
  intros Hp Hk. induction p as [a|x| |D c k' IH]; cbn [prog_bind entering]; [apply Hk|done..|].
  destruct Hp as [Hc Hr]. split; [done|]. intros r. left. by apply IH.
Qed.

Lemma owns_critical {A B} O Q (p : prog A) (k : A → prog B) :
  owns O Q p → (∀ a X tr, exec_trace p tr (FVal a) → critical X (k a)) →
  critical O (prog_bind p k).
Proof.
  revert O. induction p as [a|x| |C c k' IH]; intros O Hp Hk; cbn [prog_bind critical]; [|done..|].
  - by apply (Hk a O []).
  - intros r. destruct (Hp r) as [Hu Hr]. right. split; [done|]. apply IH; [done|].
    intros a X tr Htr. apply (Hk a X (Ev c r :: tr)). by exists r, tr.
Qed.

(** ** The invariant *)

Section invariant.
Context {W A : Type} (h : nat → handler W) (end_process : nat → W → W).
Context `{K : !ProcKernel h end_process} (L : nat → string).

Definition holds (w : W) (i fd : nat) : Prop :=
  pfile w i fd = Some (L i) ∧ pholder w (L i) = Some (i, fd).

Definition early (w : W) (i : nat) (p : prog A) : Prop :=
  entering (L i) p ∨ ∃ fd, locking fd p ∧ pfile w i fd = Some (L i).
Definition within (w : W) (i : nat) (p : prog A) : Prop :=
  ∃ fd O, critical O p ∧ (fd ∉ O) ∧ holds w i fd.
Definition finished (p : prog A) : Prop := all_calls no_program p.
Definition late (w : W) (i : nat) (p : prog A) : Prop := within w i p ∨ finished p.
Definition pool_inv (s : @pool W A) : Prop :=
  ∀ i p, s.2 !! i = Some p → early s.1 i p ∨ late s.1 i p.

(** What a call of process [i] does to what the others hold. *)
Lemma call_others i B (c : sys B) w r w' j fd :
  h i B c w = (r, w') → j ≠ i →
  pfile w' j fd = pfile w j fd
  ∧ (∀ p, pholder w p = Some (j, fd) → pholder w' p = Some (j, fd)).
Proof.
  intros Hc Hj. destruct (on_descriptors c) eqn:Hd.
  2:{ destruct (pk_other _ _ _ _ _ _ Hd Hc) as [Hf Hh]. split; [done|]. intros p <-. apply Hh. }
  destruct c; try discriminate Hd.
  - destruct r as [fd'|e].
    + apply pk_open in Hc as (_ & _ & Hf & Hh). split; [apply Hf; congruence|].
      intros p <-. apply Hh.
    + apply pk_open_err in Hc as [Hf Hh]. split; [done|]. intros p <-. apply Hh.
  - apply pk_close in Hc as [Hh Hf]. split; [apply Hf; congruence|].
    intros p Hp. rewrite Hh; [done|]. rewrite Hp. congruence.
  - split; [by eapply pk_flock_files|]. intros p Hp. destruct op.
    + destruct r as [e|]; [by rewrite (pk_lock_err _ _ _ _ _ Hc)|].
      apply pk_lock in Hc as (q & _ & Hfree & _ & Hq).
      destruct (decide (p = q)) as [->|Hpq]; [|by rewrite Hq].
      rewrite Hp in Hfree. destruct Hfree; congruence.
    + erewrite pk_unlock; [done|exact Hc|]. rewrite Hp. congruence.
Qed.

(** ... and to what it holds itself, unless it uses that descriptor. *)
Lemma call_own i B (c : sys B) w r w' fd p :
  h i B c w = (r, w') → ev_uses (Ev c r) ≠ Some fd → pfile w i fd = Some p →
  pfile w' i fd = Some p ∧ ev_opened (Ev c r) ≠ Some fd
  ∧ (pholder w p = Some (i, fd) → pholder w' p = Some (i, fd)).
Proof.
  intros Hc Hu Hp. destruct (on_descriptors c) eqn:Hd.
  2:{ destruct (pk_other _ _ _ _ _ _ Hd Hc) as [Hf Hh]. rewrite Hf.
      split; [done|]. split; [by destruct c|]. by rewrite Hh. }
  destruct c; try discriminate Hd; cbn [ev_uses ev_opened] in *.
  - destruct r as [fd'|e].
    + apply pk_open in Hc as (Hn & _ & Hf & Hh). assert (fd ≠ fd') by (intros ->; congruence).
      rewrite Hf by congruence. split; [done|]. split; [congruence|]. by rewrite Hh.
    + apply pk_open_err in Hc as [Hf Hh]. rewrite Hf. split; [done|]. split; [done|]. by rewrite Hh.
  - apply pk_close in Hc as [Hh Hf]. rewrite Hf by congruence. split; [done|]. split; [done|].
    intros Hh'. rewrite Hh; [done|]. rewrite Hh'. congruence.
  - rewrite (pk_flock_files _ _ _ _ _ _ Hc). split; [done|]. split; [done|]. intros Hh.
    destruct op.
    + destruct r as [e|]; [by rewrite (pk_lock_err _ _ _ _ _ Hc)|].
      apply pk_lock in Hc as (q & _ & Hfree & _ & Hq).
      destruct (decide (p = q)) as [->|Hpq]; [|by rewrite Hq].
      rewrite Hh in Hfree. destruct Hfree; congruence.
    + erewrite pk_unlock; [done|exact Hc|]. rewrite Hh. congruence.
Qed.

Lemma entering_call i B (c : sys B) k w r w' :
  h i B c w = (r, w') → entering (L i) (Call c k) → early w' i (k r).
Proof.
  intros Hc [_ Hr]. destruct (Hr r) as [He|Ho]; [by left|]. right.
  destruct c; try done. destruct Ho as [-> (fd & -> & Hl)]. exists fd. split; [done|].
  by apply pk_open in Hc as (_ & ? & _).
Qed.

Lemma locking_call i B (c : sys B) k w r w' fd :
  h i B c w = (r, w') → locking fd (Call c k) → pfile w i fd = Some (L i) →
  late w' i (k r).
Proof.
  intros Hc Hl Hf. destruct c; try done. destruct op; [|done]. destruct Hl as (-> & Hn & He).
  destruct r as [e|]; [right; apply He|]. left. exists fd, []. split; [done|].
  split; [apply not_elem_of_nil|]. split; [by rewrite (pk_flock_files _ _ _ _ _ _ Hc)|].
  apply pk_lock in Hc as (p & Hp & _ & Hh & _). congruence.
Qed.

Lemma late_call i B (c : sys B) k w r w' :
  h i B c w = (r, w') → late w i (Call c k) → late w' i (k r).
Proof.
  intros Hc [(fd & O & Hcr & Hfd & Hf & Hh)|[_ Hn]]; [|right; apply Hn].
  destruct (Hcr r) as [[_ Hn]|[Hu Hk]]; [by right|]. left.
  destruct (call_own _ _ _ _ _ _ fd (L i) Hc) as (Hf' & Ho & Hh'); [naive_solver|done|].
  exists fd, (opened [Ev c r] ++ O). split; [done|]. split; [|by split; auto].
  rewrite elem_of_app. intros [Hin|Hin]; [|done].
  unfold opened in Hin. apply list_elem_of_omap in Hin as (e & He & Hopen).
  apply list_elem_of_singleton in He as ->. done.
Qed.

(** Other processes do not disturb a phase. *)
Lemma phase_stable (w w' : W) j p :
  (∀ fd, pfile w' j fd = pfile w j fd) →
  (∀ q fd, pholder w q = Some (j, fd) → pholder w' q = Some (j, fd)) →
  (early w j p → early w' j p) ∧ (late w j p → late w' j p).
Proof.
  intros Hf Hh. split.
  - intros [He|(fd & Hl & Hp)]; [by left|]. right. exists fd. by rewrite Hf.
  - intros [(fd & O & Hc & Hfd & Hp & Hq)|Hn]; [|by right]. left. exists fd, O.
    unfold holds. rewrite Hf. auto.
Qed.

Lemma pool_step_phases s T s' j p' :
  pool_step h end_process s T s' → s'.2 !! j = Some p' →
  ∃ p, s.2 !! j = Some p ∧ (early s.1 j p → early s'.1 j p' ∨ late s'.1 j p')
    ∧ (late s.1 j p → late s'.1 j p') ∧ (finished p → finished p').
Proof.
  intros [i B c k r w w' ps Hi Hc|i p w ps Hi He]; simpl.
  - destruct (decide (j = i)) as [->|Hj].
    + rewrite lookup_insert_eq. intros [= <-]. exists (Call c k). split; [done|]. split_and!.
      * intros [He|(fd & Hl & Hf)]; [left|right]; [by eapply entering_call|by eapply locking_call].
      * by apply late_call.
      * intros [_ Hn]. apply Hn.
    + rewrite lookup_insert_ne by done. intros Hp. exists p'. split; [done|].
      destruct (phase_stable w w' j p') as [He Hl].
      { intros fd. by eapply call_others. }
      { intros q fd. by eapply call_others. }
      auto.
  - rewrite lookup_delete_Some. intros [Hj Hp]. exists p'. split; [done|].
    destruct (pk_exit i w) as [Hf Hh].
    destruct (phase_stable w (end_process i w) j p') as [Hea Hl]; auto.
Qed.

Lemma pool_run_phases s T s' j p' :
  pool_run h end_process s T s' → s'.2 !! j = Some p' →
  ∃ p, s.2 !! j = Some p ∧ (late s.1 j p → late s'.1 j p') ∧ (finished p → finished p').
Proof.
  intros Hr. revert p'. induction Hr as [s|s1 l s2 T s3 Hs Hr IH]; intros p' Hp'; [eauto|].
  destruct (IH _ Hp') as (p2 & Hp2 & Hl & Hn).
  destruct (pool_step_phases _ _ _ _ _ Hs Hp2) as (p & Hp & _ & Hl' & Hn'). eauto 10.
Qed.

Lemma pool_run_inv s T s' : pool_run h end_process s T s' → pool_inv s → pool_inv s'.
Proof.
  induction 1 as [s|s1 l s2 T s3 Hs Hr IH]; [done|]. intros Hi. apply IH. intros j p' Hp'.
  destruct (pool_step_phases _ _ _ _ _ Hs Hp') as (p & Hp & He & Hl & _).
  destruct (Hi _ _ Hp); auto.
Qed.

(** A program is only run by a process that holds its lock. *)
Lemma program_within s i e s' :
  pool_inv s → pool_step h end_process s [(i, e)] s' → ¬ ev_no_program e →
  ∃ p, s.2 !! i = Some p ∧ within s.1 i p.
Proof.
  intros Hinv Hs Hp. inversion Hs as [i' B c k r w w' ps Hi Hc|]; simplify_eq/=.
  exists (Call c k). split; [done|].
  destruct (Hinv _ _ Hi) as [[[Hn _]|(fd & Hl & _)]|[Hw|[Hn _]]]; [done| |done..].
  destruct c; try done.
Qed.

Lemma within_apart w i j p q : within w i p → within w j q → i ≠ j → L i ≠ L j.
Proof. intros (fd & O & _ & _ & _ & Hi) (fd' & O' & _ & _ & _ & Hj) Hne E. congruence. Qed.

(** Between two programs of one process no other process with the same lock runs
    a program. *)
Lemma programs_serialized s T1 i e1 T2 j e T3 e2 T4 s' :
  pool_inv s → pool_run h end_process s (T1 ++ (i, e1) :: T2 ++ (j, e) :: T3 ++ (i, e2) :: T4) s' →
  ¬ ev_no_program e1 → ¬ ev_no_program e → ¬ ev_no_program e2 → i ≠ j → L i ≠ L j.
Proof.
  intros Hinv Hr He1 He He2 Hij.
  apply pool_run_at in Hr as (s1 & s2 & Hr1 & Hs1 & Hr).
  apply pool_run_at in Hr as (s3 & s4 & Hr3 & Hs3 & Hr).
  apply pool_run_at in Hr as (s5 & s6 & Hr5 & Hs5 & Hr).
  assert (pool_inv s1) as I1 by by eapply pool_run_inv.
  assert (pool_inv s3) as I3.
  { eapply pool_run_inv; [exact Hr3|]. eapply pool_run_inv; [|exact I1].
    eapply pool_cons; [exact Hs1|apply pool_refl]. }
  assert (pool_inv s5) as I5.
  { eapply pool_run_inv; [exact Hr5|]. eapply pool_run_inv; [|exact I3].
    eapply pool_cons; [exact Hs3|apply pool_refl]. }
  destruct (program_within _ _ _ _ I5 Hs5 He2) as (p5 & Hp5 & Hw5).
  destruct (pool_run_phases _ _ _ _ _ Hr5 Hp5) as (p4 & Hp4 & _ & Hf5).
  destruct (pool_step_phases _ _ _ _ _ Hs3 Hp4) as (p3 & Hp3 & _ & _ & Hf4).
  destruct (pool_run_phases _ _ _ _ _ Hr3 Hp3) as (p2 & Hp2 & Hl3 & _).
  destruct (pool_step_phases _ _ _ _ _ Hs1 Hp2) as (p1 & Hp1 & _ & Hl2 & _).
  destruct (program_within _ _ _ _ I1 Hs1 He1) as (p1' & Hp1' & Hw1).
  destruct (program_within _ _ _ _ I3 Hs3 He) as (q & Hq & Hwq).
  simplify_eq. destruct (Hl3 (Hl2 (or_introl Hw1))) as [Hw|Hn].
  - by eapply within_apart.
  - apply Hf4, Hf5 in Hn. exfalso. clear - Hs5 Hp5 Hn He2.
    inversion Hs5; simplify_eq/=. by destruct Hn.
Qed.
End invariant.

(** ** The commands touch their own descriptors only *)

Abbreviation any := (λ _ _, True).

Lemma owns_any {A} O (p : prog A) : all_calls no_descriptors p → owns O any p.
Proof. intros Hp. eapply owns_mono, (owns_quiet O); [done..|]. exact Hp. Qed.

Lemma owns_bind_any {A B} O Q (R : B → list nat → Prop) (p : prog A) k :
  owns O Q p → (∀ a X, O ⊆ X → owns X R (k a)) → owns O R (prog_bind p k).
Proof. intros Hp Hk. eapply owns_bind; [exact Hp|]. auto. Qed.

(** Programs that are silent on descriptors, followed by anything. *)
Lemma owns_quiet_bind {A B} O (R : B → list nat → Prop) (p : prog A) k :
  all_calls no_descriptors p → (∀ a, owns O R (k a)) → owns O R (prog_bind p k).
Proof. intros Hp Hk. eapply owns_bind; [by apply owns_quiet|]. intros a X _ ->. apply Hk. Qed.

(** The same with deferred calls. *)
Lemma owns_quiet_defer {A B} O (p : prog A) (d : prog B) :
  all_calls no_descriptors p → owns O any d → owns O any (deferring p d).
Proof.
  intros Hp Hd. induction p as [a|x| |C c k IH]; cbn [deferring].
  - by eapply owns_bind_any.
  - by eapply owns_bind_any.
  - done.
  - destruct Hp as [Hc Hk]. intros r. split; [destruct c; by try discriminate Hc|].
    assert (opened [Ev c r] = []) as -> by (destruct c; by try discriminate Hc). by apply IH.
Qed.

Lemma owns_open_append path uid gid perm O :
  owns O (λ r X, ∀ fd, r = Ok fd → fd ∈ X) (OpenAppendChown path uid gid perm).
Proof.
  intros [fd|e]; (split; [done|]); simpl.
  - intros [e|]; (split; [done|]); simpl.
    + intros r. split; [intros ? [= <-]; set_solver|]. done.
    + intros ? [= <-]. set_solver.
  - by destruct (errors_Is e ELOOP).
Qed.

Lemma owns_close_all fds O : (∀ fd, fd ∈ fds → fd ∈ O) → owns O any (close_all fds).
Proof.
  revert O. induction fds as [|fd fds IH]; intros O HO; [done|]. intros r.
  split; [intros ? [= <-]; set_solver|]. apply IH. set_solver.
Qed.

Lemma owns_log_files cfg user O :
  owns O (λ r X, ∀ out err, r = Ok (out, err) → out ∈ X ∧ err ∈ X) (createLogFiles cfg user).
Proof.
  assert (∀ paths files O, (∀ fd, fd ∈ files → fd ∈ O) →
    owns O (λ r X, ∀ l, r = Ok l → ∀ fd, fd ∈ l → fd ∈ X) (open_log_files paths user files)) as Hopen.
  { intros paths. induction paths as [|p paths IH]; intros files O' HO; cbn [open_log_files].
    - by intros l [= <-].
    - eapply owns_bind; [apply owns_open_append|]. intros [fd|e] X HX Hfd.
      + apply IH. intros fd' [Hin|Hin%list_elem_of_singleton]%elem_of_app; [set_solver|].
        subst. by apply Hfd.
      + eapply owns_bind_any; [apply owns_close_all; set_solver|]. done. }
  eapply owns_bind; [apply Hopen; set_solver|]. intros [[|f0 [|f1 [|]]]|e] X _ HX; try done.
  intros out err [= <- <-]. split; apply (HX _ eq_refl); set_solver.
Qed.

Section bodies.
Context `{MapRange, SortSlice, JSON} (ToBytes : string → result Z).
Context (yaml_Unmarshal : string → outcome (result JobConfig)).
Context (c : RuncClient) (features : Features) (locks : Handle).
Abbreviation a := (newAdapter features locks).
Abbreviation j := (new_lifecycle ToBytes c features locks).
Abbreviation silent := (all_calls no_descriptors).

Lemma owns_make_shared v O : owns O any (makeShared a v).
Proof.
  unfold makeShared, try_err. cbn [newAdapter a_locker a_shareMount].
  eapply (owns_bind _ (λ r X, ∀ fl, r = Ok fl → fl_fd fl ∈ X)).
  - unfold LockVolume, lock_file, Flock_New, Flock_Lock. intros [fd|e]; (split; [done|]); simpl; [|done].
    intros [e|]; (split; [intros ? [= <-]; set_solver|]); simpl; [done|]. intros ? [= <-]. set_solver.
  - intros [held|e] X _ Hheld; [|done]. apply owns_quiet_defer.
    { unfold MakeShared. all_calls_tac; done. }
    unfold Flock_Unlock. destruct (negb _); [done|].
    intros [e|]; (split; [intros ? [= <-]; by apply Hheld|done]).
Qed.

Lemma owns_prepare_volumes vols dirs chowns O : owns O any (prepare_volumes a vols dirs chowns).
Proof.
  revert dirs chowns O. induction vols as [|v vols IH]; intros dirs chowns O;
    cbn [prepare_volumes]; [done|].
  eapply (owns_bind_any _ any); [destruct (v_shared v); [apply owns_make_shared|done]|].
  intros [e|] X _; [done|]. destruct (v_mountOnly v); [apply IH|].
  apply owns_quiet_bind; [done|]. intros [fi|e]; [|destruct (os_IsNotExist e); [apply IH|done]].
  apply owns_quiet_bind; [by destruct (_ && _)|]. intros [e|]; [done|apply IH].
Qed.

Lemma owns_prerequisites cfg procCfg user O :
  owns O (λ r X, ∀ out err, r = Ok (out, err) → out ∈ X ∧ err ∈ X)
    (CreateJobPrerequisites a cfg procCfg user).
Proof.
  apply owns_quiet_bind; [done|]. intros [e|]; [done|].
  eapply owns_bind_any; [apply owns_prepare_volumes|]. intros [[dirs chowns]|e] X _; [|done].
  apply owns_quiet_bind. { unfold checkDirExists. all_calls_tac; done. }
  intros [ds|e]; [|done]. apply owns_quiet_bind.
  { induction ds as [|d ds IH]; cbn [createDirs]; [done|]. unfold createDirFor.
    all_calls_tac; done. }
  intros [e|]; [done|]. apply owns_quiet_bind.
  { induction chowns as [|p chowns IH]; cbn [chownPaths]; [done|]. all_calls_tac; done. }
  intros [e|]; [done|]. apply owns_log_files.
Qed.

Lemma BuildSpec_silent cfg procCfg user : silent (BuildSpec ToBytes a cfg procCfg user).
Proof.
  assert (∀ vols acc, silent (glob_expand a vols acc)) as Hglob.
  { induction vols as [|v vols IH]; intros acc; cbn [glob_expand]; [done|].
    apply all_calls_bind; [done|]. intros [ms|e]; [apply IH|done]. }
  unfold BuildSpec, checkDirExists, add_unrestricted, globExpandVolumes, add_cgroups_path,
    lift_outcome, newAdapter, cgroupsPathForContainer, SelfCgroupPath, isRunningSystemd.
  cbn [a_cgroupsPathFor]. all_calls_tac; try done; apply Hglob.
Qed.

Lemma owns_setup cfg procCfg O :
  owns O (λ r X, ∀ out err, r = Ok (out, err) → out ∈ X ∧ err ∈ X) (setupProcess j cfg procCfg).
Proof.
  apply owns_quiet_bind.
  { change (silent (Lookup VcapUser)). unfold Lookup. all_calls_tac; done. }
  intros [user|e]; [|done]. eapply owns_bind; [apply owns_prerequisites|].
  intros [[out err]|e] X _ HX; [|done]. destruct (HX out err eq_refl) as [Ho He].
  apply owns_quiet_bind; [apply BuildSpec_silent|]. intros [spec|e]; [|done].
  eapply (owns_bind_any _ any).
  { apply owns_quiet_bind; [done|]. intros [e|]; [done|]. apply owns_quiet_bind; [done|].
    intros [e|]; [done|]. intros [f|e]; (split; [done|]); [|done].
    intros e. split; [done|]. intros e'. split; [intros ? [= <-]; set_solver|done]. }
  intros [e|] Y HY; [done|]. apply owns_quiet_bind; [destruct (pc_hooks procCfg); done|].
  intros [e|]; [done|]. intros out' err' [= <- <-]. split; by apply HY.
Qed.

Lemma owns_run_and_close {A} (p : prog A) out err O :
  all_calls no_descriptors p → out ∈ O → err ∈ O → owns O any (deferring p (close_both out err)).
Proof.
  intros Hp Ho He. apply owns_quiet_defer; [done|]. intros x. split; [intros ? [= <-]; done|].
  intros y. split; [intros ? [= <-]; done|]. done.
Qed.

Lemma RunContainer_silent pidfile bundle id detach o1 o2 :
  silent (RunContainer c pidfile bundle id detach o1 o2).
Proof. unfold RunContainer. all_calls_tac; done. Qed.

Lemma owns_StartProcess cfg procCfg O : owns O any (StartProcess j cfg procCfg).
Proof.
  eapply owns_bind; [apply owns_setup|]. intros [[out err]|e] X _ HX; [|done].
  destruct (HX out err eq_refl) as [Ho He]. apply owns_run_and_close; [|done..].
  apply all_calls_bind; [apply RunContainer_silent|done].
Qed.

Lemma owns_RunProcess cfg procCfg O : owns O any (RunProcess j cfg procCfg).
Proof.
  eapply owns_bind; [apply owns_setup|]. intros [[out err]|e] X _ HX; [|done].
  destruct (HX out err eq_refl) as [Ho He]. apply owns_run_and_close; [|done..].
  apply RunContainer_silent.
Qed.

Lemma ContainerState_silent id : silent (rc_ContainerState (j_runcClient j) id).
Proof. change (silent (ContainerState_ c id)). unfold ContainerState_. all_calls_tac; done. Qed.

Lemma StatProcess_silent cfg : silent (StatProcess j cfg).
Proof.
  apply all_calls_bind; [apply ContainerState_silent|]. intros [[st|]|e]; done.
Qed.

Lemma RemoveProcess_silent cfg : silent (RemoveProcess j cfg).
Proof. apply all_calls_bind; [done|]. intros [e|]; [done|]. all_calls_tac; done. Qed.

Lemma StopProcess_silent fuel cfg procCfg t : silent (StopProcess j fuel cfg procCfg t).
Proof.
  assert (silent (stop_loop j fuel cfg)) as Hloop.
  { induction fuel as [|fuel IH]; cbn [stop_loop]; [done|].
    apply all_calls_bind; [done|]. intros [|]; [|all_calls_tac; done].
    apply all_calls_bind; [apply ContainerState_silent|]. intros state. unfold lift_outcome. all_calls_tac; try done; exact IH. }
  unfold StopProcess, lift_outcome. cbn [j_runcClient new_lifecycle runc_client rc_SignalContainer rc_ContainerState].
  unfold SignalContainer, run_cmd, ContainerState_. all_calls_tac; try done; exact Hloop.
Qed.

Lemma load_process_silent cfg name : silent (load_process yaml_Unmarshal cfg name).
Proof.
  unfold load_process, BPMConfig_ParseJobConfig, ParseJobConfig, lift_outcome.
  all_calls_tac; done.
Qed.

(** The lifecycle made for the command, whatever the features of the host. *)
Lemma owns_newLifecycle env k O :
  (∀ c features, owns O any (k (new_lifecycle ToBytes c features locks))) →
  owns O any (try_err (newRuncLifecycle ToBytes env locks) (λ e, e) k).
Proof.
  intros Hk. unfold newRuncLifecycle.
  eapply (owns_bind _ (λ r X, X = O ∧ ∀ j, r = Ok j →
    ∃ c features, j = new_lifecycle ToBytes c features locks)).
  - apply owns_quiet_bind; [unfold isRunningSystemd; all_calls_tac; done|]. intros systemd.
    apply owns_quiet_bind.
    { unfold Fetch, swapLimitSupported, swapLimitSupportedCgroup1, swapLimitSupportedCgroup2,
        seccompSupported. all_calls_tac; done. }
    intros [fs|e]; (split; [done|]); [|done]. intros ? [= <-]. eauto.
  - intros [j'|e] X _ [-> Hj]; [|done]. destruct (Hj j' eq_refl) as (c' & fs & ->). apply Hk.
Qed.

(** What [start] and [run] do around the process. *)
Lemma owns_guarded env cfg go O :
  (∀ X, owns X any go) →
  owns O any (try_err (stat_or_cleanup env cfg j) (λ e, e) (λ state, unless_running cfg j state go)).
Proof.
  intros Hgo. apply owns_quiet_bind.
  { unfold stat_or_cleanup, forceCleanupBrokenRuncState.
    apply all_calls_bind; [apply StatProcess_silent|].
    intros [p|e]; all_calls_tac; try done; apply RemoveProcess_silent. }
  intros [state|e]; [|done]. unfold unless_running. repeat case_decide; [done| |apply Hgo].
  apply owns_quiet_bind; [apply RemoveProcess_silent|]. by intros [e|].
Qed.
End bodies.

(** ** The lifecycle commands as phases *)

Section lifecycle_commands.
Context `{MapRange, SortSlice, JSON} (ToBytes : string → result Z).
Context (yaml_Unmarshal : string → outcome (result JobConfig)).
Context (ErrorText : error → string).
Abbreviation Execute := (RootCmd_Execute ToBytes yaml_Unmarshal ErrorText).
Abbreviation body_of := (lifecycle_body ToBytes yaml_Unmarshal).

(** One invocation of bpm, its flags parsed. *)
Record invocation := mkInvocation {
  in_fuel : nat; in_cmd : command; in_globals : Globals; in_args : list string
}.
Definition invoke (v : invocation) : prog flow :=
  Execute (in_fuel v) (in_cmd v) (in_globals v) (in_args v).

(** The lock file of the process named on the command line. *)
Definition invocation_lock (g : Globals) (args : list string) : string :=
  match args with
  | [] => ""
  | job :: _ => job_lock_path (NewHandle (LocksPath (g_boshEnv g))) job
                  (if decide (g_procName g = "") then job else g_procName g)
  end.
Definition lock_of (v : invocation) : string := invocation_lock (in_globals v) (in_args v).

Lemma owns_body fuel cmd body g args O :
  body_of fuel cmd = Some body → owns O any (body g args).
Proof.
  destruct cmd; intros [= <-]; unfold start, stop, run_command, deref;
    (destruct (g_bpmCfg g) as [cfg|]; [|done]); (destruct (g_locks g) as [locks|]; [|done]);
    (eapply (owns_bind_any _ any); [|intros [e|]; done]).
  - apply owns_quiet_bind; [apply load_process_silent|]. intros [procCfg|e]; [|done].
    apply owns_newLifecycle. intros c features. apply owns_guarded. intros X.
    eapply owns_bind_any; [apply owns_StartProcess|]. by intros [e|].
  - apply owns_newLifecycle. intros c features. apply owns_any. apply all_calls_bind; [apply StatProcess_silent|].
    intros [p|e]; [|by destruct (IsNotExist _)].
    apply all_calls_bind; [apply load_process_silent|]. intros [procCfg|e]; [|done].
    apply all_calls_bind; [apply StopProcess_silent|]. intros _.
    apply all_calls_bind; [apply RemoveProcess_silent|]. by intros [e|].
  - apply owns_quiet_bind; [apply load_process_silent|]. intros [procCfg|e]; [|done].
    cbn [prog_bind]. destruct (add_flags _ _ _) as [procCfg'|e]; [|done].
    apply owns_newLifecycle. intros c features. apply owns_guarded. intros X.
    eapply owns_bind_any; [apply owns_RunProcess|]. by intros [z [e|]].
Qed.

Lemma entering_lifecycle fuel cmd body g args :
  body_of fuel cmd = Some body → entering (invocation_lock g args) (Execute fuel cmd g args).
Proof.
  intros Hcmd.
  assert (Execute fuel cmd = execute rootPre lifecyclePre body (λ g _, releaseLifecycleLock g)) as ->
    by (destruct cmd; try discriminate Hcmd; by injection Hcmd as <-).
  apply entering_bind; [apply rootPre_no_program|]. intros f1 t1 Hpre.
  destruct f1 as [g1| |]; [|done..]. apply rootPre_Next in Hpre as ->.
  unfold lifecyclePre, validateInput. destruct args as [|job rest]; [done|].
  apply entering_bind_bind; [apply setupBpmLogs_no_program|]. intros [e|]; [done|].
  split; [done|]. intros [fd|e]; [right|by left]. split; [done|]. exists fd. split; [done|].
  split; [done|]. split; [|done].
  cbn [prog_bind prog_mbind mbind]. eapply owns_critical; [by eapply owns_body|].
  intros f3 X t3 Hbody. destruct f3 as [g3| |]; [|done..].
  eapply body_Next in Hbody as ->; [|exact Hcmd].
  intros [e|]; left; (split; [done|]); done.
Qed.

(** ** Property *)

(** C3: invocations serialise: any number of [bpm start], [bpm stop] and [bpm run]
    run at once, interleaved call by call on one kernel, each ending when it
    returns, panics or exits; between two programs (runc, a hook) that one
    invocation runs, no other invocation whose process has the same lock file
    runs a program. *)
Theorem commands_serialized {W} (h : nat → handler W) end_process `{!ProcKernel h end_process}
    (vs : gmap nat invocation) w T1 i e1 T2 j e T3 e2 T4 s' vi vj
  (Hcmds : ∀ k v, vs !! k = Some v → is_Some (body_of (in_fuel v) (in_cmd v)))
  (Hrun : pool_run h end_process (w, invoke <$> vs)
            (T1 ++ (i, e1) :: T2 ++ (j, e) :: T3 ++ (i, e2) :: T4) s')
  (He1 : ¬ ev_no_program e1) (He : ¬ ev_no_program e) (He2 : ¬ ev_no_program e2)
  (Hij : i ≠ j) (Hi : vs !! i = Some vi) (Hj : vs !! j = Some vj) :
  lock_of vi ≠ lock_of vj.
Proof.
  set (L k := from_option lock_of "" (vs !! k)).
  assert (L i = lock_of vi) as <- by (unfold L; by rewrite Hi).
  assert (L j = lock_of vj) as <- by (unfold L; by rewrite Hj).
  eapply (programs_serialized h end_process L); [|exact Hrun|done..].
  intros k p Hp. simpl in Hp. rewrite lookup_fmap in Hp.
  destruct (vs !! k) as [v|] eqn:Hv; simplify_eq/=. left. left. unfold L. rewrite Hv.
  destruct (Hcmds k v Hv) as [body Hbody]. by eapply entering_lifecycle.
Qed.
End lifecycle_commands.

(** ** A kernel *)

(** A scheduler: the processes make calls in the given order. *)
Fixpoint pool_exec {W A} (h : nat → handler W) (order : list nat) (s : @pool W A)
    : list (nat * event) * @pool W A :=
  match order with
  | [] => ([], s)
  | i :: order' =>
      match s.2 !! i with
      | Some (Call c k) =>
          let '(r, w') := h i _ c s.1 in
          let '(T, s') := pool_exec h order' (w', <[i := k r]> s.2) in
          ((i, Ev c r) :: T, s')
      | _ => pool_exec h order' s
      end
  end.

Lemma pool_exec_run {W A} (h : nat → handler W) end_process order (s : @pool W A) :
  pool_run h end_process s (pool_exec h order s).1 (pool_exec h order s).2.
Proof.
  revert s. induction order as [|i order IH]; intros [w ps]; simpl; [apply pool_refl|].
  destruct (ps !! i) as [[a|x| |B c k]|] eqn:Hi; [apply IH..| |apply IH].
  destruct (h i B c w) as [r w'] eqn:Hc.
  specialize (IH (w', <[i := k r]> ps)).
  destruct (pool_exec h order (w', <[i := k r]> ps)) as [T s'].
  eapply (pool_cons _ _ _ [_]); [by apply pool_call|exact IH].
Qed.

Record pkernel := mkPkernel {
  pk_files : gmap (nat * nat) string;
  pk_locks : gmap string (nat * nat)
}.

Definition drop_holder (x : nat * nat) (locks : gmap string (nat * nat)) :=
  filter (λ pl, pl.2 ≠ x) locks.

(** As in the kernel of one process, a LOCK_EX that would block is answered with
    EINTR. *)
Definition pkernel_handler (i : nat) : handler pkernel := λ B c w,
  match c in sys B return B * pkernel with
  | OpenFile p _ _ =>
      let fd := fresh (set_map snd (dom (pk_files w)) : gset nat) in
      (Ok fd, mkPkernel (<[(i, fd) := p]> (pk_files w)) (pk_locks w))
  | Flock fd LOCK_EX =>
      match pk_files w !! (i, fd) with
      | None => (Some (SysError "flock" "" (EOTHER 9)), w)
      | Some p =>
          match pk_locks w !! p with
          | None => (None, mkPkernel (pk_files w) (<[p := (i, fd)]> (pk_locks w)))
          | Some x =>
              if decide (x = (i, fd)) then (None, w)
              else (Some (SysError "flock" p (EOTHER 4)), w)
          end
      end
  | Flock fd LOCK_UN => (None, mkPkernel (pk_files w) (drop_holder (i, fd) (pk_locks w)))
  | FileClose fd =>
      (None, mkPkernel (delete (i, fd) (pk_files w)) (drop_holder (i, fd) (pk_locks w)))
  | c' => (default_answer c', w)
  end.

Definition pkernel_exit (i : nat) (w : pkernel) : pkernel :=
  mkPkernel (filter (λ xp, xp.1.1 ≠ i) (pk_files w)) (filter (λ pl, pl.2.1 ≠ i) (pk_locks w)).

Lemma drop_holder_ne x locks q : locks !! q ≠ Some x → drop_holder x locks !! q = locks !! q.
Proof.
  intros Hq. unfold drop_holder. rewrite map_lookup_filter.
  destruct (locks !! q) as [y|]; simpl; [|done]. by rewrite option_guard_True by congruence.
Qed.

#[export] Instance pkernel_proc : ProcKernel pkernel_handler pkernel_exit.
Proof.
  refine {| pfile w i fd := pk_files w !! (i, fd); pholder w p := pk_locks w !! p |}.
  - intros i p flags perm w fd w' Hr. simpl in Hr. simplify_eq/=.
    set (fd := fresh _). assert (pk_files w !! (i, fd) = None) as Hnone.
    { apply not_elem_of_dom. intros Hin.
      apply (is_fresh (set_map snd (dom (pk_files w)) : gset nat)). apply elem_of_map.
      by exists (i, fd). }
    split_and!; [done|apply lookup_insert_eq| |done].
    intros j fd' Hne. by rewrite lookup_insert_ne.
  - intros i p flags perm w e w' Hr. simpl in Hr. by simplify_eq.
  - intros i fd [] w r w' Hr j fd'; simpl in Hr; [|by simplify_eq].
    destruct (pk_files w !! (i, fd)) as [p|]; [|by simplify_eq].
    destruct (pk_locks w !! p); [|by simplify_eq]. by case_decide; simplify_eq.
  - intros i fd w w' Hr. simpl in Hr. destruct (pk_files w !! (i, fd)) as [p|] eqn:Hp; [|done].
    exists p. split; [done|]. destruct (pk_locks w !! p) as [x|] eqn:Hl.
    + case_decide; simplify_eq. auto.
    + simplify_eq/=. split_and!; [by left|apply lookup_insert_eq|].
      intros q Hq. by rewrite lookup_insert_ne.
  - intros i fd w e w' Hr q. simpl in Hr.
    destruct (pk_files w !! (i, fd)) as [p|]; [|by simplify_eq].
    destruct (pk_locks w !! p); [|by simplify_eq]. by case_decide; simplify_eq.
  - intros i fd w r w' Hr q Hq. simpl in Hr. simplify_eq/=. by apply drop_holder_ne.
  - intros i fd w r w' Hr. simpl in Hr. simplify_eq/=. split.
    + intros q Hq. by apply drop_holder_ne.
    + intros j fd' Hne. by rewrite lookup_delete_ne.
  - intros i B c w r w' Hd Hr. destruct c; try discriminate Hd; simpl in Hr; by simplify_eq.
  - intros i w. split.
    + intros j fd Hne. simpl. rewrite map_lookup_filter.
      destruct (pk_files w !! (j, fd)); simpl; [|done]. by rewrite option_guard_True.
    + intros q j fd Hne Hq. simpl. rewrite map_lookup_filter, Hq. simpl.
      by rewrite option_guard_True.
Defined.

Definition sample_invocation (job : string) : invocation :=
  mkInvocation 3 CmdStart sample_globals [job].

Definition sample_invocations : gmap nat invocation :=
  <[0 := sample_invocation "server"]> (<[1 := sample_invocation "api"]> ∅).

Abbreviation sample_invoke :=
  (@invoke map_range_list sort_slice_merge go_JSON sample_ToBytes sim_yaml (λ _, "")).

(** The second invocation queries runc between two programs of the first. *)
Definition sample_execution : list (nat * event) * pool :=
  pool_exec pkernel_handler (replicate 21 0 ++ replicate 21 1 ++ replicate 30 0)
    (mkPkernel ∅ ∅, sample_invoke <$> sample_invocations).

Lemma commands_serialized_witness :
  ∃ T1 e1 T2 e T3 e2 T4,
    pool_run pkernel_handler pkernel_exit (mkPkernel ∅ ∅, sample_invoke <$> sample_invocations)
      (T1 ++ (0, e1) :: T2 ++ (1, e) :: T3 ++ (0, e2) :: T4) sample_execution.2
    ∧ ¬ ev_no_program e1 ∧ ¬ ev_no_program e ∧ ¬ ev_no_program e2
    ∧ lock_of (sample_invocation "server") ≠ lock_of (sample_invocation "api").
Proof.
  assert (∃ T1 e1 T2 e T3 e2 T4,
    sample_execution.1 = T1 ++ (0, e1) :: T2 ++ (1, e) :: T3 ++ (0, e2) :: T4
    ∧ ¬ ev_no_program e1 ∧ ¬ ev_no_program e ∧ ¬ ev_no_program e2)
    as (T1 & e1 & T2 & e & T3 & e2 & T4 & HT & N1 & N & N2).
  { assert (∃ e, sample_execution.1 !! 20 = Some (0, e) ∧ ¬ ev_no_program e) as (e1 & H1 & N1)
      by (eexists; split; [vm_compute; reflexivity|intros []]).
    assert (∃ e, List.skipn 21 sample_execution.1 !! 20 = Some (1, e) ∧ ¬ ev_no_program e)
      as (e & H & N) by (eexists; split; [vm_compute; reflexivity|intros []]).
    assert (∃ e, List.skipn 21 (List.skipn 21 sample_execution.1) !! 1 = Some (0, e) ∧ ¬ ev_no_program e)
      as (e2 & H2 & N2) by (eexists; split; [vm_compute; reflexivity|intros []]).
    exists (List.firstn 20 sample_execution.1), e1, (List.firstn 20 (List.skipn 21 sample_execution.1)), e,
      (List.firstn 1 (List.skipn 21 (List.skipn 21 sample_execution.1))), e2,
      (List.skipn 2 (List.skipn 21 (List.skipn 21 sample_execution.1))).
    split; [|auto].
    rewrite (take_drop_middle _ _ _ H2), (take_drop_middle _ _ _ H), (take_drop_middle _ _ _ H1).
    reflexivity. }
  exists T1, e1, T2, e, T3, e2, T4.
  assert (pool_run pkernel_handler pkernel_exit
    (mkPkernel ∅ ∅, sample_invoke <$> sample_invocations)
    (T1 ++ (0, e1) :: T2 ++ (1, e) :: T3 ++ (0, e2) :: T4) sample_execution.2) as Hrun.
  { rewrite <- HT. apply pool_exec_run. }
  split; [exact Hrun|]. split; [exact N1|]. split; [exact N|]. split; [exact N2|].
  eapply (commands_serialized sample_ToBytes sim_yaml (λ _, "")
    pkernel_handler pkernel_exit sample_invocations _ T1 0 e1 T2 1 e T3 e2 T4 _ _ _).
  - intros k v Hk. unfold sample_invocations in Hk.
    apply lookup_insert_Some in Hk as [[_ <-]|[_ Hk]]; [by eexists|].
    apply lookup_insert_Some in Hk as [[_ <-]|[_ Hk]]; [by eexists|done].
  - exact Hrun.
  - exact N1.
  - exact N.
  - exact N2.
  - discriminate.
  - reflexivity.
  - reflexivity.
Defined.
