(* ===== verification/Inspect.v ===== *)
(** * Commands that only look
    (src/bpm/commands: list.go, pid.go, shell.go, trace.go, logs.go)

    [bpm list], [pid], [shell], [trace] and [logs] inspect what [start], [stop] and
    [run] manage.  This file shows what they may do to the host: read, print, and run
    runc's [list], [state] and [exec], strace and tail.  They write no file, remove
    nothing, take no lock and never create, signal or delete a container. *)

From S2P Require Import Prelude GoStrings GoPath JobID Bosh Specs Sys Config SafeIO Locks Host Cgroups Adapter Client Lifecycle Tabwriter Presenters Commands Program.

(** ** What is allowed *)

(** The programs an inspection of the environment runs: three commands of its runc, and
    two tools on what it names. *)
Inductive inspecting_cmd (env : Env) : Cmd → Prop :=
| Inspect_list systemd cmd :
    cmd = buildCmd (NewRuncClient (RuncPath env) (RuncRoot env) systemd) "list" ["--format"; "json"] →
    inspecting_cmd env cmd
| Inspect_state systemd id cmd :
    cmd = buildCmd (NewRuncClient (RuncPath env) (RuncRoot env) systemd) "--log-format"
            ["json"; "state"; id] →
    inspecting_cmd env cmd
| Inspect_exec systemd term id cmd :
    cmd = with_output (with_stdin
            (buildCmd (NewRuncClient (RuncPath env) (RuncRoot env) systemd) "exec"
               ["--tty"; "--env"; "TERM=" +:+ term; id; "/bin/bash"])) ToStdout ToStderr →
    inspecting_cmd env cmd
| Inspect_strace pid cmd :
    cmd_path cmd = "strace" →
    cmd_args cmd = ["-s"; "100"; "-f"; "-y"; "-yy"; "-p"; Itoa pid] →
    inspecting_cmd env cmd
| Inspect_tail cfg g cmd :
    cmd_path cmd = "tail" → cmd_args cmd = tailArgs g cfg → inspecting_cmd env cmd.

(** The calls of an inspection: those that read or print, the preparation every command
    makes (the lock directory, cgroups), and the programs above. *)
Definition inspecting (env : Env) (B : Type) (c : sys B) : Prop :=
  match c with
  | Stat _ | Lstat _ | ReadDir _ | ReadFile _ | ReadStream _ | Getenv _ | Print _ _
  | user_Current | PathExists _ | IsCgroup2HybridMode | FindCgroupMountpoint _ _
  | SelectChild | SignalChild _ => True
  | MkdirAll p m => (p = LocksPath env ∧ m = mode_0700) ∨ setup_call _ c
  | RunCmd cmd | CombinedOutput cmd | Output cmd | StartCmd cmd => inspecting_cmd env cmd
  | _ => setup_call _ c
  end.

Definition inspection (c : command) : Prop :=
  c ∈ [CmdList; CmdPid; CmdShell; CmdTrace; CmdLogs].

(** ** The hooks *)

Section inspection.
Context `{MapRange, SortSlice, JSON} (ToBytes : string → result Z).
Context (yaml_Unmarshal : string → outcome (result JobConfig)) (ErrorText : error → string).
Context (env : Env).
Abbreviation looks := (all_calls (inspecting env)).

(** A hook whose flow keeps the environment. *)
Definition keeps_env (f : flow) : Prop :=
  match f with Next g => g_boshEnv g = env | _ => True end.
Definition hook_looks (h : hook) : Prop := ∀ g args, g_boshEnv g = env → looks (h g args).

Lemma Setup_looks : looks Setup.
Proof.
  eapply all_calls_mono; [|apply Setup_calls]. intros B c Hc. destruct c; simpl in *; tauto.
Qed.

Lemma rootPre_looks : hook_looks rootPre.
Proof.
  intros g args Hg. unfold rootPre, version, isRunningSystemd, returns.
  all_calls_tac; try done; [by left; rewrite Hg|apply Setup_looks].
Qed.

(** What follows the creation of a lifecycle, which is one for runc of the environment. *)
Lemma with_lifecycle_looks {A} locks (k : result RuncLifecycle → prog A) :
  (∀ systemd features, looks (k (Ok (new_lifecycle ToBytes
     (NewRuncClient (RuncPath env) (RuncRoot env) systemd) features locks)))) →
  (∀ e, looks (k (Err e))) →
  looks (prog_bind (newRuncLifecycle ToBytes env locks) k).
Proof.
  intros Hk He. unfold newRuncLifecycle, isRunningSystemd. split; [done|]. intros r.
  cbn [prog_bind]. unfold try_or, Fetch, swapLimitSupported. split; [done|]. intros [].
  - split; [done|]. intros hybrid. split; [by destruct hybrid|]. intros e.
    destruct e; (split; [done|]; intros r'; apply Hk).
  - split; [done|]. intros [mp|e]; [|apply He]. split; [done|]. intros r1. split; [done|].
    intros r2. apply Hk.
Qed.

Lemma lift_looks {A} (o : outcome A) : looks (lift_outcome o).
Proof. by destruct o. Qed.

Lemma ParseJobConfig_looks cfg : looks (BPMConfig_ParseJobConfig yaml_Unmarshal cfg).
Proof.
  unfold BPMConfig_ParseJobConfig, ParseJobConfig. all_calls_tac; done || apply lift_looks.
Qed.

Lemma declared_looks jobs ps : looks (declared_processes yaml_Unmarshal ErrorText env jobs ps).
Proof.
  revert ps. induction jobs as [|job jobs IH]; intros ps; [done|].
  apply all_calls_bind; [apply ParseJobConfig_looks|]. intros [jobCfg|e].
  - apply all_calls_bind; [apply lift_looks|]. intros ps'. apply IH.
  - destruct (os_IsNotExist e); [apply IH|]. split; [done|]. intros r. apply IH.
Qed.

Lemma merge_looks running ps : looks (merge_running ErrorText running ps).
Proof.
  revert ps. induction running as [|p running IH]; intros ps; [done|].
  apply all_calls_bind; [apply lift_looks|]. intros [ps' [e|]]; [|apply IH].
  split; [done|]. intros r. apply IH.
Qed.

Lemma write_out_looks out : looks (write_out out).
Proof. destruct out; [done|]. by split. Qed.

Lemma Write_looks b s : looks (tabwriter_Write b s).
Proof.
  revert b. induction s as [|ch s IH]; intros b; [done|]. cbn [tabwriter_Write].
  destruct (write_byte b ch) as [b' []]; [|apply IH].
  apply all_calls_bind; [apply write_out_looks|]. intros [e|]; [done|apply IH].
Qed.

Lemma PrintJobs_looks ps : looks (PrintJobs ps).
Proof.
  assert (∀ w args, looks (printRow w args)) as Hrow.
  { intros w args. apply all_calls_bind; [apply Write_looks|]. by intros r. }
  assert (∀ w, looks (print_jobs_loop w ps)) as Hloop.
  { induction ps as [|p ps' IH]; intros w; [done|]. apply all_calls_bind; [apply lift_looks|].
    intros [name|e]; [|done]. apply all_calls_bind; [apply Hrow|]. intros w'. apply IH. }
  apply all_calls_bind; [apply Hrow|]. intros w. apply all_calls_bind; [apply Hloop|].
  intros [w'|e]; [|done]. apply all_calls_bind; [|done].
  apply all_calls_bind; [apply write_out_looks|done].
Qed.

Lemma list_looks : hook_looks (listContainers ToBytes yaml_Unmarshal ErrorText).
Proof.
  intros g args Hg. unfold listContainers, deref. rewrite Hg. destruct (g_locks g) as [locks|]; [|done].
  apply all_calls_bind; [by split|]. intros jobs.
  apply all_calls_bind; [apply declared_looks|]. intros ps.
  apply with_lifecycle_looks; [|done]. intros systemd features.
  apply all_calls_bind; [|intros [running|e]].
  - split; [by eapply Inspect_list|]. intros [data [e|]]; [done|].
    cbn. by destruct (json_ContainerStates data).
  - apply all_calls_bind; [apply merge_looks|]. intros ps'.
    apply all_calls_bind; [apply PrintJobs_looks|]. intros [e|]; [|done]. by split.
  - by split.
Qed.

(** The commands about one running process. *)
Lemma running_looks g k :
  g_boshEnv g = env →
  (∀ cfg systemd features locks p, looks (k cfg (new_lifecycle ToBytes
     (NewRuncClient (RuncPath env) (RuncRoot env) systemd) features locks) p)) →
  looks (with_running_process ToBytes g k).
Proof.
  intros Hg Hk. unfold with_running_process, deref. rewrite Hg.
  destruct (g_bpmCfg g) as [cfg|]; [|done]. destruct (g_locks g) as [locks|]; [|done].
  apply all_calls_bind; [|done]. apply with_lifecycle_looks; [|done]. intros systemd features.
  apply all_calls_bind; [|intros [p|e]; [apply Hk|done]].
  split; [by eapply Inspect_state|]. intros [data err]. cbn.
  destruct err; [destruct (decodeContainerStateErr _ _)|destruct (json_State data)]; done.
Qed.

Lemma forward_looks fuel : looks (forward_signals fuel).
Proof.
  induction fuel as [|fuel IH]; [done|]. split; [done|]. intros [sig|err]; [|done].
  split; [done|]. intros r. apply IH.
Qed.

Lemma pid_looks : hook_looks (pidForJob ToBytes).
Proof. intros g args Hg. apply running_looks; [done|]. intros. by split. Qed.

Lemma shell_looks : hook_looks (shell ToBytes).
Proof.
  intros g args Hg. apply running_looks; [done|]. intros cfg systemd features locks p.
  split; [done|]. intros term. split; [by eapply Inspect_exec|]. done.
Qed.

Lemma trace_looks fuel : hook_looks (trace_command ToBytes fuel).
Proof.
  intros g args Hg. apply running_looks; [done|]. intros cfg systemd features locks p.
  split; [by eapply (Inspect_strace _ (pr_pid p))|]. intros [e|]; [done|]. cbn [prog_bind].
  apply all_calls_bind; [apply forward_looks|done].
Qed.

Lemma logs_looks fuel : hook_looks (logsForJob fuel).
Proof.
  intros g args Hg. unfold logsForJob, deref. destruct (g_bpmCfg g) as [cfg|]; [|done].
  apply all_calls_bind.
  - induction (filesToTail g cfg) as [|f files IH]; [done|]. split; [done|].
    intros [fi|e]; [apply IH|]. cbn. destruct (os_IsNotExist e); [done|apply IH].
  - intros []; [done|]. split; [by eapply (Inspect_tail _ cfg g)|].
    intros [e|]; [done|]. cbn [mbind prog_mbind prog_bind].
    apply all_calls_bind; [apply forward_looks|]. intros err. case_decide; [done|]. by split.
Qed.

(** The hooks of an inspection: the one of the root, one that validates, and a body. *)
Lemma execute_looks (pre body : hook) g args tr f :
  (∀ g args, ∃ f, pre g args = Ret f
     ∧ ∀ g', f = Next g' → g_boshEnv g' = g_boshEnv g) →
  hook_looks body → g_boshEnv g = env →
  exec_trace (execute rootPre pre body no_hook g args) tr f →
  Forall (λ e, match e with Ev c _ => inspecting env _ c end) tr.
Proof.
  intros Hpre Hbody Hg Htr.
  apply exec_trace_bind in Htr as [(f1 & t1 & t2 & -> & E1 & Htr)|[(x & E1 & _)|[E1 _]]];
    [|eapply all_calls_trace; [by apply rootPre_looks|exact E1]..].
  apply Forall_app. split; [eapply all_calls_trace; [by apply rootPre_looks|exact E1]|].
  destruct f1 as [g1| |]; [|by destruct Htr as [-> _]..]. apply rootPre_Next in E1 as ->.
  eapply all_calls_trace; [|exact Htr].
  destruct (Hpre (set_locks (NewHandle (LocksPath (g_boshEnv g))) g) args) as (f2 & -> & Hf2).
  cbn [prog_bind]. destruct f2 as [g2| |]; [|done..]. apply all_calls_bind.
  - apply Hbody. by rewrite (Hf2 g2).
  - by intros [].
Qed.

Lemma inspectPre_env g args :
  ∃ f, inspectPre g args = Ret f ∧ ∀ g', f = Next g' → g_boshEnv g' = g_boshEnv g.
Proof.
  unfold inspectPre, validateInput. destruct args as [|job args]; eexists; (split; [done|]);
    intros g' [=]; by subst.
Qed.

(** C34: inspection is harmless: whatever the system answers, [bpm list], [pid], [shell],
    [trace] and [logs] only read and print, make the lock directory and the cgroup
    mounts every command prepares, and run nothing but [list], [state] and [exec] of the
    environment's runc, [strace -p] and [tail]: they write and remove no file, take no
    lock, and create, signal or delete no container. *)
Theorem inspections_only_look fuel c args g tr f
  (Hc : inspection c) (Hg : g_boshEnv g = env)
  (Htr : exec_trace (RootCmd_Execute ToBytes yaml_Unmarshal ErrorText fuel c g args) tr f) :
  Forall (λ e, match e with Ev c _ => inspecting env _ c end) tr.
Proof.
  assert (∀ g args, ∃ f, no_hook g args = Ret f
    ∧ ∀ g', f = Next g' → g_boshEnv g' = g_boshEnv g) as Hno.
  { intros g0 args0. eexists. split; [done|]. by intros g' [= ->]. }
  unfold inspection in Hc. rewrite !elem_of_cons, elem_of_nil in Hc.
  destruct Hc as [->|[->|[->|[->|[->|[]]]]]]; simpl in Htr;
    (eapply execute_looks; [..|exact Htr]; [exact Hno || exact inspectPre_env| |done]).
  - apply list_looks.
  - apply pid_looks.
  - apply shell_looks.
  - apply trace_looks.
  - apply logs_looks.
Qed.
End inspection.

Lemma inspections_only_look_witness :
  ∃ tr f, exec_trace (@RootCmd_Execute map_range_list sort_slice_merge go_JSON sample_ToBytes
    sim_yaml (λ _, "") 3 CmdLogs sample_globals ["server"]) tr f
  ∧ length tr = 12
  ∧ Forall (λ e, match e with Ev c _ => inspecting (g_boshEnv sample_globals) _ c end) tr.
Proof.
  set (p := @RootCmd_Execute map_range_list sort_slice_merge go_JSON sample_ToBytes
    sim_yaml (λ _, "") 3 CmdLogs sample_globals ["server"]).
  pose proof (trace_of_exec idle_handler p tt) as Htr.
  exists (trace_of idle_handler p tt), (run idle_handler p tt).1.
  split; [exact Htr|]. split; [vm_compute; reflexivity|].
  refine (@inspections_only_look map_range_list sort_slice_merge go_JSON sample_ToBytes sim_yaml
    (λ _, "") _ 3 CmdLogs ["server"]
    sample_globals _ _ _ eq_refl Htr).
  unfold inspection. set_solver.
Defined.
