(* ===== verification/Listing.v ===== *)
(** * What [bpm list] prints
    (src/bpm/commands/list.go with config, lifecycle, client and presenters)

    [bpm list] puts together what four components know: the directory of jobs, their
    configurations, runc's list of containers, and the table writer.  This file shows
    what the whole command prints, for every host that answers consistently. *)

From S2P Require Import Prelude GoStrings GoPath JobID Bosh Specs Sys Json SpecJson Config SafeIO Locks Host Adapter Client Containers Lifecycle Tabwriter Presenters Commands Bytefmt Program.

(** ** Programs under assumptions on the answers *)

(** [under H Q p]: when every call is answered as [H] allows, [p] neither panics nor
    runs out of fuel, and its calls and its value satisfy [Q]. *)
Fixpoint under {A} (H : event → Prop) (Q : list event → A → Prop) (p : prog A) : Prop :=
  match p with
  | Ret a => Q [] a
  | Crash _ | OutOfFuel => False
  | Call c k => ∀ r, H (Ev c r) → under H (λ tr a, Q (Ev c r :: tr) a) (k r)
  end.

Lemma under_sound {A} H (Q : list event → A → Prop) (p : prog A) tr f :
  under H Q p → exec_trace p tr f → Forall H tr → ∃ a, f = FVal a ∧ Q tr a.
Proof.
  revert Q tr. induction p as [a|x| |B c k IH]; intros Q tr Hp Htr Htr_ok; simpl in Hp; [|done..|].
  - apply exec_trace_Ret in Htr as [-> ->]. eauto.
  - apply exec_trace_Call in Htr as (r & tr' & -> & Htr). apply Forall_cons in Htr_ok as [Hr Ht].
    exact (IH r _ tr' (Hp r Hr) Htr Ht).
Qed.

Lemma under_mono {A} H (Q Q' : list event → A → Prop) (p : prog A) :
  under H Q p → (∀ tr a, Q tr a → Q' tr a) → under H Q' p.
Proof.
  revert Q Q'. induction p as [a|x| |B c k IH]; intros Q Q' Hp HQ; simpl in *; [auto|done..|].
  intros r Hr. eapply IH; [by apply Hp|]. intros tr a. apply HQ.
Qed.

Lemma under_bind {A B} H (R : list event → A → Prop) (Q : list event → B → Prop)
    (p : prog A) (k : A → prog B) :
  under H R p → (∀ tr a, R tr a → under H (λ tr' b, Q (tr ++ tr') b) (k a)) →
  under H Q (prog_bind p k).
Proof.
  revert R Q. induction p as [a|x| |C c k' IH]; intros R Q Hp Hk; simpl in *;
    [exact (Hk [] a Hp)|done..|].
  intros r Hr. eapply IH; [by apply Hp|]. intros tr a. apply (Hk (Ev c r :: tr)).
Qed.

Lemma under_bind_sound {A B} H (R : list event → A → Prop) (p : prog A) (k : A → prog B) tr f :
  under H R p → exec_trace (prog_bind p k) tr f → Forall H tr →
  ∃ t1 t2 a, tr = t1 ++ t2 ∧ R t1 a ∧ exec_trace (k a) t2 f.
Proof.
  intros Hp Htr Hok.
  apply exec_trace_bind in Htr as [(a & t1 & t2 & -> & E & Htr)|[(x & E & ->)|[E ->]]].
  - apply Forall_app in Hok as [Hok _].
    destruct (under_sound _ _ _ _ _ Hp E Hok) as (a' & [= <-] & HR). eauto 6.
  - by destruct (under_sound _ _ _ _ _ Hp E Hok) as (a & ? & _).
  - by destruct (under_sound _ _ _ _ _ Hp E Hok) as (a & ? & _).
Qed.

(** What holds of all traces with allowed answers. *)
Lemma under_traces {A} (H : event → Prop) (Q : list event → A → Prop) (p : prog A) :
  (∀ tr f, exec_trace p tr f → Forall H tr → ∃ a, f = FVal a ∧ Q tr a) → under H Q p.
Proof.
  revert Q. induction p as [a|x| |B c k IH]; intros Q Hp; simpl.
  - destruct (Hp [] (FVal a)) as (a' & [= <-] & HQ); done.
  - by destruct (Hp [] (FPanic x)) as (a & ? & _).
  - by destruct (Hp [] FFuel) as (a & ? & _).
  - intros r Hr. apply IH. intros tr f Htr Hok. apply (Hp (Ev c r :: tr)); [|by constructor].
    apply exec_trace_Call. eauto.
Qed.

(** ** The host and the table *)

(** What a trace prints on standard output. *)
Definition ev_stdout (e : event) : option string :=
  match e with
  | Ev c _ => match c with Print Stdout text => Some text | _ => None end
  end.
Definition stdout_of (tr : list event) : list string := omap ev_stdout tr.
Definition messages (tr : list event) : nat := length (omap ev_printed tr).

Lemma stdout_of_app t1 t2 : stdout_of (t1 ++ t2) = stdout_of t1 ++ stdout_of t2.
Proof. apply omap_app. Qed.
Lemma messages_app t1 t2 : messages (t1 ++ t2) = messages t1 + messages t2.
Proof. unfold messages. by rewrite omap_app, length_app. Qed.

(** The name a process is shown by. *)
Definition display_name (job proc : string) : string :=
  if decide (job = proc) then job else job +:+ "." +:+ proc.

Section listing.
Context `{MapRange, SortSlice, JSON} (ToBytes : string → result Z).
Context (yaml_Unmarshal : string → outcome (result JobConfig)) (ErrorText : error → string).
(** The host: its jobs, what reading the configuration file of a job gives, its
    containers. *)
Context (env : Env) (jobs : list string) (files : string → result string).
Context (states : list ContainerState).

(** The configuration of a job: read, decoded and validated; decoding and validating
    panic on some documents. *)
Definition cfg (job : string) : outcome (result JobConfig) :=
  match files job with
  | Err e => Val (Err e)
  | Ok data =>
      r ←! yaml_Unmarshal data;
      match r with
      | Err e => Val (Err e)
      | Ok c =>
          e ←! JobConfig_Validate c env (DefaultVolumes (NewBPMConfig env job ""));
          Val (match e with Some e => Err e | None => Ok c end)
      end
  end.

(** The processes of some jobs, in order. *)
Definition declared_names (js : list string) : list string :=
  js ≫= λ job, match cfg job with
               | Val (Ok c) => (λ p, display_name job (pc_name p)) <$> omap id (Processes c)
               | _ => []
               end.
(** A configuration that is there but cannot be used. *)
Definition invalid_config (job : string) : bool :=
  match cfg job with Val (Err e) => negb (os_IsNotExist e) | _ => false end.
(** A configuration that makes the decoder or the validation panic. *)
Definition panicking (job : string) : Prop := ∃ x, cfg job = Panics x.
#[local] Instance panicking_dec job : Decision (panicking job).
Proof. unfold panicking. destruct (cfg job) as [r|x]; [right; by intros [x ?]|left; eauto]. Defined.
(** An identifier of a container that [Decode] can look at. *)
Definition decodable (c : ContainerState) : Prop := ∃ r, Decode (cs_id c) = Val r.
#[local] Instance decodable_dec c : Decision (decodable c).
Proof. unfold decodable. destruct (Decode (cs_id c)) as [r|x]; [left; eauto|right; by intros [r ?]]. Defined.


Definition row (name : string) : trow :=
  match List.find (λ c, bool_decide (cs_id c = Encode name)) states with
  | Some c => (name, if decide (cs_pid c ≤ 0)%Z then "-" else Itoa (cs_pid c),
               containerStateToString (cs_status c))
  | None => (name, "-", ProcessStateStopped)
  end.

(** An answer that fits the host: the directory of jobs is the list of jobs, the
    configuration files are read as they are, and runc's list, when it gives one, is that
    of the containers. *)
Definition answers (e : event) : Prop :=
  match e with
  | Ev c r =>
      match c in sys B return B → Prop with
      | ReadDir path => λ r, path = path_Join [env_root env; "jobs"] → r = Ok jobs
      | ReadFile path => λ r, ∀ job, job ∈ jobs → path = JobConfigPath (NewBPMConfig env job "") →
          r = files job
      | Output _ => λ r, r.2 = None → json_ContainerStates r.1 = Ok states
      | _ => λ _, True
      end r
  end.
Abbreviation shows := (under answers).

(** ** The parts of the command *)

Definition stopped (name : string) : Process := mkProcess (Encode name) 0 ProcessStateStopped.

Lemma stopped_processes_spec job ps dv :
  validate_processes ps env dv = Val None →
  stopped_processes env job ps
  = Val (stopped <$> ((λ p, display_name job (pc_name p)) <$> omap id ps)).
Proof.
  induction ps as [|[p|] ps IH]; simpl; [done| |done].
  destruct (ProcessConfig_Validate p env dv); [done|]. intros Hv. by rewrite (IH Hv).
Qed.

(** Reading a configuration prints nothing and gives what the host has, validated. *)
Definition quiet (tr : list event) : Prop := stdout_of tr = [] ∧ messages tr = 0.

Lemma quiet_app t1 t2 : quiet t1 → quiet t2 → quiet (t1 ++ t2).
Proof. intros [E1 E2] [E3 E4]. unfold quiet. by rewrite stdout_of_app, messages_app, E1, E2, E3, E4. Qed.

Lemma ParseJobConfig_trace job tr f :
  job ∈ jobs → Forall answers tr →
  exec_trace (BPMConfig_ParseJobConfig yaml_Unmarshal (NewBPMConfig env job "")) tr f →
  quiet tr ∧ f = match cfg job with Val r => FVal r | Panics x => FPanic x end.
Proof.
  intros Hjob Hans. unfold BPMConfig_ParseJobConfig, ParseJobConfig, try_or, check_or.
  intros Htr%prog_bind_assoc_trace. apply exec_trace_Call in Htr as (r & t & -> & Htr).
  apply Forall_cons in Hans as [Hr _]. specialize (Hr job Hjob eq_refl). subst r.
  unfold cfg. destruct (files job) as [data|e]; [|by destruct Htr as [-> ->]]. cbn in Htr |- *.
  destruct (yaml_Unmarshal data) as [[c|e]|x]; cbn in Htr |- *; [|by destruct Htr as [-> ->]..].
  destruct (JobConfig_Validate c env _) as [[e|]|x]; cbn in Htr |- *; by destruct Htr as [-> ->].
Qed.

Lemma cfg_validated job c :
  cfg job = Val (Ok c) → ∃ dv, validate_processes (Processes c) env dv = Val None.
Proof.
  unfold cfg. destruct (files job) as [data|e]; [|done]. cbn.
  destruct (yaml_Unmarshal data) as [[c'|e]|x]; cbn; [|done..].
  unfold JobConfig_Validate. destruct (validate_processes _ _ _) as [[e|]|x] eqn:Hv; cbn; [done| |done].
  intros [= <-]. eauto.
Qed.

Lemma ParseJobConfig_shows job :
  job ∈ jobs → ¬ panicking job →
  shows (λ tr r, cfg job = Val r ∧ quiet tr)
    (BPMConfig_ParseJobConfig yaml_Unmarshal (NewBPMConfig env job "")).
Proof.
  intros Hjob Hnp. apply under_traces. intros tr f Htr Hans.
  apply ParseJobConfig_trace in Htr as [Hq ->]; [|done..].
  destruct (cfg job) as [r|x] eqn:Hc; [eauto|]. destruct Hnp. by exists x.
Qed.

Lemma declared_shows js ps :
  js ⊆ jobs → Forall (λ job, ¬ panicking job) js →
  shows (λ tr r, r = ps ++ (stopped <$> declared_names js) ∧ stdout_of tr = []
           ∧ messages tr = length (filter (λ job, invalid_config job = true) js))
    (declared_processes yaml_Unmarshal ErrorText env js ps).
Proof.
  intros Hjs Hnp. revert ps. induction js as [|job js IH]; intros ps.
  { split_and!; [|done..]. simpl. by rewrite (right_id_L [] (++)). }
  apply Forall_cons in Hnp as [Hjob Hnp]. specialize (IH ltac:(set_solver) Hnp).
  eapply under_bind; [apply ParseJobConfig_shows; [set_solver|done]|]. intros tr r (Hcfg & Ho & Hm).
  unfold declared_names. cbn [mbind list_bind]. fold (declared_names js). rewrite Hcfg.
  destruct r as [c|e].
  - destruct (cfg_validated _ _ Hcfg) as [dv Hdv]. rewrite (stopped_processes_spec _ _ _ Hdv).
    cbn [lift_outcome mbind prog_mbind prog_bind]. eapply under_mono; [apply IH|].
    intros tr' r (-> & Ho' & Hm'). rewrite stdout_of_app, messages_app, Ho, Hm, Ho', Hm', filter_cons_False
      by (unfold invalid_config; by rewrite Hcfg).
    split_and!; [|done..]. by rewrite fmap_app, (assoc_L (++)).
  - assert (invalid_config job = negb (os_IsNotExist e)) as Hi
      by (unfold invalid_config; by rewrite Hcfg).
    destruct (os_IsNotExist e).
    + eapply under_mono; [apply IH|]. intros tr' r (-> & Ho' & Hm').
      by rewrite stdout_of_app, messages_app, Ho, Hm, Ho', Hm', filter_cons_False by (by rewrite Hi).
    + intros werr _. eapply under_mono; [apply IH|]. intros tr' r (-> & Ho' & Hm').
      rewrite stdout_of_app, messages_app, Ho, Hm, filter_cons_True by done.
      split_and!; [done|exact Ho'|]. cbn. by f_equal.
Qed.

(** Creating the lifecycle and asking runc. *)
Lemma newRuncLifecycle_shows locks :
  shows (λ tr r, quiet tr ∧ ∀ j, r = Ok j → ∃ systemd features,
           j = new_lifecycle ToBytes (NewRuncClient (RuncPath env) (RuncRoot env) systemd)
                 features locks)
    (newRuncLifecycle ToBytes env locks).
Proof.
  intros r _. intros [] _.
  - intros hybrid _. intros [] _ r' _; cbn; (split; [done|]); intros j [= <-]; eauto.
  - intros [mp|e] _; [|by cbn].
    intros r1 _ r2 _. cbn. split; [done|]. intros j [= <-]. eauto.
Qed.

Definition container_process (c : ContainerState) : Process :=
  mkProcess (cs_id c) (cs_pid c) (containerStateToString (cs_status c)).

Lemma ListProcesses_shows systemd features locks :
  shows (λ tr r, quiet tr ∧ ∀ l, r = Ok l → l = container_process <$> states)
    (ListProcesses (new_lifecycle ToBytes
       (NewRuncClient (RuncPath env) (RuncRoot env) systemd) features locks)).
Proof.
  intros [data [e|]] Hr; [by cbn|]. cbn in Hr |- *. rewrite (Hr eq_refl). cbn.
  split; [done|]. intros l [= <-]. apply list_fmap_ext. intros i c _.
  unfold newProcessFromContainerState. by rewrite containerState_from_to.
Qed.

(** Merging does not panic when the identifiers of the containers can be looked at. *)
Lemma merge_shows declared :
  NoDup (pr_name <$> declared) → NoDup (cs_id <$> states) → Forall decodable states →
  shows (λ tr r, r = Program.shown (container_process <$> states) <$> declared
           ∧ stdout_of tr = []
           ∧ messages tr = length (filter (λ c, cs_id c ∉ pr_name <$> declared) states))
    (merge_running ErrorText (container_process <$> states) declared).
Proof.
  intros Hd Hs Hdec. apply under_traces. intros tr f Htr _.
  assert (∀ ps, wp (λ e, ev_stdout e = None) (λ _, True)
    (merge_running ErrorText (container_process <$> states) ps)) as Hwp.
  { clear -Hdec. induction Hdec as [|c l [name Hc] _ IH]; intros ps; [done|].
    cbn [fmap list_fmap merge_running]. unfold updateProcess.
    destruct (replace_process _ _); [apply IH|]. simpl pr_name. rewrite Hc. cbn.
    intros werr. split; [done|apply IH]. }
  destruct (wp_sound _ _ _ _ _ (Hwp declared) Htr) as [Hout (res & -> & _)].
  exists res. split; [done|].
  apply list_merges_running in Htr as [-> Hlen]; [|done|by rewrite <- list_fmap_compose].
  split_and!; [done| |].
  - clear -Hout. induction Hout as [|e tr He _ IH]; [done|]. unfold stdout_of. cbn. by rewrite He.
  - unfold messages. rewrite Hlen. clear. induction states as [|c l IH]; [done|].
    cbn [fmap list_fmap]. rewrite !filter_cons. simpl pr_name. case_decide; cbn; by rewrite IH.
Qed.

(** A declared process after merging is shown as its row. *)
Lemma find_container name :
  List.find (λ q, bool_decide (pr_name q = Encode name)) (container_process <$> states)
  = container_process <$> List.find (λ c, bool_decide (cs_id c = Encode name)) states.
Proof.
  induction states as [|c l IH]; [done|]. cbn [fmap list_fmap List.find]. simpl pr_name.
  case_bool_decide; [done|exact IH].
Qed.

Lemma status_plain s : plain (containerStateToString s) = true.
Proof. unfold containerStateToString. by repeat case_decide. Qed.

Lemma shown_row name :
  plain name = true →
  let p := Program.shown (container_process <$> states) (stopped name) in
  legible p name ∧ Presenters.shown p name = row name.
Proof.
  intros Hplain. unfold Program.shown, row. simpl pr_name. rewrite find_container.
  destruct (List.find _ states) as [c|] eqn:Hf; cbn.
  - apply List.find_some in Hf as [_ Hc]. apply bool_decide_eq_true in Hc.
    split; [|done]. split_and!; [|done|apply status_plain]. simpl. by rewrite Hc, Decode_Encode.
  - split; [|done]. split_and!; [apply Decode_Encode|done|done].
Qed.

Lemma PrintJobs_shown names :
  Forall (λ n, plain n = true) names →
  PrintJobs (Program.shown (container_process <$> states) <$> (stopped <$> names))
  = call (Print Stdout (table (header :: (row <$> names)))).
Proof.
  intros Hplain. rewrite (PrintJobs_rows _ names).
  - do 4 f_equal. induction Hplain as [|n l Hn _ IH]; [done|]. cbn [fmap list_fmap zip_with].
    rewrite (proj2 (shown_row n Hn)). by f_equal.
  - induction Hplain as [|n l Hn _ IH]; [constructor|]. cbn [fmap list_fmap].
    constructor; [apply (shown_row n Hn)|exact IH].
Qed.

(** ** Property *)

Definition listing : string := table (header :: (row <$> declared_names jobs)).

(** The table was printed, and a message for every configuration that exists but cannot
    be used and every container of no declared process. *)
Definition listed (tr : list event) : Prop :=
  stdout_of tr = [listing] ∧ Ev (Print Stdout listing) None ∈ tr
  ∧ messages tr = length (filter (λ job, invalid_config job = true) jobs)
      + length (filter (λ c, cs_id c ∉ Encode <$> declared_names jobs) states).

Lemma listContainers_shows g args locks :
  g_locks g = Some locks → g_boshEnv g = env →
  NoDup (declared_names jobs) → NoDup (cs_id <$> states) →
  Forall (λ n, plain n = true) (declared_names jobs) →
  Forall (λ job, ¬ panicking job) jobs → Forall decodable states →
  shows (λ tr fl, fl = Next g ∧ listed tr ∨ ∃ err, fl = Fails g err
           ∧ (stdout_of tr = [] ∨ Ev (Print Stdout listing) (Some err) ∈ tr))
    (listContainers ToBytes yaml_Unmarshal ErrorText g args).
Proof.
  intros Hlocks Henv Hnames Hids Hplain Hnp Hdec.
  assert (pr_name <$> (stopped <$> declared_names jobs) = Encode <$> declared_names jobs) as Henc
    by (by rewrite <- list_fmap_compose).
  unfold listContainers, deref. rewrite Hlocks, Henv.
  intros names Hdir. specialize (Hdir eq_refl). subst names. cbn [mbind prog_mbind prog_bind].
  eapply under_bind; [by apply declared_shows|]. intros t1 ps (-> & Ho1 & Hm1).
  eapply under_bind; [apply newRuncLifecycle_shows|]. intros t2 [j|e] ([Ho2 Hm2] & Hj).
  2:{ right. exists e. split; [done|]. left. cbn. by rewrite !stdout_of_app, Ho1, Ho2. }
  destruct (Hj j eq_refl) as (systemd & features & ->). clear Hj.
  eapply under_bind; [apply ListProcesses_shows|]. intros t3 [l|e] ([Ho3 Hm3] & Hl).
  2:{ intros werr _. right. exists e. split; [done|]. left. cbn.
      by rewrite !stdout_of_app, Ho1, Ho2, Ho3. }
  rewrite (Hl l eq_refl). clear l Hl. cbn [app].
  eapply under_bind; [apply merge_shows; [|done..]|].
  { rewrite Henc. apply (NoDup_fmap_2_strong Encode); [|done]. intros x y _ _. apply Encode_inj'. }
  intros t4 ps (-> & Ho4 & Hm4). rewrite Henc in Hm4.
  rewrite (PrintJobs_shown _ Hplain). fold listing. intros [err|] _; [intros werr _|]; cbn [under mbind prog_mbind prog_bind].
  - right. exists err. split; [done|]. right. rewrite !elem_of_cons, !elem_of_app. set_solver.
  - left. split; [done|]. unfold listed.
    match goal with |- context [?e :: t1 ++ ?l] => change (e :: t1 ++ l) with ([e] ++ t1 ++ l) end.
        rewrite !stdout_of_app, !messages_app, Ho1, Ho2, Ho3, Ho4, Hm1, Hm2, Hm3, Hm4.
    split_and!; [done|rewrite !elem_of_app; set_solver|]. unfold messages. simpl. lia.
Qed.

(** *** When the command panics *)

Lemma declared_panics js ps tr f :
  js ⊆ jobs → Exists panicking js → Forall answers tr →
  exec_trace (declared_processes yaml_Unmarshal ErrorText env js ps) tr f →
  stdout_of tr = [] ∧ ∃ x, f = FPanic x.
Proof.
  revert ps tr. induction js as [|job js IH]; intros ps tr Hjs Hp Hans Htr; [by apply Exists_nil in Hp|].
  cbn [declared_processes] in Htr.
  apply exec_trace_bind in Htr as [(r & t1 & t2 & -> & E & Htr)|[(x & E & ->)|[E ->]]].
  2: split; [|eauto]. 2,3: apply ParseJobConfig_trace in E as [[Ho _] Hf]; [|set_solver|done]; try done.
  2: by destruct (cfg job).
  apply Forall_app in Hans as [Hans1 Hans].
  apply ParseJobConfig_trace in E as [[Ho _] Hf]; [|set_solver|done].
  destruct (cfg job) as [r'|x] eqn:Hcfg; [|done]. injection Hf as <-.
  apply Exists_cons in Hp as [[x Hx]|Hp]; [congruence|]. specialize (λ ps tr, IH ps tr ltac:(set_solver) Hp).
  rewrite stdout_of_app, Ho. destruct r as [c|e].
  - destruct (cfg_validated _ _ Hcfg) as [dv Hdv]. rewrite (stopped_processes_spec _ _ _ Hdv) in Htr.
    exact (IH _ _ Hans Htr).
  - destruct (os_IsNotExist e); [exact (IH _ _ Hans Htr)|].
    apply exec_trace_Call in Htr as (werr & t & -> & Htr). apply Forall_cons in Hans as [_ Hans].
    exact (IH _ _ Hans Htr).
Qed.

Lemma replace_process_names ps q ps' :
  replace_process ps q = Some ps' →
  pr_name <$> ps' = pr_name <$> ps ∧ pr_name q ∈ pr_name <$> ps.
Proof.
  revert ps'. induction ps as [|p ps IH]; intros ps'; simpl; [done|].
  case_decide as Hp; [intros [= <-]; cbn; rewrite Hp; split; [done|left]|].
  destruct (replace_process ps q) as [l|]; [|done]. intros [= <-].
  destruct (IH l eq_refl) as [Hl Hin]. cbn. rewrite Hl. split; [done|by right].
Qed.

Lemma merge_panics l names ps tr f :
  pr_name <$> ps = Encode <$> names → Exists (λ c, ¬ decodable c) l →
  exec_trace (merge_running ErrorText (container_process <$> l) ps) tr f →
  stdout_of tr = [] ∧ ∃ x, f = FPanic x.
Proof.
  intros Hps Hl. revert ps tr Hps. induction l as [|c l IH]; intros ps tr Hps Htr.
  { by apply Exists_nil in Hl. }
  cbn [fmap list_fmap merge_running] in Htr. unfold updateProcess in Htr.
  apply Exists_cons in Hl. destruct (replace_process ps (container_process c)) as [ps'|] eqn:Hrp.
  - assert (Exists (λ c, ¬ decodable c) l) as Hl'.
    { destruct Hl as [Hc|Hl]; [|done]. destruct Hc. apply replace_process_names in Hrp as [_ Hrp].
      rewrite Hps in Hrp. apply list_elem_of_fmap in Hrp as (n & Hn & _). simpl in Hn.
      exists (Ok n). rewrite Hn. apply Decode_Encode. }
    apply (IH Hl' ps'); [|exact Htr]. by rewrite (proj1 (replace_process_names _ _ _ Hrp)).
  - simpl pr_name in Htr. destruct (Decode (cs_id c)) as [name|x] eqn:Hc; cbn in Htr.
    + destruct Hl as [[]|Hl]; [by exists name|].
      apply exec_trace_Call in Htr as (werr & t & -> & Htr). exact (IH Hl ps t Hps Htr).
    + destruct Htr as [-> ->]. eauto.
Qed.

Lemma listContainers_config_panics g args locks tr f :
  g_locks g = Some locks → g_boshEnv g = env → Forall answers tr → Exists panicking jobs →
  exec_trace (listContainers ToBytes yaml_Unmarshal ErrorText g args) tr f →
  stdout_of tr = [] ∧ ∃ x, f = FPanic x.
Proof.
  intros Hlocks Henv Hans Hp Htr. unfold listContainers, deref in Htr. rewrite Hlocks, Henv in Htr.
  apply exec_trace_Call in Htr as (names & t & -> & Htr). apply Forall_cons in Hans as [Hdir Hans].
  specialize (Hdir eq_refl). subst names. cbn [mbind prog_mbind prog_bind] in Htr.
  change (stdout_of t = [] ∧ ∃ x, f = FPanic x).
  apply exec_trace_bind in Htr as [(r & t1 & t2 & -> & E & Htr)|[(x & E & ->)|[E ->]]];
    apply declared_panics in E as [Ho [x' Hx]]; try done; [|eauto..].
  by apply Forall_app in Hans as [Hans _].
Qed.

Lemma listContainers_id_panics g args locks tr f :
  g_locks g = Some locks → g_boshEnv g = env → Forall answers tr →
  Forall (λ job, ¬ panicking job) jobs → Exists (λ c, ¬ decodable c) states →
  exec_trace (listContainers ToBytes yaml_Unmarshal ErrorText g args) tr f →
  stdout_of tr = [] ∧ ((∃ x, f = FPanic x) ∨ ∃ err, f = FVal (Fails g err)).
Proof.
  intros Hlocks Henv Hans Hnp Hp Htr. unfold listContainers, deref in Htr. rewrite Hlocks, Henv in Htr.
  apply exec_trace_Call in Htr as (names & t & -> & Htr). apply Forall_cons in Hans as [Hdir Hans].
  specialize (Hdir eq_refl). subst names. cbn [mbind prog_mbind prog_bind] in Htr.
  change (stdout_of t = [] ∧ ((∃ x, f = FPanic x) ∨ ∃ err, f = FVal (Fails g err))).
  apply (under_bind_sound _ _ _ _ _ _ (declared_shows jobs [] (reflexivity _) Hnp)) in Htr
    as (t1 & t2 & ps & -> & (-> & Ho1 & _) & Htr); [|done]. apply Forall_app in Hans as [_ Hans].
  apply (under_bind_sound _ _ _ _ _ _ (newRuncLifecycle_shows locks)) in Htr
    as (t3 & t4 & j & -> & ([Ho3 _] & Hj) & Htr); [|done]. apply Forall_app in Hans as [_ Hans].
  rewrite !stdout_of_app, Ho1, Ho3. destruct j as [j|e]; [|destruct Htr as [-> ->]; eauto].
  destruct (Hj j eq_refl) as (systemd & features & ->). clear Hj.
  apply (under_bind_sound _ _ _ _ _ _ (ListProcesses_shows systemd features locks)) in Htr
    as (t5 & t6 & l & -> & ([Ho5 _] & Hl) & Htr); [|done]. rewrite stdout_of_app, Ho5.
  destruct l as [l|e]; [|destruct Htr as (werr & t & -> & -> & ->); eauto].
  rewrite (Hl l eq_refl) in Htr.
  apply exec_trace_bind in Htr as [(r & t7 & t8 & -> & E & Htr)|[(x & E & ->)|[E ->]]];
    apply (merge_panics _ (declared_names jobs)) in E as [Ho [x' Hx]];
    try (exact Hp || discriminate); eauto; cbn [app]; by rewrite <- list_fmap_compose.
Qed.

(** C31: what [bpm list] prints, on a host with its jobs, their configuration files and
    runc's list of containers, where the declared display names are distinct and plain (no
    tab, newline or other character the table writer treats specially) and the containers
    have distinct identifiers.  If decoding or validating some configuration panics, the
    command panics and prints nothing on standard output.  If a container of runc has an
    identifier that makes [Decode] panic, the command panics or fails and prints nothing
    there either.  Otherwise it does not panic: when it succeeds it has printed exactly one
    table, with one line for every process of every job with a usable configuration, in
    order, under its display name, with the PID and state of its container, or as stopped
    when there is none; and one message for every other configuration that exists and for
    every container of no declared process.  When it fails it has printed no table, or the
    table could not be written. *)
Theorem list_prints_jobs g args locks tr f
  (Hlocks : g_locks g = Some locks) (Henv : g_boshEnv g = env)
  (Hans : Forall answers tr)
  (Hnames : NoDup (declared_names jobs)) (Hids : NoDup (cs_id <$> states))
  (Hplain : Forall (λ n, plain n = true) (declared_names jobs))
  (Htr : exec_trace (listContainers ToBytes yaml_Unmarshal ErrorText g args) tr f) :
  (Exists panicking jobs ∧ stdout_of tr = [] ∧ ∃ x, f = FPanic x)
  ∨ (Forall (λ job, ¬ panicking job) jobs ∧ Exists (λ c, ¬ decodable c) states
     ∧ stdout_of tr = [] ∧ ((∃ x, f = FPanic x) ∨ ∃ err, f = FVal (Fails g err)))
  ∨ (Forall (λ job, ¬ panicking job) jobs ∧ Forall decodable states
     ∧ (f = FVal (Next g) ∧ listed tr
        ∨ ∃ err, f = FVal (Fails g err)
            ∧ (stdout_of tr = [] ∨ Ev (Print Stdout listing) (Some err) ∈ tr))).
Proof.
  destruct (decide (Exists panicking jobs)) as [Hp|Hnp].
  { left. split; [done|]. by eapply listContainers_config_panics. }
  right. apply not_Exists_Forall in Hnp; [|apply _].
  destruct (decide (Exists (λ c, ¬ decodable c) states)) as [Hp|Hdec].
  { left. do 2 (split; [done|]). by eapply listContainers_id_panics. }
  right. apply not_Exists_Forall in Hdec; [|apply _].
  assert (Forall decodable states) as Hdec'
    by (eapply Forall_impl; [exact Hdec|]; intros c; apply dec_stable).
  do 2 (split; [done|]). destruct (under_sound _ _ _ _ _
    (listContainers_shows g args locks Hlocks Henv Hnames Hids Hplain Hnp Hdec') Htr Hans)
    as (fl & -> & [[-> Hl]|(err & -> & Herr)]); [by left|right; eauto].
Qed.
End listing.

(** ** A host with two jobs *)

Definition listing_jobs : list string := ["db"; "server"].
Definition listing_states : list ContainerState :=
  [mkContainerState (Encode "server.worker") 4711 "running";
   mkContainerState (Encode "old") 12 "stopped"].
Definition listing_file (job : string) : result string :=
  if decide (job = "server") then Ok "processes: [...]"
  else Err (SysError "open" "/var/vcap/jobs/db/config/bpm.yml" ENOENT).
Definition listing_handler : handler unit := λ B c w,
  match c in sys B return B * unit with
  | ReadDir _ => (Ok listing_jobs, w)
  | ReadFile path =>
      (if decide (path = "/var/vcap/jobs/server/config/bpm.yml") then Ok "processes: [...]"
       else Err (SysError "open" "/var/vcap/jobs/db/config/bpm.yml" ENOENT), w)
  | Output _ => ((json_compact (JArray (entry_json [] [] <$> listing_states)), None), w)
  | c' => (default_answer c', w)
  end.
Definition listing_globals : Globals :=
  set_locks (NewHandle "/var/vcap/data/bpm/locks") sample_globals.

Definition listing_command : prog flow :=
  @listContainers map_range_list sort_slice_merge go_JSON sample_ToBytes sim_yaml (λ _, "")
    listing_globals [].
Definition listing_trace : list event := Eval vm_compute in trace_of listing_handler listing_command tt.

Lemma listing_paths :
  JobConfigPath (NewBPMConfig (NewEnv "") "db" "") = "/var/vcap/jobs/db/config/bpm.yml"
  ∧ JobConfigPath (NewBPMConfig (NewEnv "") "server" "") = "/var/vcap/jobs/server/config/bpm.yml".
Proof. split; vm_compute; reflexivity. Qed.

Lemma listing_answers :
  Forall (@answers go_JSON (NewEnv "") listing_jobs listing_file listing_states)
    listing_trace.
Proof.
  destruct listing_paths as [Hdb Hserver].
  repeat (apply Forall_cons; split); try exact I.
  - intros _. reflexivity.
  - intros job Hjob. apply elem_of_cons in Hjob as [->|Hjob]; [by intros _|].
    apply list_elem_of_singleton in Hjob as ->. rewrite Hserver. intros [=].
  - intros job Hjob. apply elem_of_cons in Hjob as [->|Hjob]; [rewrite Hdb; intros [=]|].
    by apply list_elem_of_singleton in Hjob as ->.
  - intros _. vm_compute. reflexivity.
  - constructor.
Qed.

Lemma list_prints_jobs_witness :
  exec_trace listing_command listing_trace (FVal (Next listing_globals))
  ∧ stdout_of listing_trace = ["Name          Pid  Status" +:+ newline
                               +:+ "server.worker 4711 running" +:+ newline]
  ∧ messages listing_trace = 1.
Proof.
  assert (exec_trace listing_command listing_trace (FVal (Next listing_globals))) as Htr.
  { pose proof (trace_of_exec listing_handler listing_command tt) as Htr.
    assert ((run listing_handler listing_command tt).1 = FVal (Next listing_globals)) as Hf
      by (vm_compute; reflexivity).
    assert (trace_of listing_handler listing_command tt = listing_trace) as Ht
      by (vm_compute; reflexivity).
    rewrite Hf, Ht in Htr. exact Htr. }
  split; [exact Htr|].
  destruct (@list_prints_jobs map_range_list sort_slice_merge go_JSON sample_ToBytes sim_yaml
    (λ _, "") (NewEnv "") listing_jobs listing_file listing_states listing_globals [] _
    listing_trace (FVal (Next listing_globals)) eq_refl eq_refl listing_answers)
    as [(_ & _ & x & [=])|[(_ & _ & _ & [[x [=]]|[err [=]]])
       |(_ & _ & [(_ & Hout & _ & Hm)|(err & [=] & _)])]].
  - apply (bool_decide_unpack _). vm_compute. exact I.
  - apply (bool_decide_unpack _). vm_compute. exact I.
  - repeat constructor.
  - exact Htr.
  - rewrite Hout, Hm. split; vm_compute; reflexivity.
Defined.
