(* ===== verification/Reports.v ===== *)
(** * What [bpm pid], [shell], [trace] and [logs] do
    (src/bpm/commands: pid.go, shell.go, trace.go, logs.go)

    Three commands look up one process and act on the container runc reports for it; a
    fourth shows log files.  Inspect shows that they are harmless; this file shows what
    they do: which programs they run, what they print, how they end, and that they hand
    every signal they take from their channel to the program they wait for.  (The channel
    holds one signal: one that arrives while another waits in it is dropped by the Go
    runtime before bpm sees it.) *)

From S2P Require Import Prelude GoStrings GoPath JobID Bosh Specs Sys Json SpecJson Config SafeIO Locks Host Cgroups Adapter Client Containers Lifecycle Tabwriter Presenters Commands Bytefmt Program Inspect Listing.

(** ** What can be seen in a trace *)

(** The programs started, in order. *)
Definition ev_program (e : event) : option Cmd :=
  match e with
  | Ev c _ =>
      match c with
      | RunCmd cmd | CombinedOutput cmd | Output cmd | StartCmd cmd => Some cmd
      | _ => None
      end
  end.
Definition programs (tr : list event) : list Cmd := omap ev_program tr.

(** The signals bpm took from its channel, those it sent to its child, and how the child
    ended. *)
Definition ev_received (e : event) : option Z :=
  match e with
  | Ev c r =>
      match c in sys B return B → option Z with
      | SelectChild => λ r, match r with GotSignal sig => Some sig | ChildDone _ => None end
      | _ => λ _, None
      end r
  end.
Definition ev_forwarded (e : event) : option Z :=
  match e with Ev c _ => match c with SignalChild sig => Some sig | _ => None end end.
Definition ev_ended (e : event) : option (option error) :=
  match e with
  | Ev c r =>
      match c in sys B return B → option (option error) with
      | SelectChild => λ r, match r with ChildDone err => Some err | GotSignal _ => None end
      | _ => λ _, None
      end r
  end.
Definition received (tr : list event) : list Z := omap ev_received tr.
Definition forwarded (tr : list event) : list Z := omap ev_forwarded tr.
Definition ended (tr : list event) : list (option error) := omap ev_ended tr.

(** A part of a trace in which none of this happens. *)
Definition ev_silent (e : event) : Prop :=
  ev_program e = None ∧ ev_stdout e = None ∧ ev_received e = None ∧ ev_forwarded e = None
  ∧ ev_ended e = None.
Definition silent (tr : list event) : Prop := Forall ev_silent tr.

Lemma omap_none {A B} (f : A → option B) l : Forall (λ x, f x = None) l → omap f l = [].
Proof. induction 1 as [|x l Hx _ IH]; [done|]. simpl. by rewrite Hx. Qed.

Lemma silent_views tr :
  silent tr →
  programs tr = [] ∧ stdout_of tr = [] ∧ received tr = [] ∧ forwarded tr = [] ∧ ended tr = [].
Proof.
  intros Htr. unfold programs, stdout_of, received, forwarded, ended.
  split_and!; apply omap_none; (eapply Forall_impl; [exact Htr|]); by intros e (? & ? & ? & ? & ?).
Qed.

(** Silence in front changes nothing. *)
Lemma silent_front t1 t2 :
  silent t1 →
  programs (t1 ++ t2) = programs t2 ∧ stdout_of (t1 ++ t2) = stdout_of t2
  ∧ received (t1 ++ t2) = received t2 ∧ forwarded (t1 ++ t2) = forwarded t2
  ∧ ended (t1 ++ t2) = ended t2.
Proof.
  intros (Hp & Ho & Hr & Hf & He)%silent_views.
  unfold programs, stdout_of, received, forwarded, ended in *.
  by rewrite !omap_app, Hp, Ho, Hr, Hf, He.
Qed.

Definition silent_call (B : Type) (c : sys B) : Prop := ∀ r, ev_silent (Ev c r).

Lemma silent_trace {A} (p : prog A) tr f :
  all_calls silent_call p → exec_trace p tr f → silent tr.
Proof.
  revert tr. induction p as [a|x| |B c k IH]; intros tr Hp Htr; [destruct Htr as [-> _]; constructor..|].
  destruct Hp as [Hc Hp]. apply exec_trace_Call in Htr as (r & t & -> & Htr).
  constructor; [apply Hc|exact (IH r t (Hp r) Htr)].
Qed.

(** ** The loop that waits for a child *)

Lemma forward_signals_trace fuel tr f :
  exec_trace (forward_signals fuel) tr f →
  received tr = forwarded tr ∧ programs tr = [] ∧ stdout_of tr = []
  ∧ match f with
    | FVal err => ended tr = [err] ∧ length (received tr) < fuel
    | FPanic _ => False
    | FFuel => ended tr = [] ∧ length (received tr) = fuel
    end.
Proof.
  revert tr. induction fuel as [|fuel IH]; intros tr Htr; [by destruct Htr as [-> ->]|].
  apply exec_trace_Call in Htr as ([sig|err] & t & -> & Htr); cbn beta iota in Htr.
  - apply exec_trace_Call in Htr as (r & t' & -> & Htr).
    apply IH in Htr as (Hr & Hp & Ho & Hf).
    change (sig :: received t' = sig :: forwarded t' ∧ programs t' = [] ∧ stdout_of t' = []
      ∧ match f with
        | FVal err => ended t' = [err] ∧ S (length (received t')) < S fuel
        | FPanic _ => False
        | FFuel => ended t' = [] ∧ S (length (received t')) = S fuel
        end).
    split_and!; [by rewrite Hr|done..|]. destruct f; [|done|];
      destruct Hf as [-> ?]; (split; [done|lia]).
  - apply exec_trace_Ret in Htr as [-> ->]. split_and!; [done..|]. simpl. lia.
Qed.

(** ** The hook of the root *)

Lemma rootPre_silent g args :
  g_showVersion g = false → all_calls silent_call (rootPre g args).
Proof.
  intros Hv. unfold rootPre, isRunningSystemd, returns. rewrite Hv. all_calls_tac; try done.
  eapply all_calls_mono; [|apply Setup_calls]. intros B c Hc r. by destruct c.
Qed.

(** The whole execution is that of the root's hook, which ran and printed nothing and did
    not let the command go on. *)
Definition refused (g : Globals) (args : list string) (tr : list event) (f : final flow) : Prop :=
  exec_trace (rootPre g args) tr f ∧ silent tr ∧ ∀ g', f ≠ FVal (Next g').

Definition process_name (g : Globals) (job : string) : string :=
  if decide (g_procName g = "") then job else g_procName g.
Definition job_globals (g : Globals) (job : string) : Globals :=
  set_cfg (process_name g job) (NewBPMConfig (g_boshEnv g) job (process_name g job))
    (set_locks (NewHandle (LocksPath (g_boshEnv g))) g).

Lemma execute_inspect (body : hook) g job args tr f :
  g_showVersion g = false →
  exec_trace (execute rootPre inspectPre body no_hook g (job :: args)) tr f →
  refused g (job :: args) tr f
  ∨ ∃ t1 t2, tr = t1 ++ t2 ∧ silent t1 ∧ exec_trace (body (job_globals g job) (job :: args)) t2 f.
Proof.
  intros Hv Htr. pose proof (rootPre_silent g (job :: args) Hv) as Hs.
  apply exec_trace_bind in Htr as [(f1 & t1 & t2 & -> & E1 & Htr)|[(x & E1 & ->)|[E1 ->]]];
    [|left; by split_and!; [|eapply silent_trace|]..].
  apply (silent_trace _ _ _ Hs) in E1 as Ht1. destruct f1 as [g1|g1 e|code].
  - apply rootPre_Next in E1 as ->. right. exists t1, t2. split_and!; [done..|].
    unfold inspectPre, validateInput in Htr. cbn [prog_bind] in Htr.
    fold (process_name g job) in Htr. fold (job_globals g job) in Htr.
    apply exec_trace_bind in Htr as [(f2 & u1 & u2 & -> & E2 & Htr)|[(x & E2 & ->)|[E2 ->]]];
      [|done..].
    destruct f2; apply exec_trace_Ret in Htr as [-> ->]; by rewrite (right_id_L [] (++)).
  - left. destruct Htr as [-> ->]. rewrite (right_id_L [] (++)). by split_and!.
  - left. destruct Htr as [-> ->]. rewrite (right_id_L [] (++)). by split_and!.
Qed.

(** ** What runc reports *)

(** Members of a document that leave the decoded value as it is. *)
Definition neutral {A} (set : string → json → A → A * bool) (ms : members) : Prop :=
  Forall (λ kv, ∀ a, set kv.1 kv.2 a = (a, true)) ms.

Lemma decode_neutral {A} (set : string → json → A → A * bool) ms a ok :
  neutral set ms →
  foldl (λ '(a, ok) '(k, v), let '(a, ok') := set k v a in (a, ok && ok')) (a, ok) ms = (a, ok).
Proof.
  induction 1 as [|[k v] ms Hk _ IH]; [done|]. simpl in Hk |- *. by rewrite Hk, andb_true_r.
Qed.

(** The document [runc state] prints for a container, in any layout and among other
    fields, and the one it logs when there is no container. *)
Definition state_document (c : ContainerState) (data : string) : Prop :=
  ∃ before after, neutral set_State before ∧ neutral set_State after
    ∧ json_parse data = Some (entry_json before after c).
Definition absent_document (data : string) : Prop :=
  ∃ before after msg, neutral set_Msg before ∧ neutral set_Msg after
    ∧ json_parse data = Some (JObject (before ++ [("msg", JString msg)] ++ after))
    ∧ Contains msg "container does not exist" = true.

Lemma state_document_decoded c data :
  (- 2 ^ 63 ≤ cs_pid c < 2 ^ 63)%Z → state_document c data →
  json_State data = Ok (mkState (cs_id c) (cs_status c) (cs_pid c)).
Proof.
  intros Hpid (before & after & Hb & Ha & Hp). simpl. unfold Unmarshal_State, json_Unmarshal.
  rewrite Hp. unfold entry_json, decode_struct. rewrite !foldl_app, decode_neutral by done.
  cbn [foldl]. unfold json_int. cbn. rewrite Atoi_Itoa by done. cbn. by rewrite decode_neutral.
Qed.

Lemma absent_document_decoded data err :
  absent_document data → decodeContainerStateErr data err = None.
Proof.
  intros (before & after & msg & Hb & Ha & Hp & Hmsg). unfold decodeContainerStateErr. simpl.
  unfold Unmarshal_Msg, json_Unmarshal. rewrite Hp. unfold decode_struct.
  rewrite !foldl_app, decode_neutral by done. cbn.
  change (set_Msg "msg" (JString msg) "") with (msg, true). cbn -[Contains].
  rewrite decode_neutral by done. by rewrite Hmsg.
Qed.

Section reports.
Context `{MapRange, SortSlice} (ToBytes : string → result Z).
Context (yaml_Unmarshal : string → outcome (result JobConfig)) (ErrorText : error → string).
(** The host: the containers its runc knows. *)
Context (env : Env) (containers : string → option ContainerState).

Definition host_client (systemd : bool) : RuncClient :=
  NewRuncClient (RuncPath env) (RuncRoot env) systemd.
Definition state_command (systemd : bool) (id : string) : Cmd :=
  buildCmd (host_client systemd) "--log-format" ["json"; "state"; id].

(** An answer that fits the host: runc reports the containers there are, and the
    hierarchy of the memory controller is found. *)
Definition reports (e : event) : Prop :=
  match e with
  | Ev c r =>
      match c in sys B return B → Prop with
      | CombinedOutput cmd => λ r, ∀ systemd id, cmd = state_command systemd id →
          match containers id with
          | Some c => r.2 = None ∧ state_document c r.1
          | None => r.2 ≠ None ∧ absent_document r.1
          end
      | FindCgroupMountpoint _ _ => λ r, ∃ mp, r = Ok mp
      | _ => λ _, True
      end r
  end.

Lemma newRuncLifecycle_reports locks :
  under reports (λ tr r, silent tr ∧ ∃ systemd features,
      r = Ok (new_lifecycle ToBytes (host_client systemd) features locks))
    (newRuncLifecycle ToBytes env locks).
Proof.
  intros r _. intros [] _.
  - intros hybrid _. intros [] _ r' _; cbn; (split; [by repeat constructor|eauto]).
  - intros q [mp ->] r1 _ r2 _. cbn. split; [by repeat constructor|eauto].
Qed.

Definition notRunning : error := NewError "process is not running or could not be found".

(** The process of a container that can be looked into. *)
Definition live (c : ContainerState) : bool :=
  bool_decide (cs_status c ∈ ["creating"; "created"; "running"]).

Lemma live_status c :
  live c = bool_decide (containerStateToString (cs_status c) ≠ ProcessStateFailed).
Proof.
  unfold live, containerStateToString. apply bool_decide_ext.
  rewrite !elem_of_cons, elem_of_nil. repeat case_decide; naive_solver.
Qed.

Definition reported_process (id : string) : option Process :=
  c ← containers id; if live c then Some (container_process c) else None.

Lemma running_process_reports systemd features locks cfg :
  (∀ c, containers (ContainerID cfg) = Some c → (- 2 ^ 63 ≤ cs_pid c < 2 ^ 63)%Z) →
  under reports (λ tr r,
      (∃ q, tr = [Ev (CombinedOutput (state_command systemd (ContainerID cfg))) q])
      ∧ r = match reported_process (ContainerID cfg) with
            | Some p => Ok p
            | None => Err notRunning
            end)
    (running_process cfg (new_lifecycle ToBytes (host_client systemd) features locks)).
Proof.
  intros Hpid [data err] Hr. specialize (Hr systemd (ContainerID cfg) eq_refl). simpl in Hr.
  unfold reported_process. destruct (containers (ContainerID cfg)) as [c|].
  - destruct Hr as [-> Hdoc]. apply state_document_decoded in Hdoc; [|by apply Hpid].
    cbn -[decide json_State]. rewrite Hdoc. cbn -[decide]. split; [by eexists|]. rewrite live_status.
    case_decide as Hs; [rewrite bool_decide_false by naive_solver; done|].
    by rewrite bool_decide_true by done.
  - destruct Hr as [Herr Hdoc]. destruct err as [err|]; [|done]. cbn -[decide decodeContainerStateErr].
    rewrite absent_document_decoded by done. cbn. split; [by eexists|done].
Qed.

(** The commands about one process: after silence and the question to runc, either the
    command fails, or what it does with the process follows. *)
Lemma with_running_trace g k cfg locks tr f :
  g_bpmCfg g = Some cfg → g_locks g = Some locks → g_boshEnv g = env →
  (∀ c, containers (ContainerID cfg) = Some c → (- 2 ^ 63 ≤ cs_pid c < 2 ^ 63)%Z) →
  Forall reports tr → exec_trace (with_running_process ToBytes g k) tr f →
  ∃ systemd t1 q t2,
    tr = t1 ++ Ev (CombinedOutput (state_command systemd (ContainerID cfg))) q :: t2 ∧ silent t1
    ∧ match reported_process (ContainerID cfg) with
      | None => t2 = [] ∧ f = FVal (Fails g notRunning)
      | Some p => ∃ features, exec_trace (prog_bind (k cfg
                    (new_lifecycle ToBytes (host_client systemd) features locks) p) (returns g)) t2 f
      end.
Proof.
  intros Hcfg Hlocks Henv Hpid Hok. unfold with_running_process, deref. rewrite Hcfg, Hlocks, Henv.
  unfold try_err. intros Htr%prog_bind_assoc_trace.
  apply (under_bind_sound _ _ _ _ _ _ (newRuncLifecycle_reports locks)) in Htr
    as (t1 & t2 & r & -> & (Hs & systemd & features & ->) & Htr); [|done].
  cbv beta iota in Htr. apply prog_bind_assoc_trace in Htr. apply Forall_app in Hok as [_ Hok].
  apply (under_bind_sound _ _ _ _ _ _ (running_process_reports systemd features locks cfg Hpid)) in Htr
    as (t3 & t4 & r & -> & ([q ->] & ->) & Htr); [|done].
  exists systemd, t1, q, t4. split_and!; [done..|].
  destruct (reported_process (ContainerID cfg)) as [p|]; [by exists features|]. exact Htr.
Qed.

(** ** Acting on the process *)

Definition exec_command (systemd : bool) (id term : string) : Cmd :=
  with_output (with_stdin (buildCmd (host_client systemd) "exec"
    ["--tty"; "--env"; "TERM=" +:+ term; id; "/bin/bash"])) ToStdout ToStderr.
Definition strace_command (pid : Z) : Cmd :=
  mkCmd "strace" ["-s"; "100"; "-f"; "-y"; "-yy"; "-p"; Itoa pid] None true ToStdout ToStderr.

(** How a command about the container [id] with process [p] proceeds and ends. *)
Definition acts (fuel : nat) (g : Globals) (systemd : bool) (id : string) (p : Process)
    (c : command) (tr : list event) (f : final flow) : Prop :=
  match c with
  | CmdPid => programs tr = [] ∧ stdout_of tr = [Itoa (pr_pid p) +:+ newline] ∧ f = FVal (Next g)
  | CmdShell => ∃ term r, programs tr = [exec_command systemd id term] ∧ stdout_of tr = []
      ∧ Ev (RunCmd (exec_command systemd id term)) r ∈ tr
      ∧ f = FVal (match cr_err r with None => Next g | Some e => Fails g e end)
  | CmdTrace => programs tr = [strace_command (pr_pid p)] ∧ stdout_of tr = []
      ∧ match f with
        | FVal (Next g') => g' = g
            ∧ ∃ err, ended tr = [err]
                ∧ (err = None ∨ err = Some (ExitError (-1)) ∨ ∃ s, err = Some (SignalExit s))
        | FVal (Fails g' err) => g' = g
            ∧ (ended tr = [Some err]
               ∨ ended tr = [] ∧ Ev (StartCmd (strace_command (pr_pid p))) (Some err) ∈ tr)
        | FFuel => length (received tr) = fuel
        | _ => False
        end
  | _ => False
  end.

Lemma pid_acts fuel g systemd id p tr f :
  exec_trace (prog_bind (prog_bind (call (Print Stdout (Itoa (pr_pid p) +:+ newline)))
    (λ _, Ret None)) (returns g)) tr f →
  acts fuel g systemd id p CmdPid tr f ∧ received tr = forwarded tr.
Proof. intros (r & t & -> & -> & ->). done. Qed.

Lemma shell_acts fuel g systemd id p tr f :
  exec_trace (prog_bind (Exec (host_client systemd) id "/bin/bash" ToStdout ToStderr) (returns g))
    tr f →
  acts fuel g systemd id p CmdShell tr f ∧ received tr = forwarded tr.
Proof.
  intros (term & t & -> & r & t' & -> & -> & ->). split; [|done].
  exists term, r. split_and!; [done..| |by destruct (cr_err r)].
  right. left.
Qed.

(** Waiting for a child that may not start, and what follows. *)
Lemma child_trace {A} fuel cmd (k0 : option error → prog A) (fails : error → A)
    (k : option error → prog A) tr f :
  (∀ err, k0 (Some err) = Ret (fails err)) →
  (∀ t f, exec_trace (k0 None) t f → exec_trace (prog_bind (forward_signals fuel) k) t f) →
  exec_trace (prog_bind (call (StartCmd cmd)) k0) tr f →
  (∃ err, tr = [Ev (StartCmd cmd) (Some err)] ∧ f = FVal (fails err))
  ∨ ∃ t1 t2, tr = Ev (StartCmd cmd) None :: t1 ++ t2 ∧ received t1 = forwarded t1
      ∧ programs t1 = [] ∧ stdout_of t1 = []
      ∧ ((∃ err, ended t1 = [err] ∧ exec_trace (k err) t2 f)
         ∨ t2 = [] ∧ f = FFuel ∧ length (received t1) = fuel).
Proof.
  intros Hfails Hgoes Htr. apply exec_trace_Call in Htr as ([err|] & t & -> & Htr).
  { left. exists err. cbn in Htr. rewrite Hfails in Htr. by destruct Htr as [-> ->]. }
  right. apply Hgoes in Htr.
  apply exec_trace_bind in Htr as [(err & t1 & t2 & -> & E & Htr)|[(x & E & ->)|[E ->]]];
    apply forward_signals_trace in E as (Hr & Hp & Ho & He); [|done|].
  - exists t1, t2. split_and!; [done..|]. left. exists err. by destruct He.
  - exists t, []. rewrite (right_id_L [] (++)). split_and!; [done..|]. right. by destruct He.
Qed.

(** The events of a child that was started, and what is done when it has ended. *)
Lemma child_views cmd t1 t2 :
  let tr := Ev (StartCmd cmd) None :: t1 ++ t2 in
  programs tr = cmd :: programs t1 ++ programs t2 ∧ stdout_of tr = stdout_of t1 ++ stdout_of t2
  ∧ received tr = received t1 ++ received t2 ∧ forwarded tr = forwarded t1 ++ forwarded t2
  ∧ ended tr = ended t1 ++ ended t2.
Proof.
  assert (∀ B (v : event → option B), omap v (t1 ++ t2) = omap v t1 ++ omap v t2) as Happ
    by (intros; apply omap_app).
  unfold programs, stdout_of, received, forwarded, ended. cbn. by rewrite !Happ.
Qed.

Definition strace_result (err : option error) : option error :=
  match err with
  | Some (SignalExit _) => None
  | Some (ExitError code) => if (code =? -1)%Z then None else Some (ExitError code)
  | err => err
  end.

Lemma strace_result_cases err :
  match strace_result err with
  | None => err = None ∨ err = Some (ExitError (-1)) ∨ ∃ s, err = Some (SignalExit s)
  | Some e => err = Some e
  end.
Proof.
  destruct err as [[]|]; simpl; eauto. destruct (Z.eqb_spec code (-1)); subst; eauto.
Qed.

Lemma trace_acts fuel g systemd id p tr f :
  exec_trace (prog_bind (check_err (call (StartCmd (strace_command (pr_pid p))))
    (λ e, e) (prog_bind (forward_signals fuel) (λ err, Ret (strace_result err)))) (returns g)) tr f →
  acts fuel g systemd id p CmdTrace tr f ∧ received tr = forwarded tr.
Proof.
  intros Htr%prog_bind_assoc_trace.
  apply (child_trace fuel _ _ (Fails g) (λ err, returns g (strace_result err))) in Htr;
    [|done|by intros t f0 Ht%prog_bind_assoc_trace].
  destruct Htr as [(err & -> & ->)|(t1 & t2 & -> & Hr & Hp & Ho & Hend)].
  { split; [|done]. split_and!; [done..|]. right. split; [done|left]. }
  destruct (child_views (strace_command (pr_pid p)) t1 t2) as (Vp & Vo & Vr & Vf & Ve).
  rewrite Hp in Vp. rewrite Ho in Vo. unfold acts. rewrite Vp, Vo, Vr, Vf, Ve, Hr.
  destruct Hend as [(err & He & [-> ->])|(-> & -> & Hl)]; rewrite ?He; cbn -[Nat.add].
  - split; [|done]. split_and!; [done..|]. pose proof (strace_result_cases err) as Hc.
    destruct (strace_result err) as [e|]; subst; eauto.
  - split; [|done]. split_and!; [done..|]. by rewrite <- Hr, (right_id_L [] (++)).
Qed.

(** [bpm pid], [shell] and [trace] of a process. *)
Definition acts_on_process (c : command) : Prop := c ∈ [CmdPid; CmdShell; CmdTrace].

(** What the command does about the container [id] after asking runc about it. *)
Definition follows (fuel : nat) (g : Globals) (systemd : bool) (id : string) (c : command)
    (tr : list event) (f : final flow) : Prop :=
  match reported_process id with
  | None => tr = [] ∧ f = FVal (Fails g notRunning)
  | Some p => acts fuel g systemd id p c tr f ∧ received tr = forwarded tr
  end.

Lemma body_follows fuel c g cfg locks args tr f :
  g_bpmCfg g = Some cfg → g_locks g = Some locks → g_boshEnv g = env →
  (∀ c, containers (ContainerID cfg) = Some c → (- 2 ^ 63 ≤ cs_pid c < 2 ^ 63)%Z) →
  Forall reports tr →
  exec_trace (match c with
              | CmdPid => pidForJob ToBytes g args
              | CmdShell => shell ToBytes g args
              | CmdTrace => trace_command ToBytes fuel g args
              | _ => Crash NilDereference
              end) tr f →
  acts_on_process c →
  ∃ systemd t1 q t2,
    tr = t1 ++ Ev (CombinedOutput (state_command systemd (ContainerID cfg))) q :: t2 ∧ silent t1
    ∧ follows fuel g systemd (ContainerID cfg) c t2 f.
Proof.
  intros Hcfg Hlocks Henv Hpid Hok Htr Hc. unfold acts_on_process in Hc.
  rewrite !elem_of_cons, elem_of_nil in Hc. unfold follows.
  destruct Hc as [->|[->|[->|[]]]];
    apply (with_running_trace _ _ cfg locks) in Htr as (systemd & t1 & q & t2 & -> & Hs & Htr);
    try done; exists systemd, t1, q, t2; (split_and!; [done..|]);
    (destruct (reported_process (ContainerID cfg)) as [p|]; [|exact Htr]); destruct Htr as [features Htr].
  - by apply pid_acts.
  - by apply shell_acts.
  - by apply trace_acts.
Qed.

(** C32: what [bpm pid], [shell] and [trace] do: on a host whose runc reports its
    containers in any layout and with any other fields, and has the memory controller's
    hierarchy, such a command is refused by [rootPre], the checks every command makes,
    without running or printing anything, or it asks runc about exactly one container,
    that of the job and process named.  If there is none, or
    its process has ended, it fails with bpm's own message and does nothing else.
    Otherwise [pid] prints exactly the PID runc reported and succeeds; [shell] runs one
    shell in that container and ends as it does; [trace] attaches one strace to that PID,
    hands it every signal bpm takes from its channel, in order, ends when it does (only as
    many signals as the fuel allows keep it waiting) and counts an strace ended by a signal as
    success. *)
Theorem process_commands_act fuel c g job args tr f
  (Hc : acts_on_process c) (Hv : g_showVersion g = false) (Henv : g_boshEnv g = env)
  (Hpids : ∀ id c, containers id = Some c → (- 2 ^ 63 ≤ cs_pid c < 2 ^ 63)%Z)
  (Hans : Forall reports tr)
  (Htr : exec_trace (RootCmd_Execute ToBytes yaml_Unmarshal ErrorText fuel c g (job :: args)) tr f) :
  let id := Encode (display_name job (process_name g job)) in
  refused g (job :: args) tr f
  ∨ ∃ systemd t1 q t2,
      tr = t1 ++ Ev (CombinedOutput (state_command systemd id)) q :: t2 ∧ silent t1
      ∧ follows fuel (job_globals g job) systemd id c t2 f.
Proof.
  assert (∃ body, RootCmd_Execute ToBytes yaml_Unmarshal ErrorText fuel c
            = execute rootPre inspectPre body no_hook
          ∧ ∀ g args, body g args = match c with
              | CmdPid => pidForJob ToBytes g args
              | CmdShell => shell ToBytes g args
              | CmdTrace => trace_command ToBytes fuel g args
              | _ => Crash NilDereference
              end) as (body & Hexec & Hbody).
  { unfold acts_on_process in Hc. rewrite !elem_of_cons, elem_of_nil in Hc.
    by destruct Hc as [->|[->|[->|[]]]]; eexists. }
  rewrite Hexec in Htr. apply execute_inspect in Htr as [Hr|(t0 & t & -> & Hs & Htr)];
    [by left|right|done].
  apply Forall_app in Hans as [_ Hans]. rewrite Hbody in Htr.
  destruct (body_follows fuel c (job_globals g job)
    (NewBPMConfig (g_boshEnv g) job (process_name g job)) (NewHandle (LocksPath (g_boshEnv g)))
    (job :: args) t f eq_refl eq_refl Henv (Hpids _) Hans Htr Hc)
    as (systemd & t1 & q & t2 & -> & Hs1 & Hf).
  exists systemd, (t0 ++ t1), q, t2. split_and!; [by rewrite (assoc_L (++))|by apply Forall_app|exact Hf].
Qed.
End reports.

(** ** Showing logs *)

(** The log files the options select: standard output, standard error with [-e], both
    with [-a]. *)
Definition selected_logs (g : Globals) (job : string) : list string :=
  let cfg := NewBPMConfig (g_boshEnv g) job (process_name g job) in
  if g_allLogs g then [External (Config_Stdout cfg); External (Config_Stderr cfg)]
  else if g_errLogs g then [External (Config_Stderr cfg)] else [External (Config_Stdout cfg)].

Definition tail_command (g : Globals) (job : string) : Cmd :=
  mkCmd "tail" ((if g_follow g then ["-f"] else []) ++ (if g_quiet g then ["-q"] else [])
    ++ ["-n " +:+ Itoa (g_numLines g)] ++ selected_logs g job) None false ToStdout ToStderr.

Definition not_there (r : result FileInfo) : bool :=
  match r with Err e => os_IsNotExist e | Ok _ => false end.

(** Some file of the list was asked for and is not there; all were and are. *)
Definition missing (files : list string) (tr : list event) : Prop :=
  ∃ file r, file ∈ files ∧ Ev (Stat file) r ∈ tr ∧ not_there r = true.
Definition present (files : list string) (tr : list event) : Prop :=
  ∀ file, file ∈ files → ∃ r, Ev (Stat file) r ∈ tr ∧ not_there r = false.

Lemma filesToTail_selected g job :
  filesToTail g (NewBPMConfig (g_boshEnv g) job (process_name g job)) = selected_logs g job.
Proof.
  unfold filesToTail, shouldTailStdout, shouldTailStderr, selected_logs.
  by destruct (g_allLogs g), (g_errLogs g).
Qed.

Lemma logsDontExist_trace files tr f :
  exec_trace (logsDontExist files) tr f →
  silent tr ∧ ∃ b, f = FVal b ∧ (if b : bool then missing files tr else present files tr).
Proof.
  revert tr. induction files as [|file files IH]; intros tr Htr.
  { destruct Htr as [-> ->]. split; [constructor|]. exists false. split; [done|].
    intros file Hf. by apply elem_of_nil in Hf. }
  apply exec_trace_Call in Htr as (r & t & -> & Htr). cbn beta iota in Htr.
  destruct (not_there r) eqn:Hr.
  - destruct r as [fi|e]; [done|]. simpl in Hr. rewrite Hr in Htr. destruct Htr as [-> ->].
    split; [by repeat constructor|]. exists true. split; [done|]. exists file, (Err e).
    split_and!; [left|left|done].
  - assert (exec_trace (logsDontExist files) t f) as [Hs (b & -> & Hb)]%IH
      by (destruct r as [fi|e]; [|simpl in Hr; rewrite Hr in Htr]; done).
    split; [by constructor|]. exists b. split; [done|]. destruct b.
    + destruct Hb as (file' & r' & Hf & Hin & Hn). exists file', r'. by split_and!; [right|right|].
    + intros file' Hf. apply elem_of_cons in Hf as [->|Hf]; [by exists r; split; [left|]|].
      destruct (Hb file' Hf) as (r' & Hin & Hn). exists r'. by split; [right|].
Qed.

(** How showing the logs ends, once all the files are there. *)
Definition tails (fuel : nat) (g : Globals) (cmd : Cmd) (tr : list event) (f : final flow) : Prop :=
  programs tr = [cmd] ∧ received tr = forwarded tr
  ∧ match f with
    | FVal (Next g') => g' = g ∧ stdout_of tr = [newline]
        ∧ (ended tr = [None] ∨ ended tr = [Some (SignalExit "interrupt")])
    | FVal (Fails g' err) => g' = g ∧ stdout_of tr = []
        ∧ (ended tr = [Some err] ∧ err ≠ SignalExit "interrupt"
           ∨ ended tr = [] ∧ Ev (StartCmd cmd) (Some err) ∈ tr)
    | FFuel => stdout_of tr = [] ∧ length (received tr) = fuel
    | _ => False
    end.

Lemma tail_tails fuel g cmd tr f :
  exec_trace (prog_bind (call (StartCmd cmd)) (λ e,
    match e with
    | Some err => Ret (Fails g err)
    | None =>
        prog_bind (forward_signals fuel) (λ err,
        if decide (err ≠ None ∧ err ≠ Some (SignalExit "interrupt")) then returns g err
        else prog_bind (call (Print Stdout newline)) (λ _, Ret (Next g)))
    end)) tr f →
  tails fuel g cmd tr f.
Proof.
  intros Htr. apply (child_trace fuel cmd _ (Fails g) (λ err,
    if decide (err ≠ None ∧ err ≠ Some (SignalExit "interrupt")) then returns g err
    else prog_bind (call (Print Stdout newline)) (λ _, Ret (Next g)))) in Htr; [|done..].
  destruct Htr as [(err & -> & ->)|(t1 & t2 & -> & Hr & Hp & Ho & Hend)].
  { split_and!; [done..|]. right. split; [done|left]. }
  destruct (child_views cmd t1 t2) as (Vp & Vo & Vr & Vf & Ve).
  rewrite Hp in Vp. rewrite Ho in Vo. unfold tails. rewrite Vp, Vo, Vr, Vf, Ve, Hr. simpl app.
  destruct Hend as [(err & He & Htr)|(-> & -> & Hl)].
  - rewrite He. case_decide as Hd.
    + destruct Htr as [-> ->]. destruct err as [e|]; [|naive_solver].
      split_and!; [done..|]. left. split; [done|]. naive_solver.
    + destruct Htr as (werr & t & -> & -> & ->). split_and!; [done..|].
      destruct err as [e|]; [right|by left].
      destruct (decide (Some e = Some (SignalExit "interrupt"))) as [->|Hne]; [done|].
      by destruct Hd.
  - cbn. rewrite <- Hr, (right_id_L [] (++)). by split_and!.
Qed.

(** C33: what [bpm logs] does: whatever the system answers, it is refused by [rootPre],
    the checks every command makes, without running or printing anything; or one of the log files
    the options select is not there and it fails with bpm's own message, having run
    nothing; or all of them are there and it runs exactly one program, tail on exactly
    those files with the options given, and hands it every signal bpm takes from its
    channel, in order.
    It then succeeds exactly when tail ends normally or by an interrupt, fails with tail's
    error otherwise, and waits on only while more signals than the fuel arrive. *)
Theorem logs_tail_selected `{MapRange, SortSlice, JSON} ToBytes yaml_Unmarshal ErrorText
  fuel g job args tr f (Hv : g_showVersion g = false)
  (Htr : exec_trace (RootCmd_Execute ToBytes yaml_Unmarshal ErrorText fuel CmdLogs g (job :: args))
           tr f) :
  refused g (job :: args) tr f
  ∨ (f = FVal (Fails (job_globals g job) (NewError "logs not found")) ∧ silent tr
     ∧ missing (selected_logs g job) tr)
  ∨ ∃ t1 t2, tr = t1 ++ t2 ∧ silent t1 ∧ present (selected_logs g job) t1
      ∧ tails fuel (job_globals g job) (tail_command g job) t2 f.
Proof.
  apply execute_inspect in Htr as [Hr|(t0 & t & -> & Hs & Htr)]; [by left|right|done].
  unfold logsForJob, deref, tailArgs in Htr. simpl g_bpmCfg in Htr. cbv beta iota in Htr.
  change (filesToTail (job_globals g job)) with (filesToTail g) in Htr.
  rewrite filesToTail_selected in Htr.
  apply exec_trace_bind in Htr as [(b & t1 & t2 & -> & E & Htr)|[(x & E & ->)|[E ->]]];
    apply logsDontExist_trace in E as [Hs1 (b' & [=] & Hb)]; subst b'.
  destruct b.
  - left. destruct Htr as [-> ->]. split; [done|]. rewrite (right_id_L [] (++)).
    split; [by apply Forall_app|]. destruct Hb as (file & r & Hf & Hin & Hn).
    exists file, r. split_and!; [done|apply elem_of_app; by right|done].
  - right. exists (t0 ++ t1), t2. split_and!; [by rewrite (assoc_L (++))|by apply Forall_app| |].
    + intros file Hf. destruct (Hb file Hf) as (r & Hin & Hn). exists r.
      split; [apply elem_of_app; by right|done].
    + by apply tail_tails.
Qed.

(** ** A host with one running process *)

Definition reports_entry : ContainerState :=
  mkContainerState (Encode "server.worker") 4711 "running".
Definition reports_containers (id : string) : option ContainerState :=
  if decide (id = Encode "server.worker") then Some reports_entry else None.
Definition reports_before : members := [("ociVersion", JString "1.2.1")].
Definition reports_after : members :=
  [("bundle", JString "/var/vcap/data/bpm/bundles/server/worker");
   ("annotations", JObject []); ("owner", JString "")].
Definition reports_document : string :=
  newline +:+ json_compact (entry_json reports_before reports_after reports_entry) +:+ newline.
Definition reports_handler : handler unit := λ B c w,
  match c in sys B return B * unit with
  | CombinedOutput _ => ((reports_document, None), w)
  | c' => (default_answer c', w)
  end.

Definition reports_command : prog flow :=
  @RootCmd_Execute map_range_list sort_slice_merge go_JSON sample_ToBytes sim_yaml (λ _, "") 3
    CmdPid sample_globals ["server"].
Definition reports_trace : list event := Eval vm_compute in trace_of reports_handler reports_command tt.

Lemma reports_trace_exec :
  exec_trace reports_command reports_trace
    (FVal (Next (job_globals sample_globals "server"))).
Proof.
  pose proof (trace_of_exec reports_handler reports_command tt) as Htr.
  assert ((run reports_handler reports_command tt).1
          = FVal (Next (job_globals sample_globals "server"))) as Hf by (vm_compute; reflexivity).
  assert (trace_of reports_handler reports_command tt = reports_trace) as Ht
    by (vm_compute; reflexivity).
  rewrite Hf, Ht in Htr. exact Htr.
Qed.

Lemma reports_trace_answers : Forall (reports (NewEnv "") reports_containers) reports_trace.
Proof.
  assert (state_document reports_entry reports_document) as Hdoc.
  { exists reports_before, reports_after. split_and!; [by repeat constructor..|].
    vm_compute. reflexivity. }
  repeat (apply Forall_cons; split); try exact I; try (by eexists); [|constructor].
  intros systemd id Hcmd. apply (f_equal (λ c, last (cmd_args c))) in Hcmd.
  assert (last (cmd_args (state_command (NewEnv "") systemd id)) = Some id) as Hid
    by (destruct systemd; reflexivity).
  rewrite Hid in Hcmd. injection Hcmd as <-. exact (conj eq_refl Hdoc).
Qed.

Lemma process_commands_act_witness :
  exec_trace reports_command reports_trace (FVal (Next (job_globals sample_globals "server")))
  ∧ stdout_of reports_trace = ["4711" +:+ newline].
Proof.
  split; [exact reports_trace_exec|].
  destruct (@process_commands_act map_range_list sort_slice_merge sample_ToBytes sim_yaml (λ _, "")
    (NewEnv "") reports_containers 3 CmdPid sample_globals "server" [] reports_trace
    (FVal (Next (job_globals sample_globals "server"))) ltac:(left) eq_refl eq_refl) as [(_ & _ & Hf)|(systemd & t1 & q & t2 & Htr & Hs & Hact)].
  - intros id c. unfold reports_containers. case_decide; [|done]. by intros [= <-].
  - exact reports_trace_answers.
  - exact reports_trace_exec.
  - by destruct (Hf (job_globals sample_globals "server")).
  - rewrite Htr, (proj1 (proj2 (silent_front _ _ Hs))). destruct Hact as [(_ & Hout & _) _].
    exact Hout.
Defined.

(** ** Logs that are followed until an interrupt *)

Definition logs_globals : Globals :=
  mkGlobals (NewEnv "") false "worker" [] [] true false true false 25 "" None None None.
(** The world is the number of interrupts still to come. *)
Definition logs_handler : handler nat := λ B c n,
  match c in sys B return B * nat with
  | SelectChild =>
      match n with
      | S n' => (GotSignal 2, n')
      | O => (ChildDone (Some (SignalExit "interrupt")), O)
      end
  | c' => (default_answer c', n)
  end.
Definition logs_command : prog flow :=
  @RootCmd_Execute map_range_list sort_slice_merge go_JSON sample_ToBytes sim_yaml (λ _, "") 3
    CmdLogs logs_globals ["server"].
Definition logs_trace : list event := Eval vm_compute in trace_of logs_handler logs_command 1.

Lemma logs_trace_exec :
  exec_trace logs_command logs_trace (FVal (Next (job_globals logs_globals "server"))).
Proof.
  pose proof (trace_of_exec logs_handler logs_command 1) as Htr.
  assert ((run logs_handler logs_command 1).1 = FVal (Next (job_globals logs_globals "server")))
    as Hf by (vm_compute; reflexivity).
  assert (trace_of logs_handler logs_command 1 = logs_trace) as Ht by (vm_compute; reflexivity).
  rewrite Hf, Ht in Htr. exact Htr.
Qed.

Lemma logs_tail_selected_witness :
  exec_trace logs_command logs_trace (FVal (Next (job_globals logs_globals "server")))
  ∧ programs logs_trace = [mkCmd "tail" ["-f"; "-n 25";
      "/var/vcap/sys/log/server/worker.stderr.log"] None false ToStdout ToStderr]
  ∧ forwarded logs_trace = received logs_trace.
Proof.
  split; [exact logs_trace_exec|].
  destruct (@logs_tail_selected map_range_list sort_slice_merge go_JSON sample_ToBytes sim_yaml
    (λ _, "") 3 logs_globals "server" [] logs_trace _ eq_refl logs_trace_exec)
    as [(_ & _ & Hf)|[[Hf _]|(t1 & t2 & -> & Hs & _ & Hp & Hr & _)]].
  - by destruct (Hf (job_globals logs_globals "server")).
  - discriminate Hf.
  - destruct (silent_front t1 t2 Hs) as (Ep & _ & Er & Ef & _). rewrite Ep, Er, Ef, Hp, Hr.
    split; [vm_compute|]; reflexivity.
Defined.
