(* ===== verification/Sandbox.v ===== *)
(** * The integration test sandbox (src/bpm/integration/sandbox/sandbox.go)

    Tests run bpm against a directory of their own instead of [/var/vcap].  A failing
    step ends the test ([t.Fatalf]): here an error.  The log of the test is not
    modelled. *)

From S2P Require Import Prelude GoStrings GoPath JobID Bosh Specs Sys Config SafeIO Locks.

Definition runcExe : string := "/var/vcap/packages/bpm/bin/runc".
Definition tiniExe : string := "/var/vcap/packages/bpm/bin/tini".

Record Sandbox := mkSandbox { sb_root : string }.

Definition mode_0777 : Z := 511.
Definition O_RDONLY : Z := 0.
Definition O_TRUNC : Z := 0x200.

(** [os.Open] and [os.Create] are [os.OpenFile] with these flags.  The deferred calls
    close both files again; closing a closed file only returns an error. *)
Definition copyFile (dst src : string) : prog (option error) :=
  try_err (call (OpenFile src O_RDONLY 0)) id (λ s,
  r ← call (OpenFile dst (Z.lor (Z.lor O_RDWR O_CREATE) O_TRUNC) 438);
  match r with
  | Err err => _ ← call (FileClose s); Ret (Some err)
  | Ok d =>
      e ← call (CopyFile d s);
      err ← match e with Some err => Ret (Some err) | None => call (FileClose d) end;
      _ ← call (FileClose d);
      _ ← call (FileClose s);
      Ret err
  end).

Definition sandbox_dirs (root : string) : list string :=
  [path_Join [root; "packages"; "bpm"; "bin"];
   path_Join [root; "data"; "packages"];
   path_Join [root; "sys"; "log"];
   path_Join [root; "sys"; "run"]].

Fixpoint make_dirs (paths : list string) : prog (option error) :=
  match paths with
  | [] => Ret None
  | path :: paths' => check_err (call (MkdirAll path mode_0777)) id (make_dirs paths')
  end.

Definition Sandbox_New : prog (result Sandbox) :=
  try_or (call (MkdirTemp "" "bpm_sandbox"))
    (λ err, ErrorfErr "could not create sandbox root directory: %v" [] err) (λ root,
  check_or (make_dirs (sandbox_dirs root))
    (λ err, ErrorfErr "could not create sandbox directory structure: %v" [] err) (
  let runcSandboxPath := path_Join [root; "packages"; "bpm"; "bin"; "runc"] in
  check_or (call (Symlink runcExe runcSandboxPath))
    (λ err, ErrorfErr "could not link runc executable into sandbox: %v" [] err) (
  let tiniSandboxPath := path_Join [root; "packages"; "bpm"; "bin"; "tini"] in
  check_or (copyFile tiniSandboxPath tiniExe)
    (λ err, ErrorfErr "could not copy tini executable into sandbox: %v" [] err) (
  check_or (call (Chown tiniSandboxPath 2000 3000))
    (λ err, ErrorfErr "could not chown tini executable: %v" [] err) (
  check_or (call (Chmod tiniSandboxPath mode_0700))
    (λ err, ErrorfErr "could not chown tini executable: %v" [] err) (
  Ret (Ok (mkSandbox root)))))))).

Definition Sandbox_Path (s : Sandbox) (fragments : list string) : string :=
  path_Join (sb_root s :: fragments).

Definition BPMCmd (BPMPath : string) (s : Sandbox) (args : list string) : prog Cmd :=
  environ ← call Environ;
  let cmd := exec_Command BPMPath args in
  Ret (mkCmd (cmd_path cmd) (cmd_args cmd)
         (Some (environ ++ ["BPM_BOSH_ROOT=" +:+ sb_root s]))
         (cmd_stdin cmd) (cmd_stdout cmd) (cmd_stderr cmd)).

Definition LoadFixture (s : Sandbox) (job path : string) : prog (option error) :=
  let configPath := path_Join [sb_root s; "jobs"; job; "config"; "bpm.yml"] in
  check_err (call (MkdirAll (Dir configPath) mode_0777))
    (λ err, ErrorfErr "failed to create fixture destination directory: %v" [] err) (
  check_err (copyFile configPath path)
    (λ err, ErrorfErr "failed to copy file: %v" [] err) (Ret None)).

Definition Cleanup (s : Sandbox) : prog unit := _ ← call (RemoveAll (sb_root s)); Ret tt.

(** ** What bpm sees *)

(** The value a process started with an environment reads: os/exec passes on the last
    of several entries for a variable. *)
Definition equals : Ascii.ascii := Ascii.ascii_of_nat 61.
Definition env_value (env : list string) (name : string) : string :=
  let value e := match Cut equals e with
                 | (k, Some v) => if decide (k = name) then Some v else None
                 | _ => None
                 end in
  default "" (last (omap value env)).

(** A file was copied to [dst]. *)
Definition copies_to (dst src : string) (tr : list event) : Prop :=
  ∃ fs fd r, Ev (OpenFile src O_RDONLY 0) (Ok fs) ∈ tr
    ∧ Ev (OpenFile dst (Z.lor (Z.lor O_RDWR O_CREATE) O_TRUNC) 438) (Ok fd) ∈ tr
    ∧ Ev (CopyFile fd fs) None ∈ tr ∧ Ev (FileClose fd) r ∈ tr.

Lemma copyFile_ok dst src tr :
  exec_trace (copyFile dst src) tr (FVal None) → copies_to dst src tr ∧ open_fds [] tr = [].
Proof.
  unfold copyFile, try_err, call, mbind, prog_mbind. intros Htr. trace_all. split.
  - eexists _, _, _. split_and!; repeat first [apply list_elem_of_here|apply list_elem_of_further].
  - unfold open_fds, fds_step. simpl. repeat (case_decide; simplify_eq/=); done.
Qed.

Lemma make_dirs_ok paths tr :
  exec_trace (make_dirs paths) tr (FVal None) → tr = (λ p, Ev (MkdirAll p mode_0777) None) <$> paths.
Proof.
  revert tr. induction paths as [|p paths IH]; intros tr Htr; cbn [make_dirs] in Htr; [by trace_all|].
  apply exec_trace_Call in Htr as ([e|] & tr' & -> & Htr); [by trace_all|].
  simpl. f_equal. by apply IH.
Qed.

(** A step of [New] that must succeed. *)
Lemma check_or_Ok {B} (p : prog (option error)) g (k : prog (result B)) tr b :
  exec_trace (check_or p g k) tr (FVal (Ok b)) →
  ∃ t1 t2, tr = t1 ++ t2 ∧ exec_trace p t1 (FVal None) ∧ exec_trace k t2 (FVal (Ok b)).
Proof.
  intros ([e|] & t1 & t2 & -> & H1 & H2)%trace_bind_FVal; [by destruct H2|]. eauto 10.
Qed.

Lemma call_trace {B} (c : sys B) tr b : exec_trace (call c) tr (FVal b) → tr = [Ev c b].
Proof. unfold call. intros Htr. by trace_all. Qed.

Lemma Sandbox_New_ok tr s :
  exec_trace Sandbox_New tr (FVal (Ok s)) →
  let bin name := path_Join [sb_root s; "packages"; "bpm"; "bin"; name] in
  ∃ t, tr = Ev (MkdirTemp "" "bpm_sandbox") (Ok (sb_root s))
      :: ((λ p, Ev (MkdirAll p mode_0777) None) <$> sandbox_dirs (sb_root s))
      ++ [Ev (Symlink runcExe (bin "runc")) None] ++ t
      ++ [Ev (Chown (bin "tini") 2000 3000) None; Ev (Chmod (bin "tini") mode_0700) None]
    ∧ copies_to (bin "tini") tiniExe t ∧ open_fds [] t = [].
Proof.
  unfold Sandbox_New. intros Htr.
  apply exec_trace_Call in Htr as ([root|e] & tr1 & -> & Htr); [|by trace_all]. cbn [prog_bind] in Htr.
  apply check_or_Ok in Htr as (t1 & t2 & -> & ->%make_dirs_ok & Htr).
  apply check_or_Ok in Htr as (t3 & t4 & -> & ->%call_trace & Htr).
  apply check_or_Ok in Htr as (t5 & t6 & -> & Hcp & Htr).
  apply check_or_Ok in Htr as (t7 & t8 & -> & ->%call_trace & Htr).
  apply check_or_Ok in Htr as (t9 & t10 & -> & ->%call_trace & Htr). destruct Htr as [-> [= ->]].
  exists t5. split; [done|]. by apply copyFile_ok.
Qed.

Lemma env_value_last env name v :
  Cut equals name = (name, None) → env_value (env ++ [name +:+ "=" +:+ v]) name = v.
Proof.
  intros Hn. unfold env_value. rewrite omap_app. cbn [omap list_omap].
  assert (Cut equals (name +:+ "=" +:+ v) = (name, Some v)) as ->.
  { revert Hn. induction name as [|c name IH]; [done|]. rewrite app_cons. cbn [Cut].
    destruct (Ascii.eqb c equals); [done|]. destruct (Cut equals name) as [k [r|]]; [done|].
    intros [= ->]. by rewrite IH. }
  rewrite decide_True by done. by rewrite last_snoc.
Qed.

(** ** Property *)

(** A sandbox is what bpm looks for: with its root as BOSH root, a sandbox whose
    creation succeeded has runc linked from, and tini copied from, the installed
    package to exactly the paths bpm runs them from (with no file left open), the
    directories of packages, logs and sockets; a fixture that was loaded is the
    configuration of its job; and a command made for the sandbox runs bpm with that
    root, whatever the environment of the test says. *)
Lemma sandbox_layout BPMPath s tr rs job proc args
  (Hnew : exec_trace Sandbox_New tr (FVal (Ok s)))
  (Hrs : Forall normal_elem rs) (Hroot : sb_root s = abs_path rs) (Hjob : normal_elem job) :
  let cfg := NewBPMConfig (NewEnv (sb_root s)) job proc in
  let installed := NewBPMConfig (NewEnv "") job proc in
  Ev (Symlink (RuncPath (NewEnv "")) (RuncPath (NewEnv (sb_root s)))) None ∈ tr
  ∧ copies_to (External (TiniPath cfg)) (External (TiniPath installed)) tr
  ∧ Ev (Chmod (External (TiniPath cfg)) mode_0700) None ∈ tr
  ∧ Ev (MkdirAll (External (BPMConfig_DataPackageDir cfg)) mode_0777) None ∈ tr
  ∧ open_fds [] tr = []
  ∧ (∀ fixture tr', exec_trace (LoadFixture s job fixture) tr' (FVal None) →
       copies_to (JobConfigPath cfg) fixture tr')
  ∧ (∀ tr' cmd, exec_trace (BPMCmd BPMPath s args) tr' (FVal cmd) →
       ∃ env, cmd_env cmd = Some env
         ∧ NewEnv (env_value env "BPM_BOSH_ROOT") = boshEnv cfg ∧ cmd_args cmd = args).
Proof.
  intros cfg installed. set (env := NewEnv (sb_root s)).
  assert (env_wf env rs) as He.
  { unfold env, NewEnv. rewrite Hroot. split; [done|]. cbn [env_root].
    rewrite decide_False; [done|]. by destruct rs. }
  apply Sandbox_New_ok in Hnew as (t & -> & Hcp & Hfds).
  assert (∀ es, Forall normal_elem es → es ≠ [] →
    path_Join (sb_root s :: es) = External (Path_Join (Env_Root env) es)) as Hpath.
  { intros es Hes Hne. rewrite (External_wf _ rs es).
    2:{ apply (Path_Join_wf _ rs []); [by apply Env_Root_wf|done]. }
    rewrite Hroot. destruct es as [|e es]; [done|].
    change (path_Join (abs_path rs :: e :: es))
      with (path_Join [abs_path rs; Join "/" (e :: es)]).
    by apply path_Join_abs_rel. }
  assert (External (TiniPath cfg) = path_Join [sb_root s; "packages"; "bpm"; "bin"; "tini"]) as Htini.
  { rewrite Hpath; [done|normal_elems|done]. }
  assert (RuncPath env = path_Join [sb_root s; "packages"; "bpm"; "bin"; "runc"]) as Hrunc.
  { rewrite Hpath; [done|normal_elems|done]. }
  assert (JobConfigPath cfg = path_Join [sb_root s; "jobs"; job; "config"; "bpm.yml"]) as Hcfg.
  { rewrite Hpath; [|normal_elems|done]. unfold JobConfigPath.
    rewrite (External_wf _ rs ["jobs"; job; "config"; "bpm.yml"]).
    - symmetry. apply External_wf, (Path_Join_wf _ rs []); [by apply Env_Root_wf|normal_elems].
    - split_and!; [done|normal_elems|by apply He|]. cbn [p_dir Path_Join BPMConfig_JobDir Env_JobDir].
      rewrite (path_Join_normal ["jobs"; jobName cfg]) by normal_elems.
      apply (path_Join_normal ["jobs"; job; "config"; "bpm.yml"]). normal_elems. }
  assert (External (BPMConfig_DataPackageDir cfg) = path_Join [sb_root s; "data"; "packages"]) as Hdata.
  { rewrite Hpath; [done|normal_elems|done]. }
  rewrite Htini, Hrunc, Hdata, Hcfg.
  change (RuncPath (NewEnv "")) with runcExe. change (External (TiniPath installed)) with tiniExe.
  split_and!.
  - rewrite elem_of_cons, !elem_of_app. right; right; left. apply list_elem_of_here.
  - destruct Hcp as (fs & fd & r & H1 & H2 & H3 & H4). exists fs, fd, r.
    split_and!; apply list_elem_of_further; rewrite !elem_of_app; tauto.
  - rewrite elem_of_cons, !elem_of_app. do 4 right. apply list_elem_of_further, list_elem_of_here.
  - rewrite elem_of_cons, !elem_of_app. right; left. apply list_elem_of_further, list_elem_of_here.
  - transitivity (open_fds [] t); [|exact Hfds]. unfold open_fds. simpl. by rewrite foldl_app.
  - intros fixture tr' Htr. unfold LoadFixture in Htr.
    apply exec_trace_Call in Htr as ([e|] & t1 & -> & Htr); [by trace_all|]. cbn [prog_bind] in Htr.
    apply trace_bind_FVal in Htr as ([e|] & t2 & t3 & -> & H1 & H2); [by destruct H2|].
    apply copyFile_ok in H1 as [(fs & fd & r & H3 & H4 & H5 & H6) _]. exists fs, fd, r.
    split_and!; apply list_elem_of_further, elem_of_app; by left.
  - intros tr' cmd Htr. unfold BPMCmd in Htr. apply exec_trace_Call in Htr as (environ & t1 & -> & Htr).
    destruct Htr as [_ [= ->]]. eexists. split; [reflexivity|]. split; [|done].
    pose proof (env_value_last environ "BPM_BOSH_ROOT" (sb_root s) eq_refl) as Hv.
    unfold cfg. cbn [boshEnv]. f_equal. exact Hv.
Qed.

Lemma sandbox_layout_witness : ∃ tr s,
  exec_trace Sandbox_New tr (FVal (Ok s))
  ∧ Ev (Symlink (RuncPath (NewEnv "")) (RuncPath (NewEnv (sb_root s)))) None ∈ tr.
Proof.
  destruct (run_exec_trace idle_handler Sandbox_New tt) as [tr Htr].
  exists tr, (mkSandbox "/bpm_sandbox1"). split; [exact Htr|].
  destruct (sandbox_layout "bpm" (mkSandbox "/bpm_sandbox1") tr ["bpm_sandbox1"] "server" "worker" []
    Htr) as [Hlink _].
  - apply (bool_decide_unpack _). vm_compute. exact I.
  - reflexivity.
  - apply (bool_decide_unpack _). vm_compute. exact I.
  - exact Hlink.
Defined.
